(** * Local retrieval-augmented memory engine: shallow embedding and proofs

    The development follows the source modules of the repository:
    - [TokenUtils]   : lib/token-utils.ts (token estimates, limits);
    - [MemoryStore]  : services/memory-store.ts (the Active Memory Window);
    - [Training]     : the ingestion segmenter (normalizeText, findSentenceBoundary,
                       normalizeForDedup, chunkText);
    - [VectorWorker] : workers/vector-db.worker.js (structured table, vec0 index,
                       key-value mirror, ingestion, search);
    - [SqliteInit]   : getSQLite of the same worker, as a machine over the
                       events of its memoized initialisation;
    - [VectorSearch] : the first two tiers of the search in the main context;
    - [ChatSession]  : services/chat-session.ts (the Session Orchestrator);
    - [ArchiveChunks], [VectorStore] : chunkText of lib/token-utils.ts and
                       services/vector-store.ts (the calls in flight, the
                       archive request, the retrieved context);
    - [ArchiveWorker] : the worker of the conversation archive (the IndexedDB
                       store of chunks that answers services/vector-store.ts);
    - [WorkerRequests], [PrepareRequest] : further requests of the vector
                       worker and the promise of prepareLocalDatabase;
    - [StreamReader] : the reader of the streamed completion;
    - [Firestore], [FirestoreTier] : the batched writers of the collection
                       and the selection of the results of its search tier;
    - [EmbedPool]    : embedChunksWithConcurrency of the training page;
    - [Scenarios], [Samples] : the concrete inputs of the examples.

    JavaScript numbers that hold counts and lengths are modelled in [Z];
    strings are [string] (sequences of 8-bit code units); promises and
    exceptions are modelled by explicit state and result types. *)

From Stdlib Require Import ZArith Lia Bool Ascii String List Sorted Permutation.
From stdpp Require Import base list strings gmap pretty.
Import ListNotations.

Local Open Scope string_scope.
Local Open Scope list_scope.
Local Open Scope Z_scope.

(** ** Outcomes of fallible calls: a value, or a thrown exception. *)
Inductive outcome (A : Type) : Type :=
| Returned (a : A)
| Thrown (err : string).
Arguments Returned {A} a.
Arguments Thrown {A} err.

Definition completed {A} (o : outcome A) : bool :=
  match o with Returned _ => true | Thrown _ => false end.

(** ** JavaScript string primitives used by the sources *)
Module JsString.

Definition strlen (s : string) : Z := Z.of_nat (String.length s).

Definition LF : ascii := "010"%char.
Definition CR : ascii := "013"%char.

(** The class [\s] (WhiteSpace and LineTerminator) on 8-bit code units:
    TAB, LF, VT, FF, CR, SP and NBSP. *)
Definition isWhiteSpace (c : ascii) : bool :=
  match N_of_ascii c with
  | 9%N | 10%N | 11%N | 12%N | 13%N | 32%N | 160%N => true
  | _ => false
  end.

(** The characters that [.] does not match. *)
Definition isLineTerminator (c : ascii) : bool :=
  match N_of_ascii c with
  | 10%N | 13%N => true
  | _ => false
  end.

Fixpoint trimStart (s : string) : string :=
  match s with
  | String c r => if isWhiteSpace c then trimStart r else s
  | EmptyString => EmptyString
  end.

Fixpoint trimEnd (s : string) : string :=
  match s with
  | String c r =>
      match trimEnd r with
      | EmptyString => if isWhiteSpace c then EmptyString else String c EmptyString
      | r' => String c r'
      end
  | EmptyString => EmptyString
  end.

Definition trim (s : string) : string := trimEnd (trimStart s).

(** [s.slice(from, to)]: negative indices count from the end. *)
Definition sliceIndex (len i : Z) : Z :=
  if i <? 0 then Z.max (len + i) 0 else Z.min i len.

Definition slice (s : string) (from to : Z) : string :=
  let a := sliceIndex (strlen s) from in
  let b := sliceIndex (strlen s) to in
  String.substring (Z.to_nat a) (Z.to_nat (b - a)) s.

(** [s] without its first [n] characters. *)
Fixpoint dropChars (n : nat) (s : string) : string :=
  match n, s with
  | O, _ => s
  | S k, String _ r => dropChars k r
  | S _, EmptyString => EmptyString
  end.

(** [s.lastIndexOf(pat)], [-1] when [pat] does not occur. *)
Fixpoint lastIndexOfFrom (pat s : string) (i best : Z) : Z :=
  match s with
  | EmptyString => if String.prefix pat s then i else best
  | String _ r => lastIndexOfFrom pat r (i + 1) (if String.prefix pat s then i else best)
  end.

Definition lastIndexOf (s pat : string) : Z := lastIndexOfFrom pat s 0 (-1).

(** [toLowerCase] on 8-bit code units: A-Z and the Latin-1 capitals
    (U+00C0-U+00DE without the multiplication sign) move up by 32. *)
Definition lowerChar (c : ascii) : ascii :=
  let n := N_of_ascii c in
  if ((65 <=? n) && (n <=? 90))%N
     || ((192 <=? n) && (n <=? 222) && negb (n =? 215))%N
  then ascii_of_N (n + 32) else c.

Fixpoint toLowerCase (s : string) : string :=
  match s with
  | String c r => String (lowerChar c) (toLowerCase r)
  | EmptyString => EmptyString
  end.

(** [s.replace(/C+/g, " ")] for a character class [C]: every maximal run
    of characters of the class becomes one space. *)
Fixpoint collapseRuns (inClass : ascii -> bool) (inRun : bool) (s : string) : string :=
  match s with
  | String c r =>
      if inClass c
      then if inRun then collapseRuns inClass true r
           else String " " (collapseRuns inClass true r)
      else String c (collapseRuns inClass false r)
  | EmptyString => EmptyString
  end.

End JsString.

(** ** lib/token-utils.ts *)
Module TokenUtils.
Export JsString.

(** [CHARS_PER_TOKEN = 3.5]; [Math.ceil(text.length / 3.5)] is the ceiling
    of [2 * length / 7]; the empty string is falsy and yields 0. *)
Definition estimateTokens (text : string) : Z :=
  if String.eqb text "" then 0 else (2 * strlen text + 6) / 7.

(** [estimateMessageTokens({role, content})]: four tokens of overhead. *)
Definition estimateMessageTokens (content : string) : Z :=
  estimateTokens content + 4.

Definition calculateTotalTokens (contents : list string) : Z :=
  fold_left (fun sum c => sum + estimateMessageTokens c) contents 0.

(** [TOKEN_LIMITS] *)
Definition ACTIVE_MEMORY : Z := 800000.
Definition ARCHIVE_CHUNK_SIZE : Z := 500.
Definition ARCHIVE_OVERLAP : Z := 50.
Definition MAX_RETRIEVED_CONTEXT : Z := 4000.
Definition RESPONSE_BUFFER : Z := 8000.

(** [TOKEN_LIMITS.ACTIVE_MEMORY * 0.9]: the double nearest to the product
    is the integer 720000, so the comparison is an integer comparison. *)
Definition EVICTION_TARGET : Z := ACTIVE_MEMORY * 9 / 10.

Definition wouldExceedLimit (currentTokens : Z) (content : string) : bool :=
  ACTIVE_MEMORY <? currentTokens + estimateMessageTokens content.

End TokenUtils.

(** ** services/memory-store.ts *)
Module MemoryStore.
Import TokenUtils.

Inductive Role : Type := user | assistant | system.

(** [createdAt] is the ISO-8601 string of [new Date().toISOString()];
    IndexedDB orders string keys by code unit, which is [String.compare]. *)
Record ConversationMessage : Type := {
  id : string;
  role : Role;
  content : string;
  createdAt : string;
  tokenCount : Z;
  sessionId : string
}.

Record MemoryMeta : Type := {
  tokenTotal : Z;
  messageCount : Z;
  updatedAt : string;
  oldestMessageId : option string;
  newestMessageId : option string
}.

(** The database: the object store "messages" (key path [id]), held in the
    order of its index "byCreatedAt", and the record "main" of the store
    "meta", absent until the first [updateMeta]. *)
Record DB : Type := {
  messages : list ConversationMessage;
  meta : option MemoryMeta
}.

Definition emptyDB : DB := {| messages := []; meta := None |}.

(** What the environment supplies to one call: [uuidv4()] and the clock. *)
Record Env : Type := { uuid : string; now : string }.

(** Order of the index "byCreatedAt": by [createdAt], ties by primary key. *)
Definition byCreatedAt_le (a b : ConversationMessage) : bool :=
  match String.compare (createdAt a) (createdAt b) with
  | Lt => true
  | Gt => false
  | Eq => String.leb (id a) (id b)
  end.

Fixpoint insertByCreatedAt (m : ConversationMessage)
    (l : list ConversationMessage) : list ConversationMessage :=
  match l with
  | [] => [m]
  | x :: rest =>
      if byCreatedAt_le x m then x :: insertByCreatedAt m rest else m :: l
  end.

Definition hasId (i : string) (l : list ConversationMessage) : bool :=
  existsb (fun m => String.eqb (id m) i) l.

(** [db.delete(MESSAGES_STORE, id)] *)
Definition db_delete (i : string) (l : list ConversationMessage)
    : list ConversationMessage :=
  List.filter (fun m => negb (String.eqb (id m) i)) l.

(** [db.add(MESSAGES_STORE, message)]: rejects with ConstraintError when
    the key already exists. *)
Definition db_add (m : ConversationMessage) (l : list ConversationMessage)
    : outcome (list ConversationMessage) :=
  if hasId (id m) l then Thrown "ConstraintError"
  else Returned (insertByCreatedAt m l).

Definition getMeta (e : Env) (db : DB) : MemoryMeta :=
  match meta db with
  | Some m => m
  | None => {| tokenTotal := 0; messageCount := 0; updatedAt := now e;
               oldestMessageId := None; newestMessageId := None |}
  end.

(** [x?.id || null]: an empty id is falsy. *)
Definition idOrNull (o : option ConversationMessage) : option string :=
  match o with
  | Some m => if String.eqb (id m) "" then None else Some (id m)
  | None => None
  end.

(** The eviction loop of [addMessage]: walks [allMessages] (the listing of
    "byCreatedAt" taken before the loop), deletes each visited message
    from the store and stops as soon as the total is at most 90% of the
    ceiling.  Returns the store, the evicted messages and the total. *)
Fixpoint evictLoop (allMessages store evicted : list ConversationMessage)
    (newTokenTotal : Z)
    : list ConversationMessage * list ConversationMessage * Z :=
  match allMessages with
  | [] => (store, evicted, newTokenTotal)
  | oldMsg :: rest =>
      if newTokenTotal <=? EVICTION_TARGET then (store, evicted, newTokenTotal)
      else evictLoop rest (db_delete (id oldMsg) store) (evicted ++ [oldMsg])
             (newTokenTotal - tokenCount oldMsg)
  end.

(** [addMessage(role, content, sessionId)].  The database is returned in
    every case: deletions already made stay when [db.add] throws. *)
Definition addMessage (e : Env) (r : Role) (c : string) (sid : string)
    (db : DB) : DB * outcome (ConversationMessage * list ConversationMessage) :=
  let m0 := getMeta e db in
  let message := {| id := uuid e; role := r; content := c;
                    createdAt := now e;
                    tokenCount := estimateMessageTokens c;
                    sessionId := sid |} in
  let total0 := tokenTotal m0 + tokenCount message in
  let '(store, evicted, newTokenTotal) :=
    if ACTIVE_MEMORY <? total0
    then evictLoop (messages db) (messages db) [] total0
    else (messages db, [], total0) in
  match db_add message store with
  | Thrown err => ({| messages := store; meta := meta db |}, Thrown err)
  | Returned allMessages =>
      ({| messages := allMessages;
          meta := Some {| tokenTotal := newTokenTotal;
                          messageCount := Z.of_nat (length allMessages);
                          updatedAt := now e;
                          oldestMessageId := idOrNull (head allMessages);
                          newestMessageId := idOrNull (last allMessages) |} |},
       Returned (message, evicted))
  end.

(** Listing of the index "bySessionId" for one key: the records of that
    session in primary-key order. *)
Fixpoint insertById (m : ConversationMessage) (l : list ConversationMessage)
    : list ConversationMessage :=
  match l with
  | [] => [m]
  | x :: rest => if String.leb (id x) (id m) then x :: insertById m rest else m :: l
  end.

Definition bySessionId (sid : string) (l : list ConversationMessage)
    : list ConversationMessage :=
  fold_right insertById []
    (List.filter (fun m => String.eqb (sessionId m) sid) l).

(** [getMessages(sessionId?)]: [undefined] and the empty string are falsy. *)
Definition getMessages (sid : option string) (db : DB)
    : list ConversationMessage :=
  match sid with
  | Some s => if String.eqb s "" then messages db else bySessionId s (messages db)
  | None => messages db
  end.

(** The backward walk of [getRecentMessages] over the reversed listing. *)
Fixpoint recentLoop (maxTokens : Z) (newestFirst result : list ConversationMessage)
    (count : Z) : list ConversationMessage :=
  match newestFirst with
  | [] => result
  | msg :: older =>
      if maxTokens <? count + tokenCount msg then result
      else recentLoop maxTokens older (msg :: result) (count + tokenCount msg)
  end.

Definition getRecentMessages (maxTokens : option Z) (sid : option string)
    (db : DB) : list ConversationMessage :=
  let limit := match maxTokens with Some n => n | None => 32000 end in
  recentLoop limit (rev (getMessages sid db)) [] 0.

Definition clearMemory (e : Env) (db : DB) : DB :=
  {| messages := [];
     meta := Some {| tokenTotal := 0; messageCount := 0; updatedAt := now e;
                     oldestMessageId := None; newestMessageId := None |} |}.

Definition clearSession (e : Env) (sid : string) (db : DB) : DB :=
  let remaining :=
    fold_left (fun store msg => db_delete (id msg) store)
      (bySessionId sid (messages db)) (messages db) in
  {| messages := remaining;
     meta := Some {| tokenTotal := calculateTotalTokens (map content remaining);
                     messageCount := Z.of_nat (length remaining);
                     updatedAt := now e;
                     oldestMessageId := idOrNull (head remaining);
                     newestMessageId := idOrNull (last remaining) |} |}.

Definition storedTotal (db : DB) : Z :=
  match meta db with Some m => tokenTotal m | None => 0 end.

Definition sumTokens (l : list ConversationMessage) : Z :=
  fold_right (fun m acc => tokenCount m + acc) 0 l.

(** What every completed call maintains: keys are unique, the store is
    listed in the order of "byCreatedAt", the recorded
    total is the sum of the stored counts, and each stored count is the
    estimate of its content. *)
Record consistent (db : DB) : Prop := {
  ids_unique : NoDup (map id (messages db));
  in_index_order :
    StronglySorted (fun a b => byCreatedAt_le a b = true) (messages db);
  total_is_sum : storedTotal db = sumTokens (messages db);
  counts_are_estimates :
    Forall (fun m => tokenCount m = estimateMessageTokens (content m))
           (messages db)
}.

(** States of the window: the empty database and whatever completed calls
    make of it. *)
Inductive reachable : DB -> Prop :=
| reach_empty : reachable emptyDB
| reach_add e r c sid db db' res :
    reachable db ->
    addMessage e r c sid db = (db', Returned res) ->
    reachable db'
| reach_clearMemory e db :
    reachable db -> reachable (clearMemory e db)
| reach_clearSession e sid db :
    reachable db -> reachable (clearSession e sid db).

(** The eviction invariant in the words of the specification: after
    every completed call the total is at most the ceiling, at most 90% of
    it when the call evicted, and the evicted turns are the oldest. *)
Definition eviction_invariant_as_stated : Prop :=
  forall e r c sid db db' msg evicted,
    reachable db ->
    addMessage e r c sid db = (db', Returned (msg, evicted)) ->
    storedTotal db' <= ACTIVE_MEMORY /\
    (evicted <> [] -> storedTotal db' <= EVICTION_TARGET) /\
    exists kept, messages db = evicted ++ kept /\
                 messages db' = insertByCreatedAt msg kept.

(** Session scoping of eviction in the words of the specification. *)
Definition eviction_session_scoped_as_stated : Prop :=
  forall e r c sid db db' msg evicted,
    reachable db ->
    addMessage e r c sid db = (db', Returned (msg, evicted)) ->
    forall x, In x evicted -> sessionId x = sid.

End MemoryStore.

(** ** The ingestion segmenter (training module) *)
Module Training.
Import JsString.

Definition DEFAULT_CHUNK_SIZE : Z := 1200.
Definition DEFAULT_OVERLAP : Z := 200.
Definition MAX_CHUNKS : Z := 500.
Definition DEDUP_MIN_LENGTH : Z := 80.
Definition SHORT_TEXT_THRESHOLD : Z := 500.
Definition SHORT_CHUNK_SIZE : Z := 400.
Definition SHORT_OVERLAP : Z := 60.

(** [.replace(/\r\n/g, "\n")] *)
Fixpoint replaceCRLF (s : string) : string :=
  match s with
  | String c r =>
      match r with
      | String d r' =>
          if Ascii.eqb c CR && Ascii.eqb d LF then String LF (replaceCRLF r')
          else String c (replaceCRLF r)
      | EmptyString => s
      end
  | EmptyString => EmptyString
  end.

Definition isBlank (c : ascii) : bool :=
  Ascii.eqb c "009"%char || Ascii.eqb c " "%char.

(** [.replace(/\n{3,}/g, "\n\n")]: [run] counts the newlines already
    emitted for the current run. *)
Fixpoint squeezeNewlines (run : nat) (s : string) : string :=
  match s with
  | String c r =>
      if Ascii.eqb c LF
      then if (run <? 2)%nat then String LF (squeezeNewlines (S run) r)
           else squeezeNewlines run r
      else String c (squeezeNewlines O r)
  | EmptyString => EmptyString
  end.

Definition normalizeText (text : string) : string :=
  trim (squeezeNewlines O (collapseRuns isBlank false (replaceCRLF text))).

Definition getChunkConfig (text : string) : Z * Z :=
  if strlen text <=? SHORT_TEXT_THRESHOLD
  then (Z.min SHORT_CHUNK_SIZE DEFAULT_CHUNK_SIZE, Z.min SHORT_OVERLAP DEFAULT_OVERLAP)
  else (DEFAULT_CHUNK_SIZE, DEFAULT_OVERLAP).

(** [[.!?]] *)
Definition isSentencePunct (c : ascii) : bool :=
  Ascii.eqb c "."%char || Ascii.eqb c "!"%char || Ascii.eqb c "?"%char.

(** [.*[.!?]] at the head of [s]: a sentence mark before the next line
    terminator. *)
Fixpoint lineHasPunct (s : string) : bool :=
  match s with
  | String c r =>
      if isSentencePunct c then true
      else if isLineTerminator c then false
      else lineHasPunct r
  | EmptyString => false
  end.

(** The body of the negative lookahead [(?!.*[.!?]|\n)]. *)
Definition lookahead (s : string) : bool :=
  lineHasPunct s ||
  match s with String c _ => Ascii.eqb c LF | EmptyString => false end.

(** [window.match(/([.!?]|\n)\s(?!.*[.!?]|\n)/)]: the text of the
    leftmost match, two characters long. *)
Fixpoint matchBoundary (w : string) : option string :=
  match w with
  | String c tl =>
      match tl with
      | String d rest =>
          if (isSentencePunct c || Ascii.eqb c LF) && isWhiteSpace d
             && negb (lookahead rest)
          then Some (String c (String d EmptyString))
          else matchBoundary tl
      | EmptyString => None
      end
  | EmptyString => None
  end.

Definition findSentenceBoundary (text : string) (start end_ : Z) : Z :=
  let windowStart := Z.max start (end_ - 120) in
  let window := slice text windowStart end_ in
  match matchBoundary window with
  | None => end_
  | Some m =>
      let idx := lastIndexOf window m in
      let boundary := windowStart + idx + strlen m in
      if start + 100 <? boundary then boundary else end_
  end.

(** [.replace(/\s+/g, " ").trim().toLowerCase()] *)
Definition normalizeForDedup (text : string) : string :=
  toLowerCase (trim (collapseRuns isWhiteSpace false text)).

(** The block [if (slice) { ... }] of [chunkText]: what one window adds
    to [chunks] and to the set [seen]. *)
Definition accept (slice_ : string) (chunks : list string) (seen : gset string)
    : list string * gset string :=
  if String.eqb slice_ "" then (chunks, seen)
  else if DEDUP_MIN_LENGTH <=? strlen slice_ then
    let key := normalizeForDedup slice_ in
    if bool_decide (key ∈ seen) then (chunks, seen)
    else (chunks ++ [slice_], {[ key ]} ∪ seen)
  else (chunks ++ [slice_], seen).

(** The [while] loop of [chunkText]; [None] when [fuel] iterations do not
    finish it. *)
Fixpoint chunkLoop (fuel : nat) (clean : string) (maxLen overlap start : Z)
    (chunks : list string) (seen : gset string) : option (list string) :=
  match fuel with
  | O => None
  | S fuel' =>
      if (start <? strlen clean) && (Z.of_nat (length chunks) <? MAX_CHUNKS) then
        let end0 := Z.min (start + maxLen) (strlen clean) in
        let end_ := if end0 <? strlen clean
                    then findSentenceBoundary clean start end0 else end0 in
        let '(chunks', seen') := accept (trim (slice clean start end_)) chunks seen in
        if end_ =? strlen clean then Some chunks'
        else chunkLoop fuel' clean maxLen overlap (Z.max 0 (end_ - overlap))
               chunks' seen'
      else Some chunks
  end.

Definition chunkText (fuel : nat) (text : string) (maxLen overlap : Z)
    : option (list string) :=
  let clean := normalizeText text in
  if String.eqb clean "" then Some []
  else chunkLoop fuel clean maxLen overlap 0 [] ∅.

(** [getEmbedder()] of the training module.  [probe] is the outcome of
    [checkWebGPU()], [load webgpu] that of [pipeline(...)] with or without
    the WebGPU device; [pipelineLoads] counts the calls of [pipeline]. *)
Record Loader : Type := {
  embedderPromise : option (outcome string);
  pipelineLoads : nat
}.

Definition getEmbedder (probe : outcome bool) (load : bool -> outcome string)
    (st : Loader) : Loader * outcome string :=
  match embedderPromise st with
  | Some p => (st, p)
  | None =>
      match probe with
      | Thrown err => (st, Thrown err)
      | Returned isWebGPU =>
          ({| embedderPromise := Some (load isWebGPU);
              pipelineLoads := S (pipelineLoads st) |}, load isWebGPU)
      end
  end.

(** The message thrown by [processTrainingInput] when the model cannot be
    obtained (it asks the user to refresh the page). *)
Definition MODEL_LOAD_ERROR : string :=
  "Nie udało się pobrać lub uruchomić modelu AI. Spróbuj odświeżyć stronę.".

(** The [try { embedder = await getEmbedder() } catch { throw ... }] step of
    [processTrainingInput]. *)
Definition loadModel (probe : outcome bool) (load : bool -> outcome string)
    (st : Loader) : Loader * outcome string :=
  match getEmbedder probe load st with
  | (st', Thrown _) => (st', Thrown MODEL_LOAD_ERROR)
  | ok => ok
  end.

(** The chunks subject to deduplication and their keys. *)
Definition longChunks (chunks : list string) : list string :=
  List.filter (fun c => DEDUP_MIN_LENGTH <=? strlen c) chunks.

Definition dedupKeys (chunks : list string) : list string :=
  map normalizeForDedup (longChunks chunks).

(** The words of a text: its maximal runs of characters other than
    whitespace, in order. *)
Fixpoint words (s : string) : list string :=
  match s with
  | EmptyString => []
  | String c r =>
      if isWhiteSpace c then words r
      else match r with
           | String d _ =>
               if isWhiteSpace d then String c "" :: words r
               else match words r with
                    | w :: rest => String c w :: rest
                    | [] => [String c ""]
                    end
           | EmptyString => [String c ""]
           end
  end.

(** Normalization in the words of the specification: whitespace runs
    collapsed to a single space, trimmed, lowercased.  What is left are
    the words of the text in lower case, one space between them. *)
Definition normalized (s : string) : string :=
  String.concat " " (map toLowerCase (words s)).

Definition startsWithSpace (s : string) : bool :=
  match s with String d _ => isWhiteSpace d | EmptyString => false end.

(** The invariant of the loop: the keys of the long chunks emitted so
    far are pairwise distinct and all recorded in [seen]. *)
Definition dedupInv (chunks : list string) (seen : gset string) : Prop :=
  NoDup (dedupKeys chunks) /\ forall k, In k (dedupKeys chunks) -> k ∈ seen.

(** Position [b] of [text] follows a sentence mark or newline and one
    whitespace character. *)
Definition afterBoundary (text : string) (b : Z) : bool :=
  match String.get (Z.to_nat (b - 2)) text, String.get (Z.to_nat (b - 1)) text with
  | Some c, Some d =>
      (2 <=? b) && (isSentencePunct c || Ascii.eqb c LF) && isWhiteSpace d
  | _, _ => false
  end.

(** The place [k] of the window [w] closes a sentence for
    [findSentenceBoundary]: there the expression
    [/([.!?]|\n)\s(?!.*[.!?]|\n)/] matches. *)
Definition closes (w : string) (k : nat) : bool :=
  match dropChars k w with
  | String c (String d rest) =>
      (isSentencePunct c || Ascii.eqb c LF) && isWhiteSpace d
      && negb (lookahead rest)
  | _ => false
  end.

(** The characters [c] and [d] stand at the places [k] and [k + 1]. *)
Definition pairAt (w : string) (k : nat) (c d : ascii) : Prop :=
  String.get k w = Some c /\ String.get (S k) w = Some d.

(** Scenario B in the words of the specification: two adjacent sentences
    of 90 characters, a window that ends inside the second one, and a cut
    at the sentence boundary, 91 characters in. *)
Definition scenarioB_as_stated : Prop :=
  forall s1 s2 maxLen,
    strlen s1 = 89 -> strlen s2 = 89 ->
    lineHasPunct s1 = false -> lineHasPunct s2 = false ->
    91 < maxLen < 181 ->
    findSentenceBoundary (s1 +:+ ". " +:+ s2 +:+ ".") 0 maxLen = 91.

End Training.

(** ** workers/vector-db.worker.js *)
Module VectorWorker.
Import JsString.

(** *** Embeddings and their byte view *)

Definition Blob : Type := list Byte.byte.

(** One float32, as its four bytes in buffer order. *)
Definition F32 : Type := (Byte.byte * Byte.byte * Byte.byte * Byte.byte)%type.

Definition f32_bytes (elems : list F32) : Blob :=
  flat_map (fun '(a, b, c, d) => [a; b; c; d]) elems.

(** What [toVecBlobFromEmbedding] can be handed: a falsy value, one of
    the three buffer types, or another object, with its [byteLength]
    property when numeric and the outcome of [new Uint8Array(embedding)]. *)
Inductive Embedding : Type :=
| Falsy
| Float32Array (elems : list F32)
| ArrayBuffer (bytes : Blob)
| Uint8Array (bytes : Blob)
| OtherObject (byteLengthProp : option Z) (asUint8Array : outcome Blob).

Definition blobLength (b : Blob) : Z := Z.of_nat (length b).

Definition byteLength (e : Embedding) : option Z :=
  match e with
  | Falsy => None
  | Float32Array elems => Some (4 * Z.of_nat (length elems))
  | ArrayBuffer b | Uint8Array b => Some (blobLength b)
  | OtherObject n _ => n
  end.

(** [768 * 4] *)
Definition expectedBytes : Z := 768 * 4.

Definition toVecBlobFromEmbedding (e : Embedding) : option Blob :=
  match e with
  | Falsy => None
  | Float32Array elems =>
      if 4 * Z.of_nat (length elems) =? expectedBytes
      then Some (f32_bytes elems) else None
  | ArrayBuffer b => if blobLength b =? expectedBytes then Some b else None
  | Uint8Array b => if blobLength b =? expectedBytes then Some b else None
  | OtherObject (Some _) (Returned b) =>
      if blobLength b =? expectedBytes then Some b else None
  | OtherObject (Some _) (Thrown _) => None
  | OtherObject None _ => None
  end.

(** *** The structured table, the vec0 index and the key-value mirror *)

Record ChunkRow : Type := {
  id : Z;
  userId : string;
  sourceName : string;
  chunkIndex : Z;
  text : string;
  embedding : option Blob;
  status : string
}.

(** A record of the IndexedDB store "chunks" (key path [key]). *)
Record IdbRow : Type := {
  idb_key : string;
  idb_id : Z;
  idb_userId : string;
  idb_sourceName : string;
  idb_chunkIndex : Z;
  idb_text : string;
  idb_embedding : Embedding;
  idb_status : string
}.

Inductive Message : Type :=
| progress (completed total : Z)
| done_prepare
| search_results (results : list (ChunkRow * Z))
| completed_chunks (rows : list ChunkRow)
| idb_rehydrate_done (restored scanned skippedNoEmbedding : Z)
| opfs_unavailable (reason : string)
| debug (event : string)
| debug_ack (enabled echoToConsole : bool)
| error (message : string).

(** The state of the worker.  [db] tells whether the module variable [db]
    is set, that is, whether [getSQLite] has resolved; the requests below
    are followed from the statement after [await getSQLite()], except
    [searchVectors], which is followed from its first statement.
    - [training_chunks]: the rows of the structured table;
    - [sqlite_sequence]: the largest row id ever used (AUTOINCREMENT);
    - [vectors]: the vec0 virtual table, rowid to embedding, [None] when
      it does not exist;
    - [idb]: the mirror, in key order, [None] without IndexedDB; its
      database is open: [openIdb] memoizes the promise of its first call,
      which the initialisation makes, and reports nothing afterwards;
    - the module variables [vec0Available], [vec0DisabledReason],
      [embedderPromise] (settled), [lastUsedBackend], [debugEnabled] and
      [idbPutCount];
    - [pipelineLoads] counts the calls of [pipeline(...)], and [posted]
      lists the messages sent with [self.postMessage], those of
      [postDebug] included (of a debug message the event is kept). *)
Record Worker : Type := {
  db : bool;
  training_chunks : list ChunkRow;
  sqlite_sequence : Z;
  vectors : option (gmap Z Blob);
  idb : option (list IdbRow);
  vec0Available : bool;
  vec0DisabledReason : option string;
  embedderPromise : option (outcome string);
  lastUsedBackend : string;
  pipelineLoads : nat;
  debugEnabled : bool;
  idbPutCount : Z;
  posted : list Message
}.

Definition withTable (rows : list ChunkRow) (seq : Z) (w : Worker) : Worker :=
  {| db := db w;
     training_chunks := rows; sqlite_sequence := seq; vectors := vectors w;
     idb := idb w; vec0Available := vec0Available w;
     vec0DisabledReason := vec0DisabledReason w;
     embedderPromise := embedderPromise w; lastUsedBackend := lastUsedBackend w;
     pipelineLoads := pipelineLoads w; debugEnabled := debugEnabled w;
     idbPutCount := idbPutCount w; posted := posted w |}.

Definition withVectors (v : option (gmap Z Blob)) (w : Worker) : Worker :=
  {| db := db w;
     training_chunks := training_chunks w; sqlite_sequence := sqlite_sequence w;
     vectors := v; idb := idb w; vec0Available := vec0Available w;
     vec0DisabledReason := vec0DisabledReason w;
     embedderPromise := embedderPromise w; lastUsedBackend := lastUsedBackend w;
     pipelineLoads := pipelineLoads w; debugEnabled := debugEnabled w;
     idbPutCount := idbPutCount w; posted := posted w |}.

Definition withIdb (i : option (list IdbRow)) (w : Worker) : Worker :=
  {| db := db w;
     training_chunks := training_chunks w; sqlite_sequence := sqlite_sequence w;
     vectors := vectors w; idb := i; vec0Available := vec0Available w;
     vec0DisabledReason := vec0DisabledReason w;
     embedderPromise := embedderPromise w; lastUsedBackend := lastUsedBackend w;
     pipelineLoads := pipelineLoads w; debugEnabled := debugEnabled w;
     idbPutCount := idbPutCount w; posted := posted w |}.

Definition postMessage (m : Message) (w : Worker) : Worker :=
  {| db := db w;
     training_chunks := training_chunks w; sqlite_sequence := sqlite_sequence w;
     vectors := vectors w; idb := idb w; vec0Available := vec0Available w;
     vec0DisabledReason := vec0DisabledReason w;
     embedderPromise := embedderPromise w; lastUsedBackend := lastUsedBackend w;
     pipelineLoads := pipelineLoads w; debugEnabled := debugEnabled w;
     idbPutCount := idbPutCount w; posted := posted w ++ [m] |}.

(** [postDebug(event, data)] *)
Definition postDebug (event : string) (w : Worker) : Worker :=
  if debugEnabled w then postMessage (debug event) w else w.

Definition withIdbPutCount (n : Z) (w : Worker) : Worker :=
  {| db := db w;
     training_chunks := training_chunks w; sqlite_sequence := sqlite_sequence w;
     vectors := vectors w; idb := idb w; vec0Available := vec0Available w;
     vec0DisabledReason := vec0DisabledReason w;
     embedderPromise := embedderPromise w; lastUsedBackend := lastUsedBackend w;
     pipelineLoads := pipelineLoads w; debugEnabled := debugEnabled w;
     idbPutCount := n; posted := posted w |}.

Definition withDebug (enabled : bool) (w : Worker) : Worker :=
  {| db := db w;
     training_chunks := training_chunks w; sqlite_sequence := sqlite_sequence w;
     vectors := vectors w; idb := idb w; vec0Available := vec0Available w;
     vec0DisabledReason := vec0DisabledReason w;
     embedderPromise := embedderPromise w; lastUsedBackend := lastUsedBackend w;
     pipelineLoads := pipelineLoads w; debugEnabled := enabled;
     idbPutCount := idbPutCount w; posted := posted w |}.

Definition withDb (ready : bool) (w : Worker) : Worker :=
  {| db := ready;
     training_chunks := training_chunks w; sqlite_sequence := sqlite_sequence w;
     vectors := vectors w; idb := idb w; vec0Available := vec0Available w;
     vec0DisabledReason := vec0DisabledReason w;
     embedderPromise := embedderPromise w; lastUsedBackend := lastUsedBackend w;
     pipelineLoads := pipelineLoads w; debugEnabled := debugEnabled w;
     idbPutCount := idbPutCount w; posted := posted w |}.

(** [vec0Disable(phase, reason, error)] *)
Definition vec0Disable (reason : string) (w : Worker) : Worker :=
  postDebug "vec0_insert_error"
    {| db := db w;
       training_chunks := training_chunks w; sqlite_sequence := sqlite_sequence w;
       vectors := vectors w; idb := idb w; vec0Available := false;
       vec0DisabledReason := Some reason;
       embedderPromise := embedderPromise w; lastUsedBackend := lastUsedBackend w;
       pipelineLoads := pipelineLoads w; debugEnabled := debugEnabled w;
       idbPutCount := idbPutCount w; posted := posted w |}.

(** [INSERT INTO vectors(rowid, embedding) VALUES (?, ?)]: throws when the
    table does not exist, the rowid is taken or the blob is not
    [float[768]]. *)
Definition vectorsInsert (rowId : Z) (b : Blob) (v : option (gmap Z Blob))
    : outcome (option (gmap Z Blob)) :=
  match v with
  | None => Thrown "no such table: vectors"
  | Some m =>
      if negb (blobLength b =? expectedBytes) then Thrown "dimension mismatch"
      else match m !! rowId with
           | Some _ => Thrown "UNIQUE constraint failed"
           | None => Returned (Some (<[rowId := b]> m))
           end
  end.

(** [DELETE FROM vectors WHERE rowid = ?] *)
Definition vectorsDelete (rowId : Z) (v : option (gmap Z Blob))
    : outcome (option (gmap Z Blob)) :=
  match v with
  | None => Thrown "no such table: vectors"
  | Some m => Returned (Some (delete rowId m))
  end.

(** [vec0Upsert(_db, rowId, embeddingBytes, phase)] *)
Definition vec0Upsert (rowId : Z) (b : Blob) (w : Worker) : Worker * bool :=
  if negb (vec0Available w) then (w, false)
  else match vectorsInsert rowId b (vectors w) with
       | Returned v => (withVectors v w, true)
       | Thrown _ =>
           match vectorsDelete rowId (vectors w) with
           | Thrown _ => (vec0Disable "insert_failed" w, false)
           | Returned v1 =>
               match vectorsInsert rowId b v1 with
               | Returned v2 => (withVectors v2 w, true)
               | Thrown _ => (vec0Disable "insert_failed" (withVectors v1 w), false)
               end
           end
       end.

Definition sameKey (u s : string) (i : Z) (r : ChunkRow) : bool :=
  String.eqb (userId r) u && String.eqb (sourceName r) s && (chunkIndex r =? i).

(** [INSERT OR IGNORE INTO training_chunks (userId, sourceName, chunkIndex,
    text, status) VALUES (?, ?, ?, ?, ?)] under
    [UNIQUE(userId, sourceName, chunkIndex)]. *)
Definition insertOrIgnore (u s : string) (i : Z) (t st : string) (w : Worker)
    : Worker :=
  if existsb (sameKey u s i) (training_chunks w) then w
  else
    let newId := sqlite_sequence w + 1 in
    withTable
      (training_chunks w ++
         [{| id := newId; userId := u; sourceName := s; chunkIndex := i;
             text := t; embedding := None; status := st |}])
      newId w.

(** [INSERT OR REPLACE INTO training_chunks (id, ...) VALUES (...)]: rows
    that clash on the primary key or on the unique triple are removed. *)
Definition insertOrReplace (r : ChunkRow) (w : Worker) : Worker :=
  withTable
    (List.filter
       (fun x => negb ((id x =? id r)
                       || sameKey (userId r) (sourceName r) (chunkIndex r) x))
       (training_chunks w) ++ [r])
    (Z.max (sqlite_sequence w) (id r)) w.

(** [DELETE FROM training_chunks WHERE userId = ?] *)
Definition deleteUserRows (u : string) (w : Worker) : Worker :=
  withTable
    (List.filter (fun r => negb (String.eqb (userId r) u)) (training_chunks w))
    (sqlite_sequence w) w.

(** [UPDATE training_chunks SET status = 'completed' WHERE id = ?] *)
Definition markCompleted (rowId : Z) (w : Worker) : Worker :=
  withTable
    (map (fun r => if id r =? rowId
                   then {| id := id r; userId := userId r;
                           sourceName := sourceName r; chunkIndex := chunkIndex r;
                           text := text r; embedding := embedding r;
                           status := "completed" |}
                   else r) (training_chunks w))
    (sqlite_sequence w) w.

(** [UPDATE training_chunks SET embedding = ?, status = 'completed'
    WHERE id = ?] *)
Definition storeEmbedding (rowId : Z) (b : Blob) (w : Worker) : Worker :=
  withTable
    (map (fun r => if id r =? rowId
                   then {| id := id r; userId := userId r;
                           sourceName := sourceName r; chunkIndex := chunkIndex r;
                           text := text r; embedding := Some b;
                           status := "completed" |}
                   else r) (training_chunks w))
    (sqlite_sequence w) w.

(** [store.put(chunk)] on the mirror, which is kept in key order. *)
Fixpoint idbPut (c : IdbRow) (l : list IdbRow) : list IdbRow :=
  match l with
  | [] => [c]
  | x :: rest =>
      match String.compare (idb_key x) (idb_key c) with
      | Lt => x :: idbPut c rest
      | Eq => c :: rest
      | Gt => c :: l
      end
  end.

(** [idbPutChunk(chunk)]; the put is reported for the first three
    records and for every 25th. *)
Definition idbPutChunk (c : IdbRow) (w : Worker) : Worker :=
  match idb w with
  | None => w
  | Some l =>
      let count := idbPutCount w + 1 in
      let w1 := withIdbPutCount count w in
      let w2 := if (count <=? 3) || (Z.rem count 25 =? 0)
                then postDebug "idb_put" w1 else w1 in
      withIdb (Some (idbPut c l)) w2
  end.

Definition idbDeleteUser (u : string) (w : Worker) : Worker :=
  match idb w with
  | None => w
  | Some l =>
      postDebug "idb_delete_user_done"
        (withIdb
           (Some (List.filter (fun c => negb (String.eqb (idb_userId c) u)) l))
           (postDebug "idb_delete_user_start" w))
  end.

(** *** [chunkText(text, maxLen = 1000, overlap = 200)] of the worker *)

Definition isHash (c : ascii) : bool := Ascii.eqb c "#"%char.

(** [text.split(/^##\s+/m)]: [cur] is the part read so far, [lineStart]
    tells whether [^] matches here, [skipping] that the whitespace run
    of a heading mark is being consumed. *)
Fixpoint splitAtHeadings (skipping lineStart : bool) (cur : string) (s : string)
    : list string :=
  match s with
  | EmptyString => [cur]
  | String c r =>
      if skipping && isWhiteSpace c
      then splitAtHeadings true (isLineTerminator c) cur r
      else
        match r with
        | String c2 (String c3 r3) =>
            if lineStart && isHash c && isHash c2 && isWhiteSpace c3
            then cur :: splitAtHeadings true (isLineTerminator c3) EmptyString r3
            else splitAtHeadings false (isLineTerminator c)
                   (cur +:+ String c EmptyString) r
        | _ =>
            splitAtHeadings false (isLineTerminator c)
              (cur +:+ String c EmptyString) r
        end
  end.

(** [lines = part.split("\n"); title = lines.shift() || "";
    body = lines.join("\n")] *)
Fixpoint titleAndBody (part : string) : string * string :=
  match part with
  | EmptyString => (EmptyString, EmptyString)
  | String c r =>
      if Ascii.eqb c LF then (EmptyString, r)
      else let '(t, b) := titleAndBody r in (String c t, b)
  end.

Definition sectionsOf (text : string) : list string :=
  match splitAtHeadings false true EmptyString text with
  | [] | [_] => [text]
  | head :: parts =>
      (if String.eqb (trim head) "" then [] else [trim head]) ++
      map (fun part =>
             let '(title, body) := titleAndBody part in
             trim ("## " +:+ title +:+ String LF EmptyString +:+ trim body))
          parts
  end.

(** The inner [while] loop over one long section. *)
Fixpoint windows (fuel : nat) (section : string) (maxLen overlap start : Z)
    : option (list string) :=
  match fuel with
  | O => None
  | S fuel' =>
      if start <? strlen section then
        let end_ := start + maxLen in
        let c := trim (slice section start end_) in
        let start' := end_ - overlap in
        if strlen section - overlap <=? start' then Some [c]
        else option_map (cons c) (windows fuel' section maxLen overlap start')
      else Some []
  end.

Fixpoint chunkSections (sections : list string) (maxLen overlap : Z)
    : option (list string) :=
  match sections with
  | [] => Some []
  | section :: rest =>
      match (if strlen section <=? maxLen then Some [section]
             else windows (S (String.length section)) section maxLen overlap 0),
            chunkSections rest maxLen overlap with
      | Some cs, Some more => Some (cs ++ more)
      | _, _ => None
      end
  end.

Definition chunkText (text : string) : option (list string) :=
  chunkSections (sectionsOf text) 1000 200.

(** *** [getEmbedder()] *)

Definition includes (s pat : string) : bool :=
  match String.index 0 pat s with Some _ => true | None => false end.

(** [load] is what the asynchronous body (backend probe, then
    [pipeline("feature-extraction", MODEL_ID, options)]) yields if it is
    run now: the selected device, or the exception of a failed load.  The
    probe is reported before the load, the selected device after it. *)
Definition getEmbedder (load : outcome string) (w : Worker)
    : Worker * outcome string :=
  match embedderPromise w with
  | Some p => (w, p)
  | None =>
      let w1 := postDebug "embedder_backend_detailed" w in
      let w2 :=
        {| db := db w1;
           training_chunks := training_chunks w1;
           sqlite_sequence := sqlite_sequence w1;
           vectors := vectors w1; idb := idb w1;
           vec0Available := vec0Available w1;
           vec0DisabledReason := vec0DisabledReason w1;
           embedderPromise := Some load;
           lastUsedBackend :=
             match load with
             | Returned device =>
                 if includes (toLowerCase device) "webgpu" then "webgpu" else "wasm"
             | Thrown _ => lastUsedBackend w1
             end;
           pipelineLoads := S (pipelineLoads w1);
           debugEnabled := debugEnabled w1;
           idbPutCount := idbPutCount w1;
           posted := posted w1 |} in
      (match load with
       | Returned _ => postDebug "embedder_selected_device" w2
       | Thrown _ => w2
       end, load)
  end.

(** *** [prepareWithProgress(userId, text, sourceName, clearExisting)] *)

Definition getInitialBatchSize (w : Worker) (totalCount : Z) : Z :=
  if String.eqb (lastUsedBackend w) "webgpu" then
    if 32 <=? totalCount then 16
    else if 16 <=? totalCount then 8
    else if 8 <=? totalCount then 4
    else 2
  else 1.

(** How the latency of a batch compares with the previous one: more than
    10% better, more than 25% worse, or neither. *)
Inductive Timing : Type := Faster | Slower | Similar.

Definition tuneBatchSize (w : Worker) (havePrev : bool) (t : Timing)
    (batchSize remaining : Z) : Z :=
  if String.eqb (lastUsedBackend w) "webgpu" && havePrev then
    match t with
    | Faster =>
        if (batchSize <? 16) && (batchSize * 2 <=? remaining)
        then Z.min 16 (batchSize * 2) else batchSize
    | Slower => if 1 <? batchSize then Z.max 1 (batchSize / 2) else batchSize
    | Similar => batchSize
    end
  else batchSize.

Definition mirrorKey (u s : string) (i : Z) : string :=
  u +:+ "::" +:+ s +:+ "::" +:+ pretty i.

(** The body of the loop over one batch, for one row: [f32] is the
    [Float32Array] built from [vectors[j]], [None] when that is falsy. *)
Definition processRow (u s : string) (total : Z) (row : ChunkRow)
    (f32 : option (list F32)) (st : Worker * Z) : Worker * Z :=
  let '(w, completed) := st in
  let embeddingBytes :=
    match f32 with
    | Some elems => toVecBlobFromEmbedding (Float32Array elems)
    | None => None
    end in
  match embeddingBytes with
  | None =>
      (postMessage (progress (completed + 1) total)
         (markCompleted (id row) (postDebug "embedding_shape_mismatch" w)),
       completed + 1)
  | Some b =>
      let w1 := storeEmbedding (id row) b w in
      let w2 := fst (vec0Upsert (id row) b w1) in
      let w3 := idbPutChunk
                  {| idb_key := mirrorKey u s (chunkIndex row);
                     idb_id := id row; idb_userId := u; idb_sourceName := s;
                     idb_chunkIndex := chunkIndex row; idb_text := text row;
                     idb_embedding := Uint8Array b;
                     idb_status := "completed" |} w2 in
      (postMessage (progress (completed + 1) total) w3, completed + 1)
  end.

Fixpoint processBatch (u s : string) (total : Z) (batch : list ChunkRow)
    (vecs : list (option (list F32))) (st : Worker * Z) : Worker * Z :=
  match batch with
  | [] => st
  | row :: rest =>
      processBatch u s total rest (tl vecs)
        (processRow u s total row (mjoin (head vecs)) st)
  end.

(** The batch loop.  Each entry of [script] is what one iteration gets
    from outside: the outcome of [pipe(texts, ...)] and the timing
    verdict.  After each batch the tuning is reported when debugging is
    on.  [None] when the script ends before the rows do. *)
Fixpoint embedLoop (script : list (outcome (list (option (list F32))) * Timing))
    (u s : string) (total : Z) (pending : list ChunkRow) (batchSize : Z)
    (havePrev : bool) (st : Worker * Z) : option (Worker * outcome unit) :=
  match pending with
  | [] => Some (fst st, Returned tt)
  | _ :: _ =>
      match script with
      | [] => None
      | (Thrown err, _) :: _ => Some (fst st, Thrown err)
      | (Returned vecs, t) :: script' =>
          let batch := firstn (Z.to_nat batchSize) pending in
          let rest := skipn (length batch) pending in
          let st' := processBatch u s total batch vecs st in
          embedLoop script' u s total rest
            (tuneBatchSize (fst st') havePrev t batchSize (Z.of_nat (length rest)))
            true (postDebug "embedder_batch_tune" (fst st'), snd st')
      end
  end.

Fixpoint insertPending (u s : string) (i : Z) (chunks : list string) (w : Worker)
    : Worker :=
  match chunks with
  | [] => w
  | c :: rest => insertPending u s (i + 1) rest (insertOrIgnore u s i c "pending" w)
  end.

Fixpoint insertByChunkIndex (r : ChunkRow) (l : list ChunkRow) : list ChunkRow :=
  match l with
  | [] => [r]
  | x :: rest =>
      if chunkIndex x <=? chunkIndex r then x :: insertByChunkIndex r rest
      else r :: l
  end.

(** [SELECT * FROM training_chunks WHERE userId = ? AND sourceName = ?
    AND status = 'pending' ORDER BY chunkIndex ASC] *)
Definition selectPending (u s : string) (w : Worker) : list ChunkRow :=
  fold_right insertByChunkIndex []
    (List.filter (fun r => String.eqb (userId r) u && String.eqb (sourceName r) s
                           && String.eqb (status r) "pending")
       (training_chunks w)).

(** The first half of [prepareWithProgress]: optional clearing and the
    pending rows. *)
Definition prepareTable (u s : string) (chunks : list string)
    (clearExisting : bool) (w : Worker) : Worker :=
  insertPending u s 0 chunks
    (if clearExisting then idbDeleteUser u (deleteUserRows u w) else w).

Definition prepareWithProgress (load : outcome string)
    (script : list (outcome (list (option (list F32))) * Timing))
    (u text_ s : string) (clearExisting : bool) (w : Worker)
    : option (Worker * outcome unit) :=
  match chunkText text_ with
  | None => None
  | Some chunks =>
      let w1 := prepareTable u s chunks clearExisting w in
      let pending := selectPending u s w1 in
      let total := Z.of_nat (length chunks) in
      let completed := total - Z.of_nat (length pending) in
      let w2 := postMessage (progress completed total) w1 in
      match getEmbedder load w2 with
      | (w3, Thrown err) => Some (w3, Thrown err)
      | (w3, Returned _) =>
          match embedLoop script u s total pending
                  (getInitialBatchSize w3 (Z.of_nat (length pending)))
                  false (w3, completed) with
          | Some (w4, Returned _) => Some (postMessage done_prepare w4, Returned tt)
          | other => other
          end
      end
  end.

(** *** [rehydrateFromIdb(_db)]: the cursor loop, from the statement after
    [await openIdb()] *)

Definition rehydrateRow (row : IdbRow) (st : Worker * (Z * Z * Z))
    : Worker * (Z * Z * Z) :=
  let '(w, (restored, scanned, skipped)) := st in
  match toVecBlobFromEmbedding (idb_embedding row) with
  | None => (w, (restored, scanned + 1, skipped + 1))
  | Some b =>
      let w1 := insertOrReplace
                  {| id := idb_id row; userId := idb_userId row;
                     sourceName := idb_sourceName row;
                     chunkIndex := idb_chunkIndex row; text := idb_text row;
                     embedding := Some b; status := idb_status row |} w in
      (fst (vec0Upsert (idb_id row) b w1), (restored + 1, scanned + 1, skipped))
  end.

Definition rehydrateFromIdb (w : Worker) : Worker :=
  match idb w with
  | None => w
  | Some rows =>
      let '(w', (restored, scanned, skipped)) :=
        fold_left (fun st row => rehydrateRow row st) rows
          (postDebug "rehydrate_start" w, (0, 0, 0)) in
      postMessage (idb_rehydrate_done restored scanned skipped)
        (postDebug "rehydrate_done" w')
  end.

(** *** [getSQLite()] in a worker that follows one request at a time *)

(** With [db] set, [getSQLite] returns at its first line.  Otherwise it
    runs the body of the initialisation, [initialise]: the import, the
    opening of the database, the creation of the tables and of the index
    with its self-test, which set [vec0Available] and
    [vec0DisabledReason], and the rehydration; the module [SqliteInit]
    follows its memoization event by event.  When the body returns, [db]
    is set; when it throws, the exception is the caller's. *)
Definition getSQLite (initialise : Worker -> Worker * outcome unit) (w : Worker)
    : Worker * outcome unit :=
  if db w then (w, Returned tt)
  else
    match initialise w with
    | (w', Returned _) => (withDb true w', Returned tt)
    | (w', Thrown err) => (w', Thrown err)
    end.

(** *** [searchVectors(userId, vector, topK = 10)] *)

(** [knn] stands for the k-nearest query on [vectors] joined with the
    table; each result carries its distance (the bits of the double). *)
Definition searchVectors (initialise : Worker -> Worker * outcome unit)
    (knn : Worker -> Blob -> Z -> outcome (list (ChunkRow * Z)))
    (vector : list F32) (topK : option Z) (w : Worker) : Worker * outcome unit :=
  match getSQLite initialise w with
  | (w0, Thrown err) => (w0, Thrown err)
  | (w0, Returned _) =>
      if negb (vec0Available w0) then
        (postMessage (search_results []) w0, Returned tt)
      else
        match toVecBlobFromEmbedding (Float32Array vector) with
        | None => (postMessage (search_results []) w0, Returned tt)
        | Some b =>
            match knn w0 b (match topK with Some k => k | None => 10 end) with
            | Returned rows => (postMessage (search_results rows) w0, Returned tt)
            | Thrown _ => (postMessage (search_results []) w0, Returned tt)
            end
        end
  end.

(** The message of the last [postMessage]. *)
Definition lastPosted (w : Worker) : option Message := last (posted w).

(** [getCompletedChunks(userId)]: reading [r.embedding.buffer] of a row
    whose embedding is NULL throws a TypeError. *)
Definition getCompletedChunks (u : string) (w : Worker) : Worker * outcome unit :=
  let rows := List.filter (fun r => String.eqb (userId r) u
                                    && String.eqb (status r) "completed")
                (training_chunks w) in
  if existsb (fun r => match embedding r with None => true | Some _ => false end) rows
  then (w, Thrown "TypeError")
  else (postMessage (completed_chunks rows) w, Returned tt).

(** *** [self.onmessage]: an exception of the action is posted as an
    error message *)

(** The request "set_debug". *)
Definition onmessage_set_debug (enabled echoToConsole : bool) (w : Worker)
    : Worker :=
  postMessage (debug_ack enabled echoToConsole)
    (postDebug "debug_enabled" (withDebug enabled w)).

(** The request "search_vectors". *)
Definition onmessage_search_vectors
    (initialise : Worker -> Worker * outcome unit)
    (knn : Worker -> Blob -> Z -> outcome (list (ChunkRow * Z)))
    (vector : list F32) (topK : option Z) (w : Worker) : Worker :=
  match searchVectors initialise knn vector topK w with
  | (w', Thrown err) => postMessage (error err) w'
  | (w', Returned _) => w'
  end.

Definition onmessage_preload (load : outcome string) (w : Worker) : Worker :=
  match getEmbedder load w with
  | (w', Thrown err) => postMessage (error err) w'
  | (w', Returned _) => w'
  end.

Definition onmessage_prepare (load : outcome string)
    (script : list (outcome (list (option (list F32))) * Timing))
    (u text_ s : string) (clearExisting : bool) (w : Worker) : option Worker :=
  match prepareWithProgress load script u text_ s clearExisting w with
  | Some (w', Thrown err) => Some (postMessage (error err) w')
  | Some (w', Returned _) => Some w'
  | None => None
  end.

(** *** Notions used to state the properties *)

Definition key3 (r : ChunkRow) : string * string * Z :=
  (userId r, sourceName r, chunkIndex r).

Definition keysOf (w : Worker) : list (string * string * Z) :=
  map key3 (training_chunks w).

(** [UNIQUE(userId, sourceName, chunkIndex)] *)
Definition uniqueKeys (w : Worker) : Prop := NoDup (keysOf w).

Definition sourceRows (u s : string) (w : Worker) : list ChunkRow :=
  List.filter (fun r => String.eqb (userId r) u && String.eqb (sourceName r) s)
    (training_chunks w).

(** The rows of a source at chunk indices outside [0, n). *)
Definition staleRows (u s : string) (n : nat) (w : Worker) : list ChunkRow :=
  List.filter
    (fun r => negb ((0 <=? chunkIndex r) && (chunkIndex r <? Z.of_nat n)))
    (sourceRows u s w).

(** Re-ingestion in the words of the specification: after two identical
    ingestions the row count of the source equals the chunk count of one
    ingestion. *)
Definition reingestion_count_as_stated : Prop :=
  forall load1 script1 load2 script2 u text_ s clear1 clear2 w w1 o1 w2 o2 chunks,
    uniqueKeys w ->
    prepareWithProgress load1 script1 u text_ s clear1 w = Some (w1, o1) ->
    prepareWithProgress load2 script2 u text_ s clear2 w1 = Some (w2, o2) ->
    chunkText text_ = Some chunks ->
    length (sourceRows u s w2) = length chunks.

(** Every embedding held by the table, the index and the mirror is
    exactly [expectedBytes] long. *)
Record exactEmbeddings (w : Worker) : Prop := {
  table_exact :
    forall r b, In r (training_chunks w) -> embedding r = Some b ->
                blobLength b = expectedBytes;
  index_exact :
    forall m k b, vectors w = Some m -> m !! k = Some b ->
                  blobLength b = expectedBytes;
  mirror_exact :
    forall l c, idb w = Some l -> In c l ->
                exists b, idb_embedding c = Uint8Array b /\
                          blobLength b = expectedBytes
}.

(** The length gate in the words of the specification: an embedding is
    accepted only with a byte length of exactly [768 * 4], and the row of
    a rejected one is marked completed in the structured table, during
    ingestion and during rehydration. *)
Definition length_gate_as_stated : Prop :=
  (forall e b, toVecBlobFromEmbedding e = Some b ->
               byteLength e = Some expectedBytes) /\
  (forall u s total row elems w c,
     In row (training_chunks w) ->
     toVecBlobFromEmbedding (Float32Array elems) = None ->
     exists r, In r (training_chunks
                       (fst (processRow u s total row (Some elems) (w, c)))) /\
               id r = id row /\ status r = "completed") /\
  (forall row w counters,
     toVecBlobFromEmbedding (idb_embedding row) = None ->
     exists r, In r (training_chunks (fst (rehydrateRow row (w, counters)))) /\
               id r = idb_id row /\ status r = "completed").

(** Query failures in the words of the specification: after a query
    that throws, the index is unavailable for the rest of the process. *)
Definition query_failure_disables_as_stated : Prop :=
  forall initialise knn vector topK w b,
    db w = true ->
    vec0Available w = true ->
    toVecBlobFromEmbedding (Float32Array vector) = Some b ->
    completed (knn w b (match topK with Some k => k | None => 10 end)) = false ->
    vec0Available (fst (searchVectors initialise knn vector topK w)) = false.

(** A failed model load in the words of the specification: nothing is
    cached, the next call loads again. *)
Definition failed_load_not_cached_as_stated : Prop :=
  forall load1 load2 w err,
    embedderPromise w = None ->
    load1 = Thrown err ->
    let w1 := fst (getEmbedder load1 w) in
    snd (getEmbedder load2 w1) = load2 /\
    pipelineLoads (fst (getEmbedder load2 w1)) = S (pipelineLoads w1).

End VectorWorker.

(** ** [getSQLite()]: the memoized initialisation of the database

    The worker is single-threaded; calls of [getSQLite] and the end of the
    asynchronous initialisation body interleave as events.  Promises are
    numbered in the order of their creation. *)
Module SqliteInit.

Inductive PromiseState : Type :=
| Pending
| Fulfilled (handle : Z)
| Rejected (err : string).

(** [rehydratePromise], the memo of [rehydrateFromIdb]: assigned once,
    never reset. *)
Inductive Rehydration : Type :=
| Rehydrating
| Rehydrated
| RehydrateFailed (err : string).

(** Where the body of an initialisation stands: before
    [await rehydrateFromIdb(localDb)] (import, [init], opening the
    database, creating the tables), or suspended on it. *)
Inductive Body : Type :=
| Loading
| AwaitsRehydrate (localDb : Z).

(** The module variables [db], [dbPromise] and [rehydratePromise], every
    promise created by the initialisation so far, the body in flight with
    the promise it settles, the callers suspended on a promise, and what
    each caller of [getSQLite] has got. *)
Record State : Type := {
  db : option Z;
  dbPromise : option nat;
  rehydratePromise : option Rehydration;
  promises : list PromiseState;
  body : option (nat * Body);
  waiting : list (nat * nat);
  answered : list (nat * outcome Z)
}.

Definition initial : State :=
  {| db := None; dbPromise := None; rehydratePromise := None; promises := [];
     body := None; waiting := []; answered := [] |}.

(** - [Call c]: caller [c] invokes [getSQLite()] and runs it up to its
      first suspension;
    - [LoadFails err]: the body in flight throws before it reaches
      [rehydrateFromIdb];
    - [DbOpened h]: the body in flight has opened [localDb], created the
      tables, and calls [rehydrateFromIdb(localDb)];
    - [RehydrateSettles failure]: the promise of the rehydration settles;
    - [BodyResumes]: the body suspended on that promise resumes.
    A rejection of the body comprises the [catch] block of the call that
    created the promise, whose reaction is the first to run. *)
Inductive Event : Type :=
| Call (caller : nat)
| LoadFails (err : string)
| DbOpened (localDb : Z)
| RehydrateSettles (failure : option string)
| BodyResumes.

Definition waitsOn (p : nat) (x : nat * nat) : bool := Nat.eqb (snd x) p.

Definition answerWaiters (p : nat) (o : outcome Z) (s : State)
    : list (nat * outcome Z) :=
  answered s ++ map (fun x => (fst x, o)) (List.filter (waitsOn p) (waiting s)).

Definition otherWaiters (p : nat) (s : State) : list (nat * nat) :=
  List.filter (fun x => negb (waitsOn p x)) (waiting s).

(** [db = localDb; return db] *)
Definition resolveInit (p : nat) (h : Z) (s : State) : State :=
  {| db := Some h; dbPromise := dbPromise s;
     rehydratePromise := rehydratePromise s;
     promises := <[p := Fulfilled h]> (promises s);
     body := None;
     waiting := otherWaiters p s;
     answered := answerWaiters p (Returned h) s |}.

(** The body throws: [catch (e) { dbPromise = null; throw e; }] *)
Definition rejectInit (p : nat) (err : string) (s : State) : State :=
  {| db := db s; dbPromise := None;
     rehydratePromise := rehydratePromise s;
     promises := <[p := Rejected err]> (promises s);
     body := None;
     waiting := otherWaiters p s;
     answered := answerWaiters p (Thrown err) s |}.

Definition step (s : State) (ev : Event) : State :=
  match ev with
  | Call c =>
      match db s with
      | Some h =>
          {| db := db s; dbPromise := dbPromise s;
             rehydratePromise := rehydratePromise s; promises := promises s;
             body := body s; waiting := waiting s;
             answered := answered s ++ [(c, Returned h)] |}
      | None =>
          match dbPromise s with
          | Some p =>
              {| db := db s; dbPromise := dbPromise s;
                 rehydratePromise := rehydratePromise s;
                 promises := promises s; body := body s;
                 waiting := waiting s ++ [(c, p)]; answered := answered s |}
          | None =>
              let p := length (promises s) in
              {| db := db s; dbPromise := Some p;
                 rehydratePromise := rehydratePromise s;
                 promises := promises s ++ [Pending];
                 body := Some (p, Loading);
                 waiting := waiting s ++ [(c, p)]; answered := answered s |}
          end
      end
  | LoadFails err =>
      match body s with
      | Some (p, Loading) => rejectInit p err s
      | _ => s
      end
  | DbOpened h =>
      match body s with
      | Some (p, Loading) =>
          {| db := db s; dbPromise := dbPromise s;
             rehydratePromise :=
               match rehydratePromise s with
               | Some r => Some r
               | None => Some Rehydrating
               end;
             promises := promises s;
             body := Some (p, AwaitsRehydrate h);
             waiting := waiting s; answered := answered s |}
      | _ => s
      end
  | RehydrateSettles failure =>
      match rehydratePromise s with
      | Some Rehydrating =>
          {| db := db s; dbPromise := dbPromise s;
             rehydratePromise :=
               Some match failure with
                    | Some err => RehydrateFailed err
                    | None => Rehydrated
                    end;
             promises := promises s; body := body s;
             waiting := waiting s; answered := answered s |}
      | _ => s
      end
  | BodyResumes =>
      match body s with
      | Some (p, AwaitsRehydrate h) =>
          match rehydratePromise s with
          | Some Rehydrated => resolveInit p h s
          | Some (RehydrateFailed err) => rejectInit p err s
          | _ => s
          end
      | _ => s
      end
  end.

Definition runFrom (s : State) (events : list Event) : State :=
  fold_left step events s.

Definition run (events : list Event) : State := runFrom initial events.

(** What holds in every state: a pending promise is the memoized one and
    its body is in flight; a fulfilled promise exists exactly when [db] is
    set, and then it is the memoized one; the memoized promise is never a
    rejected one; callers wait on pending promises only; [db] is set only
    after the rehydration succeeded; a body suspended on the rehydration
    waits for a promise that exists. *)
Record invariant (s : State) : Prop := {
  pending_is_memoized :
    forall p, promises s !! p = Some Pending ->
      dbPromise s = Some p /\ exists b, body s = Some (p, b);
  in_flight_is_pending :
    forall p b, body s = Some (p, b) -> promises s !! p = Some Pending;
  no_db_no_fulfilled :
    db s = None -> forall p h, promises s !! p <> Some (Fulfilled h);
  db_is_fulfilled :
    forall h, db s = Some h ->
      exists p, dbPromise s = Some p /\ promises s !! p = Some (Fulfilled h) /\
                forall q h', promises s !! q = Some (Fulfilled h') -> q = p;
  memoized_not_rejected :
    forall p, dbPromise s = Some p ->
      promises s !! p = Some Pending \/
      exists h, promises s !! p = Some (Fulfilled h);
  waiters_on_pending :
    forall c p, In (c, p) (waiting s) -> promises s !! p = Some Pending;
  db_after_rehydration :
    forall h, db s = Some h -> rehydratePromise s = Some Rehydrated;
  awaited_is_created :
    forall p h, body s = Some (p, AwaitsRehydrate h) -> rehydratePromise s <> None
}.

End SqliteInit.

(** ** The first two tiers of the search in the main context
    ([performSearchAndLLM]) *)
Module VectorSearch.
Section Tiers.
(** Result rows, and the two float computations left abstract: the
    score [1 - distance] of an index row, and the ranking of the
    brute-force scan (dot product plus lexical bonus, sorted by
    descending score, first [topK]). *)
Context {IndexRow ScanRow Scored : Type}.
Variable scoreIndexRow : IndexRow -> Scored.
Variable rankScan : list ScanRow -> list Scored.

Definition isEmpty {A} (l : list A) : bool :=
  match l with [] => true | _ :: _ => false end.

(** [vec0Results] is what [searchLocalVectors] resolved to (or that it
    rejected); [scanRows] what [getLocalCompletedChunks] would give. *)
Definition localResults (vec0Results : outcome (list IndexRow))
    (scanRows : outcome (list ScanRow)) : list Scored :=
  let results :=
    match vec0Results with
    | Returned rows => if isEmpty rows then [] else map scoreIndexRow rows
    | Thrown _ => []
    end in
  if isEmpty results then
    match scanRows with
    | Returned localRows => if isEmpty localRows then [] else rankScan localRows
    | Thrown _ => []
    end
  else results.
End Tiers.
End VectorSearch.

(** ** services/chat-session.ts *)
Module ChatSession.
Import TokenUtils MemoryStore.

Record ChatMessage : Type := { cm_role : Role; cm_content : string }.

(** The collaborators of the orchestrator, each with the outcome of a
    call: the archival bridge, context retrieval, and the two modes of the
    external generation call.  [streamResponse] yields the fragments it
    hands to its callback and, possibly, the exception that ends it. *)
Record Collaborators : Type := {
  archiveMessages : list ConversationMessage -> outcome unit;
  getRelevantContext : string -> outcome (option string);
  generateResponse : list ChatMessage -> option string -> outcome string;
  streamResponse : list ChatMessage -> option string -> list string * option string
}.

Definition withRetrieval (f : string -> outcome (option string))
    (c : Collaborators) : Collaborators :=
  {| archiveMessages := archiveMessages c;
     getRelevantContext := f;
     generateResponse := generateResponse c;
     streamResponse := streamResponse c |}.

Record Session : Type := { session : string; useContext : bool }.

(** [config.sessionId || "default"] and [config.useContext ?? true] *)
Definition newSession (sessionId0 : option string) (useContext0 : option bool)
    : Session :=
  {| session := match sessionId0 with
                | Some sid => if String.eqb sid "" then "default" else sid
                | None => "default"
                end;
     useContext := match useContext0 with Some b => b | None => true end |}.

(** The memory window, and what the session did to the outside: the calls
    of the generation collaborator with the context they got, the archived
    batches, and the calls of [onMessageAdded], [onEvicted], [onStream]. *)
Record World : Type := {
  mem : DB;
  generated : list (list ChatMessage * option string);
  archived : list (list ConversationMessage);
  messageAdded : list ConversationMessage;
  evictedNotified : list (list ConversationMessage);
  streamed : list string
}.

Definition newWorld (db : DB) : World :=
  {| mem := db; generated := []; archived := []; messageAdded := [];
     evictedNotified := []; streamed := [] |}.

(** The partial texts handed to [onStream], one per fragment. *)
Fixpoint partials (acc : string) (chunks : list string) : list string :=
  match chunks with
  | [] => []
  | chunk :: rest => (acc +:+ chunk) :: partials (acc +:+ chunk) rest
  end.

(** [addMessage], [onMessageAdded], and the archival of what was evicted:
    the block that [sendMessage] runs for the user turn and again for the
    assistant turn. *)
Definition persistTurn (c : Collaborators) (e : Env) (r : Role)
    (content_ sid : string) (w : World) : World * outcome ConversationMessage :=
  match addMessage e r content_ sid (mem w) with
  | (db', Thrown err) =>
      ({| mem := db'; generated := generated w; archived := archived w;
          messageAdded := messageAdded w; evictedNotified := evictedNotified w;
          streamed := streamed w |}, Thrown err)
  | (db', Returned (msg, evicted)) =>
      match evicted with
      | [] =>
          ({| mem := db'; generated := generated w; archived := archived w;
              messageAdded := messageAdded w ++ [msg];
              evictedNotified := evictedNotified w; streamed := streamed w |},
           Returned msg)
      | _ :: _ =>
          match archiveMessages c evicted with
          | Thrown err =>
              ({| mem := db'; generated := generated w; archived := archived w;
                  messageAdded := messageAdded w ++ [msg];
                  evictedNotified := evictedNotified w; streamed := streamed w |},
               Thrown err)
          | Returned _ =>
              ({| mem := db'; generated := generated w;
                  archived := archived w ++ [evicted];
                  messageAdded := messageAdded w ++ [msg];
                  evictedNotified := evictedNotified w ++ [evicted];
                  streamed := streamed w |},
               Returned msg)
          end
      end
  end.

(** The external generation call, in its two modes; the call and the
    context it got are recorded before its outcome is known. *)
Definition generate (c : Collaborators) (onStream : bool)
    (messages_ : list ChatMessage) (context : option string) (w : World)
    : World * outcome string :=
  let calls := generated w ++ [(messages_, context)] in
  if onStream then
    let '(chunks, failure) := streamResponse c messages_ context in
    ({| mem := mem w; generated := calls; archived := archived w;
        messageAdded := messageAdded w; evictedNotified := evictedNotified w;
        streamed := streamed w ++ partials "" chunks |},
     match failure with
     | Some err => Thrown err
     | None => Returned (String.concat "" chunks)
     end)
  else
    ({| mem := mem w; generated := calls; archived := archived w;
        messageAdded := messageAdded w; evictedNotified := evictedNotified w;
        streamed := streamed w |},
     generateResponse c messages_ context).

(** [sendMessage] from the generation call on, for a given context. *)
Definition replyPhase (c : Collaborators) (sid : string) (e2 : Env)
    (onStream : bool) (messages_ : list ChatMessage) (context : option string)
    (w : World) : World * outcome string :=
  match generate c onStream messages_ context w with
  | (w2, Thrown err) => (w2, Thrown err)
  | (w2, Returned assistantContent) =>
      match persistTurn c e2 assistant assistantContent sid w2 with
      | (w3, Thrown err) => (w3, Thrown err)
      | (w3, Returned _) => (w3, Returned assistantContent)
      end
  end.

(** The messages of the recent window, as handed to the generation call. *)
Definition recentChatMessages (sid : string) (db : DB) : list ChatMessage :=
  map (fun m => {| cm_role := role m; cm_content := content m |})
    (getRecentMessages (Some (RESPONSE_BUFFER * 4)) (Some sid) db).

(** [try { context = await getRelevantContext(userContent) } catch { warn }] *)
Definition retrieveContext (c : Collaborators) (s : Session)
    (userContent : string) : option string :=
  if useContext s then
    match getRelevantContext c userContent with
    | Returned context => context
    | Thrown _ => None
    end
  else None.

(** [sendMessage(userContent, onStream?)]; [e1] and [e2] are what the two
    calls of [addMessage] get from the environment. *)
Definition sendMessage (c : Collaborators) (s : Session) (e1 e2 : Env)
    (userContent : string) (onStream : bool) (w : World) : World * outcome string :=
  match persistTurn c e1 user userContent (session s) w with
  | (w1, Thrown err) => (w1, Thrown err)
  | (w1, Returned _) =>
      replyPhase c (session s) e2 onStream
        (recentChatMessages (session s) (mem w1))
        (retrieveContext c s userContent) w1
  end.

End ChatSession.

(** ** Concrete inputs used by the examples below *)
Module Scenarios.
Import MemoryStore.

(** ["a".repeat(n)] *)
Fixpoint replicate (n : nat) (c : ascii) : string :=
  match n with
  | O => EmptyString
  | S k => String c (replicate k c)
  end.

Definition env1 : Env := {| uuid := "id-1"; now := "2026-01-31T10:00:00.000Z" |}.
Definition env2 : Env := {| uuid := "id-2"; now := "2026-01-31T10:00:01.000Z" |}.

(** A single message of 2 799 987 characters: 800 001 estimated tokens. *)
Definition oversizedContent : string := replicate (Z.to_nat 2799987) "a".

(** Two messages of 2 500 000 and 400 000 characters: 714 290 and 114 290
    estimated tokens, 828 580 together. *)
Definition longContent : string := replicate (Z.to_nat 2500000) "a".
Definition mediumContent : string := replicate (Z.to_nat 400000) "b".

(** Scenario B: two adjacent sentences of 90 characters. *)
Definition sentences90 : string :=
  replicate 89 "a" +:+ ". " +:+ replicate 89 "b" +:+ ".".

(** Two adjacent sentences of 110 characters. *)
Definition sentences110 : string :=
  replicate 109 "a" +:+ ". " +:+ replicate 109 "b" +:+ ".".

(** A sentence of 110 characters and a line that holds a later period. *)
Definition laterMark : string :=
  replicate 109 "a" +:+ ". " +:+ "b.c" +:+ replicate 120 "b".

(** An initialised worker with an empty table, a working index and an
    empty mirror. *)
Definition freshWorker : VectorWorker.Worker :=
  {| VectorWorker.db := true;
     VectorWorker.training_chunks := [];
     VectorWorker.sqlite_sequence := 0;
     VectorWorker.vectors := Some ∅;
     VectorWorker.idb := Some [];
     VectorWorker.vec0Available := true;
     VectorWorker.vec0DisabledReason := None;
     VectorWorker.embedderPromise := None;
     VectorWorker.lastUsedBackend := "unknown";
     VectorWorker.pipelineLoads := O;
     VectorWorker.debugEnabled := false;
     VectorWorker.idbPutCount := 0;
     VectorWorker.posted := [] |}.

(** 768 float32 zeros, and a vector of two components. *)
Definition zeroVector : list VectorWorker.F32 :=
  repeat (Byte.x00, Byte.x00, Byte.x00, Byte.x00) 768.
Definition shortVector : list VectorWorker.F32 :=
  repeat (Byte.x00, Byte.x00, Byte.x00, Byte.x00) 2.

(** A mirror record whose embedding has four bytes. *)
Definition corruptedMirrorRow : VectorWorker.IdbRow :=
  {| VectorWorker.idb_key := "u::doc::0";
     VectorWorker.idb_id := 1;
     VectorWorker.idb_userId := "u";
     VectorWorker.idb_sourceName := "doc";
     VectorWorker.idb_chunkIndex := 0;
     VectorWorker.idb_text := "text";
     VectorWorker.idb_embedding :=
       VectorWorker.Uint8Array [Byte.x00; Byte.x00; Byte.x00; Byte.x00];
     VectorWorker.idb_status := "completed" |}.

(** One ingestion of a one-chunk text: the model loads on the default
    backend and the only batch returns one vector of 768 components. *)
Definition ingestOnce (w : VectorWorker.Worker)
    : option (VectorWorker.Worker * outcome unit) :=
  VectorWorker.prepareWithProgress (Returned "wasm")
    [(Returned [Some zeroVector], VectorWorker.Similar)]
    "u" "hello" "doc" true w.

Definition workerAfter (w : VectorWorker.Worker) : VectorWorker.Worker :=
  match ingestOnce w with Some (w', _) => w' | None => w end.

Definition ingestedOnce : VectorWorker.Worker := workerAfter freshWorker.
Definition ingestedTwice : VectorWorker.Worker := workerAfter ingestedOnce.

(** An earlier version of the document "doc", with two sections, and the
    worker that has ingested it; then the one-chunk text ingested without
    clearing, once and twice. *)
Definition twoSections : string := "alpha" +:+ String JsString.LF "## beta".

Definition ingestedEarlier : VectorWorker.Worker :=
  match VectorWorker.prepareWithProgress (Returned "wasm")
          [(Returned [Some zeroVector], VectorWorker.Similar);
           (Returned [Some zeroVector], VectorWorker.Similar)]
          "u" twoSections "doc" true freshWorker with
  | Some (w', _) => w'
  | None => freshWorker
  end.

Definition keepingOnce (w : VectorWorker.Worker) : VectorWorker.Worker :=
  match VectorWorker.prepareWithProgress (Returned "wasm")
          [(Returned [Some zeroVector], VectorWorker.Similar)]
          "u" "hello" "doc" false w with
  | Some (w', _) => w'
  | None => w
  end.

Definition corruptedMirrorWorker : VectorWorker.Worker :=
  VectorWorker.withIdb (Some [corruptedMirrorRow]) freshWorker.

(** An initialisation that is never run (the workers above are
    initialised), a k-nearest query that throws, one that returns every
    row of the table at distance 0, and a row found by the scan. *)
Definition notInitialising (w : VectorWorker.Worker)
    : VectorWorker.Worker * outcome unit :=
  (w, Thrown "not reached").

Definition failingQuery (w : VectorWorker.Worker) (b : VectorWorker.Blob)
    (k : Z) : outcome (list (VectorWorker.ChunkRow * Z)) :=
  Thrown "no such table: vectors".

Definition indexQuery (w : VectorWorker.Worker) (b : VectorWorker.Blob)
    (k : Z) : outcome (list (VectorWorker.ChunkRow * Z)) :=
  Returned (map (fun r => (r, 0)) (VectorWorker.training_chunks w)).

Definition scanRow : VectorWorker.ChunkRow :=
  {| VectorWorker.id := 1; VectorWorker.userId := "u";
     VectorWorker.sourceName := "doc"; VectorWorker.chunkIndex := 0;
     VectorWorker.text := "hello"; VectorWorker.embedding := None;
     VectorWorker.status := "completed" |}.

(** A short word twice. *)
Definition repeatedWord : string := "abcabc".

(** Two blocks of 100 characters with the same two words: in lower case
    with a space between them, and in upper case with a newline. *)
Definition lowerBlock : string := replicate 50 "x" +:+ " " +:+ replicate 49 "y".
Definition upperBlock : string :=
  replicate 50 "X" +:+ String JsString.LF (replicate 49 "Y").
Definition caseVariants : string := lowerBlock +:+ upperBlock.

(** A session whose context retrieval times out. *)
Definition greeting : string := "Dzień dobry.".

Definition timedOutRetrieval : ChatSession.Collaborators :=
  {| ChatSession.archiveMessages := fun _ => Returned tt;
     ChatSession.getRelevantContext := fun _ => Thrown "Worker timeout";
     ChatSession.generateResponse := fun _ _ => Returned greeting;
     ChatSession.streamResponse := fun _ _ => (["Dzień "; "dobry."], None) |}.

(** One caller, and an initialisation whose rehydration is rejected. *)
Definition rehydrationFails : list SqliteInit.Event :=
  [SqliteInit.Call 1; SqliteInit.DbOpened 7;
   SqliteInit.RehydrateSettles (Some "AbortError"); SqliteInit.BodyResumes].

End Scenarios.

(** ** lib/token-utils.ts: [chunkText], the splitter of archived turns *)
Module ArchiveChunks.
Import TokenUtils.

(** [text.lastIndexOf(c, fromIndex)] for a one-character pattern: the
    search starts at [fromIndex], clamped to the string, and runs
    backwards; [-1] when [c] does not occur at or before it. *)
Fixpoint lastIndexOfCharUpTo (c : ascii) (s : string) (i limit best : Z) : Z :=
  match s with
  | EmptyString => best
  | String d r =>
      lastIndexOfCharUpTo c r (i + 1) limit
        (if (i <=? limit) && Ascii.eqb d c then i else best)
  end.

Definition lastIndexOfChar (s : string) (c : ascii) (fromIndex : Z) : Z :=
  lastIndexOfCharUpTo c s 0 (Z.max fromIndex 0) (-1).

(** Positions of the loop are multiples of a quarter character
    ([maxTokens * 3.5], [maxChars * 0.5], [50 * 3.5]); they are kept in
    quarters, so [start4] stands for [start = start4 / 4].  An index
    argument is truncated towards zero ([Z.quot]) as [slice] and
    [lastIndexOf] do. *)
Definition maxChars4 (maxTokens : Z) : Z := 14 * maxTokens.
Definition overlapChars4 : Z := 14 * ARCHIVE_OVERLAP.

(** [end] of one window: the hard cut [start + maxChars], moved to just
    after the last period or newline at or before it when that lies beyond
    the middle of the window. *)
Definition windowEnd4 (text : string) (maxTokens start4 : Z) : Z :=
  let end4 := start4 + maxChars4 maxTokens in
  if end4 <? 4 * strlen text then
    let lastPeriod := lastIndexOfChar text "."%char (Z.quot end4 4) in
    let lastNewline := lastIndexOfChar text LF (Z.quot end4 4) in
    let breakPoint := Z.max lastPeriod lastNewline in
    if start4 + 7 * maxTokens <? 4 * breakPoint then 4 * (breakPoint + 1)
    else end4
  else end4.

(** The [while] loop; [None] when [fuel] iterations do not finish it. *)
Fixpoint chunkLoop (fuel : nat) (text : string) (maxTokens start4 : Z)
    (chunks : list string) : option (list string) :=
  match fuel with
  | O => None
  | S fuel' =>
      if start4 <? 4 * strlen text then
        let end4 := windowEnd4 text maxTokens start4 in
        let chunks' :=
          chunks ++ [trim (slice text (Z.quot start4 4) (Z.quot end4 4))] in
        let start' := end4 - overlapChars4 in
        if 4 * strlen text <=? start' then Some chunks'
        else chunkLoop fuel' text maxTokens start' chunks'
      else Some chunks
  end.

(** [chunkText(text, maxTokens = TOKEN_LIMITS.ARCHIVE_CHUNK_SIZE)] *)
Definition chunkText (fuel : nat) (text : string) (maxTokens : Z)
    : option (list string) :=
  if 4 * strlen text <=? maxChars4 maxTokens then Some [text]
  else option_map (List.filter (fun chunk => 0 <? strlen chunk))
         (chunkLoop fuel text maxTokens 0 []).

End ArchiveChunks.

(** ** workers/vector-db.worker.js: further requests *)
Module WorkerRequests.
Import JsString VectorWorker.

(** [clearUserData(userId)]: the structured table and the mirror. *)
Definition clearUserData (u : string) (w : Worker) : Worker :=
  idbDeleteUser u (deleteUserRows u w).

(** [SELECT COUNT( * ) as count, COALESCE(SUM(length(embedding)), 0) as bytes
    FROM training_chunks WHERE userId = ? AND status = 'completed']:
    the [count] and [bytes] that [getLocalStats(userId)] posts.  The length
    of a NULL embedding is NULL, which [SUM] skips. *)
Definition getLocalStats (u : string) (w : Worker) : Z * Z :=
  let rows := List.filter (fun r => String.eqb (userId r) u
                                    && String.eqb (status r) "completed")
                (training_chunks w) in
  (Z.of_nat (length rows),
   fold_right (fun r acc =>
                 match embedding r with
                 | Some b => blobLength b
                 | None => 0
                 end + acc) 0 rows).

(** *** Notions used to state the properties *)

(** The rows that the statistics query selects, and whether a row holds
    an embedding. *)
Definition completedRows (u : string) (w : Worker) : list ChunkRow :=
  List.filter (fun r => String.eqb (userId r) u
                        && String.eqb (status r) "completed")
    (training_chunks w).

Definition holdsEmbedding (r : ChunkRow) : bool :=
  match embedding r with Some _ => true | None => false end.

(** Every record of owner [u] in the mirror belongs to source [s] and
    has a chunk index in [0, n). *)
Definition ownedBySource (u s : string) (n : Z) (w : Worker) : Prop :=
  forall l c, idb w = Some l -> In c l -> idb_userId c = u ->
              idb_sourceName c = s /\ 0 <= idb_chunkIndex c < n.

(** [rows'] is [rows] after updates that set the rows whose id is in
    [ids] to 'completed' and leave every other row as it was. *)
Definition completedBy (ids : list Z) (rows rows' : list ChunkRow) : Prop :=
  Forall2 (fun x x' => id x' = id x /\
                       (In (id x) ids -> status x' = "completed") /\
                       (~ In (id x) ids -> x' = x)) rows rows'.

End WorkerRequests.

(** ** services/vector-store.ts *)
Module VectorStore.
Import JsString TokenUtils.

(** *** The calls in flight and the routing of the worker's messages *)

(** [s.endsWith(suffix)] *)
Definition endsWith (s suffix : string) : bool :=
  let n := String.length s in
  let k := String.length suffix in
  (k <=? n)%nat && String.eqb (String.substring (n - k) k s) suffix.

(** [responseMap[requestType] || `${requestType}Complete`], for the
    request types of this module (none of them is a property name of
    [Object.prototype]). *)
Definition getResponseType (requestType : string) : string :=
  if String.eqb requestType "init" then "ready"
  else if String.eqb requestType "storeChunks" then "storeComplete"
  else if String.eqb requestType "search" then "searchComplete"
  else if String.eqb requestType "getStats" then "statsComplete"
  else if String.eqb requestType "clear" then "clearComplete"
  else requestType +:+ "Complete".

Section Bridge.
(** What a request carries besides its type, and what a message of the
    worker carries besides its type. *)
Variables Payload Data : Type.

(** [const { type, ...data } = e.data]; [msg_error] is [data.error]. *)
Record WorkerMessage : Type := {
  msg_type : string;
  msg_error : option string;
  msg_data : Data
}.

Inductive Settlement : Type :=
| Resolved (data : Data)
| Rejected (message : string).

(** The module variables [workerReady], [pendingCallbacks] (a [Map], so
    in insertion order; the key [String(++callId)] is kept as the number)
    and [callId]; [posted] lists the requests sent to the worker and
    [settled] the promises of [workerCall] settled so far, in order. *)
Record Bridge : Type := {
  workerReady : bool;
  pendingCallbacks : list (Z * string);
  callId : Z;
  posted : list (string * Payload);
  settled : list (Z * Settlement)
}.

Definition initial : Bridge :=
  {| workerReady := false; pendingCallbacks := []; callId := 0;
     posted := []; settled := [] |}.

(** [type === "error" || type.endsWith("Error")] *)
Definition isErrorType (type : string) : bool :=
  String.eqb type "error" || endsWith type "Error".

(** The condition under which [onmessage] hands a message to a pending
    call. *)
Definition answers (m : WorkerMessage) (callback : Z * string) : bool :=
  String.eqb (msg_type m) (getResponseType (snd callback))
  || isErrorType (msg_type m).

(** [data.error || "Unknown error"] *)
Definition errorText (m : WorkerMessage) : string :=
  match msg_error m with
  | Some e => if String.eqb e "" then "Unknown error" else e
  | None => "Unknown error"
  end.

(** The loop of [onmessage] over [pendingCallbacks.entries()]: it stops
    at the first entry that the message answers and deletes it. *)
Fixpoint route (m : WorkerMessage) (pending : list (Z * string))
    : option (Z * string) * list (Z * string) :=
  match pending with
  | [] => (None, [])
  | callback :: rest =>
      if answers m callback then (Some callback, rest)
      else let '(hit, rest') := route m rest in (hit, callback :: rest')
  end.

(** [worker.onmessage] *)
Definition onmessage (m : WorkerMessage) (s : Bridge) : Bridge :=
  let ready := if String.eqb (msg_type m) "ready" then true else workerReady s in
  match route m (pendingCallbacks s) with
  | (None, _) =>
      {| workerReady := ready; pendingCallbacks := pendingCallbacks s;
         callId := callId s; posted := posted s; settled := settled s |}
  | (Some (id, _), rest) =>
      {| workerReady := ready; pendingCallbacks := rest;
         callId := callId s; posted := posted s;
         settled := settled s ++
                    [(id, if isErrorType (msg_type m)
                          then Rejected (errorText m)
                          else Resolved (msg_data m))] |}
  end.

(** The executor of the promise of [workerCall(type, payload)]. *)
Definition workerCall (type : string) (payload : Payload) (s : Bridge) : Bridge :=
  let id := callId s + 1 in
  {| workerReady := workerReady s;
     pendingCallbacks := pendingCallbacks s ++ [(id, type)];
     callId := id;
     posted := posted s ++ [(type, payload)];
     settled := settled s |}.

(** The timer callback of the call [id], 60 seconds after the call. *)
Definition timeout (id : Z) (s : Bridge) : Bridge :=
  if existsb (fun callback => fst callback =? id) (pendingCallbacks s) then
    {| workerReady := workerReady s;
       pendingCallbacks :=
         List.filter (fun callback => negb (fst callback =? id))
           (pendingCallbacks s);
       callId := callId s; posted := posted s;
       settled := settled s ++ [(id, Rejected "Worker timeout")] |}
  else s.

(** What happens on the main thread, one task at a time. *)
Inductive Event : Type :=
| Call (type : string) (payload : Payload)
| Message (m : WorkerMessage)
| Timeout (id : Z).

Definition step (s : Bridge) (ev : Event) : Bridge :=
  match ev with
  | Call type payload => workerCall type payload s
  | Message m => onmessage m s
  | Timeout id => timeout id s
  end.

Definition run (events : list Event) : Bridge := fold_left step events initial.

(** The keys of all calls made so far: those in flight, then those
    settled. *)
Definition callIds (s : Bridge) : list Z :=
  map fst (pendingCallbacks s) ++ map fst (settled s).

End Bridge.

Arguments msg_type {Data} _.
Arguments msg_error {Data} _.
Arguments msg_data {Data} _.
Arguments Resolved {Data} _.
Arguments Rejected {Data} _.
Arguments workerReady {Payload Data} _.
Arguments pendingCallbacks {Payload Data} _.
Arguments callId {Payload Data} _.
Arguments posted {Payload Data} _.
Arguments settled {Payload Data} _.
Arguments initial {Payload Data}.
Arguments answers {Data} _ _.
Arguments errorText {Data} _.
Arguments route {Data} _ _.
Arguments onmessage {Payload Data} _ _.
Arguments workerCall {Payload Data} _ _ _.
Arguments timeout {Payload Data} _ _.
Arguments Call {Payload Data} _ _.
Arguments Message {Payload Data} _.
Arguments Timeout {Payload Data} _.
Arguments step {Payload Data} _ _.
Arguments run {Payload Data} _.
Arguments callIds {Payload Data} _.

(** *** [archiveMessages(messages)] *)

Definition roleName (r : MemoryStore.Role) : string :=
  match r with
  | MemoryStore.user => "user"
  | MemoryStore.assistant => "assistant"
  | MemoryStore.system => "system"
  end.

(** [messages.map((m) => `[${m.role}] ${m.content}`).join("\n\n")] *)
Definition combinedText (messages : list MemoryStore.ConversationMessage)
    : string :=
  String.concat (String LF (String LF EmptyString))
    (map (fun m => "[" +:+ roleName (MemoryStore.role m) +:+ "] "
                   +:+ MemoryStore.content m) messages).

Record ArchiveChunk : Type := {
  chunk_id : string;
  chunk_source : string;
  chunk_chunkIndex : Z;
  chunk_text : string;
  chunk_createdAt : string
}.

(** [textChunks.map((text, index) => ({ ... }))]; [clock index] is what
    [Date.now()] and [new Date().toISOString()] give when the chunk
    [index] is formatted. *)
Fixpoint formatChunks (clock : Z -> Z * string) (index : Z)
    (textChunks : list string) : list ArchiveChunk :=
  match textChunks with
  | [] => []
  | text :: rest =>
      {| chunk_id := "conv_" +:+ pretty (fst (clock index)) +:+ "_" +:+ pretty index;
         chunk_source := "conversation";
         chunk_chunkIndex := index;
         chunk_text := text;
         chunk_createdAt := snd (clock index) |}
      :: formatChunks clock (index + 1) rest
  end.

(** [archiveMessages] up to its call of [workerCall("storeChunks", ...)]:
    the chunks of the request, [Some None] when it returns without a
    request; [None] when [chunkText] does not return within [fuel]
    iterations. *)
Definition archiveMessages (fuel : nat) (clock : Z -> Z * string)
    (messages : list MemoryStore.ConversationMessage)
    : option (option (list ArchiveChunk)) :=
  match messages with
  | [] => Some None
  | _ :: _ =>
      match ArchiveChunks.chunkText fuel (combinedText messages)
              ARCHIVE_CHUNK_SIZE with
      | None => None
      | Some [] => Some None
      | Some textChunks => Some (Some (formatChunks clock 0 textChunks))
      end
  end.

(** *** [getRelevantContext(query, maxTokens)] *)

Section Context.
(** The scores are numbers of the worker; all that is done with them is
    the test [r.score > 0.3]. *)
Variable Score : Type.
Variable aboveThreshold : Score -> bool.

Record SearchResult : Type := { text : string; score : Score }.

(** ["\n\n---\n\n"] *)
Definition separator : string :=
  String LF (String LF ("---" +:+ String LF (String LF EmptyString))).

(** The loop [for (const result of relevant)]; [maxChars] is
    [maxTokens * 3.5], so the test is made on doubled lengths. *)
Fixpoint appendWhileFits (maxTokens : Z) (relevant : list SearchResult)
    (context : string) : string :=
  match relevant with
  | [] => context
  | result :: rest =>
      if 7 * maxTokens <? 2 * (strlen context + strlen (text result))
      then context
      else appendWhileFits maxTokens rest (context +:+ text result +:+ separator)
  end.

(** [search] is the outcome of [searchContext(query, 10)]. *)
Definition getRelevantContext (search : outcome (list SearchResult))
    (maxTokens : option Z) : outcome (option string) :=
  match search with
  | Thrown err => Thrown err
  | Returned [] => Returned None
  | Returned results =>
      match List.filter (fun r => aboveThreshold (score r)) results with
      | [] => Returned None
      | relevant =>
          let limit := match maxTokens with
                       | Some n => n
                       | None => MAX_RETRIEVED_CONTEXT
                       end in
          let context := trim (appendWhileFits limit relevant "") in
          Returned (if String.eqb context "" then None else Some context)
      end
  end.

(** The texts of [included], each followed by the separator. *)
Fixpoint joined (included : list SearchResult) : string :=
  match included with
  | [] => ""
  | r :: rest => text r +:+ separator +:+ joined rest
  end.

End Context.

Arguments text {Score} _.
Arguments score {Score} _.
Arguments appendWhileFits {Score} _ _ _.
Arguments getRelevantContext {Score} _ _ _.
Arguments joined {Score} _.

End VectorStore.

(** ** lib/vector-search.js: the reader of the streamed reply *)
Module StreamReader.
Import JsString.

(** [buffer.split("\n")]: never empty. *)
Fixpoint split_LF (s : string) : list string :=
  match s with
  | EmptyString => [EmptyString]
  | String c r =>
      if Ascii.eqb c LF then EmptyString :: split_LF r
      else match split_LF r with
           | first :: rest => String c first :: rest
           | [] => [String c EmptyString]
           end
  end.

(** [fullText] and the calls of [onStream], oldest first. *)
Record Progress : Type := {
  fullText : string;
  onStream : list string
}.

Definition start : Progress := {| fullText := ""; onStream := [] |}.

Section Reader.
(** [deltaOf data] is what the [try] block finds in one event:
    [JSON.parse(data)], then [choices[0].delta.content], else
    [choices[0].message.content]; [Some delta] when that is truthy, with
    [delta] as the string appended by [fullText += delta], and [None] when
    it is falsy or anything in the block throws. *)
Variable deltaOf : string -> option string.

(** The body of [for (const line of lines)]; [true] stands for the
    [return] at "[DONE]". *)
Definition processLine (line : string) (p : Progress) : Progress * bool :=
  let trimmed := trim line in
  if negb (String.prefix "data:" trimmed) then (p, false)
  else
    let data := trim (dropChars 5 trimmed) in
    if String.eqb data "[DONE]" then (p, true)
    else
      match deltaOf data with
      | Some delta =>
          ({| fullText := fullText p +:+ delta;
              onStream := onStream p ++ [fullText p +:+ delta] |}, false)
      | None => (p, false)
      end.

Fixpoint processLines (lines : list string) (p : Progress) : Progress * bool :=
  match lines with
  | [] => (p, false)
  | line :: rest =>
      match processLine line p with
      | (p', true) => (p', true)
      | (p', false) => processLines rest p'
      end
  end.

(** The loop [while (true)] over [reader.read()].  [reads] are the texts
    that [decoder.decode(value, { stream: true })] yields for the values
    read; [ending] tells how the body ends after them: with [done], or
    with the exception of a rejected read.  The result is [llmText]. *)
Fixpoint readLoop (reads : list string) (ending : option string)
    (buffer : string) (p : Progress) : Progress * outcome string :=
  match reads with
  | [] =>
      match ending with
      | Some err => (p, Thrown err)
      | None =>
          (p, Returned (if String.eqb (fullText p) ""
                        then "Brak odpowiedzi od LLM." else fullText p))
      end
  | value :: rest =>
      let lines := split_LF (buffer +:+ value) in
      match processLines (removelast lines) p with
      | (p', true) => (p', Returned (fullText p'))
      | (p', false) => readLoop rest ending (List.last lines "") p'
      end
  end.

Definition readStream (reads : list string) (ending : option string)
    : Progress * outcome string :=
  readLoop reads ending "" start.

End Reader.

(** *** Notions used to state the properties *)

(** [s] contains a newline. *)
Fixpoint hasLF (s : string) : bool :=
  match s with
  | EmptyString => false
  | String c r => Ascii.eqb c LF || hasLF r
  end.

End StreamReader.

(** ** The writers to Firestore: [writeChunksToFirestore] of the training
    module and [uploadToFirestore] of lib/vector-search.js *)
Module Firestore.

Definition BATCH_WRITE_LIMIT : Z := 450.

Section Writers.
(** The embedding of a chunk, an array of numbers. *)
Variable Vec : Type.
(** What the [n]-th [batch.commit()] of the session does: [None] when it
    succeeds, the exception when it is rejected. *)
Variable commitError : nat -> option string.

(** A document of [users/{userId}/trainingVectors], without the field
    [createdAt] that the server fills in.  [totalChunks] and [model] are
    written by the training module only. *)
Record Doc : Type := {
  sourceFileName : string;
  chunkIndex : Z;
  totalChunks : option Z;
  text : string;
  embedding : Vec;
  model : option string
}.

Inductive Write : Type :=
| SetDoc (ref : Z) (d : Doc)
| DeleteDoc (ref : Z).

(** The collection of one user, the counter behind the automatic ids of
    [doc(baseCollection)], the number of commits attempted, the batches
    committed, and the calls of [onProgress]. *)
Record Store : Type := {
  docs : list (Z * Doc);
  nextRef : Z;
  attempts : nat;
  committed : list (list Write);
  progress : list (Z * Z)
}.

Definition applyWrite (c : list (Z * Doc)) (w : Write) : list (Z * Doc) :=
  match w with
  | SetDoc ref d => List.filter (fun e => negb (fst e =? ref)) c ++ [(ref, d)]
  | DeleteDoc ref => List.filter (fun e => negb (fst e =? ref)) c
  end.

(** [await batch.commit()]: all writes of the batch, or none. *)
Definition commit (batch : list Write) (st : Store) : Store * outcome unit :=
  match commitError (attempts st) with
  | Some err =>
      ({| docs := docs st; nextRef := nextRef st; attempts := S (attempts st);
          committed := committed st; progress := progress st |}, Thrown err)
  | None =>
      ({| docs := fold_left applyWrite batch (docs st); nextRef := nextRef st;
          attempts := S (attempts st); committed := committed st ++ [batch];
          progress := progress st |}, Returned tt)
  end.

(** [doc(baseCollection)] *)
Definition newRef (st : Store) : Store :=
  {| docs := docs st; nextRef := nextRef st + 1; attempts := attempts st;
     committed := committed st; progress := progress st |}.

Definition report (completed total : Z) (st : Store) : Store :=
  {| docs := docs st; nextRef := nextRef st; attempts := attempts st;
     committed := committed st; progress := progress st ++ [(completed, total)] |}.

(** [items.slice(i, end)] for [0 <= i <= end] *)
Definition sliceList {A} (items : list A) (i end_ : Z) : list A :=
  firstn (Z.to_nat (end_ - i)) (skipn (Z.to_nat i) items).

(** The loop shared by the two writers:
    [for (let i = 0; i < items.length; i += limit)] with a new batch
    filled from [items.slice(i, i + limit)], its commit, and the call of
    [onProgress] where there is one.  [None] when [fuel] iterations do not
    finish it. *)
Fixpoint batchLoop {A} (fuel : nat) (limit : Z) (items : list A)
    (fill : Z -> list A -> Store -> Store * outcome (list Write))
    (onProgress : bool) (i : Z) (st : Store) : option (Store * outcome unit) :=
  match fuel with
  | O => None
  | S fuel' =>
      if i <? Z.of_nat (length items) then
        let slice_ := sliceList items i (i + limit) in
        match fill i slice_ st with
        | (st1, Thrown err) => Some (st1, Thrown err)
        | (st1, Returned batch) =>
            match commit batch st1 with
            | (st2, Thrown err) => Some (st2, Thrown err)
            | (st2, Returned _) =>
                batchLoop fuel' limit items fill onProgress (i + limit)
                  (if onProgress
                   then report (i + Z.of_nat (length slice_))
                          (Z.of_nat (length items)) st2
                   else st2)
            end
        end
      else Some (st, Returned tt)
  end.

(** *** [writeChunksToFirestore({ userId, fileName, chunks, vectors })] *)

(** [batch.delete(docs[j].ref)] for the documents of one slice *)
Definition fillDeletes (i : Z) (refs : list Z) (st : Store)
    : Store * outcome (list Write) :=
  (st, Returned (map DeleteDoc refs)).

(** The inner loop over [index]: a new reference, then [vectors[index]],
    whose conversion throws a TypeError when the entry is missing. *)
Fixpoint fillChunks (fileName modelId : string) (total : Z) (vectors : list Vec)
    (index : Z) (texts : list string) (st : Store)
    : Store * outcome (list Write) :=
  match texts with
  | [] => (st, Returned [])
  | t :: rest =>
      let ref := nextRef st in
      let st1 := newRef st in
      match nth_error vectors (Z.to_nat index) with
      | None => (st1, Thrown "TypeError")
      | Some vecData =>
          match fillChunks fileName modelId total vectors (index + 1) rest st1 with
          | (st2, Returned batch) =>
              (st2, Returned
                      (SetDoc ref {| sourceFileName := fileName;
                                     chunkIndex := index;
                                     totalChunks := Some total;
                                     text := t;
                                     embedding := vecData;
                                     model := Some modelId |} :: batch))
          | (st2, Thrown err) => (st2, Thrown err)
          end
      end
  end.

(** [existing] is the outcome of [getDocs(baseCollection)]: the documents
    of the collection, or the exception of a rejected read. *)
Definition writeChunksToFirestore (fuel : nat) (readError : option string)
    (fileName modelId : string) (chunks : list string) (vectors : list Vec)
    (st : Store) : option (Store * outcome unit) :=
  match readError with
  | Some err => Some (st, Thrown err)
  | None =>
      let existing := map fst (docs st) in
      match batchLoop fuel BATCH_WRITE_LIMIT existing fillDeletes false 0 st with
      | Some (st1, Returned _) =>
          batchLoop fuel BATCH_WRITE_LIMIT chunks
            (fillChunks fileName modelId (Z.of_nat (length chunks)) vectors)
            false 0 st1
      | other => other
      end
  end.

(** *** [uploadToFirestore(userId, onProgress)] *)

(** A row of the message "completed_chunks". *)
Record Row : Type := {
  row_sourceName : string;
  row_chunkIndex : Z;
  row_text : string;
  row_embedding : Vec
}.

(** [Array.from(new Float32Array(r.embedding))] *)
Variable toFloat32 : Vec -> Vec.

Fixpoint fillRows (i : Z) (rows : list Row) (st : Store)
    : Store * outcome (list Write) :=
  match rows with
  | [] => (st, Returned [])
  | r :: rest =>
      let ref := nextRef st in
      match fillRows i rest (newRef st) with
      | (st2, Returned batch) =>
          (st2, Returned
                  (SetDoc ref {| sourceFileName := row_sourceName r;
                                 chunkIndex := row_chunkIndex r;
                                 totalChunks := None;
                                 text := row_text r;
                                 embedding := toFloat32 (row_embedding r);
                                 model := None |} :: batch))
      | (st2, Thrown err) => (st2, Thrown err)
      end
  end.

(** [completed] is the outcome of [getLocalCompletedChunks(userId)]. *)
Definition uploadToFirestore (fuel : nat) (completed : outcome (list Row))
    (onProgress : bool) (st : Store) : option (Store * outcome unit) :=
  match completed with
  | Thrown err => Some (st, Thrown err)
  | Returned rows => batchLoop fuel 400 rows fillRows onProgress 0 st
  end.

(** *** Notions used to state the properties *)

(** The ids of the collection are pairwise distinct and were all handed
    out by the counter. *)
Definition wellFormed (st : Store) : Prop :=
  NoDup (map fst (docs st)) /\ Forall (fun e => fst e < nextRef st) (docs st).

(** The documents that the training module writes for [chunks]. *)
Fixpoint chunkDocs (fileName modelId : string) (total : Z) (index : Z)
    (chunks : list string) (vectors : list Vec) : list Doc :=
  match chunks, vectors with
  | t :: rest, v :: vrest =>
      {| sourceFileName := fileName; chunkIndex := index;
         totalChunks := Some total; text := t; embedding := v;
         model := Some modelId |}
      :: chunkDocs fileName modelId total (index + 1) rest vrest
  | _, _ => []
  end.

Definition rowDoc (r : Row) : Doc :=
  {| sourceFileName := row_sourceName r; chunkIndex := row_chunkIndex r;
     totalChunks := None; text := row_text r;
     embedding := toFloat32 (row_embedding r); model := None |}.

(** The writes and the entries of documents created one after the other
    from the reference [ref] on, and the store after [k] calls of
    [doc(baseCollection)]. *)
Fixpoint setsFrom (ref : Z) (ds : list Doc) : list Write :=
  match ds with
  | [] => []
  | d :: rest => SetDoc ref d :: setsFrom (ref + 1) rest
  end.

Fixpoint entriesFrom (ref : Z) (ds : list Doc) : list (Z * Doc) :=
  match ds with
  | [] => []
  | d :: rest => (ref, d) :: entriesFrom (ref + 1) rest
  end.

Definition advance (k : Z) (st : Store) : Store :=
  {| docs := docs st; nextRef := nextRef st + k; attempts := attempts st;
     committed := committed st; progress := progress st |}.

(** The reports of a loop over [n] items from position [i] on. *)
Fixpoint progressFrom (fuel : nat) (limit n i : Z) : list (Z * Z) :=
  match fuel with
  | O => []
  | S fuel' =>
      if i <? n then (Z.min (i + limit) n, n) :: progressFrom fuel' limit n (i + limit)
      else []
  end.

End Writers.

Arguments sourceFileName {Vec} _.
Arguments chunkIndex {Vec} _.
Arguments totalChunks {Vec} _.
Arguments text {Vec} _.
Arguments embedding {Vec} _.
Arguments model {Vec} _.
Arguments SetDoc {Vec} _ _.
Arguments DeleteDoc {Vec} _.
Arguments docs {Vec} _.
Arguments nextRef {Vec} _.
Arguments attempts {Vec} _.
Arguments committed {Vec} _.
Arguments progress {Vec} _.
Arguments applyWrite {Vec} _ _.
Arguments commit {Vec} _ _ _.
Arguments newRef {Vec} _.
Arguments report {Vec} _ _ _.
Arguments batchLoop {Vec} _ {A} _ _ _ _ _ _ _.
Arguments fillDeletes {Vec} _ _ _.
Arguments fillChunks {Vec} _ _ _ _ _ _ _.
Arguments writeChunksToFirestore {Vec} _ _ _ _ _ _ _ _.
Arguments row_sourceName {Vec} _.
Arguments row_chunkIndex {Vec} _.
Arguments row_text {Vec} _.
Arguments row_embedding {Vec} _.
Arguments fillRows {Vec} _ _ _ _.
Arguments uploadToFirestore {Vec} _ _ _ _ _ _.
Arguments wellFormed {Vec} _.
Arguments chunkDocs {Vec} _ _ _ _ _ _.
Arguments rowDoc {Vec} _ _.
Arguments setsFrom {Vec} _ _.
Arguments entriesFrom {Vec} _ _.
Arguments advance {Vec} _ _.

End Firestore.

(** ** lib/vector-search.js: the promise around an ingestion request *)
Module PrepareRequest.
Import VectorWorker.

Inductive Settlement : Type :=
| Resolved
| Rejected (message : string).

(** The calls of [onProgress] made so far, and how the promise of
    [prepareLocalDatabase] was settled, if it was. *)
Record Request : Type := {
  onProgress : list (Z * Z);
  settlement : option Settlement
}.

Definition listening : Request := {| onProgress := []; settlement := None |}.

(** The [handler] that [prepareLocalDatabase] adds to the worker; it
    removes itself when it settles the promise.  Messages of other types
    are not for it. *)
Definition handler (r : Request) (msg : Message) : Request :=
  match settlement r with
  | Some _ => r
  | None =>
      match msg with
      | progress completed total =>
          {| onProgress := onProgress r ++ [(completed, total)];
             settlement := None |}
      | done_prepare =>
          {| onProgress := onProgress r; settlement := Some Resolved |}
      | error message =>
          {| onProgress := onProgress r; settlement := Some (Rejected message) |}
      | _ => r
      end
  end.

(** [prepareLocalDatabase(userId, text, sourceName, onProgress, onStatus,
    clearExisting)] against a worker that handles the request "prepare":
    the handler sees the messages posted from the request on. *)
Definition prepareLocalDatabase (load : outcome string)
    (script : list (outcome (list (option (list F32))) * Timing))
    (u text_ s : string) (clearExisting : bool) (w : Worker)
    : option (Worker * Request) :=
  match onmessage_prepare load script u text_ s clearExisting w with
  | None => None
  | Some w' =>
      Some (w', fold_left handler (skipn (length (posted w)) (posted w')) listening)
  end.

(** *** Notions used to state the properties *)

(** The reports [first + 1], ..., [first + k] out of [total]. *)
Fixpoint reportsFrom (first total : Z) (k : nat) : list (Z * Z) :=
  match k with
  | O => []
  | S k' => (first + 1, total) :: reportsFrom (first + 1) total k'
  end.

(** The progress reports among some messages, and the messages that
    settle the promise. *)
Definition reportsOf (l : list Message) : list (Z * Z) :=
  flat_map (fun m => match m with
                     | progress completed total => [(completed, total)]
                     | _ => []
                     end) l.

Definition settles (m : Message) : bool :=
  match m with
  | done_prepare | error _ => true
  | _ => false
  end.

(** [w'] has posted what [w] had, then messages that carry the reports
    [reports] and do not settle the promise. *)
Definition reporting (reports : list (Z * Z)) (w w' : Worker) : Prop :=
  exists l, posted w' = posted w ++ l /\ reportsOf l = reports /\
            forallb (fun m => negb (settles m)) l = true.

End PrepareRequest.

(** ** lib/vector-search.js: the Firestore tier of [performSearchAndLLM] *)
Module FirestoreTier.
Section Tier.
(** A candidate with its score.  [sourceName r] is [r.sourceName]: the
    documents of the two writers have the field [sourceFileName], so for
    them it is [undefined]; [mentions r] is the test
    [queryTerms.some((term) => textLower.includes(term))]. *)
Variable Cand : Type.
Variable sourceName : Cand -> option string.
Variable chunkIndex : Cand -> Z.
Variable mentions : Cand -> bool.

(** [`${r.sourceName}-${r.chunkIndex}`] *)
Definition key (r : Cand) : string :=
  match sourceName r with Some s => s | None => "undefined" end
  +:+ "-" +:+ pretty (chunkIndex r).

(** [uniqueResults.set(k, v)] on a [Map], which keeps insertion order:
    an existing key keeps its place and takes the new value. *)
Fixpoint mapSet (k : string) (v : Cand) (m : list (string * Cand))
    : list (string * Cand) :=
  match m with
  | [] => [(k, v)]
  | (k', v') :: rest =>
      if String.eqb k' k then (k, v) :: rest else (k', v') :: mapSet k v rest
  end.

(** [items.slice(0, n)] *)
Definition sliceFirst {A} (items : list A) (n : Z) : list A :=
  if n <? 0 then firstn (length items - Z.to_nat (- n)) items
  else firstn (Z.to_nat n) items.

(** The candidates handed to the unique map, must-includes first. *)
Definition offered (scored : list Cand) (topK : Z) : list Cand :=
  sliceFirst (List.filter mentions scored) 2 ++ sliceFirst scored topK.

(** From [results = scored.slice(0, topK)] to
    [results = Array.from(uniqueResults.values()).slice(0, topK)];
    [scored] is the list after [scored.sort(...)]. *)
Definition selectResults (scored : list Cand) (topK : Z) : list Cand :=
  let uniqueResults :=
    fold_left (fun m r => mapSet (key r) r m) (offered scored topK) [] in
  sliceFirst (map snd uniqueResults) topK.

(** [keywordResults.length ? keywordResults : results] *)
Definition contextSource (results : list Cand) : list Cand :=
  match List.filter mentions results with
  | [] => results
  | keywordResults => keywordResults
  end.

(** *** Notions used to state the properties *)

(** [r] is the last of the candidates [seen] with its key. *)
Definition lastOf (seen : list Cand) (r : Cand) : Prop :=
  exists before after,
    seen = before ++ r :: after /\
    Forall (fun x => key x <> key r) after.

End Tier.

Arguments key {Cand} _ _ _.
Arguments mapSet {Cand} _ _ _.
Arguments offered {Cand} _ _ _.
Arguments selectResults {Cand} _ _ _ _ _.
Arguments contextSource {Cand} _ _.
Arguments lastOf {Cand} _ _ _ _.

End FirestoreTier.

(** ** The training module: [embedChunksWithConcurrency]

    Two callers of the nested function [worker] share [nextIndex],
    [completed] and [results].  Between two [await]s each runs alone, so an
    execution is a sequence of turns, each the run of one of the two from
    one [await] to the next. *)
Module EmbedPool.

Section Pool.
Variable Vec : Type.
(** The outcome of [embedText(embedder, chunks[index])], and
    [chunks.length]. *)
Variable embedText : nat -> outcome Vec.
Variable n : nat.

Inductive WorkerState : Type :=
| AtLoop
| Embedding (index : nat)
| Finished
| Failed (err : string).

(** [results] is [new Array(chunks.length)], its holes are [None]. *)
Record Pool : Type := {
  results : list (option Vec);
  completed : nat;
  nextIndex : nat;
  first : WorkerState;
  second : WorkerState;
  onProgress : list (nat * nat)
}.

(** One turn of a caller of [worker] in state [me]: from the test of the
    [while] to the call of [embedText], or from the value of [embedText]
    through [onProgress] back to the test.  (An index is always inside
    [results], where [<[index := _]>] is the assignment.) *)
Definition resume (me : WorkerState) (p : Pool) : WorkerState * Pool :=
  match me with
  | AtLoop =>
      if (nextIndex p <? n)%nat then
        (Embedding (nextIndex p),
         {| results := results p; completed := completed p;
            nextIndex := S (nextIndex p); first := first p; second := second p;
            onProgress := onProgress p |})
      else (Finished, p)
  | Embedding index =>
      match embedText index with
      | Returned vector =>
          (AtLoop,
           {| results := <[index := Some vector]> (results p);
              completed := S (completed p);
              nextIndex := nextIndex p; first := first p; second := second p;
              onProgress := onProgress p ++ [(S (completed p), n)] |})
      | Thrown err => (Failed err, p)
      end
  | Finished | Failed _ => (me, p)
  end.

(** A turn of the first caller ([true]) or of the second one. *)
Definition step (p : Pool) (w : bool) : Pool :=
  if w then
    let '(me, p') := resume (first p) p in
    {| results := results p'; completed := completed p';
       nextIndex := nextIndex p'; first := me; second := second p';
       onProgress := onProgress p' |}
  else
    let '(me, p') := resume (second p) p in
    {| results := results p'; completed := completed p';
       nextIndex := nextIndex p'; first := first p'; second := me;
       onProgress := onProgress p' |}.

(** [Array.from({ length: EMBED_CONCURRENCY }, () => worker())]: each of
    the two calls runs to its first [await]. *)
Definition start : Pool :=
  step (step {| results := replicate n None; completed := 0; nextIndex := 0;
                first := AtLoop; second := AtLoop; onProgress := [] |} true)
       false.

Definition run (schedule : list bool) : Pool := fold_left step schedule start.

(** [await Promise.all(workers); return results] once both have
    returned. *)
Definition returned (p : Pool) : option (list (option Vec)) :=
  match first p, second p with
  | Finished, Finished => Some (results p)
  | _, _ => None
  end.

(** *** Notions used to state the properties *)

Definition embeds (me : WorkerState) (i : nat) : bool :=
  match me with Embedding j => (j =? i)%nat | _ => false end.

Definition busy (me : WorkerState) : nat :=
  match me with Embedding _ => 1 | _ => 0 end.

(** An upper bound of the turns a caller still takes. *)
Definition turnsLeft (me : WorkerState) (p : Pool) : nat :=
  match me with
  | AtLoop => 1 + 2 * (n - nextIndex p)
  | Embedding _ => 2 + 2 * (n - nextIndex p)
  | Finished | Failed _ => 0
  end.

(** What every turn keeps when no embedding fails; [vec i] is the vector
    of chunk [i]. *)
Record invariant (vec : nat -> Vec) (p : Pool) : Prop := {
  next_in_range : (nextIndex p <= n)%nat;
  results_length : length (results p) = n;
  first_taken : forall i, first p = Embedding i -> (i < nextIndex p)%nat;
  second_taken : forall i, second p = Embedding i -> (i < nextIndex p)%nat;
  taken_once : forall i, first p = Embedding i -> second p <> Embedding i;
  results_filled :
    forall i, (i < n)%nat ->
      results p !! i
      = Some (if (i <? nextIndex p)%nat
                 && negb (embeds (first p) i || embeds (second p) i)
              then Some (vec i) else None);
  completed_count :
    (completed p + busy (first p) + busy (second p))%nat = nextIndex p;
  progress_reports :
    onProgress p = map (fun k => (k, n)) (seq 1 (completed p));
  first_done : first p = Finished -> nextIndex p = n;
  second_done : second p = Finished -> nextIndex p = n;
  first_sound : forall err, first p <> Failed err;
  second_sound : forall err, second p <> Failed err
}.

End Pool.

Arguments results {Vec} _.
Arguments completed {Vec} _.
Arguments nextIndex {Vec} _.
Arguments first {Vec} _.
Arguments second {Vec} _.
Arguments onProgress {Vec} _.
Arguments resume {Vec} _ _ _ _.
Arguments step {Vec} _ _ _ _.
Arguments start {Vec} _ _.
Arguments run {Vec} _ _ _.
Arguments returned {Vec} _.
Arguments turnsLeft {Vec} _ _ _.
Arguments invariant {Vec} _ _ _.

End EmbedPool.

(** ** The worker of the conversation archive (the IndexedDB store
    "terapeuta_vectors"), which answers the requests of
    services/vector-store.ts *)
Module ArchiveWorker.
Import VectorStore.

Section Worker.
(** An embedding (an array of numbers), and a search result (a stored
    chunk without its embedding, with its score). *)
Variables Vec Result : Type.

(** A record of the store "chunks" (key path [id]). *)
Record Stored : Type := {
  stored_id : string;
  stored_source : string;
  stored_chunkIndex : Z;
  stored_text : string;
  stored_embedding : Vec;
  stored_createdAt : string
}.

(** What the environment does: whether [self.indexedDB] exists, how
    [indexedDB.open] and the requests [put], [getAll] and [clear] end,
    what [pipeline(...)] and the embedder give, and the ranking that
    [handleSearch] computes (similarities, sort, the first [topK], without
    the embeddings). *)
Record Env : Type := {
  hasIndexedDB : bool;
  openRequest : outcome unit;
  putRequest : Stored -> outcome unit;
  getAllRequest : outcome unit;
  clearRequest : outcome unit;
  loadPipeline : outcome unit;
  runEmbedder : string -> outcome Vec;
  rank : Vec -> list Stored -> Z -> list Result;
  now : string
}.

Variable env : Env.

Record StoreResult : Type := {
  result_id : string;
  result_success : bool;
  result_error : option string
}.

(** What a message carries besides its type; [Stats] keeps the sum of the
    lengths of the texts, which is four times [totalTokens] (the quotients
    by 4 and their sum are exact in floating point). *)
Inductive Reply : Type :=
| NoData
| StoreResults (results : list StoreResult) (count : Z)
| SearchResults (results : list Result)
| Stats (chunkCount : Z) (totalLength : Z)
| ClearOk
| ErrorOnly.

(** The store, ordered by key, the two memoized promises and the messages
    posted. *)
Record Worker : Type := {
  chunks : list Stored;
  idbPromise : option (outcome unit);
  embedderPromise : option (outcome unit);
  posted : list (WorkerMessage Reply)
}.

Definition withChunks (l : list Stored) (w : Worker) : Worker :=
  {| chunks := l; idbPromise := idbPromise w;
     embedderPromise := embedderPromise w; posted := posted w |}.

(** [postResult(type, data)] *)
Definition postResult (type : string) (error : option string) (data : Reply)
    (w : Worker) : Worker :=
  {| chunks := chunks w; idbPromise := idbPromise w;
     embedderPromise := embedderPromise w;
     posted := posted w ++ [{| msg_type := type; msg_error := error;
                               msg_data := data |}] |}.

(** [openIdb()]: [Returned false] stands for the [null] of a context
    without IndexedDB; the promise of the first [indexedDB.open] is kept,
    also when it is rejected. *)
Definition openIdb (w : Worker) : Worker * outcome bool :=
  if negb (hasIndexedDB env) then (w, Returned false)
  else
    match idbPromise w with
    | Some (Returned _) => (w, Returned true)
    | Some (Thrown err) => (w, Thrown err)
    | None =>
        ({| chunks := chunks w; idbPromise := Some (openRequest env);
            embedderPromise := embedderPromise w; posted := posted w |},
         match openRequest env with
         | Returned _ => Returned true
         | Thrown err => Thrown err
         end)
    end.

(** [store.put(chunk)] on the store, which is kept in key order. *)
Fixpoint put (c : Stored) (l : list Stored) : list Stored :=
  match l with
  | [] => [c]
  | x :: rest =>
      match String.compare (stored_id x) (stored_id c) with
      | Lt => x :: put c rest
      | Eq => c :: rest
      | Gt => c :: l
      end
  end.

(** The store as IndexedDB keeps it: in key order, one record per key. *)
Definition keyOrdered (l : list Stored) : Prop :=
  StronglySorted
    (fun a b => String.compare (stored_id a) (stored_id b) = Lt) l.

(** [storeChunk(chunk)] *)
Definition storeChunk (c : Stored) (w : Worker) : Worker * outcome unit :=
  match openIdb w with
  | (w1, Thrown err) => (w1, Thrown err)
  | (w1, Returned false) => (w1, Returned tt)
  | (w1, Returned true) =>
      match putRequest env c with
      | Thrown err => (w1, Thrown err)
      | Returned _ => (withChunks (put c (chunks w1)) w1, Returned tt)
      end
  end.

(** [getAllChunks()] *)
Definition getAllChunks (w : Worker) : Worker * outcome (list Stored) :=
  match openIdb w with
  | (w1, Thrown err) => (w1, Thrown err)
  | (w1, Returned false) => (w1, Returned [])
  | (w1, Returned true) =>
      match getAllRequest env with
      | Thrown err => (w1, Thrown err)
      | Returned _ => (w1, Returned (chunks w1))
      end
  end.

(** [clearAllChunks()] *)
Definition clearAllChunks (w : Worker) : Worker * outcome unit :=
  match openIdb w with
  | (w1, Thrown err) => (w1, Thrown err)
  | (w1, Returned false) => (w1, Returned tt)
  | (w1, Returned true) =>
      match clearRequest env with
      | Thrown err => (w1, Thrown err)
      | Returned _ => (withChunks [] w1, Returned tt)
      end
  end.

(** [embed(text)], with the memoized [getEmbedder()] *)
Definition embed (text : string) (w : Worker) : Worker * outcome Vec :=
  let '(w1, pipe) :=
    match embedderPromise w with
    | Some p => (w, p)
    | None =>
        ({| chunks := chunks w; idbPromise := idbPromise w;
            embedderPromise := Some (loadPipeline env); posted := posted w |},
         loadPipeline env)
    end in
  match pipe with
  | Thrown err => (w1, Thrown err)
  | Returned _ => (w1, runEmbedder env text)
  end.

(** [chunk.id || `${chunk.source}_${chunk.chunkIndex}`] *)
Definition recordId (chunk : ArchiveChunk) : string :=
  if String.eqb (chunk_id chunk) ""
  then chunk_source chunk +:+ "_" +:+ pretty (chunk_chunkIndex chunk)
  else chunk_id chunk.

(** The object [record] of [handleStoreChunks]. *)
Definition record (chunk : ArchiveChunk) (embedding : Vec) : Stored :=
  {| stored_id := recordId chunk;
     stored_source := chunk_source chunk;
     stored_chunkIndex := chunk_chunkIndex chunk;
     stored_text := chunk_text chunk;
     stored_embedding := embedding;
     stored_createdAt :=
       if String.eqb (chunk_createdAt chunk) "" then now env
       else chunk_createdAt chunk |}.

(** The body of the loop of [handleStoreChunks] for one chunk of
    [archiveMessages], which has no embedding of its own. *)
Definition storeOne (chunk : ArchiveChunk) (st : Worker * list StoreResult)
    : Worker * list StoreResult :=
  let '(w, results) := st in
  let failed err :=
    {| result_id := chunk_id chunk; result_success := false;
       result_error := Some err |} in
  match embed (chunk_text chunk) w with
  | (w1, Thrown err) => (w1, results ++ [failed err])
  | (w1, Returned embedding) =>
      match storeChunk (record chunk embedding) w1 with
      | (w2, Thrown err) => (w2, results ++ [failed err])
      | (w2, Returned _) =>
          (w2, results ++ [{| result_id := stored_id (record chunk embedding);
                              result_success := true;
                              result_error := None |}])
      end
  end.

Definition handleStoreChunks (chunks_ : list ArchiveChunk) (w : Worker) : Worker :=
  let '(w1, results) := fold_left (fun st chunk => storeOne chunk st) chunks_ (w, []) in
  postResult "storeComplete" None
    (StoreResults results
       (Z.of_nat (length (List.filter result_success results)))) w1.

Definition handleSearch (query : string) (topK : option Z) (w : Worker) : Worker :=
  match embed query w with
  | (w1, Thrown err) => postResult "searchError" (Some err) ErrorOnly w1
  | (w1, Returned queryEmbedding) =>
      match getAllChunks w1 with
      | (w2, Thrown err) => postResult "searchError" (Some err) ErrorOnly w2
      | (w2, Returned []) => postResult "searchComplete" None (SearchResults []) w2
      | (w2, Returned all) =>
          postResult "searchComplete" None
            (SearchResults
               (rank env queryEmbedding all
                  (match topK with Some k => k | None => 5 end))) w2
      end
  end.

Definition handleGetStats (w : Worker) : Worker :=
  match getAllChunks w with
  | (w1, Thrown err) => postResult "statsError" (Some err) ErrorOnly w1
  | (w1, Returned all) =>
      postResult "statsComplete" None
        (Stats (Z.of_nat (length all))
           (fold_left (fun sum c => sum + JsString.strlen (stored_text c)) all 0))
        w1
  end.

Definition handleClear (w : Worker) : Worker :=
  match clearAllChunks w with
  | (w1, Thrown err) => postResult "clearError" (Some err) ErrorOnly w1
  | (w1, Returned _) => postResult "clearComplete" None ClearOk w1
  end.

Definition init (w : Worker) : Worker :=
  match openIdb w with
  | (w1, Thrown err) => postResult "initError" (Some err) ErrorOnly w1
  | (w1, Returned _) => postResult "ready" None NoData w1
  end.

(** The promises that [openIdb()] and [getEmbedder()] return in a browser
    with IndexedDB: the ones kept from the first call, if there was one. *)
Definition database (w : Worker) : outcome unit :=
  match idbPromise w with Some p => p | None => openRequest env end.

Definition embedder (w : Worker) : outcome unit :=
  match embedderPromise w with Some p => p | None => loadPipeline env end.

(** A request of services/vector-store.ts, or one of another type. *)
Inductive Request : Type :=
| Init
| StoreChunks (chunks_ : list ArchiveChunk)
| Search (query : string) (topK : option Z)
| GetStats
| Clear
| Unknown (type : string).

Definition requestType (r : Request) : string :=
  match r with
  | Init => "init"
  | StoreChunks _ => "storeChunks"
  | Search _ _ => "search"
  | GetStats => "getStats"
  | Clear => "clear"
  | Unknown type => type
  end.

(** The requests that [self.onmessage] has a case for. *)
Definition handled (r : Request) : bool :=
  match r with Unknown _ => false | _ => true end.

(** [self.onmessage]; no handler lets an exception out.  A request is
    followed to its reply: the turns of two requests are not interleaved. *)
Definition onmessage (r : Request) (w : Worker) : Worker :=
  match r with
  | Init => init w
  | StoreChunks chunks_ => handleStoreChunks chunks_ w
  | Search query topK => handleSearch query topK w
  | GetStats => handleGetStats w
  | Clear => handleClear w
  | Unknown _ => w
  end.

(** The state in which the database opens and the embedder loads. *)
Definition healthy (w : Worker) : Prop :=
  database w = Returned tt /\ embedder w = Returned tt.

(** The reply [m] to the request [r] of a worker whose database did not
    open, for the error [err] of the open. *)
Definition refusal (err : string) (r : Request) (m : WorkerMessage Reply) : Prop :=
  match r with
  | Init =>
      m = {| msg_type := "initError"; msg_error := Some err; msg_data := ErrorOnly |}
  | StoreChunks chunks_ =>
      exists results,
        m = {| msg_type := "storeComplete"; msg_error := None;
               msg_data := StoreResults results 0 |}
        /\ length results = length chunks_
        /\ Forall (fun x => result_success x = false) results
  | Search _ _ =>
      exists e,
        m = {| msg_type := "searchError"; msg_error := Some e; msg_data := ErrorOnly |}
  | GetStats =>
      m = {| msg_type := "statsError"; msg_error := Some err; msg_data := ErrorOnly |}
  | Clear =>
      m = {| msg_type := "clearError"; msg_error := Some err; msg_data := ErrorOnly |}
  | Unknown _ => False
  end.

End Worker.

Arguments stored_id {Vec} _.
Arguments stored_text {Vec} _.
Arguments stored_embedding {Vec} _.
Arguments openRequest {Vec Result} _.
Arguments putRequest {Vec Result} _ _.
Arguments getAllRequest {Vec Result} _.
Arguments clearRequest {Vec Result} _.
Arguments loadPipeline {Vec Result} _.
Arguments rank {Vec Result} _ _ _ _.
Arguments put {Vec} _ _.
Arguments keyOrdered {Vec} _.
Arguments record {Vec Result} _ _ _.
Arguments database {Vec Result} _ _.
Arguments embedder {Vec Result} _ _.
Arguments healthy {Vec Result} _ _.
Arguments refusal {Result} _ _ _.
Arguments withChunks {Vec Result} _ _.
Arguments NoData {Result}.
Arguments ErrorOnly {Result}.
Arguments ClearOk {Result}.
Arguments Stats {Result} _ _.
Arguments SearchResults {Result} _.
Arguments hasIndexedDB {Vec Result} _.
Arguments runEmbedder {Vec Result} _ _.
Arguments StoreResults {Result} _ _.
Arguments chunks {Vec Result} _.
Arguments idbPromise {Vec Result} _.
Arguments embedderPromise {Vec Result} _.
Arguments posted {Vec Result} _.
Arguments postResult {Vec Result} _ _ _ _.
Arguments openIdb {Vec Result} _ _.
Arguments storeChunk {Vec Result} _ _ _.
Arguments getAllChunks {Vec Result} _ _.
Arguments clearAllChunks {Vec Result} _ _.
Arguments embed {Vec Result} _ _ _.
Arguments storeOne {Vec Result} _ _ _.
Arguments handleStoreChunks {Vec Result} _ _ _.
Arguments handleSearch {Vec Result} _ _ _ _.
Arguments handleGetStats {Vec Result} _ _.
Arguments handleClear {Vec Result} _ _.
Arguments init {Vec Result} _ _.
Arguments onmessage {Vec Result} _ _ _.

End ArchiveWorker.

(** ** Concrete inputs of the further examples *)
Module Samples.

Definition twoSentences : string :=
  Scenarios.replicate 109 "a" +:+ ". " +:+ Scenarios.replicate 109 "b" +:+ ".".

(** 400 characters without period or newline. *)
Definition longLine : string := Scenarios.replicate 400 "a".

(** A worker whose table holds one pending row: chunk 0 of "doc". *)
Definition pendingRow : VectorWorker.ChunkRow :=
  {| VectorWorker.id := 1; VectorWorker.userId := "u";
     VectorWorker.sourceName := "doc"; VectorWorker.chunkIndex := 0;
     VectorWorker.text := "hello"; VectorWorker.embedding := None;
     VectorWorker.status := "pending" |}.

Definition pendingWorker : VectorWorker.Worker :=
  VectorWorker.insertOrIgnore "u" "doc" 0 "hello" "pending" Scenarios.freshWorker.

(** A worker with debugging switched on, and the same after one
    ingestion of "hello" as "doc". *)
Definition debugging : VectorWorker.Worker :=
  VectorWorker.onmessage_set_debug true false Scenarios.freshWorker.

Definition ingestedDebugging : VectorWorker.Worker :=
  match VectorWorker.prepareWithProgress (Returned "wasm")
          [(Returned [Some Scenarios.zeroVector], VectorWorker.Similar)]
          "u" "hello" "doc" true debugging with
  | Some (w', _) => w'
  | None => debugging
  end.

(** A table with two rows of "doc", and the same after the first row got
    its embedding and the second was completed without one. *)
Definition twoPending : VectorWorker.Worker :=
  VectorWorker.insertPending "u" "doc" 0 ["hello"; "world"] Scenarios.freshWorker.

Definition secondRow : VectorWorker.ChunkRow :=
  {| VectorWorker.id := 2; VectorWorker.userId := "u";
     VectorWorker.sourceName := "doc"; VectorWorker.chunkIndex := 1;
     VectorWorker.text := "world"; VectorWorker.embedding := None;
     VectorWorker.status := "pending" |}.

Definition halfEmbedded : VectorWorker.Worker :=
  fst (VectorWorker.processRow "u" "doc" 2 secondRow None
         (VectorWorker.processRow "u" "doc" 2 pendingRow
            (Some Scenarios.zeroVector) (twoPending, 0))).

(** A session whose generation call fails. *)
Definition generationError : string :=
  "Nie udało się uzyskać odpowiedzi. Spróbuj ponownie.".

Definition failingGeneration : ChatSession.Collaborators :=
  {| ChatSession.archiveMessages := fun _ => Returned tt;
     ChatSession.getRelevantContext := fun _ => Returned None;
     ChatSession.generateResponse := fun _ _ => Thrown generationError;
     ChatSession.streamResponse := fun _ _ => (["Dzień "], Some generationError) |}.

(** A window with one turn, and with its reply. *)
Definition oneTurn : MemoryStore.DB :=
  fst (MemoryStore.addMessage Scenarios.env1 MemoryStore.user "Witam" "default"
         MemoryStore.emptyDB).

Definition twoTurns : MemoryStore.DB :=
  fst (MemoryStore.addMessage Scenarios.env2 MemoryStore.assistant
         "Dzien dobry." "default" oneTurn).

Definition reply : MemoryStore.ConversationMessage :=
  {| MemoryStore.id := "id-2"; MemoryStore.role := MemoryStore.assistant;
     MemoryStore.content := "Dzien dobry.";
     MemoryStore.createdAt := "2026-01-31T10:00:01.000Z";
     MemoryStore.tokenCount := 8; MemoryStore.sessionId := "default" |}.

(** A turn that was evicted from the window. *)
Definition evictedTurn : MemoryStore.ConversationMessage :=
  {| MemoryStore.id := "id-1"; MemoryStore.role := MemoryStore.user;
     MemoryStore.content := "Witam";
     MemoryStore.createdAt := "2026-01-31T10:00:00.000Z";
     MemoryStore.tokenCount := 6; MemoryStore.sessionId := "default" |}.

(** One event of a streamed reply, with its newline. *)
Definition firstEvent : string := "data: Dzien" +:+ String JsString.LF "".

(** A collection that holds one document of an earlier source. *)
Definition oldCollection : Firestore.Store (list VectorWorker.F32) :=
  {| Firestore.docs :=
       [(0, {| Firestore.sourceFileName := "old.txt";
               Firestore.chunkIndex := 0;
               Firestore.totalChunks := Some 1;
               Firestore.text := "old";
               Firestore.embedding := Scenarios.zeroVector;
               Firestore.model := Some "model" |})];
     Firestore.nextRef := 1;
     Firestore.attempts := 0;
     Firestore.committed := [];
     Firestore.progress := [] |}.

(** The first commit succeeds, the second one is rejected. *)
Definition secondCommitFails (n : nat) : option string :=
  match n with
  | 1%nat => Some "unavailable"
  | _ => None
  end.

Definition completedRow : Firestore.Row (list VectorWorker.F32) :=
  {| Firestore.row_sourceName := "doc"; Firestore.row_chunkIndex := 0;
     Firestore.row_text := "hello";
     Firestore.row_embedding := Scenarios.zeroVector |}.

(** The request of one ingestion of a one-chunk text. *)
Definition ingestionRequest : PrepareRequest.Request :=
  match PrepareRequest.prepareLocalDatabase (Returned "wasm")
          [(Returned [Some Scenarios.zeroVector], VectorWorker.Similar)]
          "u" "hello" "doc" true Scenarios.freshWorker with
  | Some (_, r) => r
  | None => PrepareRequest.listening
  end.

(** Two documents with chunk index 0, of different files; only the first
    one mentions the query. *)
Definition firstFile : Firestore.Doc (list VectorWorker.F32) :=
  {| Firestore.sourceFileName := "a.txt"; Firestore.chunkIndex := 0;
     Firestore.totalChunks := None; Firestore.text := "kot";
     Firestore.embedding := []; Firestore.model := None |}.

Definition secondFile : Firestore.Doc (list VectorWorker.F32) :=
  {| Firestore.sourceFileName := "b.txt"; Firestore.chunkIndex := 0;
     Firestore.totalChunks := None; Firestore.text := "pies";
     Firestore.embedding := []; Firestore.model := None |}.

(** An archive worker on a browser whose database opens and whose
    embedder answers every text with the empty vector; its ranking keeps
    the texts of the first [topK] records. *)
Definition archiveEnv : ArchiveWorker.Env (list Z) string :=
  {| ArchiveWorker.hasIndexedDB := true;
     ArchiveWorker.openRequest := Returned tt;
     ArchiveWorker.putRequest := fun _ => Returned tt;
     ArchiveWorker.getAllRequest := Returned tt;
     ArchiveWorker.clearRequest := Returned tt;
     ArchiveWorker.loadPipeline := Returned tt;
     ArchiveWorker.runEmbedder := fun _ => Returned [];
     ArchiveWorker.rank := fun _ all topK =>
       map ArchiveWorker.stored_text (firstn (Z.to_nat topK) all);
     ArchiveWorker.now := "2026-01-01T00:00:00.000Z" |}.

Definition freshArchive : ArchiveWorker.Worker (list Z) string :=
  {| ArchiveWorker.chunks := []; ArchiveWorker.idbPromise := None;
     ArchiveWorker.embedderPromise := None; ArchiveWorker.posted := [] |}.

(** The same worker after [indexedDB.open] has failed. *)
Definition brokenArchive : ArchiveWorker.Worker (list Z) string :=
  {| ArchiveWorker.chunks := [];
     ArchiveWorker.idbPromise := Some (Thrown "QuotaExceededError");
     ArchiveWorker.embedderPromise := None; ArchiveWorker.posted := [] |}.

(** Two chunks of an archived conversation. *)
Definition archivedChunks : list VectorStore.ArchiveChunk :=
  VectorStore.formatChunks (fun _ => (1700000000000, "2023-11-14T22:13:20.000Z")) 0
    ["[user] Witam"; "[assistant] Witam serdecznie"].

(** The archive after these chunks were stored, which holds a record
    under the id of each, and the same chunks with other texts. *)
Definition archivedOnce : ArchiveWorker.Worker (list Z) string :=
  ArchiveWorker.handleStoreChunks archiveEnv archivedChunks freshArchive.

Definition editedChunks : list VectorStore.ArchiveChunk :=
  VectorStore.formatChunks (fun _ => (1700000000000, "2023-11-14T22:13:20.000Z")) 0
    ["[user] Dzien dobry"; "[assistant] Dzien dobry"].

(** A bridge with a search in flight before a request for the statistics. *)
Definition searchThenStats
    : VectorStore.Bridge unit (ArchiveWorker.Reply string) :=
  VectorStore.run [VectorStore.Call "search" tt; VectorStore.Call "getStats" tt].

End Samples.

(** * Properties *)

(** ** The Active Memory Window *)
Section MemoryStoreFacts.
Import TokenUtils MemoryStore.

(** *** The order of the index "byCreatedAt" *)

Lemma ascii_compare_refl c : Ascii.compare c c = Eq.
Proof. unfold Ascii.compare. apply N.compare_refl. Qed.

Lemma ascii_compare_lt_trans a b c :
  Ascii.compare a b = Lt -> Ascii.compare b c = Lt -> Ascii.compare a c = Lt.
Proof.
  unfold Ascii.compare. rewrite !N.compare_lt_iff. lia.
Qed.

Lemma string_compare_refl s : String.compare s s = Eq.
Proof.
  induction s as [|c s IH]; simpl; [reflexivity|].
  now rewrite ascii_compare_refl.
Qed.

Lemma string_compare_lt_trans a :
  forall b c, String.compare a b = Lt -> String.compare b c = Lt ->
              String.compare a c = Lt.
Proof.
  induction a as [|x a IH]; intros [|y b] [|z c]; simpl; try congruence.
  destruct (Ascii.compare x y) eqn:Hxy; try discriminate;
    destruct (Ascii.compare y z) eqn:Hyz; try discriminate; intros H1 H2.
  - apply Ascii.compare_eq_iff in Hxy, Hyz. subst.
    rewrite ascii_compare_refl. now apply (IH b c).
  - apply Ascii.compare_eq_iff in Hxy. subst. now rewrite Hyz.
  - apply Ascii.compare_eq_iff in Hyz. subst. now rewrite Hxy.
  - now rewrite (ascii_compare_lt_trans x y z).
Qed.

Lemma string_leb_trans a b c :
  String.leb a b = true -> String.leb b c = true -> String.leb a c = true.
Proof.
  unfold String.leb.
  destruct (String.compare a b) eqn:Hab; try discriminate;
    destruct (String.compare b c) eqn:Hbc; try discriminate; intros _ _.
  - apply String.compare_eq_iff in Hab, Hbc. subst.
    now rewrite string_compare_refl.
  - apply String.compare_eq_iff in Hab. subst. now rewrite Hbc.
  - apply String.compare_eq_iff in Hbc. subst. now rewrite Hab.
  - now rewrite (string_compare_lt_trans a b c).
Qed.

Lemma byCreatedAt_le_trans a b c :
  byCreatedAt_le a b = true -> byCreatedAt_le b c = true ->
  byCreatedAt_le a c = true.
Proof.
  unfold byCreatedAt_le.
  destruct (String.compare (createdAt a) (createdAt b)) eqn:Hab; try discriminate;
    destruct (String.compare (createdAt b) (createdAt c)) eqn:Hbc; try discriminate;
    intros H1 H2.
  - apply String.compare_eq_iff in Hab, Hbc. rewrite Hab, Hbc.
    rewrite string_compare_refl. now apply (string_leb_trans _ (id b)).
  - apply String.compare_eq_iff in Hab. rewrite Hab. now rewrite Hbc.
  - apply String.compare_eq_iff in Hbc. rewrite <- Hbc. now rewrite Hab.
  - now rewrite (string_compare_lt_trans _ _ _ Hab Hbc).
Qed.

Lemma byCreatedAt_le_total a b :
  byCreatedAt_le a b = false -> byCreatedAt_le b a = true.
Proof.
  unfold byCreatedAt_le, String.leb.
  rewrite (String.compare_antisym (createdAt b) (createdAt a)).
  rewrite (String.compare_antisym (id b) (id a)).
  destruct (String.compare (createdAt a) (createdAt b)); simpl; try congruence.
  destruct (String.compare (id a) (id b)); simpl; congruence.
Qed.

Lemma insertByCreatedAt_perm m l :
  Permutation (insertByCreatedAt m l) (m :: l).
Proof.
  induction l as [|x l IH]; simpl; [reflexivity|].
  destruct (byCreatedAt_le x m); [|reflexivity].
  rewrite IH. apply perm_swap.
Qed.

Lemma insertByCreatedAt_sorted m l :
  StronglySorted (fun a b => byCreatedAt_le a b = true) l ->
  StronglySorted (fun a b => byCreatedAt_le a b = true) (insertByCreatedAt m l).
Proof.
  induction 1 as [|x l Hs IH Hall]; simpl.
  - constructor; [constructor|constructor].
  - destruct (byCreatedAt_le x m) eqn:Hxm.
    + constructor; [exact IH|].
      rewrite List.Forall_forall in *. intros y Hy.
      apply (Permutation_in _ (insertByCreatedAt_perm m l)) in Hy.
      destruct Hy as [<-|Hy]; [exact Hxm|now apply Hall].
    + apply byCreatedAt_le_total in Hxm.
      constructor; [now constructor|].
      constructor; [exact Hxm|].
      rewrite List.Forall_forall in *. intros y Hy.
      apply (byCreatedAt_le_trans m x y Hxm). now apply Hall.
Qed.

Lemma filter_sorted {A} (R : A -> A -> Prop) (f : A -> bool) l :
  StronglySorted R l -> StronglySorted R (List.filter f l).
Proof.
  induction 1 as [|x l Hs IH Hall]; simpl; [constructor|].
  destruct (f x); [|exact IH].
  constructor; [exact IH|].
  rewrite List.Forall_forall in *. intros y Hy.
  apply List.filter_In in Hy as [Hy _]. now apply Hall.
Qed.

(** *** Eviction *)

Lemma sumTokens_app l1 l2 :
  sumTokens (l1 ++ l2) = sumTokens l1 + sumTokens l2.
Proof.
  induction l1 as [|m l1 IH]; simpl; [reflexivity|].
  rewrite IH. lia.
Qed.

Lemma db_delete_notin i l :
  ~ In i (map id l) -> db_delete i l = l.
Proof.
  induction l as [|m l IH]; simpl; intros Hn; [reflexivity|].
  destruct (String.eqb_spec (id m) i) as [Heq|Hne]; simpl.
  - exfalso. apply Hn. now left.
  - f_equal. apply IH. intros Hin. apply Hn. now right.
Qed.

Lemma db_delete_head m l :
  NoDup (map id (m :: l)) -> db_delete (id m) (m :: l) = l.
Proof.
  intros Hnd. simpl in *. rewrite String.eqb_refl. simpl.
  apply db_delete_notin. inversion Hnd; subst.
  rewrite <- list_elem_of_In. assumption.
Qed.

Lemma evictLoop_cons m rest store ev t :
  evictLoop (m :: rest) store ev t =
  if t <=? EVICTION_TARGET then (store, ev, t)
  else evictLoop rest (db_delete (id m) store) (ev ++ [m]) (t - tokenCount m).
Proof. reflexivity. Qed.

(** The loop removes a prefix of the listing and nothing else. *)
Lemma evictLoop_prefix l :
  NoDup (map id l) ->
  forall ev t,
  exists gone kept,
    l = gone ++ kept /\
    evictLoop l l ev t = (kept, ev ++ gone, t - sumTokens gone) /\
    (kept = [] \/ t - sumTokens gone <= EVICTION_TARGET) /\
    (gone = [] -> kept = [] \/ t <= EVICTION_TARGET).
Proof.
  induction l as [|m l IH]; intros Hnd ev t.
  - exists [], []. simpl. rewrite app_nil_r, Z.sub_0_r. auto.
  - rewrite evictLoop_cons. destruct (t <=? EVICTION_TARGET) eqn:Ht.
    + apply Z.leb_le in Ht. exists [], (m :: l). simpl.
      rewrite app_nil_r, Z.sub_0_r. auto.
    + rewrite (db_delete_head m l Hnd).
      assert (Hnd' : NoDup (map id l)) by (simpl in Hnd; now inversion Hnd).
      destruct (IH Hnd' (ev ++ [m]) (t - tokenCount m))
        as (gone & kept & -> & Heq & Hstop & _).
      exists (m :: gone), kept. rewrite Heq. simpl.
      rewrite <- app_assoc. simpl.
      replace (t - tokenCount m - sumTokens gone)
        with (t - (tokenCount m + sumTokens gone)) by lia.
      repeat split; auto.
      * destruct Hstop as [H|H]; [now left|right; lia].
      * discriminate.
Qed.

Lemma hasId_false_notin i l :
  hasId i l = false -> ~ In i (map id l).
Proof.
  unfold hasId. induction l as [|m l IH]; simpl; intros H; [tauto|].
  apply orb_false_iff in H as [H1 H2].
  intros [Heq|Hin]; [|now apply IH].
  rewrite <- Heq, String.eqb_refl in H1. discriminate.
Qed.

Lemma sumTokens_perm l1 l2 :
  Permutation l1 l2 -> sumTokens l1 = sumTokens l2.
Proof.
  induction 1; simpl; lia.
Qed.

Lemma sumTokens_insert m l :
  sumTokens (insertByCreatedAt m l) = tokenCount m + sumTokens l.
Proof.
  rewrite (sumTokens_perm _ _ (insertByCreatedAt_perm m l)). reflexivity.
Qed.

(** What a completed [addMessage] does to a consistent window. *)
Lemma addMessage_completed e r c sid db db' msg evicted :
  consistent db ->
  addMessage e r c sid db = (db', Returned (msg, evicted)) ->
  exists kept,
    messages db = evicted ++ kept /\
    messages db' = insertByCreatedAt msg kept /\
    storedTotal db' = sumTokens kept + tokenCount msg /\
    tokenCount msg = estimateMessageTokens c /\
    ~ In (id msg) (map id kept) /\
    (evicted = [] ->
       storedTotal db' <= ACTIVE_MEMORY \/ kept = []) /\
    (evicted <> [] ->
       storedTotal db' <= EVICTION_TARGET \/ kept = []).
Proof.
  intros [Hnd _ Htot Hest] Hadd. unfold addMessage in Hadd.
  pose proof (eq_refl : EVICTION_TARGET = 720000) as HT.
  pose proof (eq_refl : ACTIVE_MEMORY = 800000) as HA.
  set (message := {| id := uuid e; role := r; content := c; createdAt := now e;
                     tokenCount := estimateMessageTokens c; sessionId := sid |}) in *.
  assert (Hm0 : tokenTotal (getMeta e db) = sumTokens (messages db)).
  { rewrite <- Htot. unfold getMeta, storedTotal. now destruct (meta db). }
  rewrite Hm0 in Hadd.
  change (tokenCount message) with (estimateMessageTokens c) in *.
  destruct (ACTIVE_MEMORY <? sumTokens (messages db) + estimateMessageTokens c) eqn:Hover.
  - destruct (evictLoop_prefix (messages db) Hnd []
                (sumTokens (messages db) + estimateMessageTokens c))
      as (gone & kept & Hsplit & Heq & Hstop & Hnone).
    rewrite Heq in Hadd. unfold db_add in Hadd.
    destruct (hasId (id message) kept) eqn:Hfresh; [discriminate|].
    apply hasId_false_notin in Hfresh.
    injection Hadd as <- <- <-. exists kept. simpl.
    rewrite Hsplit, sumTokens_app in *.
    unfold storedTotal; simpl.
    repeat split; try reflexivity; try lia; try exact Hfresh.
    + intros ->. destruct Hnone as [H|H]; [reflexivity|now right|].
      apply Z.ltb_lt in Hover. simpl in *. exfalso. lia.
    + intros _. destruct Hstop as [H|H]; [now right|left; lia].
  - unfold db_add in Hadd.
    destruct (hasId (id message) (messages db)) eqn:Hfresh; [discriminate|].
    apply hasId_false_notin in Hfresh.
    injection Hadd as <- <- <-. exists (messages db). simpl.
    apply Z.ltb_ge in Hover. unfold storedTotal; simpl.
    repeat split; try reflexivity; try lia; try exact Hfresh.
    intros H. now contradiction H.
Qed.

Lemma addMessage_message e r c sid db db' msg evicted :
  addMessage e r c sid db = (db', Returned (msg, evicted)) ->
  msg = {| id := uuid e; role := r; content := c; createdAt := now e;
           tokenCount := estimateMessageTokens c; sessionId := sid |}.
Proof.
  unfold addMessage.
  destruct (if ACTIVE_MEMORY <? _ then _ else _) as [[store ev] t].
  destruct (db_add _ store); [|discriminate].
  now intros [= _ <- _].
Qed.

Lemma sorted_app_r {A} (R : A -> A -> Prop) l1 l2 :
  StronglySorted R (l1 ++ l2) -> StronglySorted R l2.
Proof.
  induction l1 as [|x l1 IH]; simpl; [trivial|].
  intros H. inversion H; subst. now apply IH.
Qed.

Lemma sorted_app_le {A} (R : A -> A -> Prop) l1 l2 :
  StronglySorted R (l1 ++ l2) ->
  forall x y, In x l1 -> In y l2 -> R x y.
Proof.
  induction l1 as [|a l1 IH]; simpl; [tauto|].
  intros H x y [<-|Hx] Hy; inversion H; subst.
  - rewrite List.Forall_forall in *. match goal with
    | Hall : forall z, In z (l1 ++ l2) -> R a z |- _ => apply Hall end.
    apply in_or_app. now right.
  - now apply IH.
Qed.

Lemma fold_db_delete_filter ks :
  forall store, exists f,
    fold_left (fun st (k : ConversationMessage) => db_delete (id k) st) ks store
    = List.filter f store.
Proof.
  induction ks as [|k ks IH]; intros store; simpl.
  - exists (fun _ => true). induction store as [|x l IHl]; simpl; congruence.
  - destruct (IH (db_delete (id k) store)) as [f Hf]. rewrite Hf.
    exists (fun m => negb (String.eqb (id m) (id k)) && f m).
    unfold db_delete. clear Hf IH.
    induction store as [|x l IHl]; simpl; [reflexivity|].
    destruct (negb (String.eqb (id x) (id k))); simpl; [|exact IHl].
    destruct (f x); [now rewrite IHl|exact IHl].
Qed.

Lemma NoDup_map_filter {A B} (g : A -> B) (f : A -> bool) l :
  NoDup (map g l) -> NoDup (map g (List.filter f l)).
Proof.
  induction l as [|x l IH]; simpl; intros H; [constructor|].
  inversion H as [|? ? Hnotin Hnd]; subst.
  destruct (f x); simpl; [|now apply IH].
  constructor; [|now apply IH].
  rewrite list_elem_of_In in *. intros Hin. apply Hnotin.
  apply in_map_iff in Hin as (y & Hy & Hin). apply List.filter_In in Hin as [Hin _].
  apply in_map_iff. now exists y.
Qed.

Lemma Forall_filter_keep {A} (P : A -> Prop) (f : A -> bool) l :
  Forall P l -> Forall P (List.filter f l).
Proof.
  induction 1; simpl; [constructor|]. destruct (f x); [now constructor|assumption].
Qed.

Lemma calculateTotalTokens_sum l :
  Forall (fun m => tokenCount m = estimateMessageTokens (content m)) l ->
  calculateTotalTokens (map content l) = sumTokens l.
Proof.
  unfold calculateTotalTokens. intros H.
  enough (forall a, fold_left (fun sum c => sum + estimateMessageTokens c)
                      (map content l) a = a + sumTokens l) as E
    by (rewrite E; lia).
  induction H as [|m l Hm _ IH]; intros a; simpl; [lia|].
  cbv beta in Hm. rewrite IH, Hm. lia.
Qed.

(** Every state of the window reached by completed calls is consistent. *)
Lemma reachable_consistent db : reachable db -> consistent db.
Proof.
  induction 1 as [| e r c sid db db' [msg evicted] _ IH Hadd | e db _ IH | e sid db _ IH].
  - split; simpl; constructor.
  - destruct (addMessage_completed _ _ _ _ _ _ _ _ IH Hadd)
      as (kept & Hsplit & Hnew & Htot & Hcount & Hfresh & _).
    pose proof (addMessage_message _ _ _ _ _ _ _ _ Hadd) as Hmsg.
    destruct IH as [Hnd Hsorted _ Hest]. rewrite Hsplit in *.
    split; rewrite ?Hnew.
    + apply (NoDup_Permutation_proper _ _
               (Permutation_map id (insertByCreatedAt_perm msg kept))).
      simpl. constructor.
      * now rewrite list_elem_of_In.
      * rewrite map_app in Hnd. now apply NoDup_app in Hnd.
    + apply insertByCreatedAt_sorted. now apply sorted_app_r in Hsorted.
    + rewrite Htot, sumTokens_insert. lia.
    + apply (Permutation_Forall (Permutation_sym (insertByCreatedAt_perm msg kept))).
      constructor.
      * rewrite Hmsg. reflexivity.
      * apply List.Forall_app in Hest. tauto.
  - split; simpl; constructor.
  - destruct IH as [Hnd Hsorted _ Hest].
    unfold clearSession.
    destruct (fold_db_delete_filter (bySessionId sid (messages db)) (messages db))
      as [f Hf].
    rewrite Hf. split; simpl.
    + now apply NoDup_map_filter.
    + now apply filter_sorted.
    + now apply calculateTotalTokens_sum, Forall_filter_keep.
    + now apply Forall_filter_keep.
Qed.

(** A call whose uuid is fresh completes. *)
Lemma evictLoop_store_subset all :
  forall store ev t x,
    In x (fst (fst (evictLoop all store ev t))) -> In x store.
Proof.
  induction all as [|m all IH]; intros store ev t x; simpl; [trivial|].
  destruct (t <=? EVICTION_TARGET); simpl; [trivial|].
  intros Hx. apply IH in Hx. unfold db_delete in Hx.
  now apply List.filter_In in Hx.
Qed.

Lemma notin_hasId_false i l :
  ~ In i (map id l) -> hasId i l = false.
Proof.
  unfold hasId. induction l as [|m l IH]; simpl; intros H; [reflexivity|].
  apply orb_false_iff. split.
  - apply String.eqb_neq. intros Heq. apply H. now left.
  - apply IH. intros Hin. apply H. now right.
Qed.

Lemma addMessage_completes e r c sid db :
  ~ In (uuid e) (map id (messages db)) ->
  exists db' msg evicted,
    addMessage e r c sid db = (db', Returned (msg, evicted)).
Proof.
  intros Hfresh. unfold addMessage.
  destruct (if ACTIVE_MEMORY <? _ then _ else _) as [[store ev] t] eqn:Hloop.
  assert (Hsub : forall x, In x store -> In x (messages db)).
  { destruct (ACTIVE_MEMORY <? _) in Hloop.
    - intros x Hx. eapply evictLoop_store_subset. rewrite Hloop. exact Hx.
    - now injection Hloop as <- _ _. }
  unfold db_add. cbn [id]. rewrite notin_hasId_false; [eauto|].
  intros Hin. apply Hfresh. apply in_map_iff in Hin as (x & Hx & Hin).
  apply in_map_iff. exists x. auto.
Qed.

(** The first turn of an empty window. *)
Lemma addMessage_emptyDB e r c sid :
  exists db' msg,
    addMessage e r c sid emptyDB = (db', Returned (msg, [])) /\
    messages db' = [msg] /\
    storedTotal db' = tokenCount msg /\
    id msg = uuid e /\ sessionId msg = sid /\
    tokenCount msg = estimateMessageTokens c.
Proof.
  unfold addMessage. cbn [getMeta meta emptyDB messages tokenTotal tokenCount].
  destruct (ACTIVE_MEMORY <? 0 + estimateMessageTokens c);
    cbn [evictLoop db_add hasId existsb insertByCreatedAt];
    do 2 eexists; (split; [reflexivity|]);
    cbn [messages meta storedTotal tokenTotal id sessionId tokenCount];
    repeat split; lia.
Qed.

(** *** Reads by session *)

Lemma insertById_perm m l : Permutation (insertById m l) (m :: l).
Proof.
  induction l as [|x l IH]; simpl; [reflexivity|].
  destruct (String.leb (id x) (id m)); [|reflexivity].
  rewrite IH. apply perm_swap.
Qed.

Lemma bySessionId_In sid l x :
  In x (bySessionId sid l) <-> In x l /\ sessionId x = sid.
Proof.
  unfold bySessionId.
  assert (P : Permutation
                (fold_right insertById []
                   (List.filter (fun m => String.eqb (sessionId m) sid) l))
                (List.filter (fun m => String.eqb (sessionId m) sid) l)).
  { induction (List.filter _ l) as [|y k IH]; simpl; [reflexivity|].
    rewrite insertById_perm. now constructor. }
  split.
  - intros H. apply (Permutation_in _ P) in H.
    apply List.filter_In in H as [H1 H2]. apply String.eqb_eq in H2. auto.
  - intros [H1 H2]. apply (Permutation_in _ (Permutation_sym P)).
    apply List.filter_In. split; [exact H1|]. now apply String.eqb_eq.
Qed.

Lemma recentLoop_In maxTokens newestFirst :
  forall result count x,
    In x (recentLoop maxTokens newestFirst result count) ->
    In x newestFirst \/ In x result.
Proof.
  induction newestFirst as [|m l IH]; intros result count x; simpl; [auto|].
  destruct (maxTokens <? count + tokenCount m); [auto|].
  intros H. apply IH in H as [H|[H|H]]; auto.
Qed.

Lemma fold_db_delete_In ks :
  forall store x,
    In x (fold_left (fun st (k : ConversationMessage) => db_delete (id k) st)
            ks store)
    <-> In x store /\ ~ In (id x) (map id ks).
Proof.
  induction ks as [|k ks IH]; intros store x; simpl; [tauto|].
  rewrite IH. unfold db_delete. rewrite List.filter_In, negb_true_iff, String.eqb_neq.
  intuition congruence.
Qed.

Lemma NoDup_ids_inj l x y :
  NoDup (map id l) -> In x l -> In y l -> id x = id y -> x = y.
Proof.
  induction l as [|a l IH]; simpl; [tauto|].
  intros Hnd. inversion Hnd as [|? ? Hnotin Hnd']; subst.
  rewrite list_elem_of_In in Hnotin.
  intros [->|Hx] [->|Hy] Heq; auto.
  - exfalso. apply Hnotin. rewrite Heq. now apply in_map.
  - exfalso. apply Hnotin. rewrite <- Heq. now apply in_map.
Qed.

End MemoryStoreFacts.

Section ScenarioFacts.
Import TokenUtils Scenarios.

Lemma length_replicate n c : String.length (replicate n c) = n.
Proof. induction n as [|n IH]; simpl; congruence. Qed.

Lemma estimateMessageTokens_replicate n c :
  0 < n ->
  estimateMessageTokens (replicate (Z.to_nat n) c) = (2 * n + 6) / 7 + 4.
Proof.
  intros Hn. unfold estimateMessageTokens, estimateTokens, strlen.
  rewrite length_replicate, Z2Nat.id by lia.
  destruct (String.eqb_spec (replicate (Z.to_nat n) c) "") as [Heq|_];
    [|reflexivity].
  apply (f_equal String.length) in Heq. rewrite length_replicate in Heq.
  simpl in Heq. lia.
Qed.

End ScenarioFacts.

(** The turns evicted by a completed call are a prefix of the listing. *)
Lemma addMessage_eviction_bounds_aux e r c sid db db' msg evicted :
  MemoryStore.reachable db ->
  MemoryStore.addMessage e r c sid db = (db', Returned (msg, evicted)) ->
  exists kept,
    MemoryStore.messages db = evicted ++ kept /\
    MemoryStore.messages db' = MemoryStore.insertByCreatedAt msg kept /\
    (forall x y, In x evicted -> In y kept ->
                 MemoryStore.byCreatedAt_le x y = true).
Proof.
  intros Hreach Hadd.
  pose proof (reachable_consistent db Hreach) as Hcons.
  destruct (addMessage_completed _ _ _ _ _ _ _ _ Hcons Hadd)
    as (kept & Hsplit & Hnew & _).
  exists kept. repeat split; try assumption.
  destruct Hcons as [_ Hsorted _ _]. rewrite Hsplit in Hsorted.
  intros x y. now apply (sorted_app_le _ _ _ Hsorted).
Qed.

(** C1 (as amended).  After every completed [addMessage] on a window
    reached by completed calls, the recorded total is at most the larger of
    the ceiling and the new turn's own token estimate, and at most the
    larger of 90% of the ceiling and that estimate when the call evicted;
    so both bounds of the specification hold whenever the new turn's own
    estimate is at most 90% of the ceiling.  The evicted turns are a prefix
    of the "byCreatedAt" listing (each precedes every kept turn), they are
    exactly what left the store, and they are returned to the caller. *)
Theorem addMessage_eviction_invariant e r c sid db db' msg evicted :
  MemoryStore.reachable db ->
  MemoryStore.addMessage e r c sid db = (db', Returned (msg, evicted)) ->
  MemoryStore.storedTotal db'
    <= Z.max TokenUtils.ACTIVE_MEMORY (MemoryStore.tokenCount msg) /\
  (evicted <> [] ->
     MemoryStore.storedTotal db'
       <= Z.max TokenUtils.EVICTION_TARGET (MemoryStore.tokenCount msg)) /\
  (MemoryStore.tokenCount msg <= TokenUtils.EVICTION_TARGET ->
     MemoryStore.storedTotal db' <= TokenUtils.ACTIVE_MEMORY /\
     (evicted <> [] -> MemoryStore.storedTotal db' <= TokenUtils.EVICTION_TARGET)) /\
  exists kept,
    MemoryStore.messages db = evicted ++ kept /\
    MemoryStore.messages db' = MemoryStore.insertByCreatedAt msg kept /\
    (forall x y, In x evicted -> In y kept ->
                 MemoryStore.byCreatedAt_le x y = true).
Proof.
  intros Hreach Hadd.
  pose proof (reachable_consistent db Hreach) as Hcons.
  destruct (addMessage_completed _ _ _ _ _ _ _ _ Hcons Hadd)
    as (kept & Hsplit & Hnew & Htot & _ & _ & Hnone & Hsome).
  pose proof (eq_refl : TokenUtils.EVICTION_TARGET = 720000) as HT.
  pose proof (eq_refl : TokenUtils.ACTIVE_MEMORY = 800000) as HA.
  assert (Hempty : kept = [] -> MemoryStore.storedTotal db' = MemoryStore.tokenCount msg).
  { intros ->. rewrite Htot. simpl. lia. }
  assert (B1 : MemoryStore.storedTotal db'
               <= Z.max TokenUtils.ACTIVE_MEMORY (MemoryStore.tokenCount msg)).
  { destruct evicted as [|x evicted].
    - destruct (Hnone eq_refl) as [H|H]; [lia|rewrite (Hempty H); lia].
    - destruct (Hsome ltac:(discriminate)) as [H|H]; [lia|rewrite (Hempty H); lia]. }
  assert (B2 : evicted <> [] ->
               MemoryStore.storedTotal db'
               <= Z.max TokenUtils.EVICTION_TARGET (MemoryStore.tokenCount msg)).
  { intros Hne. destruct (Hsome Hne) as [H|H]; [lia|rewrite (Hempty H); lia]. }
  repeat split.
  - exact B1.
  - exact B2.
  - lia.
  - intros Hne. specialize (B2 Hne). lia.
  - exists kept. repeat split; try assumption.
    destruct Hcons as [_ Hsorted _ _]. rewrite Hsplit in Hsorted.
    intros x y. now apply (sorted_app_le _ _ _ Hsorted).
Qed.

(** A run of the theorem: the first turn of an empty window. *)
Lemma addMessage_eviction_invariant_witness :
  exists db' msg,
    MemoryStore.addMessage Scenarios.env1 MemoryStore.user "Hello" "default"
      MemoryStore.emptyDB = (db', Returned (msg, [])) /\
    MemoryStore.storedTotal db' = 6 /\
    MemoryStore.storedTotal db'
      <= Z.max TokenUtils.ACTIVE_MEMORY (MemoryStore.tokenCount msg).
Proof.
  eexists. eexists. split; [reflexivity|]. split; [reflexivity|].
  exact (proj1 (addMessage_eviction_invariant Scenarios.env1 MemoryStore.user
                  "Hello" "default" MemoryStore.emptyDB _ _ []
                  MemoryStore.reach_empty eq_refl)).
Defined.


(** C1, the claim as the specification states it, fails: a single turn of
    2 799 987 characters added to the empty window is estimated at 800 001
    tokens, nothing can be evicted, and the recorded total exceeds the
    ceiling. *)
Lemma eviction_invariant_counterexample :
  (exists db' msg,
     MemoryStore.addMessage Scenarios.env1 MemoryStore.user
       Scenarios.oversizedContent "default" MemoryStore.emptyDB
     = (db', Returned (msg, [])) /\
     MemoryStore.storedTotal db' = 800001) /\
  ~ MemoryStore.eviction_invariant_as_stated.
Proof.
  destruct (addMessage_emptyDB Scenarios.env1 MemoryStore.user
              Scenarios.oversizedContent "default")
    as (db' & msg & Hadd & _ & Htot & _ & _ & Hcount).
  assert (Hbig : MemoryStore.storedTotal db' = 800001).
  { rewrite Htot, Hcount. unfold Scenarios.oversizedContent.
    rewrite estimateMessageTokens_replicate by lia. reflexivity. }
  split.
  - exists db', msg. auto.
  - intros H.
    destruct (H _ _ _ _ _ _ _ _ MemoryStore.reach_empty Hadd) as [Hle _].
    rewrite Hbig in Hle. change TokenUtils.ACTIVE_MEMORY with 800000 in Hle. lia.
Qed.

(** C9 (as amended).  Reads that name a session are scoped to it:
    [getMessages] and [getRecentMessages] with a non-empty session id return
    only stored turns of that session, and [clearSession] removes exactly
    the turns of its session.  The token budget and eviction are global to
    the window: a completed [addMessage] stores its turn under the given
    session, and evicts a prefix of the "byCreatedAt" listing of the whole
    window, the oldest turns whatever session owns them. *)
Theorem session_scoping db :
  MemoryStore.reachable db ->
  (forall sid x, sid <> "" ->
     (In x (MemoryStore.getMessages (Some sid) db)
      <-> In x (MemoryStore.messages db) /\ MemoryStore.sessionId x = sid)) /\
  (forall maxTokens sid x, sid <> "" ->
     In x (MemoryStore.getRecentMessages maxTokens (Some sid) db) ->
     In x (MemoryStore.messages db) /\ MemoryStore.sessionId x = sid) /\
  (forall e sid x,
     In x (MemoryStore.messages (MemoryStore.clearSession e sid db))
     <-> In x (MemoryStore.messages db) /\ MemoryStore.sessionId x <> sid) /\
  (forall e r c sid db' msg evicted,
     MemoryStore.addMessage e r c sid db = (db', Returned (msg, evicted)) ->
     MemoryStore.sessionId msg = sid /\
     exists kept,
       MemoryStore.messages db = evicted ++ kept /\
       MemoryStore.messages db' = MemoryStore.insertByCreatedAt msg kept /\
       (forall x y, In x evicted -> In y kept ->
                    MemoryStore.byCreatedAt_le x y = true)).
Proof.
  intros Hreach. pose proof (reachable_consistent db Hreach) as Hcons.
  assert (Hget : forall sid x, sid <> "" ->
            (In x (MemoryStore.getMessages (Some sid) db)
             <-> In x (MemoryStore.messages db) /\ MemoryStore.sessionId x = sid)).
  { intros sid x Hsid. unfold MemoryStore.getMessages.
    destruct (String.eqb_spec sid "") as [Heq|_]; [contradiction|].
    apply bySessionId_In. }
  split; [exact Hget|].
  split.
  { intros maxTokens sid x Hsid Hx. apply (Hget sid x Hsid).
    unfold MemoryStore.getRecentMessages in Hx.
    apply recentLoop_In in Hx as [Hx|[]]. now apply in_rev in Hx. }
  split.
  { intros e sid x. unfold MemoryStore.clearSession. cbn [MemoryStore.messages].
    rewrite fold_db_delete_In. split.
    - intros [Hx Hnot]. split; [exact Hx|].
      intros Hsid. apply Hnot. apply in_map. apply bySessionId_In. auto.
    - intros [Hx Hsid]. split; [exact Hx|].
      intros Hin. apply in_map_iff in Hin as (y & Hid & Hy).
      apply bySessionId_In in Hy as [Hy Hys].
      destruct Hcons as [Hnd _ _ _].
      pose proof (NoDup_ids_inj _ _ _ Hnd Hy Hx Hid). congruence. }
  intros e r c sid db' msg evicted Hadd. split.
  - now rewrite (addMessage_message _ _ _ _ _ _ _ _ Hadd).
  - exact (addMessage_eviction_bounds_aux _ _ _ _ _ _ _ _ Hreach Hadd).
Qed.

(** A run of the theorem on the window that holds one turn of session "s". *)
Lemma session_scoping_witness :
  exists db1,
    MemoryStore.reachable db1 /\
    forall x, In x (MemoryStore.getMessages (Some "s") db1)
              <-> In x (MemoryStore.messages db1) /\ MemoryStore.sessionId x = "s".
Proof.
  destruct (addMessage_emptyDB Scenarios.env1 MemoryStore.user "Hello" "s")
    as (db1 & msg & Hadd & _).
  pose proof (MemoryStore.reach_add _ _ _ _ _ _ _ MemoryStore.reach_empty Hadd)
    as Hreach.
  exists db1. split; [exact Hreach|].
  intros x. apply (proj1 (session_scoping db1 Hreach) "s" x). discriminate.
Defined.

(** C9, the claim as the specification states it, fails: with one turn of
    session "a" (714 290 tokens) in the window, adding a turn of 114 290
    tokens to session "b" brings the total to 828 580 and evicts the turn
    of session "a". *)
Lemma eviction_session_scoped_counterexample :
  (exists db1 mA db2 mB,
     MemoryStore.addMessage Scenarios.env1 MemoryStore.user
       Scenarios.longContent "a" MemoryStore.emptyDB
     = (db1, Returned (mA, [])) /\
     MemoryStore.addMessage Scenarios.env2 MemoryStore.user
       Scenarios.mediumContent "b" db1
     = (db2, Returned (mB, [mA])) /\
     MemoryStore.sessionId mA = "a") /\
  ~ MemoryStore.eviction_session_scoped_as_stated.
Proof.
  destruct (addMessage_emptyDB Scenarios.env1 MemoryStore.user
              Scenarios.longContent "a")
    as (db1 & mA & Hadd1 & Hmsgs & Htot1 & Hid & Hsid & Hcount).
  pose proof (MemoryStore.reach_add _ _ _ _ _ _ _ MemoryStore.reach_empty Hadd1)
    as Hreach.
  pose proof (reachable_consistent db1 Hreach) as Hcons.
  destruct (addMessage_completes Scenarios.env2 MemoryStore.user
              Scenarios.mediumContent "b" db1)
    as (db2 & mB & ev & Hadd2).
  { rewrite Hmsgs. cbn [map]. rewrite Hid. intros [H|[]]. discriminate H. }
  destruct (addMessage_completed _ _ _ _ _ _ _ _ Hcons Hadd2)
    as (kept & Hsplit & _ & Htot & HcountB & _ & Hnone & _).
  unfold Scenarios.longContent in Hcount.
  unfold Scenarios.mediumContent in HcountB.
  rewrite estimateMessageTokens_replicate in Hcount, HcountB by lia.
  assert (Hev : ev = [mA]).
  { rewrite Hmsgs in Hsplit. destruct ev as [|x ev].
    - simpl in Hsplit. subst kept. exfalso.
      destruct (Hnone eq_refl) as [H|H]; [|discriminate H].
      rewrite Htot in H. cbn [MemoryStore.sumTokens fold_right] in H.
      rewrite Hcount, HcountB in H.
      vm_compute in H. now apply H.
    - injection Hsplit as <- Hrest. symmetry in Hrest.
      apply app_eq_nil in Hrest as [-> _]. reflexivity. }
  subst ev. split.
  - exists db1, mA, db2, mB. auto.
  - intros H. specialize (H _ _ _ _ _ _ _ _ Hreach Hadd2 mA (or_introl eq_refl)).
    rewrite Hsid in H. discriminate H.
Qed.

(** ** The ingestion segmenter *)
Section TrainingFacts.
Import JsString Training.

Lemma dedupKeys_app chunks c :
  dedupKeys (chunks ++ [c]) =
  dedupKeys chunks ++
    (if DEDUP_MIN_LENGTH <=? strlen c then [normalizeForDedup c] else []).
Proof.
  unfold dedupKeys, longChunks. rewrite List.filter_app, map_app. simpl.
  now destruct (DEDUP_MIN_LENGTH <=? strlen c).
Qed.

Lemma accept_dedupInv slice_ chunks seen chunks' seen' :
  dedupInv chunks seen ->
  accept slice_ chunks seen = (chunks', seen') ->
  dedupInv chunks' seen'.
Proof.
  intros [Hnd Hsub]. unfold accept.
  destruct (String.eqb slice_ ""); [now intros [= <- <-]|].
  destruct (DEDUP_MIN_LENGTH <=? strlen slice_) eqn:Hlong.
  - destruct (bool_decide (normalizeForDedup slice_ ∈ seen)) eqn:Hseen;
      intros [= <- <-]; [now split|].
    apply bool_decide_eq_false in Hseen. unfold dedupInv.
    rewrite dedupKeys_app, Hlong. split.
    + apply NoDup_app. split; [exact Hnd|]. split; [|apply NoDup_singleton].
      intros k Hk Hk'. apply list_elem_of_singleton in Hk'. subst k.
      apply Hseen, Hsub. now apply list_elem_of_In.
    + intros k Hk. apply in_app_or in Hk as [Hk|[<-|[]]]; set_solver.
  - intros [= <- <-]. unfold dedupInv.
    rewrite dedupKeys_app, Hlong, app_nil_r. now split.
Qed.

Lemma chunkLoop_dedupInv fuel clean maxLen overlap :
  forall start chunks seen out,
    dedupInv chunks seen ->
    chunkLoop fuel clean maxLen overlap start chunks seen = Some out ->
    NoDup (dedupKeys out).
Proof.
  induction fuel as [|fuel IH]; intros start chunks seen out Hinv; simpl;
    [discriminate|].
  destruct ((start <? strlen clean) && (Z.of_nat (length chunks) <? MAX_CHUNKS));
    [|intros [= <-]; apply Hinv].
  destruct (accept _ chunks seen) as [chunks' seen'] eqn:Hacc.
  pose proof (accept_dedupInv _ _ _ _ _ Hinv Hacc) as Hinv'.
  destruct (_ =? strlen clean); [intros [= <-]; apply Hinv'|].
  now apply IH.
Qed.

(** Short slices are always emitted. *)
Lemma accept_short slice_ chunks seen :
  slice_ <> "" -> strlen slice_ < DEDUP_MIN_LENGTH ->
  accept slice_ chunks seen = (chunks ++ [slice_], seen).
Proof.
  intros Hne Hshort. unfold accept.
  destruct (String.eqb_spec slice_ "") as [->|_]; [contradiction|].
  destruct (DEDUP_MIN_LENGTH <=? strlen slice_) eqn:Hlong; [|reflexivity].
  apply Z.leb_le in Hlong. lia.
Qed.

(** *** The key of a chunk, by its words *)

Lemma words_nonempty s : Forall (fun w => w <> "") (words s).
Proof.
  induction s as [|c r IH]; cbn [words]; [constructor|].
  destruct (isWhiteSpace c); [exact IH|].
  destruct r as [|d r']; [now repeat constructor|].
  destruct (isWhiteSpace d); [now constructor|].
  destruct (words (String d r')) as [|w rest]; [now repeat constructor|].
  apply Forall_cons in IH as [_ IH]. now constructor.
Qed.

Lemma words_head d r :
  isWhiteSpace d = false -> exists w rest, words (String d r) = w :: rest.
Proof.
  intros Hd. cbn [words]. rewrite Hd.
  destruct r as [|e r']; [eauto|].
  destruct (isWhiteSpace e); [eauto|].
  destruct (words (String e r')); eauto.
Qed.

Lemma concat_cons_char c w rest :
  String.concat " " (String c w :: rest) = String c (String.concat " " (w :: rest)).
Proof. now destruct rest. Qed.

Lemma concat_words_nil s :
  String.concat " " (words s) = "" -> words s = [].
Proof.
  pose proof (words_nonempty s) as Hne.
  destruct (words s) as [|w rest]; [reflexivity|].
  apply Forall_cons in Hne as [Hw _]. destruct w as [|a w']; [contradiction|].
  rewrite concat_cons_char. discriminate.
Qed.

Lemma collapse_true_trimmed r :
  trimStart (collapseRuns isWhiteSpace true r) = collapseRuns isWhiteSpace true r.
Proof.
  induction r as [|c r IH]; [reflexivity|]. cbn [collapseRuns].
  destruct (isWhiteSpace c) eqn:Hc; [exact IH|]. cbn [trimStart]. now rewrite Hc.
Qed.

Lemma trimStart_collapse s :
  trimStart (collapseRuns isWhiteSpace false s) = collapseRuns isWhiteSpace true s.
Proof.
  destruct s as [|c r]; [reflexivity|]. cbn [collapseRuns].
  destruct (isWhiteSpace c) eqn:Hc.
  - cbn [trimStart]. change (isWhiteSpace " ") with true. cbn iota.
    apply collapse_true_trimmed.
  - cbn [trimStart]. now rewrite Hc.
Qed.

Lemma trimEnd_collapse r :
  trimEnd (collapseRuns isWhiteSpace true r) = String.concat " " (words r) /\
  (startsWithSpace r = false ->
   trimEnd (collapseRuns isWhiteSpace false r) = String.concat " " (words r)) /\
  (startsWithSpace r = true ->
   trimEnd (collapseRuns isWhiteSpace false r)
   = match words r with
     | [] => ""
     | _ :: _ => String " " (String.concat " " (words r))
     end).
Proof.
  induction r as [|c r IH]; [repeat split; discriminate|].
  destruct IH as (IH1 & IH2 & IH3).
  cbn [collapseRuns words startsWithSpace].
  destruct (isWhiteSpace c) eqn:Hc.
  - split; [exact IH1|]. split; [discriminate|]. intros _.
    cbn [trimEnd]. rewrite IH1.
    destruct (words r) as [|w rest] eqn:Hw; [reflexivity|].
    pose proof (words_nonempty r) as Hne. rewrite Hw in Hne.
    apply Forall_cons in Hne as [Hne _]. destruct w as [|a w']; [contradiction|].
    rewrite concat_cons_char. reflexivity.
  - assert (E : trimEnd (String c (collapseRuns isWhiteSpace false r))
                = String.concat " "
                    match r with
                    | EmptyString => [String c ""]
                    | String d _ =>
                        if isWhiteSpace d then String c "" :: words r
                        else match words r with
                             | w :: rest => String c w :: rest
                             | [] => [String c ""]
                             end
                    end).
    { cbn [trimEnd]. destruct r as [|d r'].
      - cbn. now rewrite Hc.
      - destruct (isWhiteSpace d) eqn:Hd.
        + rewrite (IH3 Hd).
          destruct (words (String d r')) as [|w rest]; [cbn; now rewrite Hc|].
          reflexivity.
        + rewrite (IH2 Hd).
          destruct (words_head d r' Hd) as (w & rest & Hw). rewrite Hw.
          pose proof (words_nonempty (String d r')) as Hne. rewrite Hw in Hne.
          apply Forall_cons in Hne as [Hne _].
          destruct w as [|a w']; [contradiction|].
          rewrite !concat_cons_char. reflexivity. }
    split; [exact E|]. split; [intros _; exact E|discriminate].
Qed.

Lemma trim_collapse s :
  trim (collapseRuns isWhiteSpace false s) = String.concat " " (words s).
Proof.
  unfold trim. rewrite trimStart_collapse. apply trimEnd_collapse.
Qed.

Lemma toLowerCase_app a b :
  toLowerCase (a +:+ b) = toLowerCase a +:+ toLowerCase b.
Proof.
  induction a as [|c r IH]; [reflexivity|].
  change (String c r +:+ b) with (String c (r +:+ b)). cbn [toLowerCase].
  rewrite IH. reflexivity.
Qed.

Lemma toLowerCase_concat ws :
  toLowerCase (String.concat " " ws) = String.concat " " (map toLowerCase ws).
Proof.
  induction ws as [|w rest IH]; [reflexivity|].
  destruct rest as [|w' rest]; [reflexivity|].
  change (String.concat " " (w :: w' :: rest))
    with (w +:+ String " " (String.concat " " (w' :: rest))).
  rewrite toLowerCase_app. cbn [toLowerCase]. rewrite IH. reflexivity.
Qed.

Lemma normalizeForDedup_words s : normalizeForDedup s = normalized s.
Proof.
  unfold normalizeForDedup, normalized. now rewrite trim_collapse, toLowerCase_concat.
Qed.

Lemma NoDup_map_filter_nth {A B} (f : A -> B) (p : A -> bool) (l : list A) :
  NoDup (map f (List.filter p l)) ->
  forall i j a b,
    i <> j -> nth_error l i = Some a -> nth_error l j = Some b ->
    p a = true -> p b = true -> f a <> f b.
Proof.
  induction l as [|x l IH]; intros Hnd i j a b Hij Hi Hj Ha Hb;
    [now destruct i|].
  assert (Hin : forall k y, nth_error l k = Some y -> p y = true ->
                            In (f y) (map f (List.filter p l))).
  { intros k y Hk Hy. apply in_map, List.filter_In.
    split; [exact (nth_error_In _ _ Hk)|exact Hy]. }
  cbn [List.filter] in Hnd.
  destruct i as [|i], j as [|j]; cbn [nth_error] in Hi, Hj.
  - contradiction.
  - injection Hi as ->. rewrite Ha in Hnd. cbn [map] in Hnd.
    apply NoDup_cons in Hnd as [Hx _]. intros Heq. apply Hx.
    apply list_elem_of_In. rewrite Heq. exact (Hin j b Hj Hb).
  - injection Hj as ->. rewrite Hb in Hnd. cbn [map] in Hnd.
    apply NoDup_cons in Hnd as [Hx _]. intros Heq. apply Hx.
    apply list_elem_of_In. rewrite <- Heq. exact (Hin i a Hi Ha).
  - apply (IH (match p x as t return NoDup (map f (if t then x :: List.filter p l
                                                    else List.filter p l))
                     -> NoDup (map f (List.filter p l)) with
               | true => fun H => proj2 (proj1 (NoDup_cons _ _) H)
               | false => fun H => H
               end Hnd) i j a b); auto.
Qed.

(** *** Strings: positions and occurrences *)

Lemma length_substring s :
  forall n m, (n + m <= String.length s)%nat ->
              String.length (String.substring n m s) = m.
Proof.
  induction s as [|c s IH]; intros [|n] [|m]; simpl; intros H;
    try reflexivity; try lia.
  - f_equal. apply (IH O m). simpl. lia.
  - apply (IH n O). lia.
  - apply (IH n (S m)). lia.
Qed.

Lemma dropChars_get k :
  forall s c r, dropChars k s = String c r ->
                String.get k s = Some c /\ dropChars (S k) s = r /\
                (k < String.length s)%nat.
Proof.
  induction k as [|k IH]; intros [|a s] c r; simpl; try discriminate.
  - intros [= -> ->]. repeat split. lia.
  - intros H. destruct (IH s c r H) as (H1 & H2 & H3). repeat split; auto. lia.
Qed.

Lemma prefix_two c d t :
  String.prefix (String c (String d EmptyString)) t = true <->
  exists rest, t = String c (String d rest).
Proof.
  split.
  - destruct t as [|a [|b rest]]; simpl; try discriminate.
    + now destruct (ascii_dec c a).
    + destruct (ascii_dec c a) as [->|]; [|discriminate].
      destruct (ascii_dec d b) as [->|]; [|discriminate]. eauto.
  - intros [rest ->]. simpl.
    destruct (ascii_dec c c); [|contradiction].
    destruct (ascii_dec d d); [|contradiction]. now destruct rest.
Qed.

Lemma lastIndexOfFrom_spec pat s :
  forall i best,
    (lastIndexOfFrom pat s i best = best /\
     forall k, (k <= String.length s)%nat ->
               String.prefix pat (dropChars k s) = false) \/
    (exists k, (k <= String.length s)%nat /\
               lastIndexOfFrom pat s i best = i + Z.of_nat k /\
               String.prefix pat (dropChars k s) = true).
Proof.
  induction s as [|a s IH]; intros i best.
  - cbn [lastIndexOfFrom]. destruct (String.prefix pat "") eqn:Hp.
    + right. exists O. simpl. repeat split; auto; lia.
    + left. split; [reflexivity|]. intros [|k] Hk; simpl in *; [exact Hp|lia].
  - cbn [lastIndexOfFrom].
    destruct (IH (i + 1) (if String.prefix pat (String a s) then i else best))
      as [[Heq Hno]|(k & Hk & Heq & Hp)].
    + rewrite Heq. destruct (String.prefix pat (String a s)) eqn:Hp.
      * right. exists O. simpl. repeat split; auto; lia.
      * left. split; [reflexivity|].
        intros [|k] Hk; simpl in *; [exact Hp|apply Hno; lia].
    + right. exists (S k). split; [simpl; lia|].
      split; [rewrite Heq; lia|exact Hp].
Qed.

(** *** The sentence-boundary search *)

Lemma matchBoundary_spec w :
  forall m, matchBoundary w = Some m ->
    exists c d k rest,
      m = String c (String d EmptyString) /\
      (isSentencePunct c || Ascii.eqb c LF) = true /\
      isWhiteSpace d = true /\
      dropChars k w = String c (String d rest).
Proof.
  induction w as [|c w IH]; intros m; simpl; [discriminate|].
  destruct w as [|d rest]; [discriminate|].
  destruct ((isSentencePunct c || Ascii.eqb c LF) && isWhiteSpace d
            && negb (lookahead rest)) eqn:Hcond.
  - intros [= <-].
    apply andb_true_iff in Hcond as [Hcond _].
    apply andb_true_iff in Hcond as [Hc Hd].
    exists c, d, O, rest. auto.
  - intros H. destruct (IH m H) as (c' & d' & k & rest' & -> & Hc & Hd & Hk).
    exists c', d', (S k), rest'. auto.
Qed.

Lemma slice_in_range text a b :
  0 <= a <= b -> b <= strlen text ->
  slice text a b = String.substring (Z.to_nat a) (Z.to_nat (b - a)) text /\
  strlen (slice text a b) = b - a.
Proof.
  intros Ha Hb. unfold slice, sliceIndex.
  destruct (Z.ltb_spec a 0); [lia|]. destruct (Z.ltb_spec b 0); [lia|].
  rewrite !Z.min_l by lia. split; [reflexivity|].
  unfold strlen in *. rewrite length_substring; lia.
Qed.

(** The rule of [findSentenceBoundary]: the result is the hard cut [end_],
    or a position more than 100 characters past [start], inside the
    search window, that follows a sentence mark or newline and one
    whitespace character. *)
Lemma findSentenceBoundary_rule text start end_ :
  0 <= start <= end_ -> end_ <= strlen text ->
  findSentenceBoundary text start end_ = end_ \/
  (start + 100 < findSentenceBoundary text start end_ <= end_ /\
   Z.max start (end_ - 120) + 2 <= findSentenceBoundary text start end_ /\
   afterBoundary text (findSentenceBoundary text start end_) = true).
Proof.
  intros Hs He. unfold findSentenceBoundary.
  set (ws := Z.max start (end_ - 120)).
  assert (Hws : 0 <= ws <= end_) by lia.
  destruct (slice_in_range text ws end_ Hws He) as [Hslice Hlen].
  set (w := slice text ws end_) in *.
  destruct (matchBoundary w) as [m|] eqn:Hm; [|now left].
  destruct (matchBoundary_spec w m Hm) as (c & d & k0 & rest0 & -> & Hc & Hd & Hk0).
  destruct (lastIndexOfFrom_spec (String c (String d EmptyString)) w 0 (-1))
    as [[_ Hno]|(k & Hk & Heq & Hp)].
  { exfalso. destruct (dropChars_get _ _ _ _ Hk0) as (_ & _ & Hlt).
    specialize (Hno k0 ltac:(lia)). rewrite Hk0 in Hno.
    assert (String.prefix (String c (String d EmptyString))
              (String c (String d rest0)) = true) by (apply prefix_two; eauto).
    congruence. }
  unfold lastIndexOf. rewrite Heq.
  change (strlen (String c (String d EmptyString))) with 2.
  destruct (start + 100 <? ws + (0 + Z.of_nat k) + 2) eqn:Hfar; [right|now left].
  apply Z.ltb_lt in Hfar.
  apply prefix_two in Hp as [rest Hdrop].
  destruct (dropChars_get _ _ _ _ Hdrop) as (Hgc & Hdrop' & _).
  destruct (dropChars_get _ _ _ _ Hdrop') as (Hgd & _ & Hlt).
  unfold strlen in Hlen.
  repeat split; try lia.
  unfold afterBoundary.
  replace (Z.to_nat (ws + (0 + Z.of_nat k) + 2 - 2)) with (k + Z.to_nat ws)%nat by lia.
  replace (Z.to_nat (ws + (0 + Z.of_nat k) + 2 - 1)) with (S k + Z.to_nat ws)%nat by lia.
  rewrite <- !(String.substring_correct1 text (Z.to_nat ws) (Z.to_nat (end_ - ws)))
    by lia.
  rewrite <- Hslice. fold w. rewrite Hgc, Hgd, Hc, Hd.
  destruct (Z.leb_spec 2 (ws + (0 + Z.of_nat k) + 2)); [reflexivity|lia].
Qed.

(** *** The rule of the boundary, place by place *)

Lemma get_dropChars k :
  forall w j, String.get j (dropChars k w) = String.get (k + j) w.
Proof.
  induction k as [|k IH]; intros w j; [reflexivity|].
  destruct w as [|a w]; cbn [dropChars Nat.add String.get]; [|apply IH].
  now destruct (k + j)%nat, j.
Qed.

Lemma dropChars_pair k w c d :
  pairAt w k c d <-> exists rest, dropChars k w = String c (String d rest).
Proof.
  unfold pairAt. split.
  - intros [Hc Hd].
    pose proof (get_dropChars k w 0) as H0. rewrite Nat.add_0_r, Hc in H0.
    pose proof (get_dropChars k w 1) as H1.
    replace (k + 1)%nat with (S k) in H1 by lia. rewrite Hd in H1.
    destruct (dropChars k w) as [|a [|b rest]]; cbn in H0, H1; try discriminate.
    injection H0 as ->. injection H1 as ->. eauto.
  - intros [rest Hdrop].
    pose proof (get_dropChars k w 0) as H0. rewrite Nat.add_0_r, Hdrop in H0.
    pose proof (get_dropChars k w 1) as H1.
    replace (k + 1)%nat with (S k) in H1 by lia. rewrite Hdrop in H1.
    cbn in H0, H1. now split.
Qed.

Lemma closes_cons a w k : closes (String a w) (S k) = closes w k.
Proof. reflexivity. Qed.

Lemma matchBoundary_none w :
  (forall k, closes w k = false) -> matchBoundary w = None.
Proof.
  induction w as [|c w IH]; intros Hno; [reflexivity|]. cbn [matchBoundary].
  destruct w as [|d rest]; [reflexivity|].
  pose proof (Hno O) as H0. unfold closes in H0. cbn [dropChars] in H0.
  rewrite H0. apply IH. intros k. exact (Hno (S k)).
Qed.

Lemma matchBoundary_least w :
  forall k,
    closes w k = true -> (forall i, (i < k)%nat -> closes w i = false) ->
    exists c d rest,
      dropChars k w = String c (String d rest) /\
      matchBoundary w = Some (String c (String d EmptyString)).
Proof.
  induction w as [|a w IH]; intros k Hk Hleast.
  - unfold closes in Hk. now destruct k.
  - destruct k as [|k].
    + unfold closes in Hk. cbn [dropChars] in Hk.
      destruct w as [|d rest]; [discriminate|].
      exists a, d, rest. split; [reflexivity|]. cbn [matchBoundary]. now rewrite Hk.
    + rewrite closes_cons in Hk.
      destruct (IH k Hk) as (c & d & rest & Hdrop & Hm).
      { intros i Hi. rewrite <- (closes_cons a). apply Hleast. lia. }
      exists c, d, rest. split; [exact Hdrop|]. cbn [matchBoundary].
      destruct w as [|d0 rest0]; [now destruct k|].
      pose proof (Hleast O ltac:(lia)) as H0. unfold closes in H0.
      cbn [dropChars] in H0. rewrite H0. exact Hm.
Qed.

Lemma lastIndexOfFrom_greatest pat s :
  forall k i best,
    String.prefix pat (dropChars k s) = true ->
    (k <= String.length s)%nat ->
    (forall j, (k < j <= String.length s)%nat ->
               String.prefix pat (dropChars j s) = false) ->
    lastIndexOfFrom pat s i best = i + Z.of_nat k.
Proof.
  induction s as [|a s IH]; intros k i best Hk Hlen Hmax.
  - cbn [String.length] in Hlen. assert (k = O) as -> by lia.
    cbn [dropChars] in Hk. cbn [lastIndexOfFrom]. rewrite Hk. lia.
  - cbn [lastIndexOfFrom]. destruct k as [|k].
    + cbn [dropChars] in Hk. rewrite Hk.
      destruct (lastIndexOfFrom_spec pat s (i + 1) i) as [[Heq _]|(j & Hj & _ & Hp)].
      * rewrite Heq. lia.
      * specialize (Hmax (S j)). cbn [dropChars String.length] in Hmax.
        rewrite Hmax in Hp by lia. discriminate.
    + cbn [dropChars String.length] in *.
      rewrite (IH k (i + 1)); [lia|exact Hk|lia|].
      intros j Hj. apply (Hmax (S j)). lia.
Qed.

Lemma lineHasPunct_spec s :
  lineHasPunct s = true <->
  exists j p, String.get j s = Some p /\ isSentencePunct p = true /\
              forall i t, (i < j)%nat -> String.get i s = Some t ->
                          isLineTerminator t = false.
Proof.
  induction s as [|c r IH]; cbn [lineHasPunct].
  - split; [discriminate|]. intros (j & p & Hj & _). now destruct j.
  - destruct (isSentencePunct c) eqn:Hp.
    + split; [|reflexivity]. intros _. exists O, c. cbn. repeat split; auto.
      intros i t Hi. lia.
    + destruct (isLineTerminator c) eqn:Hl.
      * split; [discriminate|]. intros (j & p & Hj & Hpj & Hbefore).
        destruct j as [|j]; cbn in Hj; [congruence|].
        specialize (Hbefore O c ltac:(lia) eq_refl). congruence.
      * rewrite IH. split.
        -- intros (j & p & Hj & Hpj & Hbefore). exists (S j), p.
           split; [exact Hj|]. split; [exact Hpj|].
           intros [|i] t Hi Ht; cbn in Ht; [congruence|].
           apply (Hbefore i t); [lia|exact Ht].
        -- intros (j & p & Hj & Hpj & Hbefore).
           destruct j as [|j]; cbn in Hj; [congruence|].
           exists j, p. split; [exact Hj|]. split; [exact Hpj|].
           intros i t Hi Ht. apply (Hbefore (S i) t); [lia|exact Ht].
Qed.

(** The place [k] of the window closes a sentence: a sentence mark or a
    newline, then a whitespace character, which no newline follows
    directly and after which the line holds no further sentence mark. *)
Lemma closes_spec w k :
  closes w k = true <->
  exists c d,
    pairAt w k c d /\
    (isSentencePunct c = true \/ c = LF) /\ isWhiteSpace d = true /\
    String.get (k + 2) w <> Some LF /\
    ~ exists j p, String.get (k + 2 + j) w = Some p /\ isSentencePunct p = true /\
                  forall i t, (i < j)%nat -> String.get (k + 2 + i) w = Some t ->
                              isLineTerminator t = false.
Proof.
  unfold closes. split.
  - destruct (dropChars k w) as [|c [|d rest]] eqn:Hdrop; try discriminate.
    intros H. apply andb_true_iff in H as [H Hlook].
    apply andb_true_iff in H as [Hc Hd]. apply negb_true_iff in Hlook.
    unfold lookahead in Hlook. apply orb_false_iff in Hlook as [Hline Hnl].
    exists c, d. split; [apply dropChars_pair; eauto|].
    split; [apply orb_true_iff in Hc as [Hc|Hc];
            [now left|right; now apply Ascii.eqb_eq]|].
    split; [exact Hd|].
    assert (Hrest : forall j, String.get (k + 2 + j) w = String.get j rest).
    { intros j. replace (k + 2 + j)%nat with (k + (2 + j))%nat by lia.
      rewrite <- (get_dropChars k w (2 + j)), Hdrop. reflexivity. }
    split.
    + pose proof (Hrest O) as H0. rewrite Nat.add_0_r in H0. rewrite H0.
      destruct rest as [|e rest']; [discriminate|]. cbn.
      intros [= ->]. now rewrite Ascii.eqb_refl in Hnl.
    + intros (j & p & Hj & Hp & Hbefore).
      assert (lineHasPunct rest = true); [|congruence].
      apply lineHasPunct_spec. exists j, p. rewrite <- Hrest.
      split; [exact Hj|]. split; [exact Hp|].
      intros i t Hi Ht. apply (Hbefore i t Hi). now rewrite Hrest.
  - intros (c & d & Hpair & Hc & Hd & Hnl & Hline).
    apply dropChars_pair in Hpair as [rest Hdrop]. rewrite Hdrop.
    assert (Hrest : forall j, String.get (k + 2 + j) w = String.get j rest).
    { intros j. replace (k + 2 + j)%nat with (k + (2 + j))%nat by lia.
      rewrite <- (get_dropChars k w (2 + j)), Hdrop. reflexivity. }
    apply andb_true_iff. split; [apply andb_true_iff; split|].
    + destruct Hc as [Hc| ->]; [now rewrite Hc|].
      rewrite Ascii.eqb_refl. apply orb_true_r.
    + exact Hd.
    + apply negb_true_iff. unfold lookahead. apply orb_false_iff. split.
      * destruct (lineHasPunct rest) eqn:Hl; [|reflexivity]. exfalso.
        apply Hline. apply lineHasPunct_spec in Hl as (j & p & Hj & Hp & Hbefore).
        exists j, p. rewrite Hrest. split; [exact Hj|]. split; [exact Hp|].
        intros i t Hi Ht. apply (Hbefore i t Hi). now rewrite <- Hrest.
      * pose proof (Hrest O) as H0. rewrite Nat.add_0_r in H0. rewrite H0 in Hnl.
        destruct rest as [|e rest']; [reflexivity|]. cbn in Hnl.
        destruct (Ascii.eqb_spec e LF) as [->|]; [now contradiction Hnl|reflexivity].
Qed.

Lemma findSentenceBoundary_none text start end_ :
  (forall k, closes (slice text (Z.max start (end_ - 120)) end_) k = false) ->
  findSentenceBoundary text start end_ = end_.
Proof.
  intros Hno. unfold findSentenceBoundary. now rewrite (matchBoundary_none _ Hno).
Qed.

Lemma findSentenceBoundary_exact text start end_ k0 k c d :
  let ws := Z.max start (end_ - 120) in
  let window := slice text ws end_ in
  closes window k0 = true ->
  (forall i, (i < k0)%nat -> closes window i = false) ->
  pairAt window k0 c d ->
  pairAt window k c d ->
  (forall j, (k < j)%nat -> ~ pairAt window j c d) ->
  findSentenceBoundary text start end_
  = if start + 100 <? ws + Z.of_nat k + 2 then ws + Z.of_nat k + 2 else end_.
Proof.
  intros ws window Hk0 Hleast Hpair0 Hpair Hlast.
  destruct (matchBoundary_least window k0 Hk0 Hleast) as (c' & d' & rest & Hdrop & Hm).
  apply dropChars_pair in Hpair0 as [rest0 Hdrop0].
  rewrite Hdrop0 in Hdrop. injection Hdrop as <- <- _.
  unfold findSentenceBoundary. fold ws. fold window. rewrite Hm.
  assert (Hidx : lastIndexOf window (String c (String d EmptyString))
                 = Z.of_nat k).
  { unfold lastIndexOf.
    pose proof Hpair as Hpair'. apply dropChars_pair in Hpair' as [rest1 Hdrop1].
    rewrite (lastIndexOfFrom_greatest _ window k 0 (-1)); [lia| | |].
    - apply prefix_two. eauto.
    - destruct (dropChars_get _ _ _ _ Hdrop1) as (_ & _ & Hlt). lia.
    - intros j Hj. destruct (String.prefix _ (dropChars j window)) eqn:Hp;
        [|reflexivity].
      apply prefix_two in Hp. exfalso. apply (Hlast j); [lia|].
      now apply dropChars_pair. }
  rewrite Hidx. change (strlen (String c (String d EmptyString))) with 2.
  reflexivity.
Qed.

Lemma get_Some_lt s :
  forall j c, String.get j s = Some c -> (j < String.length s)%nat.
Proof.
  induction s as [|a s IH]; intros [|j] c; cbn; try discriminate; [lia|].
  intros H. apply IH in H. lia.
Qed.

(** *** Termination of the window loop *)

Lemma chunkLoop_returns clean maxLen overlap :
  120 <= maxLen -> 0 <= overlap -> overlap + 118 < maxLen ->
  forall fuel start chunks seen,
    0 <= start ->
    Z.max 0 (strlen clean - start) < Z.of_nat fuel ->
    exists out, chunkLoop fuel clean maxLen overlap start chunks seen = Some out.
Proof.
  intros Hmax Hov Hgap.
  induction fuel as [|fuel IH]; intros start chunks seen Hstart Hfuel; [lia|].
  cbn [chunkLoop].
  destruct ((start <? strlen clean) && (Z.of_nat (length chunks) <? MAX_CHUNKS))
    eqn:Hcond; [|eauto].
  apply andb_true_iff in Hcond as [Hlt _]. apply Z.ltb_lt in Hlt.
  set (end0 := Z.min (start + maxLen) (strlen clean)).
  destruct (end0 <? strlen clean) eqn:Hmid.
  - apply Z.ltb_lt in Hmid.
    assert (Hend0 : end0 = start + maxLen) by lia.
    pose proof (findSentenceBoundary_rule clean start end0 ltac:(lia) ltac:(lia))
      as Hrule.
    set (end_ := findSentenceBoundary clean start end0) in *.
    destruct (accept _ chunks seen) as [chunks' seen'].
    destruct (Z.eqb_spec end_ (strlen clean)); [eauto|].
    apply IH; lia.
  - apply Z.ltb_ge in Hmid.
    destruct (accept _ chunks seen) as [chunks' seen'].
    destruct (Z.eqb_spec end0 (strlen clean)); [eauto|lia].
Qed.

Lemma chunkText_returns text maxLen overlap :
  120 <= maxLen -> 0 <= overlap -> overlap + 118 < maxLen ->
  exists chunks,
    chunkText (S (String.length (normalizeText text))) text maxLen overlap
    = Some chunks.
Proof.
  intros Hmax Hov Hgap. unfold chunkText.
  destruct (String.eqb (normalizeText text) ""); [eauto|].
  apply chunkLoop_returns; try assumption; [lia|]. unfold strlen. lia.
Qed.

End TrainingFacts.

(** C4.  Among the chunks returned by one call of [chunkText], those of at
    least 80 characters have pairwise distinct normalized texts, where the
    normalized text of a chunk is what the specification describes:
    whitespace runs collapsed to a single space, trimmed and lowercased,
    that is, its words in lower case with one space between them.  So no
    two of these chunks have the same words up to letter case.  A
    non-empty slice shorter than 80 characters is emitted without being
    compared or recorded; and with a window of at least 120 characters
    that exceeds the overlap by more than 118 (both calibration profiles)
    the call returns. *)
Theorem chunkText_dedup :
  (forall s, Training.normalizeForDedup s = Training.normalized s) /\
  (forall fuel text maxLen overlap chunks,
     Training.chunkText fuel text maxLen overlap = Some chunks ->
     NoDup (map Training.normalized (Training.longChunks chunks)) /\
     forall i j c1 c2,
       i <> j -> nth_error chunks i = Some c1 -> nth_error chunks j = Some c2 ->
       Training.DEDUP_MIN_LENGTH <= JsString.strlen c1 ->
       Training.DEDUP_MIN_LENGTH <= JsString.strlen c2 ->
       map JsString.toLowerCase (Training.words c1)
       <> map JsString.toLowerCase (Training.words c2)) /\
  (forall slice_ chunks seen,
     slice_ <> "" -> JsString.strlen slice_ < Training.DEDUP_MIN_LENGTH ->
     Training.accept slice_ chunks seen = (chunks ++ [slice_], seen)) /\
  (forall text maxLen overlap,
     120 <= maxLen -> 0 <= overlap -> overlap + 118 < maxLen ->
     exists chunks,
       Training.chunkText (S (String.length (Training.normalizeText text)))
         text maxLen overlap = Some chunks).
Proof.
  split; [|split; [|split]].
  - apply normalizeForDedup_words.
  - intros fuel text maxLen overlap chunks Hrun.
    assert (Hnd : NoDup (Training.dedupKeys chunks)).
    { revert Hrun. unfold Training.chunkText.
      destruct (String.eqb _ ""); [intros [= <-]; constructor|].
      apply chunkLoop_dedupInv. split; [constructor|]. intros k []. }
    unfold Training.dedupKeys in Hnd.
    rewrite (map_ext _ _ normalizeForDedup_words) in Hnd.
    split; [exact Hnd|].
    intros i j c1 c2 Hij Hi Hj H1 H2 Hsame.
    apply (NoDup_map_filter_nth Training.normalized
             (fun c => Training.DEDUP_MIN_LENGTH <=? JsString.strlen c) chunks Hnd
             i j c1 c2 Hij Hi Hj); [now apply Z.leb_le|now apply Z.leb_le|].
    unfold Training.normalized. now rewrite Hsame.
  - apply accept_short.
  - apply chunkText_returns.
Qed.

(** A run of the theorem: of two blocks of 100 characters that differ in
    letter case and in the whitespace between their two words, the first
    is emitted and the second is not; the same short word twice is
    emitted twice. *)
Lemma chunkText_dedup_witness :
  Training.chunkText 5 Scenarios.caseVariants 100 0 = Some [Scenarios.lowerBlock] /\
  JsString.strlen Scenarios.upperBlock = 100 /\
  Scenarios.upperBlock <> Scenarios.lowerBlock /\
  Training.normalized Scenarios.upperBlock = Training.normalized Scenarios.lowerBlock /\
  NoDup (map Training.normalized (Training.longChunks [Scenarios.lowerBlock])) /\
  Training.chunkText 5 Scenarios.repeatedWord 3 0 = Some ["abc"; "abc"].
Proof.
  assert (H : Training.chunkText 5 Scenarios.caseVariants 100 0
              = Some [Scenarios.lowerBlock]) by (vm_compute; reflexivity).
  split; [exact H|]. split; [vm_compute; reflexivity|].
  split; [vm_compute; discriminate|]. split; [vm_compute; reflexivity|]. split.
  - exact (proj1 (proj1 (proj2 chunkText_dedup) 5%nat Scenarios.caseVariants
                    100 0 _ H)).
  - vm_compute. reflexivity.
Defined.

(** C8 (as amended).  [findSentenceBoundary] looks at the window of the
    last 120 characters before the hard cut [end_] (not before [start]).
    A place of the window closes a sentence when it holds a sentence mark
    or a newline and then a whitespace character, which no newline follows
    directly and after which the line holds no further sentence mark.
    Without such a place the result is the hard cut.  Otherwise the two
    characters of the first such place are taken, and the result is the
    position after their last occurrence in the window when that position
    lies more than 100 characters past [start], else the hard cut; a
    result other than the hard cut therefore follows a sentence mark or
    newline and a whitespace character.  A boundary 91 characters in is
    never used: two adjacent sentences of 90 characters and a window of
    120 are hard-cut at 120, inside the second sentence, while two
    adjacent sentences of 110 characters and a window of 150 are cut at
    the sentence boundary, 111 characters in; with a later sentence mark
    on the line the same boundary is not found and the cut is at 150. *)
Theorem sentence_boundary_rule :
  (forall w k,
     Training.closes w k = true <->
     exists c d,
       Training.pairAt w k c d /\
       (Training.isSentencePunct c = true \/ c = JsString.LF) /\
       JsString.isWhiteSpace d = true /\
       String.get (k + 2) w <> Some JsString.LF /\
       ~ exists j p,
           String.get (k + 2 + j) w = Some p /\
           Training.isSentencePunct p = true /\
           forall i t, (i < j)%nat -> String.get (k + 2 + i) w = Some t ->
                       JsString.isLineTerminator t = false) /\
  (forall text start end_,
     (forall k,
        Training.closes
          (JsString.slice text (Z.max start (end_ - 120)) end_) k = false) ->
     Training.findSentenceBoundary text start end_ = end_) /\
  (forall text start end_ k0 k c d,
     let ws := Z.max start (end_ - 120) in
     let window := JsString.slice text ws end_ in
     Training.closes window k0 = true ->
     (forall i, (i < k0)%nat -> Training.closes window i = false) ->
     Training.pairAt window k0 c d ->
     Training.pairAt window k c d ->
     (forall j, (k < j)%nat -> ~ Training.pairAt window j c d) ->
     Training.findSentenceBoundary text start end_
     = if start + 100 <? ws + Z.of_nat k + 2 then ws + Z.of_nat k + 2 else end_) /\
  (forall text start end_,
     0 <= start <= end_ -> end_ <= JsString.strlen text ->
     Training.findSentenceBoundary text start end_ = end_ \/
     (start + 100 < Training.findSentenceBoundary text start end_ <= end_ /\
      Training.afterBoundary text
        (Training.findSentenceBoundary text start end_) = true)) /\
  (forall text maxLen,
     91 < maxLen <= JsString.strlen text ->
     Training.findSentenceBoundary text 0 maxLen <> 91) /\
  Training.chunkText 5 Scenarios.sentences90 120 20
    = Some [JsString.slice Scenarios.sentences90 0 120;
            JsString.slice Scenarios.sentences90 100 181] /\
  Training.chunkText 5 Scenarios.sentences110 150 20
    = Some [JsString.slice Scenarios.sentences110 0 110;
            JsString.slice Scenarios.sentences110 91 221] /\
  Training.findSentenceBoundary Scenarios.laterMark 0 150 = 150.
Proof.
  split; [|split; [|split; [|split; [|split; [|split; [|split]]]]]].
  - apply closes_spec.
  - apply findSentenceBoundary_none.
  - apply findSentenceBoundary_exact.
  - intros text start end_ Hs He.
    destruct (findSentenceBoundary_rule text start end_ Hs He) as [H|(H1 & _ & H2)];
      [now left|now right].
  - intros text maxLen Hm.
    destruct (findSentenceBoundary_rule text 0 maxLen ltac:(lia) ltac:(lia))
      as [H|(H1 & _)]; lia.
  - vm_compute. reflexivity.
  - vm_compute. reflexivity.
  - vm_compute. reflexivity.
Qed.

(** A run of the rule on the two sentences of 110 characters: the only
    place that closes a sentence is the period and space at 109, so the
    cut is at the sentence boundary, 111 characters in. *)
Lemma sentence_boundary_rule_witness :
  Training.closes (JsString.slice Scenarios.sentences110 (Z.max 0 (150 - 120)) 150)
    79 = true /\
  Training.findSentenceBoundary Scenarios.sentences110 0 150 = 111.
Proof.
  set (window := JsString.slice Scenarios.sentences110 (Z.max 0 (150 - 120)) 150).
  assert (Hcloses : Training.closes window 79 = true) by (vm_compute; reflexivity).
  split; [exact Hcloses|].
  assert (Hfirst : forallb (fun i => negb (Training.closes window i)) (seq 0 79)
                   = true) by (vm_compute; reflexivity).
  assert (Hlater : forallb
                     (fun j => match String.get j window with
                               | Some c => negb (Ascii.eqb c ".")
                               | None => true
                               end) (seq 80 40) = true)
    by (vm_compute; reflexivity).
  assert (Hlen : String.length window = 120%nat) by (vm_compute; reflexivity).
  rewrite (proj1 (proj2 (proj2 sentence_boundary_rule))
             Scenarios.sentences110 0 150 79%nat 79%nat "."%char " "%char).
  - vm_compute. reflexivity.
  - exact Hcloses.
  - intros i Hi. rewrite forallb_forall in Hfirst.
    apply negb_true_iff, Hfirst, in_seq. lia.
  - split; vm_compute; reflexivity.
  - split; vm_compute; reflexivity.
  - intros j Hj [Hc _]. fold window in Hc.
    pose proof (get_Some_lt _ _ _ Hc) as Hlt. rewrite Hlen in Hlt.
    rewrite forallb_forall in Hlater.
    specialize (Hlater j ltac:(apply in_seq; lia)). rewrite Hc in Hlater.
    discriminate Hlater.
Defined.

(** C8, the scenario as the specification states it, fails: for two
    adjacent sentences of 90 characters and a window of 120 the boundary
    after the period and space lies 91 characters in, which is not beyond
    100, so the first chunk is the hard cut of 120 characters. *)
Lemma scenarioB_counterexample :
  Training.findSentenceBoundary Scenarios.sentences90 0 120 = 120 /\
  (exists first rest,
     Training.chunkText 5 Scenarios.sentences90 120 20 = Some (first :: rest) /\
     JsString.strlen first = 120) /\
  ~ Training.scenarioB_as_stated.
Proof.
  split; [vm_compute; reflexivity|]. split.
  - eexists. eexists. split; vm_compute; reflexivity.
  - intros H.
    specialize (H (Scenarios.replicate 89 "a") (Scenarios.replicate 89 "b") 120).
    assert (E : Training.findSentenceBoundary
                  (Scenarios.replicate 89 "a" +:+ ". " +:+
                   Scenarios.replicate 89 "b" +:+ ".") 0 120 = 120)
      by (vm_compute; reflexivity).
    rewrite E in H. 
    assert (C : 120 = 91); [|discriminate C].
    apply H; try (vm_compute; reflexivity). lia.
Qed.

(** ** The vector worker *)

(** *** Debug messages leave the rest of the state alone *)
Section DebugFacts.
Import VectorWorker.

(** [postDebug] adds at most its message. *)
Lemma postDebug_frame event w :
  let w' := postDebug event w in
  db w' = db w /\ training_chunks w' = training_chunks w /\
  sqlite_sequence w' = sqlite_sequence w /\ vectors w' = vectors w /\
  idb w' = idb w /\ vec0Available w' = vec0Available w /\
  vec0DisabledReason w' = vec0DisabledReason w /\
  embedderPromise w' = embedderPromise w /\
  lastUsedBackend w' = lastUsedBackend w /\
  pipelineLoads w' = pipelineLoads w /\
  debugEnabled w' = debugEnabled w /\ idbPutCount w' = idbPutCount w /\
  posted w' = posted w ++ (if debugEnabled w then [debug event] else []).
Proof.
  unfold postDebug. destruct (debugEnabled w) eqn:Hd; cbn;
    rewrite ?Hd, ?app_nil_r; repeat split; reflexivity.
Qed.

Lemma postDebug_db event w :
  db (postDebug event w) = db w.
Proof. unfold postDebug. destruct (debugEnabled w) eqn:Hd; [cbn|]; auto. Qed.

Lemma postDebug_training_chunks event w :
  training_chunks (postDebug event w) = training_chunks w.
Proof. unfold postDebug. destruct (debugEnabled w) eqn:Hd; [cbn|]; auto. Qed.

Lemma postDebug_sqlite_sequence event w :
  sqlite_sequence (postDebug event w) = sqlite_sequence w.
Proof. unfold postDebug. destruct (debugEnabled w) eqn:Hd; [cbn|]; auto. Qed.

Lemma postDebug_vectors event w :
  vectors (postDebug event w) = vectors w.
Proof. unfold postDebug. destruct (debugEnabled w) eqn:Hd; [cbn|]; auto. Qed.

Lemma postDebug_idb event w :
  idb (postDebug event w) = idb w.
Proof. unfold postDebug. destruct (debugEnabled w) eqn:Hd; [cbn|]; auto. Qed.

Lemma postDebug_vec0Available event w :
  vec0Available (postDebug event w) = vec0Available w.
Proof. unfold postDebug. destruct (debugEnabled w) eqn:Hd; [cbn|]; auto. Qed.

Lemma postDebug_vec0DisabledReason event w :
  vec0DisabledReason (postDebug event w) = vec0DisabledReason w.
Proof. unfold postDebug. destruct (debugEnabled w) eqn:Hd; [cbn|]; auto. Qed.

Lemma postDebug_embedderPromise event w :
  embedderPromise (postDebug event w) = embedderPromise w.
Proof. unfold postDebug. destruct (debugEnabled w) eqn:Hd; [cbn|]; auto. Qed.

Lemma postDebug_lastUsedBackend event w :
  lastUsedBackend (postDebug event w) = lastUsedBackend w.
Proof. unfold postDebug. destruct (debugEnabled w) eqn:Hd; [cbn|]; auto. Qed.

Lemma postDebug_pipelineLoads event w :
  pipelineLoads (postDebug event w) = pipelineLoads w.
Proof. unfold postDebug. destruct (debugEnabled w) eqn:Hd; [cbn|]; auto. Qed.

Lemma postDebug_debugEnabled event w :
  debugEnabled (postDebug event w) = debugEnabled w.
Proof. unfold postDebug. destruct (debugEnabled w) eqn:Hd; [cbn|]; auto. Qed.

Lemma postDebug_idbPutCount event w :
  idbPutCount (postDebug event w) = idbPutCount w.
Proof. unfold postDebug. destruct (debugEnabled w) eqn:Hd; [cbn|]; auto. Qed.

End DebugFacts.

(** Rewriting away the [postDebug] around a field. *)
Ltac undebug :=
  rewrite ?postDebug_db, ?postDebug_training_chunks, ?postDebug_sqlite_sequence,
    ?postDebug_vectors, ?postDebug_idb, ?postDebug_vec0Available,
    ?postDebug_vec0DisabledReason, ?postDebug_embedderPromise,
    ?postDebug_lastUsedBackend, ?postDebug_pipelineLoads,
    ?postDebug_debugEnabled, ?postDebug_idbPutCount.

Ltac undebug_in H :=
  rewrite ?postDebug_db, ?postDebug_training_chunks, ?postDebug_sqlite_sequence,
    ?postDebug_vectors, ?postDebug_idb, ?postDebug_vec0Available,
    ?postDebug_vec0DisabledReason, ?postDebug_embedderPromise,
    ?postDebug_lastUsedBackend, ?postDebug_pipelineLoads,
    ?postDebug_debugEnabled, ?postDebug_idbPutCount in H.

Section VectorWorkerFacts.
Import JsString VectorWorker.

(** *** The length gate *)

Lemma length_f32_bytes elems :
  blobLength (f32_bytes elems) = 4 * Z.of_nat (length elems).
Proof.
  unfold blobLength, f32_bytes.
  induction elems as [|[[[a b] c] d] l IH]; [reflexivity|].
  cbn [flat_map app length] in *. lia.
Qed.

Lemma toVecBlob_exact e b :
  toVecBlobFromEmbedding e = Some b ->
  blobLength b = expectedBytes /\
  match e with
  | Float32Array elems =>
      byteLength e = Some expectedBytes /\ b = f32_bytes elems
  | ArrayBuffer x | Uint8Array x =>
      byteLength e = Some expectedBytes /\ b = x
  | OtherObject _ conv => conv = Returned b
  | Falsy => False
  end.
Proof.
  destruct e as [|elems|x|x|[n|] [x|err]]; cbn [toVecBlobFromEmbedding byteLength];
    try discriminate.
  - destruct (Z.eqb_spec (4 * Z.of_nat (length elems)) expectedBytes) as [E|];
      [|discriminate].
    intros [= <-]. rewrite length_f32_bytes, E. auto.
  - destruct (Z.eqb_spec (blobLength x) expectedBytes) as [E|]; [|discriminate].
    intros [= <-]. rewrite E. auto.
  - destruct (Z.eqb_spec (blobLength x) expectedBytes) as [E|]; [|discriminate].
    intros [= <-]. rewrite E. auto.
  - destruct (Z.eqb_spec (blobLength x) expectedBytes) as [E|]; [|discriminate].
    intros [= <-]. auto.
Qed.

(** *** [vec0Upsert] *)

Lemma vectorsInsert_spec k b v v' :
  vectorsInsert k b v = Returned v' ->
  exists m, v = Some m /\ v' = Some (<[k := b]> m) /\
            blobLength b = expectedBytes.
Proof.
  unfold vectorsInsert. destruct v as [m|]; [|discriminate].
  destruct (Z.eqb_spec (blobLength b) expectedBytes) as [E|]; [|discriminate].
  cbn [negb]. destruct (m !! k); [discriminate|].
  intros [= <-]. eauto.
Qed.

Lemma vectorsDelete_spec k v v' :
  vectorsDelete k v = Returned v' ->
  exists m, v = Some m /\ v' = Some (delete k m).
Proof.
  unfold vectorsDelete. destruct v as [m|]; [|discriminate].
  intros [= <-]. eauto.
Qed.

(** The cases of [vec0Upsert]: nothing happens, the index is switched
    off (possibly after the delete), or the blob is stored. *)
Lemma vec0Upsert_cases k b w :
  let w' := fst (vec0Upsert k b w) in
  training_chunks w' = training_chunks w /\
  sqlite_sequence w' = sqlite_sequence w /\
  idb w' = idb w /\
  (posted w' = posted w \/ posted w' = posted w ++ [debug "vec0_insert_error"]) /\
  embedderPromise w' = embedderPromise w /\
  ((vec0Available w' = vec0Available w /\ vectors w' = vectors w /\
    snd (vec0Upsert k b w) = false /\ vec0Available w = false)
   \/ (vec0Available w' = false /\ vec0Available w = true /\
       (vectors w' = vectors w \/
        exists m, vectors w = Some m /\ vectors w' = Some (delete k m)))
   \/ (vec0Available w' = true /\ vec0Available w = true /\
       blobLength b = expectedBytes /\
       exists m, vectors w = Some m /\
                 (vectors w' = Some (<[k := b]> m) \/
                  vectors w' = Some (<[k := b]> (delete k m))))).
Proof.
  unfold vec0Upsert.
  destruct (vec0Available w) eqn:Hav; cbn [negb];
    [|cbn; repeat split; left; auto].
  destruct (vectorsInsert k b (vectors w)) as [v|err] eqn:Hins.
  - apply vectorsInsert_spec in Hins as (m & Hm & -> & Hlen).
    cbn. repeat split; try assumption; [now left|]. right. right. eauto 8.
  - destruct (vectorsDelete k (vectors w)) as [v1|err1] eqn:Hdel.
    + apply vectorsDelete_spec in Hdel as (m & Hm & ->).
      destruct (vectorsInsert k b (Some (delete k m))) as [v2|err2] eqn:Hins2.
      * apply vectorsInsert_spec in Hins2 as (m' & [= <-] & -> & Hlen).
        cbn. repeat split; try assumption; [now left|]. right. right. eauto 8.
      * unfold vec0Disable, postDebug.
        cbn [withVectors debugEnabled].
        destruct (debugEnabled w); cbn;
          (repeat split; [auto|]); right; left; eauto 8.
    + unfold vec0Disable, postDebug. cbn [debugEnabled].
      destruct (debugEnabled w); cbn;
        (repeat split; [auto|]); right; left; auto.
Qed.

Lemma vec0Upsert_flags k b w :
  debugEnabled (fst (vec0Upsert k b w)) = debugEnabled w /\
  idbPutCount (fst (vec0Upsert k b w)) = idbPutCount w /\
  db (fst (vec0Upsert k b w)) = db w /\
  lastUsedBackend (fst (vec0Upsert k b w)) = lastUsedBackend w /\
  pipelineLoads (fst (vec0Upsert k b w)) = pipelineLoads w.
Proof.
  unfold vec0Upsert. destruct (negb (vec0Available w)); [now cbn|].
  destruct (vectorsInsert k b (vectors w)); [now cbn|].
  destruct (vectorsDelete k (vectors w)) as [v1|];
    [destruct (vectorsInsert k b v1); [now cbn|]|];
    unfold vec0Disable, postDebug; cbn [withVectors debugEnabled];
    destruct (debugEnabled w); now cbn.
Qed.

Lemma vec0Upsert_stored k b w :
  vec0Available (fst (vec0Upsert k b w)) = true ->
  exists m, vectors (fst (vec0Upsert k b w)) = Some m /\ m !! k = Some b.
Proof.
  destruct (vec0Upsert_cases k b w)
    as (_ & _ & _ & _ & _ & [(H1 & _ & _ & H2)|[(H1 & _)|(_ & _ & _ & m & _ & Hv)]]);
    intros Hav; try congruence.
  destruct Hv as [-> | ->]; eexists; (split; [reflexivity|]);
    apply lookup_insert_eq.
Qed.

Lemma vec0Upsert_index_exact k b w :
  (forall m j x, vectors w = Some m -> m !! j = Some x ->
                 blobLength x = expectedBytes) ->
  forall m j x, vectors (fst (vec0Upsert k b w)) = Some m -> m !! j = Some x ->
                blobLength x = expectedBytes.
Proof.
  intros Hw m j x Hm Hj.
  destruct (vec0Upsert_cases k b w)
    as (_ & _ & _ & _ & _ &
        [(_ & Hv & _)|[(_ & _ & [Hv|(m0 & Hv0 & Hv)])|(_ & _ & Hlen & m0 & Hv0 & Hv)]]).
  - rewrite Hv in Hm. eauto.
  - rewrite Hv in Hm. eauto.
  - rewrite Hv in Hm. injection Hm as <-.
    apply lookup_delete_Some in Hj as [_ Hj]. eauto.
  - destruct Hv as [Hv|Hv]; rewrite Hv in Hm; injection Hm as <-;
      destruct (decide (k = j)) as [->|Hne].
    + rewrite lookup_insert_eq in Hj. congruence.
    + rewrite lookup_insert_ne in Hj by assumption. eauto.
    + rewrite lookup_insert_eq in Hj. congruence.
    + rewrite lookup_insert_ne in Hj by assumption.
      apply lookup_delete_Some in Hj as [_ Hj]. eauto.
Qed.

(** *** One row of the ingestion loop *)

Lemma idbPut_In c l x :
  In x (idbPut c l) -> x = c \/ In x l.
Proof.
  induction l as [|y l IH]; simpl; [intuition congruence|].
  destruct (String.compare (idb_key y) (idb_key c)); simpl; intuition congruence.
Qed.

Lemma idbPut_has c l : In c (idbPut c l).
Proof.
  induction l as [|y l IH]; simpl; [auto|].
  destruct (String.compare (idb_key y) (idb_key c)); simpl; auto.
Qed.

Lemma markCompleted_row k w row :
  In row (training_chunks w) -> id row = k ->
  exists r, In r (training_chunks (markCompleted k w)) /\
            id r = k /\ status r = "completed" /\ embedding r = embedding row.
Proof.
  intros Hin Hid. cbn [markCompleted withTable training_chunks].
  eexists. split; [apply in_map, Hin|].
  rewrite Hid, Z.eqb_refl. cbn. auto.
Qed.

Lemma processRow_rejected u s total row f32 w c :
  match f32 with
  | Some elems => toVecBlobFromEmbedding (Float32Array elems)
  | None => None
  end = None ->
  processRow u s total row f32 (w, c)
  = (postMessage (progress (c + 1) total)
       (markCompleted (id row) (postDebug "embedding_shape_mismatch" w)), c + 1).
Proof. intros H. unfold processRow. now rewrite H. Qed.

Lemma processRow_accepted u s total row elems b w c :
  toVecBlobFromEmbedding (Float32Array elems) = Some b ->
  processRow u s total row (Some elems) (w, c)
  = (postMessage (progress (c + 1) total)
       (idbPutChunk
          {| idb_key := mirrorKey u s (chunkIndex row); idb_id := id row;
             idb_userId := u; idb_sourceName := s;
             idb_chunkIndex := chunkIndex row; idb_text := text row;
             idb_embedding := Uint8Array b; idb_status := "completed" |}
          (fst (vec0Upsert (id row) b (storeEmbedding (id row) b w)))),
     c + 1).
Proof. intros H. unfold processRow. now rewrite H. Qed.

Lemma idbPutChunk_frame c w :
  training_chunks (idbPutChunk c w) = training_chunks w /\
  vectors (idbPutChunk c w) = vectors w /\
  vec0Available (idbPutChunk c w) = vec0Available w.
Proof.
  unfold idbPutChunk. destruct (idb w); [|auto].
  destruct ((idbPutCount w + 1 <=? 3) || (Z.rem (idbPutCount w + 1) 25 =? 0));
    [|cbn; auto].
  unfold postDebug. cbn [withIdbPutCount debugEnabled].
  destruct (debugEnabled w); cbn; auto.
Qed.

(** What [idbPutChunk] does to the mirror and to the messages. *)
Lemma idbPutChunk_spec c w :
  let w' := idbPutChunk c w in
  idb w' = match idb w with Some l => Some (idbPut c l) | None => None end /\
  sqlite_sequence w' = sqlite_sequence w /\
  vec0DisabledReason w' = vec0DisabledReason w /\
  embedderPromise w' = embedderPromise w /\
  lastUsedBackend w' = lastUsedBackend w /\
  pipelineLoads w' = pipelineLoads w /\
  debugEnabled w' = debugEnabled w /\ db w' = db w /\
  (posted w' = posted w \/ posted w' = posted w ++ [debug "idb_put"]).
Proof.
  unfold idbPutChunk. destruct (idb w) eqn:Hidb; [|cbn; rewrite Hidb; auto 10].
  destruct ((idbPutCount w + 1 <=? 3) || (Z.rem (idbPutCount w + 1) 25 =? 0));
    [|cbn; auto 10].
  unfold postDebug. cbn [withIdbPutCount debugEnabled].
  destruct (debugEnabled w) eqn:Hd; cbn; rewrite ?Hd; auto 10.
Qed.

(** *** Exact embeddings are an invariant of both loops *)

Lemma processRow_exact u s total row f32 st :
  exactEmbeddings (fst st) ->
  exactEmbeddings (fst (processRow u s total row f32 st)).
Proof.
  destruct st as [w c]. cbn [fst]. intros [Ht Hi Hm].
  destruct (match f32 with
            | Some elems => toVecBlobFromEmbedding (Float32Array elems)
            | None => None end) as [b|] eqn:Hblob.
  - destruct f32 as [elems|]; [|discriminate].
    rewrite (processRow_accepted _ _ _ _ _ _ _ _ Hblob). cbn [fst].
    apply toVecBlob_exact in Hblob as [Hlen _].
    set (w1 := storeEmbedding (id row) b w).
    destruct (vec0Upsert_cases (id row) b w1) as (Htab & _ & Hidb & _).
    pose proof (vec0Upsert_index_exact (id row) b w1) as Hidx.
    set (w2 := fst (vec0Upsert (id row) b w1)) in *.
    split.
    + intros r x Hr Hx. cbn [postMessage training_chunks] in Hr.
      rewrite (proj1 (idbPutChunk_frame _ w2)), Htab in Hr.
      cbn [w1 storeEmbedding withTable training_chunks] in Hr.
      apply in_map_iff in Hr as (r0 & <- & Hr0).
      destruct (id r0 =? id row); cbn [embedding] in Hx; [congruence|eauto].
    + intros m k x Hv Hk. cbn [postMessage vectors] in Hv.
      rewrite (proj1 (proj2 (idbPutChunk_frame _ w2))) in Hv.
      apply (Hidx Hi m k x Hv Hk).
    + intros l c0 Hl Hc0. cbn [postMessage idb] in Hl.
      unfold idbPutChunk in Hl. rewrite Hidb in Hl.
      cbn [w1 storeEmbedding withTable idb] in Hl.
      destruct (idb w) as [l0|] eqn:Hl0; cbn [withIdb idb] in Hl.
      * injection Hl as <-. apply idbPut_In in Hc0 as [->|Hc0]; [eauto|].
        eapply Hm; eauto.
      * rewrite Hidb in Hl. cbn [w1 storeEmbedding withTable idb] in Hl. congruence.
  - rewrite (processRow_rejected _ _ _ _ _ _ _ Hblob). cbn [fst]. split.
    + intros r x Hr Hx.
      cbn [postMessage markCompleted withTable training_chunks] in Hr.
      rewrite postDebug_training_chunks in Hr.
      apply in_map_iff in Hr as (r0 & <- & Hr0).
      destruct (id r0 =? id row); cbn [embedding] in Hx; eauto.
    + intros m k x Hv Hk.
      cbn [postMessage markCompleted withTable vectors] in Hv.
      rewrite postDebug_vectors in Hv. eapply Hi; eauto.
    + intros l c0 Hl Hc0.
      cbn [postMessage markCompleted withTable idb] in Hl.
      rewrite postDebug_idb in Hl. eapply Hm; eauto.
Qed.

Lemma rehydrateRow_skipped row w restored scanned skipped :
  toVecBlobFromEmbedding (idb_embedding row) = None ->
  rehydrateRow row (w, (restored, scanned, skipped))
  = (w, (restored, scanned + 1, skipped + 1)).
Proof. intros H. unfold rehydrateRow. now rewrite H. Qed.

Lemma rehydrateRow_restored row b w restored scanned skipped :
  toVecBlobFromEmbedding (idb_embedding row) = Some b ->
  rehydrateRow row (w, (restored, scanned, skipped))
  = (fst (vec0Upsert (idb_id row) b
            (insertOrReplace
               {| id := idb_id row; userId := idb_userId row;
                  sourceName := idb_sourceName row;
                  chunkIndex := idb_chunkIndex row; text := idb_text row;
                  embedding := Some b; status := idb_status row |} w)),
     (restored + 1, scanned + 1, skipped)).
Proof. intros H. unfold rehydrateRow. now rewrite H. Qed.

Lemma rehydrateRow_exact row st :
  exactEmbeddings (fst st) ->
  exactEmbeddings (fst (rehydrateRow row st)).
Proof.
  destruct st as [w [[restored scanned] skipped]]. cbn [fst]. intros [Ht Hi Hm].
  destruct (toVecBlobFromEmbedding (idb_embedding row)) as [b|] eqn:Hblob.
  - rewrite (rehydrateRow_restored _ _ _ _ _ _ Hblob). cbn [fst].
    apply toVecBlob_exact in Hblob as [Hlen _].
    match goal with |- exactEmbeddings (fst (vec0Upsert _ _ ?x)) => set (w1 := x) end.
    destruct (vec0Upsert_cases (idb_id row) b w1) as (Htab & _ & Hidb & _).
    pose proof (vec0Upsert_index_exact (idb_id row) b w1) as Hidx.
    split.
    + intros r x Hr Hx. rewrite Htab in Hr.
      cbn [w1 insertOrReplace withTable training_chunks] in Hr.
      apply in_app_or in Hr as [Hr|[<-|[]]].
      * apply List.filter_In in Hr as [Hr _]. eauto.
      * cbn [embedding] in Hx. congruence.
    + intros m k x Hv Hk. apply (Hidx Hi m k x Hv Hk).
    + intros l c0 Hl Hc0. rewrite Hidb in Hl. eapply Hm; eauto.
  - rewrite (rehydrateRow_skipped _ _ _ _ _ Hblob). now split.
Qed.

End VectorWorkerFacts.

(** C2 (as amended).  [toVecBlobFromEmbedding] hands out a blob only when
    it is exactly [768 * 4] bytes long: a Float32Array, ArrayBuffer or
    Uint8Array is accepted only with that byte length, and any other object
    only when its conversion with [new Uint8Array] has it.  During
    ingestion a row whose embedding is rejected is marked completed in the
    structured table, its embedding untouched, and neither the index nor
    the mirror is written; an accepted embedding is stored in the row, in
    the mirror, and in the index when that stays available.  During
    rehydration a mirror record whose embedding is rejected is skipped (the
    worker state is unchanged, the skip is counted); an accepted one is
    written to the table with INSERT OR REPLACE.  Both loops keep every
    embedding of the table, the index and the mirror exactly that long. *)
Theorem embedding_length_gate :
  (forall e b,
     VectorWorker.toVecBlobFromEmbedding e = Some b ->
     VectorWorker.blobLength b = VectorWorker.expectedBytes /\
     match e with
     | VectorWorker.Float32Array _ | VectorWorker.ArrayBuffer _
     | VectorWorker.Uint8Array _ =>
         VectorWorker.byteLength e = Some VectorWorker.expectedBytes
     | VectorWorker.OtherObject _ conv => conv = Returned b
     | VectorWorker.Falsy => False
     end) /\
  (forall u s total row f32 w c,
     match f32 with
     | Some elems =>
         VectorWorker.toVecBlobFromEmbedding (VectorWorker.Float32Array elems)
     | None => None
     end = None ->
     let w' := fst (VectorWorker.processRow u s total row f32 (w, c)) in
     VectorWorker.vectors w' = VectorWorker.vectors w /\
     VectorWorker.idb w' = VectorWorker.idb w /\
     (In row (VectorWorker.training_chunks w) ->
      exists r, In r (VectorWorker.training_chunks w') /\
                VectorWorker.id r = VectorWorker.id row /\
                VectorWorker.status r = "completed" /\
                VectorWorker.embedding r = VectorWorker.embedding row)) /\
  (forall u s total row elems b w c l,
     VectorWorker.toVecBlobFromEmbedding (VectorWorker.Float32Array elems) = Some b ->
     VectorWorker.idb w = Some l ->
     let w' := fst (VectorWorker.processRow u s total row (Some elems) (w, c)) in
     VectorWorker.training_chunks w'
       = VectorWorker.training_chunks
           (VectorWorker.storeEmbedding (VectorWorker.id row) b w) /\
     (exists l' c', VectorWorker.idb w' = Some l' /\ In c' l' /\
        VectorWorker.idb_key c'
          = VectorWorker.mirrorKey u s (VectorWorker.chunkIndex row) /\
        VectorWorker.idb_embedding c' = VectorWorker.Uint8Array b) /\
     (VectorWorker.vec0Available w' = true ->
      exists m, VectorWorker.vectors w' = Some m /\
                m !! VectorWorker.id row = Some b)) /\
  (forall row w restored scanned skipped,
     VectorWorker.toVecBlobFromEmbedding (VectorWorker.idb_embedding row) = None ->
     VectorWorker.rehydrateRow row (w, (restored, scanned, skipped))
     = (w, (restored, scanned + 1, skipped + 1))) /\
  (forall row b w counters,
     VectorWorker.toVecBlobFromEmbedding (VectorWorker.idb_embedding row) = Some b ->
     exists r, In r (VectorWorker.training_chunks
                       (fst (VectorWorker.rehydrateRow row (w, counters)))) /\
               VectorWorker.id r = VectorWorker.idb_id row /\
               VectorWorker.embedding r = Some b /\
               VectorWorker.status r = VectorWorker.idb_status row) /\
  (forall u s total row f32 st,
     VectorWorker.exactEmbeddings (fst st) ->
     VectorWorker.exactEmbeddings (fst (VectorWorker.processRow u s total row f32 st))) /\
  (forall row st,
     VectorWorker.exactEmbeddings (fst st) ->
     VectorWorker.exactEmbeddings (fst (VectorWorker.rehydrateRow row st))).
Proof.
  split; [|split; [|split; [|split; [|split; [|split]]]]].
  - intros e b H. destruct (toVecBlob_exact e b H) as [Hlen He].
    split; [exact Hlen|]. destruct e; first [exact He | exact (proj1 He)].
  - intros u s total row f32 w c H. cbn zeta.
    rewrite (processRow_rejected _ _ _ _ _ _ _ H). cbn [fst].
    split; [apply postDebug_vectors|]. split; [apply postDebug_idb|].
    intros Hin.
    apply (markCompleted_row _
             (VectorWorker.postDebug "embedding_shape_mismatch" w) row);
      [|reflexivity].
    now rewrite postDebug_training_chunks.
  - intros u s total row elems b w c l H Hl. cbn zeta.
    rewrite (processRow_accepted _ _ _ _ _ _ _ _ H). cbn [fst].
    set (w1 := VectorWorker.storeEmbedding (VectorWorker.id row) b w).
    destruct (vec0Upsert_cases (VectorWorker.id row) b w1) as (Htab & _ & Hidb & _).
    pose proof (vec0Upsert_stored (VectorWorker.id row) b w1) as Hst.
    set (w2 := fst (VectorWorker.vec0Upsert (VectorWorker.id row) b w1)) in *.
    split; [|split].
    + cbn [VectorWorker.postMessage VectorWorker.training_chunks].
      now rewrite (proj1 (idbPutChunk_frame _ w2)).
    + cbn [VectorWorker.postMessage VectorWorker.idb].
      unfold VectorWorker.idbPutChunk. rewrite Hidb.
      cbn [w1 VectorWorker.storeEmbedding VectorWorker.withTable VectorWorker.idb].
      rewrite Hl. cbn [VectorWorker.withIdb VectorWorker.idb].
      eexists. eexists. split; [reflexivity|]. split; [apply idbPut_has|].
      split; reflexivity.
    + cbn [VectorWorker.postMessage VectorWorker.vec0Available VectorWorker.vectors].
      rewrite (proj2 (proj2 (idbPutChunk_frame _ w2))),
              (proj1 (proj2 (idbPutChunk_frame _ w2))).
      exact Hst.
  - intros. now apply rehydrateRow_skipped.
  - intros row b w [[restored scanned] skipped] H.
    rewrite (rehydrateRow_restored _ _ _ _ _ _ H). cbn [fst].
    match goal with |- context [VectorWorker.vec0Upsert _ _ ?x] => set (w1 := x) end.
    destruct (vec0Upsert_cases (VectorWorker.idb_id row) b w1) as (Htab & _).
    rewrite Htab. eexists. split.
    + cbn [w1 VectorWorker.insertOrReplace VectorWorker.withTable
             VectorWorker.training_chunks].
      apply in_or_app. right. left. reflexivity.
    + cbn. auto.
  - apply processRow_exact.
  - apply rehydrateRow_exact.
Qed.

(** A run of the gate: 768 zero components are accepted as 3072 bytes, and
    a mirror record with a four-byte embedding is skipped. *)
Lemma embedding_length_gate_witness :
  VectorWorker.blobLength (VectorWorker.f32_bytes Scenarios.zeroVector)
    = VectorWorker.expectedBytes /\
  VectorWorker.rehydrateRow Scenarios.corruptedMirrorRow
    (Scenarios.freshWorker, (0, 0, 0))
  = (Scenarios.freshWorker, (0, 1, 1)).
Proof.
  split.
  - exact (proj1 (proj1 embedding_length_gate
                    (VectorWorker.Float32Array Scenarios.zeroVector) _ eq_refl)).
  - exact (proj1 (proj2 (proj2 (proj2 embedding_length_gate)))
             Scenarios.corruptedMirrorRow Scenarios.freshWorker 0 0 0 eq_refl).
Defined.

(** C2, the claim as the specification states it, fails for rehydration:
    a mirror record whose embedding has four bytes is skipped, so after
    rehydration the structured table holds no row for it, completed or
    not. *)
Lemma length_gate_counterexample :
  VectorWorker.training_chunks
    (VectorWorker.rehydrateFromIdb Scenarios.corruptedMirrorWorker) = [] /\
  VectorWorker.lastPosted
    (VectorWorker.rehydrateFromIdb Scenarios.corruptedMirrorWorker)
    = Some (VectorWorker.idb_rehydrate_done 0 1 1) /\
  ~ VectorWorker.length_gate_as_stated.
Proof.
  split; [reflexivity|]. split; [reflexivity|].
  intros (_ & _ & H).
  destruct (H Scenarios.corruptedMirrorRow Scenarios.freshWorker (0, 0, 0) eq_refl)
    as (r & Hin & _).
  exact Hin.
Qed.

(** ** Re-ingestion of a source *)
Section IngestionFacts.
Import JsString VectorWorker.

(** *** The embedding phase leaves the set of rows alone *)

Lemma update_keys (f : ChunkRow -> ChunkRow) rows :
  (forall r, key3 (f r) = key3 r) ->
  map key3 (map f rows) = map key3 rows.
Proof.
  intros Hf. rewrite map_map. apply map_ext. exact Hf.
Qed.

Lemma processRow_keys u s total row f32 st :
  keysOf (fst (processRow u s total row f32 st)) = keysOf (fst st).
Proof.
  destruct st as [w c]. unfold processRow, keysOf.
  destruct (match f32 with
            | Some elems => toVecBlobFromEmbedding (Float32Array elems)
            | None => None end) as [b|]; cbn [fst postMessage training_chunks].
  - rewrite (proj1 (idbPutChunk_frame _ _)).
    rewrite (proj1 (vec0Upsert_cases _ _ _)).
    cbn [storeEmbedding withTable training_chunks].
    apply update_keys. intros r. now destruct (id r =? id row).
  - cbn [markCompleted withTable training_chunks].
    rewrite postDebug_training_chunks.
    apply update_keys. intros r. now destruct (id r =? id row).
Qed.

Lemma processBatch_keys u s total batch :
  forall vecs st,
    keysOf (fst (processBatch u s total batch vecs st)) = keysOf (fst st).
Proof.
  induction batch as [|row batch IH]; intros vecs st; simpl; [reflexivity|].
  rewrite IH. apply processRow_keys.
Qed.

Lemma embedLoop_keys script u s total :
  forall pending batchSize havePrev st w' o,
    embedLoop script u s total pending batchSize havePrev st = Some (w', o) ->
    keysOf w' = keysOf (fst st).
Proof.
  induction script as [|[[vecs|err] t] script IH];
    intros [|row pending] batchSize havePrev st w' o; simpl;
    try discriminate; try (intros [= <- _]; reflexivity).
  intros H. apply IH in H. rewrite H. cbn [fst]. unfold keysOf at 1.
  rewrite postDebug_training_chunks. apply processBatch_keys.
Qed.

Lemma getEmbedder_table load w :
  training_chunks (fst (getEmbedder load w)) = training_chunks w.
Proof.
  unfold getEmbedder. destruct (embedderPromise w); [reflexivity|].
  cbn [fst]. destruct load; undebug; cbn; now undebug.
Qed.

Lemma prepareWithProgress_keys load script u text_ s clearExisting w w' o :
  prepareWithProgress load script u text_ s clearExisting w = Some (w', o) ->
  exists chunks,
    chunkText text_ = Some chunks /\
    keysOf w' = keysOf (prepareTable u s chunks clearExisting w).
Proof.
  unfold prepareWithProgress.
  destruct (chunkText text_) as [chunks|]; [|discriminate].
  intros H. exists chunks. split; [reflexivity|].
  set (w1 := prepareTable u s chunks clearExisting w) in *.
  set (w2 := postMessage _ w1) in *.
  assert (E : keysOf (fst (getEmbedder load w2)) = keysOf w1).
  { unfold keysOf. now rewrite getEmbedder_table. }
  destruct (getEmbedder load w2) as [w3 [dev|err]]; cbn [fst] in E.
  - destruct (embedLoop _ _ _ _ _ _ _ _) as [[w4 [[]|err]]|] eqn:Hloop;
      [| |discriminate]; injection H as <- _;
      apply embedLoop_keys in Hloop; cbn [fst] in Hloop;
      unfold keysOf in *; cbn [postMessage training_chunks]; congruence.
  - injection H as <- _. exact E.
Qed.

(** *** The pending rows *)

Lemma existsb_sameKey u s i rows :
  existsb (sameKey u s i) rows = true <-> In (u, s, i) (map key3 rows).
Proof.
  rewrite existsb_exists. split.
  - intros (r & Hr & Hk). unfold sameKey in Hk.
    apply andb_true_iff in Hk as [Hk Hi]. apply andb_true_iff in Hk as [Hu Hs].
    apply String.eqb_eq in Hu, Hs. apply Z.eqb_eq in Hi.
    apply in_map_iff. exists r. split; [|exact Hr].
    unfold key3. congruence.
  - intros Hin. apply in_map_iff in Hin as (r & Hk & Hr).
    exists r. split; [exact Hr|]. unfold key3 in Hk. injection Hk as Hu Hs Hi.
    unfold sameKey. rewrite Hu, Hs, Hi. now rewrite !String.eqb_refl, Z.eqb_refl.
Qed.

Lemma insertOrIgnore_keys u s i t st w :
  NoDup (keysOf w) ->
  NoDup (keysOf (insertOrIgnore u s i t st w)) /\
  forall k, In k (keysOf (insertOrIgnore u s i t st w))
            <-> In k (keysOf w) \/ k = (u, s, i).
Proof.
  intros Hnd. unfold insertOrIgnore.
  destruct (existsb (sameKey u s i) (training_chunks w)) eqn:Hex.
  - apply existsb_sameKey in Hex. split; [exact Hnd|].
    intros k. split; [auto|]. intros [H| ->]; assumption.
  - assert (Hnot : ~ In (u, s, i) (keysOf w)).
    { intros Hin. apply existsb_sameKey in Hin. congruence. }
    unfold keysOf in *. cbn [withTable training_chunks].
    rewrite map_app. cbn [map key3 userId sourceName chunkIndex]. split.
    + apply NoDup_app. split; [exact Hnd|]. split; [|apply NoDup_singleton].
      intros k Hk Hk'. apply list_elem_of_singleton in Hk'. subst k.
      apply Hnot. now apply list_elem_of_In.
    + intros k. rewrite in_app_iff. cbn [In]. split.
      * intros [H|[H|[]]]; [now left|now right].
      * intros [H|H]; [now left|right; left; now symmetry].
Qed.

Lemma insertPending_keys u s chunks :
  forall i w,
    NoDup (keysOf w) ->
    NoDup (keysOf (insertPending u s i chunks w)) /\
    forall k, In k (keysOf (insertPending u s i chunks w))
              <-> In k (keysOf w) \/
                  exists j, i <= j < i + Z.of_nat (length chunks) /\ k = (u, s, j).
Proof.
  induction chunks as [|c chunks IH]; intros i w Hnd; cbn [insertPending length].
  - split; [exact Hnd|]. intros k. split; [auto|].
    intros [H|(j & Hj & _)]; [exact H|lia].
  - destruct (insertOrIgnore_keys u s i c "pending" w Hnd) as [Hnd1 Hin1].
    destruct (IH (i + 1) _ Hnd1) as [Hnd2 Hin2].
    split; [exact Hnd2|]. intros k. rewrite Hin2, Hin1. split.
    + intros [[H| ->]|(j & Hj & ->)]; [now left| |].
      * right. exists i. split; [lia|reflexivity].
      * right. exists j. split; [lia|reflexivity].
    + intros [H|(j & Hj & ->)]; [now left; left|].
      destruct (Z.eq_dec j i) as [->|Hne]; [now left; right|].
      right. exists j. split; [lia|reflexivity].
Qed.

Lemma NoDup_List_filter {A} (f : A -> bool) (l : list A) :
  NoDup l -> NoDup (List.filter f l).
Proof.
  induction 1 as [|x l Hx Hnd IH]; simpl; [constructor|].
  destruct (f x); [|exact IH]. constructor; [|exact IH].
  rewrite list_elem_of_In in *. intros Hin. apply Hx.
  now apply List.filter_In in Hin.
Qed.

Lemma filter_map_key3 (p : string * string * Z -> bool) rows :
  List.filter p (map key3 rows) = map key3 (List.filter (fun r => p (key3 r)) rows).
Proof.
  induction rows as [|r rows IH]; simpl; [reflexivity|].
  destruct (p (key3 r)); simpl; now rewrite IH.
Qed.

Lemma idbDeleteUser_table u w :
  training_chunks (idbDeleteUser u w) = training_chunks w.
Proof.
  unfold idbDeleteUser. destruct (idb w); [|reflexivity].
  undebug. cbn [withIdb training_chunks]. now undebug.
Qed.

Lemma deleteUserRows_keys u w :
  NoDup (keysOf w) ->
  NoDup (keysOf (idbDeleteUser u (deleteUserRows u w))) /\
  forall k, In k (keysOf (idbDeleteUser u (deleteUserRows u w)))
            <-> In k (keysOf w) /\ fst (fst k) <> u.
Proof.
  intros Hnd.
  assert (E : keysOf (idbDeleteUser u (deleteUserRows u w))
              = List.filter (fun k => negb (String.eqb (fst (fst k)) u)) (keysOf w)).
  { unfold keysOf. now rewrite idbDeleteUser_table, filter_map_key3. }
  rewrite E. split; [now apply NoDup_List_filter|].
  intros k. rewrite List.filter_In, negb_true_iff, String.eqb_neq. tauto.
Qed.

Lemma prepareTable_keys u s chunks clearExisting w :
  NoDup (keysOf w) ->
  NoDup (keysOf (prepareTable u s chunks clearExisting w)) /\
  forall k, In k (keysOf (prepareTable u s chunks clearExisting w))
            <-> (In k (keysOf w) /\ (clearExisting = true -> fst (fst k) <> u))
                \/ exists j, 0 <= j < Z.of_nat (length chunks) /\ k = (u, s, j).
Proof.
  intros Hnd. unfold prepareTable. destruct clearExisting.
  - destruct (deleteUserRows_keys u w Hnd) as [Hnd1 Hin1].
    destruct (insertPending_keys u s chunks 0 _ Hnd1) as [Hnd2 Hin2].
    split; [exact Hnd2|]. intros k. rewrite Hin2, Hin1. split.
    + intros [[H1 H2]|H]; [left|right]; auto.
    + intros [[H1 H2]|H]; [left|right]; auto.
  - destruct (insertPending_keys u s chunks 0 _ Hnd) as [Hnd2 Hin2].
    split; [exact Hnd2|]. intros k. rewrite Hin2. split.
    + intros [H|H]; [left; split; [exact H|discriminate]|right; exact H].
    + intros [[H _]|H]; [left|right]; auto.
Qed.

(** *** Counting the rows of a source *)

Lemma sourceRows_length u s w :
  length (sourceRows u s w)
  = length (List.filter
              (fun k => String.eqb (fst (fst k)) u && String.eqb (snd (fst k)) s)
              (keysOf w)).
Proof.
  unfold sourceRows, keysOf. rewrite filter_map_key3. now rewrite length_map.
Qed.

Lemma NoDup_map_inj {A B} (f : A -> B) (l : list A) :
  (forall x y, f x = f y -> x = y) -> NoDup l -> NoDup (map f l).
Proof.
  intros Hinj. induction 1 as [|x l Hx Hnd IH]; simpl; [constructor|].
  constructor; [|exact IH].
  intros Hin. apply Hx. apply list_elem_of_In in Hin. apply list_elem_of_In.
  apply in_map_iff in Hin as (y & Hy & Hin). now rewrite <- (Hinj _ _ Hy).
Qed.

Lemma count_exact u s n w :
  NoDup (keysOf w) ->
  (forall j, In (u, s, j) (keysOf w) <-> 0 <= j < Z.of_nat n) ->
  length (sourceRows u s w) = n.
Proof.
  intros Hnd Hkeys. rewrite sourceRows_length.
  set (L := List.filter _ (keysOf w)).
  set (L' := map (fun j => (u, s, Z.of_nat j)) (seq 0 n)).
  assert (HL : NoDup L) by now apply NoDup_List_filter.
  assert (HL' : NoDup L').
  { apply NoDup_map_inj; [|apply NoDup_seq].
    intros x y [= H]. lia. }
  assert (Hperm : L ≡ₚ L').
  { apply NoDup_Permutation; [exact HL|exact HL'|].
    intros [[u' s'] j]. rewrite !list_elem_of_In. unfold L, L'.
    rewrite List.filter_In, in_map_iff. cbn [fst snd]. split.
    - intros [Hin Hus]. apply andb_true_iff in Hus as [Hu Hs].
      apply String.eqb_eq in Hu, Hs. subst u' s'.
      apply Hkeys in Hin. exists (Z.to_nat j). split; [f_equal; lia|].
      apply in_seq. lia.
    - intros (x & [= <- <- <-] & Hx). apply in_seq in Hx.
      rewrite !String.eqb_refl. split; [|reflexivity]. apply Hkeys. lia. }
  rewrite (Permutation_length Hperm). unfold L'. now rewrite length_map, length_seq.
Qed.

Lemma sourceRows_nil_keys u s w j :
  sourceRows u s w = [] -> ~ In (u, s, j) (keysOf w).
Proof.
  intros Hnil Hin. unfold keysOf in Hin. apply in_map_iff in Hin as (r & Hk & Hr).
  assert (Hin : In r (sourceRows u s w)).
  { unfold sourceRows. apply List.filter_In. split; [exact Hr|].
    unfold key3 in Hk. injection Hk as Hu Hs _.
    rewrite Hu, Hs. now rewrite !String.eqb_refl. }
  rewrite Hnil in Hin. exact Hin.
Qed.

(** The rows of a source when the table may hold older rows of it. *)
Lemma count_with_stale u s n (stale : bool) w w2 :
  NoDup (keysOf w) -> NoDup (keysOf w2) ->
  (forall j, In (u, s, j) (keysOf w2)
             <-> 0 <= j < Z.of_nat n \/ (stale = true /\ In (u, s, j) (keysOf w))) ->
  length (sourceRows u s w2)
  = (n + if stale then length (staleRows u s n w) else 0)%nat.
Proof.
  intros Hnd Hnd2 Hkeys. rewrite sourceRows_length.
  set (us := fun k : string * string * Z =>
               String.eqb (fst (fst k)) u && String.eqb (snd (fst k)) s).
  set (outside := fun k : string * string * Z =>
                    negb ((0 <=? snd k) && (snd k <? Z.of_nat n))).
  set (L := List.filter us (keysOf w2)).
  set (fresh := map (fun j => (u, s, Z.of_nat j)) (seq 0 n)).
  set (old := if stale then List.filter outside (List.filter us (keysOf w)) else []).
  assert (Hus : forall k, us k = true <-> fst (fst k) = u /\ snd (fst k) = s).
  { intros k. unfold us. rewrite andb_true_iff, !String.eqb_eq. tauto. }
  assert (Hout : forall k, outside k = true <-> ~ 0 <= snd k < Z.of_nat n).
  { intros k. unfold outside. rewrite negb_true_iff, andb_false_iff.
    rewrite Z.leb_gt, Z.ltb_ge. lia. }
  assert (HL : NoDup L) by now apply NoDup_List_filter.
  assert (Hfresh : NoDup fresh).
  { apply NoDup_map_inj; [|apply NoDup_seq]. intros x y [= H]. lia. }
  assert (Hold : NoDup old).
  { unfold old. destruct stale; [|constructor].
    now apply NoDup_List_filter, NoDup_List_filter. }
  assert (Hperm : L ≡ₚ fresh ++ old).
  { apply NoDup_Permutation; [exact HL| |].
    - apply NoDup_app. split; [exact Hfresh|]. split; [|exact Hold].
      intros k Hk Hk'. apply list_elem_of_In in Hk, Hk'.
      unfold fresh in Hk. apply in_map_iff in Hk as (x & <- & Hx).
      apply in_seq in Hx. unfold old in Hk'. destruct stale; [|destruct Hk'].
      apply List.filter_In in Hk' as [_ Hk']. apply Hout in Hk'.
      cbn [snd] in Hk'. lia.
    - intros [[u' s'] j]. rewrite !list_elem_of_In, in_app_iff. unfold L.
      rewrite List.filter_In, Hus. cbn [fst snd]. split.
      + intros [Hin [-> ->]]. apply Hkeys in Hin as [Hj|[-> Hin]].
        * left. unfold fresh. apply in_map_iff. exists (Z.to_nat j).
          split; [f_equal; lia|]. apply in_seq. lia.
        * destruct (Z_lt_le_dec j 0) as [Hneg|Hpos];
            [|destruct (Z_lt_le_dec j (Z.of_nat n)) as [Hin'|Hbig]].
          -- right. unfold old. rewrite !List.filter_In, Hus, Hout.
             cbn [fst snd]. repeat split; [exact Hin|lia].
          -- left. unfold fresh. apply in_map_iff. exists (Z.to_nat j).
             split; [f_equal; lia|]. apply in_seq. lia.
          -- right. unfold old. rewrite !List.filter_In, Hus, Hout.
             cbn [fst snd]. repeat split; [exact Hin|lia].
      + intros [Hin|Hin].
        * unfold fresh in Hin. apply in_map_iff in Hin as (x & [= <- <- <-] & Hx).
          apply in_seq in Hx. split; [|now split]. apply Hkeys. left. lia.
        * unfold old in Hin. destruct stale; [|destruct Hin].
          rewrite !List.filter_In, Hus in Hin. cbn [fst snd] in Hin.
          destruct Hin as [[Hin [-> ->]] _]. split; [|now split].
          apply Hkeys. right. now split. }
  rewrite (Permutation_length Hperm), length_app. unfold fresh.
  rewrite length_map, length_seq. f_equal.
  unfold old, staleRows, sourceRows. destruct stale; [|reflexivity].
  unfold keysOf. rewrite (filter_map_key3 us), (filter_map_key3 outside).
  rewrite length_map. reflexivity.
Qed.

Lemma insertPending_noop u s chunks :
  forall i w,
    (forall j, i <= j < i + Z.of_nat (length chunks) -> In (u, s, j) (keysOf w)) ->
    insertPending u s i chunks w = w.
Proof.
  induction chunks as [|c chunks IH]; intros i w Hall; cbn [insertPending length];
    [reflexivity|].
  assert (E : insertOrIgnore u s i c "pending" w = w).
  { unfold insertOrIgnore.
    rewrite (proj2 (existsb_sameKey u s i (training_chunks w))); [reflexivity|].
    apply Hall. cbn [length]. lia. }
  rewrite E. apply IH. intros j Hj. apply Hall. cbn [length]. lia.
Qed.

(** *** The calls return *)

Lemma windows_returns section maxLen overlap :
  overlap < maxLen ->
  forall fuel start,
    Z.max 0 (strlen section - start) < Z.of_nat fuel ->
    exists out, windows fuel section maxLen overlap start = Some out.
Proof.
  intros Hgap. induction fuel as [|fuel IH]; intros start Hfuel; [lia|].
  cbn [windows]. destruct (Z.ltb_spec start (strlen section)); [|eauto].
  destruct (strlen section - overlap <=? start + maxLen - overlap); [eauto|].
  destruct (IH (start + maxLen - overlap) ltac:(lia)) as [out ->]. cbn. eauto.
Qed.

Lemma chunkText_total text_ : exists chunks, chunkText text_ = Some chunks.
Proof.
  unfold chunkText. induction (sectionsOf text_) as [|section rest [more IH]];
    cbn [chunkSections]; [eauto|].
  rewrite IH. destruct (strlen section <=? 1000); [eauto|].
  destruct (windows_returns section 1000 200 ltac:(lia)
              (S (String.length section)) 0) as [out ->]; [|eauto].
  unfold strlen. lia.
Qed.

Lemma tuneBatchSize_pos w havePrev t batchSize remaining :
  1 <= batchSize -> 1 <= tuneBatchSize w havePrev t batchSize remaining.
Proof.
  intros H. unfold tuneBatchSize.
  destruct (String.eqb (lastUsedBackend w) "webgpu" && havePrev); [|exact H].
  destruct t; [| |exact H].
  - destruct ((batchSize <? 16) && (batchSize * 2 <=? remaining)); lia.
  - destruct (1 <? batchSize); lia.
Qed.

Lemma getInitialBatchSize_pos w n : 1 <= getInitialBatchSize w n.
Proof.
  unfold getInitialBatchSize.
  destruct (String.eqb (lastUsedBackend w) "webgpu"); [|lia].
  destruct (32 <=? n); [lia|]. destruct (16 <=? n); [lia|].
  destruct (8 <=? n); lia.
Qed.

(** A script with one entry per pending row is long enough. *)
Lemma embedLoop_returns script u s total :
  forall pending batchSize havePrev st,
    (length pending <= length script)%nat -> 1 <= batchSize ->
    exists r, embedLoop script u s total pending batchSize havePrev st = Some r.
Proof.
  induction script as [|[[vecs|err] t] script IH];
    intros [|row pending] batchSize havePrev st Hlen Hpos; cbn [embedLoop];
    eauto; [cbn [length] in Hlen; lia|].
  apply IH; [|now apply tuneBatchSize_pos].
  cbn [length] in Hlen.
  destruct (Z.to_nat batchSize) as [|k] eqn:Hk; [lia|].
  cbn [firstn length skipn]. rewrite length_skipn. lia.
Qed.

Lemma prepareWithProgress_returns load script u text_ s clearExisting w :
  (length (selectPending u s
             (prepareTable u s
                (match chunkText text_ with Some c => c | None => [] end)
                clearExisting w)) <= length script)%nat ->
  exists r, prepareWithProgress load script u text_ s clearExisting w = Some r.
Proof.
  intros Hlen. unfold prepareWithProgress.
  destruct (chunkText_total text_) as [chunks Hc]. rewrite Hc in *.
  destruct (getEmbedder load _) as [w3 [dev|err]]; [|eauto].
  destruct (embedLoop_returns script u s (Z.of_nat (length chunks))
              (selectPending u s (prepareTable u s chunks clearExisting w))
              (getInitialBatchSize w3
                 (Z.of_nat (length (selectPending u s
                                      (prepareTable u s chunks clearExisting w)))))
              false
              (w3, Z.of_nat (length chunks)
                   - Z.of_nat (length (selectPending u s
                                         (prepareTable u s chunks clearExisting w))))
              Hlen (getInitialBatchSize_pos _ _)) as [[w4 [[]|err]] ->]; eauto.
Qed.

End IngestionFacts.

(** C3 (as amended).  Two ingestions of the same text under the same owner
    and source name leave at most one row per
    [(userId, sourceName, chunkIndex)], in a table whose keys were unique
    before, and a second ingestion that does not clear adds no row to
    those of the first.  Afterwards the source has a row at every chunk
    index of the text, and a row at another index exactly when neither
    ingestion cleared the owner's data and the source had that row before:
    the row count of the source is the chunk count of one ingestion plus
    the number of such older rows.  So the count equals the chunk count
    when one of the two ingestions clears or the source had no rows
    before. *)
Theorem reingestion_idempotent
    load1 script1 load2 script2 u text_ s clear1 clear2 w w1 o1 w2 o2 :
  VectorWorker.uniqueKeys w ->
  VectorWorker.prepareWithProgress load1 script1 u text_ s clear1 w = Some (w1, o1) ->
  VectorWorker.prepareWithProgress load2 script2 u text_ s clear2 w1 = Some (w2, o2) ->
  exists chunks,
    VectorWorker.chunkText text_ = Some chunks /\
    VectorWorker.uniqueKeys w1 /\ VectorWorker.uniqueKeys w2 /\
    (forall j, In (u, s, j) (VectorWorker.keysOf w2)
               <-> 0 <= j < Z.of_nat (length chunks)
                   \/ (clear1 || clear2 = false /\
                       In (u, s, j) (VectorWorker.keysOf w))) /\
    length (VectorWorker.sourceRows u s w2)
    = (length chunks +
       if clear1 || clear2 then 0
       else length (VectorWorker.staleRows u s (length chunks) w))%nat /\
    (clear1 = true \/ clear2 = true \/ VectorWorker.sourceRows u s w = [] ->
     length (VectorWorker.sourceRows u s w2) = length chunks /\
     forall j, In (u, s, j) (VectorWorker.keysOf w2)
               <-> 0 <= j < Z.of_nat (length chunks)) /\
    (clear2 = false -> VectorWorker.keysOf w2 = VectorWorker.keysOf w1).
Proof.
  intros Hnd H1 H2.
  apply prepareWithProgress_keys in H1 as (chunks & Hc & K1).
  apply prepareWithProgress_keys in H2 as (chunks' & Hc' & K2).
  rewrite Hc in Hc'. injection Hc' as <-.
  exists chunks. split; [exact Hc|].
  destruct (prepareTable_keys u s chunks clear1 w Hnd) as [Hnd1 Hin1].
  rewrite <- K1 in Hnd1, Hin1.
  destruct (prepareTable_keys u s chunks clear2 w1 Hnd1) as [Hnd2 Hin2].
  rewrite <- K2 in Hnd2, Hin2.
  split; [exact Hnd1|]. split; [exact Hnd2|].
  assert (Hexact : forall j, In (u, s, j) (VectorWorker.keysOf w2)
                     <-> 0 <= j < Z.of_nat (length chunks)
                         \/ (negb (clear1 || clear2) = true /\
                             In (u, s, j) (VectorWorker.keysOf w))).
  { intros j. rewrite Hin2, Hin1. cbn [fst]. split.
    - intros [[[[Hk Hc1]|(j' & Hj' & [= ->])] Hc2]|(j' & Hj' & [= ->])];
        [|left; exact Hj'|left; exact Hj'].
      right. split; [|exact Hk].
      destruct clear1; [now contradiction (Hc1 eq_refl)|].
      destruct clear2; [now contradiction (Hc2 eq_refl)|reflexivity].
    - intros [Hj|[Hclear Hk]]; [right; eauto|].
      apply negb_true_iff, orb_false_iff in Hclear as [-> ->].
      left. split; [|discriminate]. left. split; [exact Hk|discriminate]. }
  split; [|split; [|split]].
  - intros j. rewrite Hexact, negb_true_iff. reflexivity.
  - rewrite (count_with_stale u s (length chunks) (negb (clear1 || clear2)) w w2
               Hnd Hnd2 Hexact).
    now destruct (clear1 || clear2).
  - intros Hcond.
    assert (Hkeys : forall j, In (u, s, j) (VectorWorker.keysOf w2)
                              <-> 0 <= j < Z.of_nat (length chunks)).
    { intros j. rewrite Hexact. split; [|now left].
      intros [Hj|[Hclear Hk]]; [exact Hj|].
      apply negb_true_iff, orb_false_iff in Hclear as [-> ->].
      destruct Hcond as [Hc1|[Hc2|Hnil]]; try discriminate.
      now contradiction (sourceRows_nil_keys u s w j Hnil). }
    split; [|exact Hkeys]. now apply count_exact.
  - intros ->. rewrite K2. unfold VectorWorker.prepareTable.
    rewrite insertPending_noop; [reflexivity|].
    intros j Hj. apply Hin1. right. exists j. split; [lia|reflexivity].
Qed.

(** A run of the theorem: the one-chunk text "hello" ingested twice into a
    fresh worker leaves one row for the source. *)
Lemma reingestion_idempotent_witness :
  VectorWorker.prepareWithProgress (Returned "wasm")
    [(Returned [Some Scenarios.zeroVector], VectorWorker.Similar)]
    "u" "hello" "doc" true Scenarios.freshWorker
    = Some (Scenarios.ingestedOnce, Returned tt) /\
  VectorWorker.prepareWithProgress (Returned "wasm")
    [(Returned [Some Scenarios.zeroVector], VectorWorker.Similar)]
    "u" "hello" "doc" true Scenarios.ingestedOnce
    = Some (Scenarios.ingestedTwice, Returned tt) /\
  VectorWorker.uniqueKeys Scenarios.ingestedTwice /\
  (length (VectorWorker.sourceRows "u" "doc" Scenarios.ingestedTwice) = 1)%nat.
Proof.
  assert (H1 : VectorWorker.prepareWithProgress (Returned "wasm")
                 [(Returned [Some Scenarios.zeroVector], VectorWorker.Similar)]
                 "u" "hello" "doc" true Scenarios.freshWorker
               = Some (Scenarios.ingestedOnce, Returned tt))
    by (vm_compute; reflexivity).
  assert (H2 : VectorWorker.prepareWithProgress (Returned "wasm")
                 [(Returned [Some Scenarios.zeroVector], VectorWorker.Similar)]
                 "u" "hello" "doc" true Scenarios.ingestedOnce
               = Some (Scenarios.ingestedTwice, Returned tt))
    by (vm_compute; reflexivity).
  split; [exact H1|]. split; [exact H2|].
  assert (H0 : VectorWorker.uniqueKeys Scenarios.freshWorker) by constructor.
  destruct (reingestion_idempotent
              (Returned "wasm")
              [(Returned [Some Scenarios.zeroVector], VectorWorker.Similar)]
              (Returned "wasm")
              [(Returned [Some Scenarios.zeroVector], VectorWorker.Similar)]
              "u" "hello" "doc" true true Scenarios.freshWorker
              Scenarios.ingestedOnce (Returned tt)
              Scenarios.ingestedTwice (Returned tt) H0 H1 H2)
    as (chunks & Hc & _ & Hu & _ & _ & Hcount & _).
  split; [exact Hu|].
  destruct (Hcount (or_introl eq_refl)) as [Hlen _].
  rewrite Hlen. vm_compute in Hc. injection Hc as <-. reflexivity.
Defined.

(** C3, the claim as the specification states it, fails: a worker that
    has ingested an earlier version of "doc" with two chunks holds two
    rows of the source; two ingestions of the one-chunk text "hello" that
    do not clear leave both rows, one more than the chunk count. *)
Lemma reingestion_count_counterexample :
  VectorWorker.uniqueKeys Scenarios.ingestedEarlier /\
  VectorWorker.chunkText "hello" = Some ["hello"] /\
  VectorWorker.keysOf
    (Scenarios.keepingOnce (Scenarios.keepingOnce Scenarios.ingestedEarlier))
  = [("u", "doc", 0); ("u", "doc", 1)] /\
  ~ VectorWorker.reingestion_count_as_stated.
Proof.
  assert (H0 : VectorWorker.uniqueKeys Scenarios.ingestedEarlier).
  { unfold VectorWorker.uniqueKeys.
    replace (VectorWorker.keysOf Scenarios.ingestedEarlier)
      with [("u", "doc", 0); ("u", "doc", 1)] by (vm_compute; reflexivity).
    apply (bool_decide_unpack _). vm_compute. exact I. }
  split; [exact H0|]. split; [vm_compute; reflexivity|].
  split; [vm_compute; reflexivity|].
  intros H.
  specialize (H (Returned "wasm")
                [(Returned [Some Scenarios.zeroVector], VectorWorker.Similar)]
                (Returned "wasm")
                [(Returned [Some Scenarios.zeroVector], VectorWorker.Similar)]
                "u" "hello" "doc" false false Scenarios.ingestedEarlier
                (Scenarios.keepingOnce Scenarios.ingestedEarlier) (Returned tt)
                (Scenarios.keepingOnce (Scenarios.keepingOnce Scenarios.ingestedEarlier))
                (Returned tt) ["hello"] H0).
  assert (E : length (VectorWorker.sourceRows "u" "doc"
                        (Scenarios.keepingOnce
                           (Scenarios.keepingOnce Scenarios.ingestedEarlier)))
              = 2%nat) by (vm_compute; reflexivity).
  rewrite E in H.
  assert (C : 2%nat = length ["hello"]); [|discriminate C].
  apply H; vm_compute; reflexivity.
Qed.

(** ** Search and the embedder *)
Section SearchFacts.
Import VectorWorker.

Lemma getSQLite_ready initialise w :
  db w = true -> getSQLite initialise w = (w, Returned tt).
Proof. intros Hdb. unfold getSQLite. now rewrite Hdb. Qed.

(** The first request of a process runs the initialisation: the search
    sees the state that it leaves, and its exception ends the search. *)
Lemma searchVectors_first_request initialise knn vector topK w :
  db w = false ->
  searchVectors initialise knn vector topK w
  = match initialise w with
    | (w', Thrown err) => (w', Thrown err)
    | (w', Returned _) =>
        searchVectors initialise knn vector topK (withDb true w')
    end.
Proof.
  intros Hdb. unfold searchVectors at 1, getSQLite. rewrite Hdb.
  destruct (initialise w) as [w' [[]|err]]; [|reflexivity].
  unfold searchVectors, getSQLite. cbn [withDb db]. reflexivity.
Qed.

(** On an initialised worker a search posts one list of results and
    changes nothing else, whatever the query does. *)
Lemma searchVectors_frame initialise knn vector topK w :
  db w = true ->
  exists rows,
    searchVectors initialise knn vector topK w
    = (postMessage (search_results rows) w, Returned tt).
Proof.
  intros Hdb. unfold searchVectors. rewrite (getSQLite_ready _ _ Hdb).
  destruct (negb (vec0Available w)); [eauto|].
  destruct (toVecBlobFromEmbedding (Float32Array vector)); [|eauto].
  destruct (knn w b _); eauto.
Qed.

Lemma searchVectors_thrown initialise knn vector topK w b err :
  db w = true ->
  vec0Available w = true ->
  toVecBlobFromEmbedding (Float32Array vector) = Some b ->
  knn w b (match topK with Some k => k | None => 10 end) = Thrown err ->
  searchVectors initialise knn vector topK w
  = (postMessage (search_results []) w, Returned tt).
Proof.
  intros Hdb Hav Hb Hq. unfold searchVectors.
  now rewrite (getSQLite_ready _ _ Hdb), Hav, Hb, Hq.
Qed.

Lemma searchVectors_returned initialise knn vector topK w b rows :
  db w = true ->
  vec0Available w = true ->
  toVecBlobFromEmbedding (Float32Array vector) = Some b ->
  knn w b (match topK with Some k => k | None => 10 end) = Returned rows ->
  searchVectors initialise knn vector topK w
  = (postMessage (search_results rows) w, Returned tt).
Proof.
  intros Hdb Hav Hb Hq. unfold searchVectors.
  now rewrite (getSQLite_ready _ _ Hdb), Hav, Hb, Hq.
Qed.

Lemma lastPosted_postMessage m w : lastPosted (postMessage m w) = Some m.
Proof. unfold lastPosted. cbn [postMessage posted]. apply last_snoc. Qed.

(** A query that throws on an initialised worker: the empty list is
    posted, the index stays on, and the next search whose query succeeds
    is answered from the index. *)
Lemma searchVectors_after_failure initialise knn vector topK w b err :
  db w = true ->
  vec0Available w = true ->
  toVecBlobFromEmbedding (Float32Array vector) = Some b ->
  knn w b (match topK with Some k => k | None => 10 end) = Thrown err ->
  let w' := fst (searchVectors initialise knn vector topK w) in
  lastPosted w' = Some (search_results []) /\
  vec0Available w' = true /\
  vec0DisabledReason w' = vec0DisabledReason w /\
  vectors w' = vectors w /\
  forall knn2 vector2 topK2 b2 rows,
    toVecBlobFromEmbedding (Float32Array vector2) = Some b2 ->
    knn2 w' b2 (match topK2 with Some k => k | None => 10 end) = Returned rows ->
    lastPosted (fst (searchVectors initialise knn2 vector2 topK2 w'))
    = Some (search_results rows).
Proof.
  intros Hdb Hav Hb Hq. cbn zeta.
  rewrite (searchVectors_thrown _ _ _ _ _ _ _ Hdb Hav Hb Hq). cbn [fst].
  split; [apply lastPosted_postMessage|]. split; [exact Hav|].
  split; [reflexivity|]. split; [reflexivity|].
  intros knn2 vector2 topK2 b2 rows Hb2 Hq2.
  rewrite (searchVectors_returned initialise knn2 vector2 topK2
             (postMessage (search_results []) w) b2 rows Hdb Hav Hb2 Hq2).
  apply lastPosted_postMessage.
Qed.

End SearchFacts.

(** C5.  The code at the failing input.  On an initialised worker that
    holds one indexed row, a search whose query throws posts an empty list
    of results, which sends the caller to the brute-force scan for this
    query, and leaves [vec0Available] set and [vec0DisabledReason] unset:
    [vec0Disable] is not called.  The next search runs the query on the
    index again and posts its rows.  So the index is not treated as
    unavailable after the failure, as the claim requires. *)
Theorem query_failure_leaves_index_on :
  let w1 := fst (VectorWorker.searchVectors Scenarios.notInitialising
                   Scenarios.failingQuery Scenarios.zeroVector None
                   Scenarios.ingestedOnce) in
  VectorWorker.db Scenarios.ingestedOnce = true /\
  VectorWorker.vec0Available Scenarios.ingestedOnce = true /\
  VectorWorker.lastPosted w1 = Some (VectorWorker.search_results []) /\
  VectorWorker.vec0Available w1 = true /\
  VectorWorker.vec0DisabledReason w1 = None /\
  (exists row,
     VectorWorker.training_chunks Scenarios.ingestedOnce = [row] /\
     VectorWorker.lastPosted
       (fst (VectorWorker.searchVectors Scenarios.notInitialising
               Scenarios.indexQuery Scenarios.zeroVector None w1))
     = Some (VectorWorker.search_results [(row, 0)])) /\
  VectorSearch.localResults (fun r : VectorWorker.ChunkRow * Z => r)
    (fun rows : list (VectorWorker.ChunkRow * Z) => rows) (Returned [])
    (Returned [(Scenarios.scanRow, 0)]) = [(Scenarios.scanRow, 0)] /\
  ~ VectorWorker.query_failure_disables_as_stated.
Proof.
  cbn zeta. split; [reflexivity|]. split; [reflexivity|].
  split; [vm_compute; reflexivity|]. split; [reflexivity|].
  split; [reflexivity|]. split; [|split].
  - eexists. split; vm_compute; reflexivity.
  - reflexivity.
  - intros H.
    specialize (H Scenarios.notInitialising Scenarios.failingQuery
                  Scenarios.zeroVector None Scenarios.ingestedOnce
                  (VectorWorker.f32_bytes Scenarios.zeroVector)
                  eq_refl eq_refl eq_refl eq_refl).
    discriminate H.
Qed.

(** C6 (as amended).  A failed model load is surfaced to the caller: the
    worker posts an error message with the text of the exception, and the
    training module throws its user-facing error, which asks to refresh the
    page.  The rejected promise stays memoized in [embedderPromise]: every
    later call in the same process gets the same failure and [pipeline] is
    not called again.  In the training module only a failure of the WebGPU
    probe, which precedes the memoization, leaves nothing cached. *)
Theorem failed_load_is_memoized :
  (forall load err w,
     VectorWorker.embedderPromise w = None ->
     load = Thrown err ->
     let w1 := fst (VectorWorker.getEmbedder load w) in
     snd (VectorWorker.getEmbedder load w) = Thrown err /\
     VectorWorker.lastPosted (VectorWorker.onmessage_preload load w)
       = Some (VectorWorker.error err) /\
     VectorWorker.embedderPromise w1 = Some (Thrown err) /\
     VectorWorker.pipelineLoads w1 = S (VectorWorker.pipelineLoads w) /\
     forall load2, VectorWorker.getEmbedder load2 w1 = (w1, Thrown err)) /\
  (forall probe load err st isWebGPU,
     Training.embedderPromise st = None ->
     probe = Returned isWebGPU ->
     load isWebGPU = Thrown err ->
     let st1 := fst (Training.loadModel probe load st) in
     snd (Training.loadModel probe load st) = Thrown Training.MODEL_LOAD_ERROR /\
     Training.pipelineLoads st1 = S (Training.pipelineLoads st) /\
     forall probe2 load2,
       Training.loadModel probe2 load2 st1 = (st1, Thrown Training.MODEL_LOAD_ERROR)) /\
  (forall load err st,
     Training.embedderPromise st = None ->
     Training.getEmbedder (Thrown err) load st = (st, Thrown err)).
Proof.
  split; [|split].
  - intros load err w Hnone ->. cbn zeta.
    unfold VectorWorker.onmessage_preload, VectorWorker.getEmbedder.
    rewrite Hnone. cbn [fst snd].
    split; [reflexivity|]. split; [apply lastPosted_postMessage|].
    split; [reflexivity|].
    split; [cbn [VectorWorker.pipelineLoads]; now rewrite postDebug_pipelineLoads|].
    intros load2. reflexivity.
  - intros probe load err st isWebGPU Hnone -> Hload. cbn zeta.
    unfold Training.loadModel, Training.getEmbedder.
    rewrite Hnone, Hload. cbn. repeat split.
  - intros load err st Hnone. unfold Training.getEmbedder. now rewrite Hnone.
Qed.

(** A run of the theorem: the load fails on a fresh worker. *)
Lemma failed_load_is_memoized_witness :
  VectorWorker.getEmbedder (Returned "wasm")
    (fst (VectorWorker.getEmbedder (Thrown "fetch failed") Scenarios.freshWorker))
  = (fst (VectorWorker.getEmbedder (Thrown "fetch failed") Scenarios.freshWorker),
     Thrown "fetch failed").
Proof.
  exact (proj2 (proj2 (proj2 (proj2
           (proj1 failed_load_is_memoized (Thrown "fetch failed") "fetch failed"
              Scenarios.freshWorker eq_refl eq_refl)))) (Returned "wasm")).
Defined.

(** C6, the claim as the specification states it, fails: after a failed
    load, a call that would now load successfully still gets the earlier
    failure, and [pipeline] is not called. *)
Lemma failed_load_not_cached_counterexample :
  (let w1 := fst (VectorWorker.getEmbedder (Thrown "fetch failed")
                    Scenarios.freshWorker) in
   snd (VectorWorker.getEmbedder (Returned "wasm") w1) = Thrown "fetch failed" /\
   VectorWorker.pipelineLoads (fst (VectorWorker.getEmbedder (Returned "wasm") w1))
     = VectorWorker.pipelineLoads w1) /\
  ~ VectorWorker.failed_load_not_cached_as_stated.
Proof.
  split; [split; reflexivity|].
  intros H.
  destruct (H (Thrown "fetch failed") (Returned "wasm") Scenarios.freshWorker
              "fetch failed" eq_refl eq_refl) as [H1 _].
  discriminate H1.
Qed.

(** ** The memoized initialisation *)
Section SqliteInitFacts.
Import SqliteInit.

Lemma invariant_initial : invariant initial.
Proof.
  split; cbn; try discriminate; try tauto.
Qed.

(** With an initialisation in flight, [db] is not set. *)
Lemma pending_no_db s p :
  invariant s -> promises s !! p = Some Pending -> db s = None.
Proof.
  intros Hinv Hpend. destruct (db s) as [h|] eqn:Hdb; [|reflexivity].
  destruct (db_is_fulfilled s Hinv h Hdb) as (q & Hq & Hful & _).
  destruct (pending_is_memoized s Hinv p Hpend) as [Hp _].
  congruence.
Qed.

Lemma lookup_insert_cases (l : list PromiseState) p q x y :
  <[p := x]> l !! q = Some y ->
  (q = p /\ y = x) \/ (q <> p /\ l !! q = Some y).
Proof.
  intros H. destruct (decide (p = q)) as [->|Hne].
  - left. split; [reflexivity|].
    apply lookup_lt_Some in H as Hlt. rewrite length_insert in Hlt.
    rewrite list_lookup_insert_eq in H by exact Hlt. congruence.
  - right. rewrite list_lookup_insert_ne in H by exact Hne. auto.
Qed.

Lemma otherWaiters_In p s c q :
  In (c, q) (otherWaiters p s) -> In (c, q) (waiting s) /\ q <> p.
Proof.
  unfold otherWaiters, waitsOn. rewrite List.filter_In. cbn [snd].
  intros [Hin Hne]. split; [exact Hin|].
  apply negb_true_iff, Nat.eqb_neq in Hne. exact Hne.
Qed.

Lemma resolveInit_invariant s p b h :
  invariant s -> body s = Some (p, b) ->
  rehydratePromise s = Some Rehydrated ->
  invariant (resolveInit p h s).
Proof.
  intros Hinv Hbody Hre.
  pose proof (in_flight_is_pending s Hinv p b Hbody) as Hpend.
  pose proof (pending_no_db s p Hinv Hpend) as Hdb.
  destruct (pending_is_memoized s Hinv p Hpend) as [Hp _].
  pose proof Hinv as [H1 H2 H3 H4 H5 H6 H7 H8]. split; cbn.
  - intros q Hq. apply lookup_insert_cases in Hq as [[_ Hq]|[Hne Hq]];
      [discriminate|]. apply H1 in Hq as [Hq _]. congruence.
  - discriminate.
  - discriminate.
  - intros h' [= <-]. exists p. split; [exact Hp|]. split.
    + apply list_lookup_insert_eq. now apply lookup_lt_Some in Hpend.
    + intros q h' Hq. apply lookup_insert_cases in Hq as [[Hq _]|[_ Hq]];
        [exact Hq|]. now contradiction (H3 Hdb q h').
  - intros q Hq. right. exists h. assert (q = p) as -> by congruence.
    apply list_lookup_insert_eq. now apply lookup_lt_Some in Hpend.
  - intros c q Hin. apply otherWaiters_In in Hin as [Hin Hne].
    rewrite list_lookup_insert_ne by congruence. eauto.
  - intros _ _. exact Hre.
  - discriminate.
Qed.

Lemma rejectInit_invariant s p b err :
  invariant s -> body s = Some (p, b) -> invariant (rejectInit p err s).
Proof.
  intros Hinv Hbody.
  pose proof (in_flight_is_pending s Hinv p b Hbody) as Hpend.
  pose proof (pending_no_db s p Hinv Hpend) as Hdb.
  destruct (pending_is_memoized s Hinv p Hpend) as [Hp _].
  pose proof Hinv as [H1 H2 H3 H4 H5 H6 H7 H8]. split; cbn.
  - intros q Hq. apply lookup_insert_cases in Hq as [[_ Hq]|[Hne Hq]];
      [discriminate|]. apply H1 in Hq as [Hq _]. congruence.
  - discriminate.
  - intros _ q h Hq. apply lookup_insert_cases in Hq as [[_ Hq]|[_ Hq]];
      [discriminate|]. now contradiction (H3 Hdb q h).
  - intros h Hh. congruence.
  - discriminate.
  - intros c q Hin. apply otherWaiters_In in Hin as [Hin Hne].
    rewrite list_lookup_insert_ne by congruence. eauto.
  - intros h Hh. congruence.
  - discriminate.
Qed.

Lemma step_invariant s ev : invariant s -> invariant (step s ev).
Proof.
  intros Hinv.
  destruct ev as [c|err|h|failure|]; cbn [step].
  - destruct (db s) as [h|] eqn:Hdb.
    + pose proof Hinv as [H1 H2 H3 H4 H5 H6 H7 H8]. split; cbn.
      * exact H1.
      * exact H2.
      * discriminate.
      * intros h0 [= <-]. exact (H4 h Hdb).
      * exact H5.
      * exact H6.
      * intros h0 [= <-]. exact (H7 h Hdb).
      * exact H8.
    + destruct (dbPromise s) as [p|] eqn:Hp.
      * pose proof Hinv as [H1 H2 H3 H4 H5 H6 H7 H8]. split; cbn.
        -- intros q Hq. destruct (H1 q Hq) as [Hq1 Hq2].
           split; [congruence|exact Hq2].
        -- exact H2.
        -- intros _. exact (H3 Hdb).
        -- discriminate.
        -- intros q [= <-]. exact (H5 p Hp).
        -- intros c' q Hin. apply in_app_or in Hin as [Hin|[[= <- <-]|[]]]; [eauto|].
           destruct (H5 p Hp) as [Hpend|[h Hful]]; [exact Hpend|].
           now contradiction (H3 Hdb p h).
        -- discriminate.
        -- exact H8.
      * pose proof Hinv as [H1 H2 H3 H4 H5 H6 H7 H8]. split; cbn.
        -- intros q Hq. apply lookup_app_Some in Hq as [Hq|[Hge Hq]].
           ++ apply H1 in Hq as [Hq _]. congruence.
           ++ apply list_lookup_singleton_Some in Hq as [Hq _].
              assert (q = length (promises s)) as -> by lia. eauto.
        -- intros q b [= <- <-]. rewrite lookup_app_r by lia.
           now rewrite Nat.sub_diag.
        -- intros _ q h Hq. apply lookup_app_Some in Hq as [Hq|[Hge Hq]].
           ++ now contradiction (H3 Hdb q h).
           ++ apply list_lookup_singleton_Some in Hq as [_ Hq]. discriminate.
        -- discriminate.
        -- intros q [= <-]. left. rewrite lookup_app_r by lia.
           now rewrite Nat.sub_diag.
        -- intros c' q Hin. apply in_app_or in Hin as [Hin|[[= <- <-]|[]]].
           ++ apply lookup_app_l_Some. eauto.
           ++ rewrite lookup_app_r by lia. now rewrite Nat.sub_diag.
        -- discriminate.
        -- discriminate.
  - destruct (body s) as [[p [|h]]|] eqn:Hbody; try exact Hinv.
    now apply (rejectInit_invariant s p Loading).
  - destruct (body s) as [[p [|h']]|] eqn:Hbody; try exact Hinv.
    pose proof (in_flight_is_pending s Hinv p _ Hbody) as Hpend.
    pose proof (pending_no_db s p Hinv Hpend) as Hdb.
    pose proof Hinv as [H1 H2 H3 H4 H5 H6 H7 H8]. split; cbn.
    + intros q Hq. destruct (H1 q Hq) as [Hq1 [b Hq2]].
      split; [exact Hq1|]. rewrite Hbody in Hq2. injection Hq2 as <- _. eauto.
    + intros q b [= <- _]. exact Hpend.
    + exact H3.
    + exact H4.
    + exact H5.
    + exact H6.
    + intros h0 Hh0. congruence.
    + intros _ _ _. destruct (rehydratePromise s); discriminate.
  - destruct (rehydratePromise s) as [[| |err]|] eqn:Hre; try exact Hinv.
    pose proof Hinv as [H1 H2 H3 H4 H5 H6 H7 H8]. split; cbn; try assumption.
    + intros h Hh. apply H7 in Hh. congruence.
    + discriminate.
  - destruct (body s) as [[p [|h]]|] eqn:Hbody; try exact Hinv.
    destruct (rehydratePromise s) as [[| |err]|] eqn:Hre; try exact Hinv.
    + now apply (resolveInit_invariant s p (AwaitsRehydrate h)).
    + now apply (rejectInit_invariant s p (AwaitsRehydrate h)).
Qed.

Lemma runFrom_invariant events s : invariant s -> invariant (runFrom s events).
Proof.
  unfold runFrom. revert s.
  induction events as [|ev events IH]; intros s Hinv; cbn [fold_left];
    [exact Hinv|].
  apply IH. now apply step_invariant.
Qed.

Lemma run_invariant events : invariant (run events).
Proof. apply runFrom_invariant, invariant_initial. Qed.

Lemma run_app events more : run (events ++ more) = runFrom (run events) more.
Proof. unfold run, runFrom. apply fold_left_app. Qed.

(** A failed rehydration stays: no event changes [rehydratePromise]. *)
Lemma step_rehydrate_failed s ev err :
  rehydratePromise s = Some (RehydrateFailed err) ->
  rehydratePromise (step s ev) = Some (RehydrateFailed err).
Proof.
  intros Hre. destruct ev as [c|err'|h|failure|]; cbn [step].
  - destruct (db s); [exact Hre|]. destruct (dbPromise s); exact Hre.
  - destruct (body s) as [[p [|h]]|]; exact Hre.
  - destruct (body s) as [[p [|h']]|]; try exact Hre. cbn. now rewrite Hre.
  - now rewrite Hre.
  - destruct (body s) as [[p [|h]]|]; try exact Hre. now rewrite Hre.
Qed.

Lemma runFrom_rehydrate_failed events s err :
  rehydratePromise s = Some (RehydrateFailed err) ->
  rehydratePromise (runFrom s events) = Some (RehydrateFailed err).
Proof.
  unfold runFrom. revert s.
  induction events as [|ev events IH]; intros s Hre; cbn [fold_left];
    [exact Hre|].
  apply IH. now apply step_rehydrate_failed.
Qed.

(** Unless the rehydration has failed, four events at most set [db]. *)
Lemma init_can_succeed s :
  invariant s ->
  (forall err, rehydratePromise s <> Some (RehydrateFailed err)) ->
  exists more, db (runFrom s more) <> None.
Proof.
  intros Hinv Hok.
  assert (Hawait : forall s p h,
            body s = Some (p, AwaitsRehydrate h) ->
            (forall err, rehydratePromise s <> Some (RehydrateFailed err)) ->
            rehydratePromise s <> None ->
            db (runFrom s [RehydrateSettles None; BodyResumes]) <> None).
  { clear. intros s p h Hbody Hok Hsome. unfold runFrom. cbn [fold_left step].
    destruct (rehydratePromise s) as [[| |err]|] eqn:Hre.
    - cbn. rewrite Hbody. cbn. discriminate.
    - rewrite Hbody, Hre. cbn. discriminate.
    - now contradiction (Hok err).
    - now contradiction Hsome. }
  assert (Hload : forall s p,
            body s = Some (p, Loading) ->
            (forall err, rehydratePromise s <> Some (RehydrateFailed err)) ->
            db (runFrom s [DbOpened 0; RehydrateSettles None; BodyResumes]) <> None).
  { clear - Hawait. intros s p Hbody Hok.
    change (db (runFrom (step s (DbOpened 0))
                  [RehydrateSettles None; BodyResumes]) <> None).
    cbn [step]. rewrite Hbody. apply (Hawait _ p 0); cbn.
    - reflexivity.
    - intros err. destruct (rehydratePromise s) as [r|] eqn:Hre;
        [apply Hok | discriminate].
    - destruct (rehydratePromise s); discriminate. }
  destruct (db s) as [h|] eqn:Hdb.
  { exists []. cbn. now rewrite Hdb. }
  destruct (body s) as [[p [|h]]|] eqn:Hbody.
  - eexists. now apply (Hload s p).
  - eexists. apply (Hawait s p h); [exact Hbody|exact Hok|].
    exact (awaited_is_created s Hinv p h Hbody).
  - destruct (dbPromise s) as [p|] eqn:Hp.
    { destruct (memoized_not_rejected s Hinv p Hp) as [Hpend|[h Hful]].
      - destruct (pending_is_memoized s Hinv p Hpend) as [_ [b Hb]]. congruence.
      - now contradiction (no_db_no_fulfilled s Hinv Hdb p h). }
    exists [Call 0; DbOpened 0; RehydrateSettles None; BodyResumes].
    change (db (runFrom (step s (Call 0))
                  [DbOpened 0; RehydrateSettles None; BodyResumes]) <> None).
    cbn [step]. rewrite Hdb, Hp. eapply Hload; cbn; [reflexivity|exact Hok].
Qed.

End SqliteInitFacts.

(** ** The session orchestrator *)
Section ChatSessionFacts.
Import TokenUtils MemoryStore ChatSession.

Lemma addMessage_stored e r c sid db db' msg evicted :
  addMessage e r c sid db = (db', Returned (msg, evicted)) ->
  In msg (messages db').
Proof.
  unfold addMessage.
  destruct (if ACTIVE_MEMORY <? _ then _ else _) as [[store ev] t].
  unfold db_add. destruct (hasId _ store); [discriminate|].
  intros [= <- <- _]. cbn [messages].
  apply (Permutation_in _ (Permutation_sym (insertByCreatedAt_perm _ store))).
  now left.
Qed.

(** [persistTurn] stores the turn whenever [addMessage] completes, whatever
    the archival of the evicted turns does afterwards. *)
Lemma persistTurn_stored c e r content_ sid w :
  ~ In (uuid e) (map id (messages (mem w))) ->
  exists m,
    In m (messages (mem (fst (persistTurn c e r content_ sid w)))) /\
    In m (messageAdded (fst (persistTurn c e r content_ sid w))) /\
    m = {| id := uuid e; role := r; content := content_; createdAt := now e;
           tokenCount := estimateMessageTokens content_; sessionId := sid |}.
Proof.
  intros Hfresh.
  destruct (addMessage_completes e r content_ sid (mem w) Hfresh)
    as (db' & msg & evicted & Hadd).
  pose proof (addMessage_stored _ _ _ _ _ _ _ _ Hadd) as Hin.
  pose proof (addMessage_message _ _ _ _ _ _ _ _ Hadd) as Hmsg.
  exists msg. unfold persistTurn. rewrite Hadd.
  destruct evicted as [|x evicted]; cbn [fst mem messageAdded].
  - repeat split; [exact Hin| |exact Hmsg]. apply in_or_app. right. now left.
  - destruct (archiveMessages c (x :: evicted)); cbn [fst mem messageAdded];
      (repeat split; [exact Hin| |exact Hmsg]); apply in_or_app; right; now left.
Qed.

Lemma persistTurn_returned c e r content_ sid w w' m :
  persistTurn c e r content_ sid w = (w', Returned m) ->
  In m (messages (mem w')) /\
  m = {| id := uuid e; role := r; content := content_; createdAt := now e;
         tokenCount := estimateMessageTokens content_; sessionId := sid |}.
Proof.
  unfold persistTurn.
  destruct (addMessage e r content_ sid (mem w)) as [db' [[msg evicted]|err]] eqn:Hadd;
    [|discriminate].
  pose proof (addMessage_stored _ _ _ _ _ _ _ _ Hadd) as Hin.
  pose proof (addMessage_message _ _ _ _ _ _ _ _ Hadd) as Hmsg.
  destruct evicted as [|x evicted].
  - intros [= <- <-]. now split.
  - destruct (archiveMessages c (x :: evicted)); [|discriminate].
    intros [= <- <-]. now split.
Qed.

Lemma generate_mem c onStream messages_ context w :
  mem (fst (generate c onStream messages_ context w)) = mem w /\
  generated (fst (generate c onStream messages_ context w))
    = generated w ++ [(messages_, context)].
Proof.
  unfold generate. destruct onStream; [|now split].
  destruct (streamResponse c messages_ context). now split.
Qed.

Lemma persistTurn_generated c e r content_ sid w :
  generated (fst (persistTurn c e r content_ sid w)) = generated w.
Proof.
  unfold persistTurn.
  destruct (addMessage e r content_ sid (mem w)) as [db' [[msg [|x evicted]]|err]];
    try reflexivity.
  destruct (archiveMessages c (x :: evicted)); reflexivity.
Qed.

Lemma retrieveContext_thrown c s userContent err :
  getRelevantContext c userContent = Thrown err ->
  retrieveContext c s userContent = None.
Proof.
  intros H. unfold retrieveContext. rewrite H. now destruct (useContext s).
Qed.

(** [addMessage] adds the new turn and nothing else. *)
Lemma addMessage_ids e r c sid db db' msg evicted :
  addMessage e r c sid db = (db', Returned (msg, evicted)) ->
  forall x, In x (messages db') -> x = msg \/ In x (messages db).
Proof.
  unfold addMessage.
  destruct (if ACTIVE_MEMORY <? _ then _ else _) as [[store ev] t] eqn:Hloop.
  assert (Hsub : forall x, In x store -> In x (messages db)).
  { destruct (ACTIVE_MEMORY <? _) in Hloop.
    - intros x Hx. eapply evictLoop_store_subset. rewrite Hloop. exact Hx.
    - now injection Hloop as <- _ _. }
  unfold db_add. destruct (hasId _ store); [discriminate|].
  intros [= <- <- _] x Hx. cbn [messages] in Hx.
  apply (Permutation_in _ (insertByCreatedAt_perm _ store)) in Hx.
  destruct Hx as [<-|Hx]; [now left|right; now apply Hsub].
Qed.

(** With an archive that accepts every batch, [persistTurn] returns the
    turn that [addMessage] stored. *)
Lemma persistTurn_ok c e r content_ sid w db' msg evicted :
  addMessage e r content_ sid (mem w) = (db', Returned (msg, evicted)) ->
  (forall batch, archiveMessages c batch = Returned tt) ->
  exists w', persistTurn c e r content_ sid w = (w', Returned msg) /\
             mem w' = db' /\ generated w' = generated w.
Proof.
  intros Hadd Harchive. unfold persistTurn. rewrite Hadd.
  destruct evicted as [|x evicted]; [eexists; now repeat split|].
  rewrite Harchive. eexists. now repeat split.
Qed.

Lemma persistTurn_withRetrieval f c e r content_ sid w :
  persistTurn (withRetrieval f c) e r content_ sid w = persistTurn c e r content_ sid w.
Proof. reflexivity. Qed.

Lemma replyPhase_withRetrieval f c sid e2 onStream messages_ context w :
  replyPhase (withRetrieval f c) sid e2 onStream messages_ context w
  = replyPhase c sid e2 onStream messages_ context w.
Proof. reflexivity. Qed.

End ChatSessionFacts.

(** C7.  When [getRelevantContext] throws, [sendMessage] behaves as when
    the retrieval finds nothing: once the user turn is stored and its
    evicted turns archived, the external generation call is made, with no
    context; when that call returns a reply, the reply is stored in the
    window as an assistant turn of the session, and when [sendMessage]
    returns, it returns that reply.  In particular, when the two turns get
    fresh ids, the archive accepts what is evicted and the generation call
    returns a reply, [sendMessage] returns that reply, after one
    generation call without context, and the window holds the reply as an
    assistant turn of the session. *)
Theorem retrieval_failure_does_not_block
    (c : ChatSession.Collaborators) (s : ChatSession.Session)
    (e1 e2 : MemoryStore.Env) (userContent : string) (onStream : bool)
    (w : ChatSession.World) (err : string) :
  ChatSession.getRelevantContext c userContent = Thrown err ->
  let result := ChatSession.sendMessage c s e1 e2 userContent onStream w in
  result = ChatSession.sendMessage
             (ChatSession.withRetrieval (fun _ => Returned None) c)
             s e1 e2 userContent onStream w /\
  (forall w1 m,
     ChatSession.persistTurn c e1 MemoryStore.user userContent
       (ChatSession.session s) w = (w1, Returned m) ->
     let messages_ :=
       ChatSession.recentChatMessages (ChatSession.session s)
         (ChatSession.mem w1) in
     result = ChatSession.replyPhase c (ChatSession.session s) e2 onStream
                messages_ None w1 /\
     ChatSession.generated (fst result)
       = ChatSession.generated w ++ [(messages_, None)] /\
     forall w2 reply,
       ChatSession.generate c onStream messages_ None w1 = (w2, Returned reply) ->
       ~ In (MemoryStore.uuid e2)
            (map MemoryStore.id (MemoryStore.messages (ChatSession.mem w1))) ->
       In {| MemoryStore.id := MemoryStore.uuid e2;
             MemoryStore.role := MemoryStore.assistant;
             MemoryStore.content := reply;
             MemoryStore.createdAt := MemoryStore.now e2;
             MemoryStore.tokenCount := TokenUtils.estimateMessageTokens reply;
             MemoryStore.sessionId := ChatSession.session s |}
          (MemoryStore.messages (ChatSession.mem (fst result)))) /\
  (forall w' reply,
     result = (w', Returned reply) ->
     exists m,
       In m (MemoryStore.messages (ChatSession.mem w')) /\
       MemoryStore.role m = MemoryStore.assistant /\
       MemoryStore.content m = reply /\
       MemoryStore.sessionId m = ChatSession.session s) /\
  (forall reply,
     ~ In (MemoryStore.uuid e1)
          (map MemoryStore.id (MemoryStore.messages (ChatSession.mem w))) ->
     ~ In (MemoryStore.uuid e2)
          (MemoryStore.uuid e1
           :: map MemoryStore.id (MemoryStore.messages (ChatSession.mem w))) ->
     (forall batch, ChatSession.archiveMessages c batch = Returned tt) ->
     let messages_ :=
       ChatSession.recentChatMessages (ChatSession.session s)
         (fst (MemoryStore.addMessage e1 MemoryStore.user userContent
                 (ChatSession.session s) (ChatSession.mem w))) in
     (if onStream
      then exists chunks,
             ChatSession.streamResponse c messages_ None = (chunks, None) /\
             reply = String.concat "" chunks
      else ChatSession.generateResponse c messages_ None = Returned reply) ->
     exists w',
       result = (w', Returned reply) /\
       ChatSession.generated w'
       = ChatSession.generated w ++ [(messages_, None)] /\
       In {| MemoryStore.id := MemoryStore.uuid e2;
             MemoryStore.role := MemoryStore.assistant;
             MemoryStore.content := reply;
             MemoryStore.createdAt := MemoryStore.now e2;
             MemoryStore.tokenCount := TokenUtils.estimateMessageTokens reply;
             MemoryStore.sessionId := ChatSession.session s |}
          (MemoryStore.messages (ChatSession.mem w'))).
Proof.
  intros Hthrow result.
  pose proof (retrieveContext_thrown c s userContent err Hthrow) as Hctx.
  assert (Hsend : forall w1 m,
            ChatSession.persistTurn c e1 MemoryStore.user userContent
              (ChatSession.session s) w = (w1, Returned m) ->
            result = ChatSession.replyPhase c (ChatSession.session s) e2 onStream
                       (ChatSession.recentChatMessages (ChatSession.session s)
                          (ChatSession.mem w1)) None w1).
  { intros w1 m Huser. subst result. unfold ChatSession.sendMessage.
    now rewrite Huser, Hctx. }
  split; [|split; [|split]].
  - subst result. unfold ChatSession.sendMessage.
    rewrite persistTurn_withRetrieval.
    destruct (ChatSession.persistTurn c e1 MemoryStore.user userContent
                (ChatSession.session s) w) as [w1 [m|e]]; [|reflexivity].
    rewrite replyPhase_withRetrieval, Hctx.
    unfold ChatSession.retrieveContext.
    now destruct (ChatSession.useContext s).
  - intros w1 m Huser messages_.
    rewrite (Hsend w1 m Huser). fold messages_.
    unfold ChatSession.replyPhase.
    pose proof (generate_mem c onStream messages_ None w1) as [Hmem Hgen].
    pose proof (persistTurn_generated c e1 MemoryStore.user userContent
                  (ChatSession.session s) w) as Hkeep.
    rewrite Huser in Hkeep. cbn [fst] in Hkeep.
    destruct (ChatSession.generate c onStream messages_ None w1)
      as [w2 [reply|e]] eqn:Hg; cbn [fst] in Hmem, Hgen.
    + pose proof (persistTurn_generated c e2 MemoryStore.assistant reply
                    (ChatSession.session s) w2) as Hkeep2.
      split; [reflexivity|]. split.
      * destruct (ChatSession.persistTurn c e2 MemoryStore.assistant reply
                    (ChatSession.session s) w2) as [w3 [m3|e3]];
          cbn [fst] in *; congruence.
      * intros w2' reply' [= <- <-] Hfresh. rewrite <- Hmem in Hfresh.
        destruct (persistTurn_stored c e2 MemoryStore.assistant reply
                    (ChatSession.session s) w2 Hfresh) as (m3 & Hin & _ & ->).
        destruct (ChatSession.persistTurn c e2 MemoryStore.assistant reply
                    (ChatSession.session s) w2) as [w3 [m3|e3]]; exact Hin.
    + split; [reflexivity|]. split; [cbn [fst]; congruence|].
      intros w2' reply' [=].
  - intros w' reply Hres. subst result. unfold ChatSession.sendMessage in Hres.
    destruct (ChatSession.persistTurn c e1 MemoryStore.user userContent
                (ChatSession.session s) w) as [w1 [m|e]]; [|discriminate].
    unfold ChatSession.replyPhase in Hres.
    destruct (ChatSession.generate c onStream _ _ w1) as [w2 [r|e]];
      [|discriminate].
    destruct (ChatSession.persistTurn c e2 MemoryStore.assistant r
                (ChatSession.session s) w2) as [w3 [m3|e3]] eqn:Hp; [|discriminate].
    injection Hres as <- <-.
    apply persistTurn_returned in Hp as [Hin ->].
    eexists. split; [exact Hin|]. now repeat split.
  - intros reply Hfresh1 Hfresh2 Harchive messages_ Hgen.
    destruct (addMessage_completes e1 MemoryStore.user userContent
                (ChatSession.session s) (ChatSession.mem w) Hfresh1)
      as (db1 & m1 & ev1 & Hadd1).
    destruct (persistTurn_ok c e1 MemoryStore.user userContent
                (ChatSession.session s) w db1 m1 ev1 Hadd1 Harchive)
      as (w1 & Huser & Hmem1 & Hgen1).
    assert (Hmsgs : messages_
                    = ChatSession.recentChatMessages (ChatSession.session s)
                        (ChatSession.mem w1)).
    { subst messages_. now rewrite Hadd1, Hmem1. }
    rewrite (Hsend w1 m1 Huser), <- Hmsgs. unfold ChatSession.replyPhase.
    pose proof (generate_mem c onStream messages_ None w1) as [Hmem2 Hgen2].
    assert (Hreply : snd (ChatSession.generate c onStream messages_ None w1)
                     = Returned reply).
    { unfold ChatSession.generate. destruct onStream.
      - destruct Hgen as (chunks & Hstream & ->). now rewrite Hstream.
      - exact Hgen. }
    destruct (ChatSession.generate c onStream messages_ None w1) as [w2 o2].
    cbn [fst snd] in Hmem2, Hgen2, Hreply. subst o2.
    assert (Hfresh : ~ In (MemoryStore.uuid e2)
                       (map MemoryStore.id
                          (MemoryStore.messages (ChatSession.mem w2)))).
    { rewrite Hmem2, Hmem1. intros Hin.
      apply in_map_iff in Hin as (x & Hid & Hx).
      apply (addMessage_ids _ _ _ _ _ _ _ _ Hadd1) in Hx as [->|Hx].
      - rewrite (addMessage_message _ _ _ _ _ _ _ _ Hadd1) in Hid.
        cbn [MemoryStore.id] in Hid. apply Hfresh2. now left.
      - apply Hfresh2. right. apply in_map_iff. eauto. }
    destruct (addMessage_completes e2 MemoryStore.assistant reply
                (ChatSession.session s) (ChatSession.mem w2) Hfresh)
      as (db3 & m3 & ev3 & Hadd3).
    destruct (persistTurn_ok c e2 MemoryStore.assistant reply
                (ChatSession.session s) w2 db3 m3 ev3 Hadd3 Harchive)
      as (w3 & Hassistant & Hmem3 & Hgen3).
    rewrite Hassistant. exists w3. split; [reflexivity|].
    split; [congruence|].
    rewrite Hmem3, <- (addMessage_message _ _ _ _ _ _ _ _ Hadd3).
    exact (addMessage_stored _ _ _ _ _ _ _ _ Hadd3).
Qed.

(** A run of the theorem: the retrieval times out, the reply is returned
    after one generation call without context, and the window holds it as
    an assistant turn. *)
Lemma retrieval_failure_does_not_block_witness :
  ChatSession.getRelevantContext Scenarios.timedOutRetrieval "Witam"
    = Thrown "Worker timeout" /\
  exists w',
    ChatSession.sendMessage Scenarios.timedOutRetrieval
      (ChatSession.newSession None None) Scenarios.env1 Scenarios.env2
      "Witam" false (ChatSession.newWorld MemoryStore.emptyDB)
    = (w', Returned Scenarios.greeting) /\
    ChatSession.generated w'
    = [([{| ChatSession.cm_role := MemoryStore.user;
            ChatSession.cm_content := "Witam" |}], None)] /\
    In {| MemoryStore.id := "id-2";
          MemoryStore.role := MemoryStore.assistant;
          MemoryStore.content := Scenarios.greeting;
          MemoryStore.createdAt := "2026-01-31T10:00:01.000Z";
          MemoryStore.tokenCount :=
            TokenUtils.estimateMessageTokens Scenarios.greeting;
          MemoryStore.sessionId := "default" |}
       (MemoryStore.messages (ChatSession.mem w')).
Proof.
  split; [reflexivity|].
  apply (proj2 (proj2 (proj2
           (retrieval_failure_does_not_block Scenarios.timedOutRetrieval
              (ChatSession.newSession None None) Scenarios.env1
              Scenarios.env2 "Witam" false
              (ChatSession.newWorld MemoryStore.emptyDB)
              "Worker timeout" eq_refl))) Scenarios.greeting).
  - intros [].
  - intros [H|[]]. discriminate H.
  - reflexivity.
  - reflexivity.
Defined.


Section SingleFlightFacts.
Import SqliteInit.

Lemma answerWaiters_In p o s c :
  In (c, p) (waiting s) -> In (c, o) (answerWaiters p o s).
Proof.
  intros Hin. unfold answerWaiters. apply in_or_app. right.
  apply in_map_iff. exists (c, p). split; [reflexivity|].
  apply List.filter_In. split; [exact Hin|].
  unfold waitsOn. cbn [snd]. apply Nat.eqb_refl.
Qed.

(** What a rejection of the body in flight leaves, and what the next
    call does. *)
Lemma rejectInit_retry s p b err :
  invariant s -> body s = Some (p, b) ->
  let s1 := rejectInit p err s in
  dbPromise s1 = None /\ db s1 = None /\
  promises s1 !! p = Some (Rejected err) /\
  rehydratePromise s1 = rehydratePromise s /\
  (forall c, In (c, p) (waiting s) -> In (c, Thrown err) (answered s1)) /\
  forall c,
    let s2 := step s1 (Call c) in
    dbPromise s2 = Some (length (promises s)) /\
    promises s2 = promises s1 ++ [Pending] /\
    body s2 = Some (length (promises s), Loading) /\
    rehydratePromise s2 = rehydratePromise s.
Proof.
  intros Hinv Hbody s1.
  pose proof (in_flight_is_pending s Hinv p b Hbody) as Hpend.
  pose proof (pending_no_db s p Hinv Hpend) as Hdb.
  subst s1. cbn [rejectInit dbPromise db promises rehydratePromise answered].
  split; [reflexivity|]. split; [exact Hdb|]. split.
  { apply list_lookup_insert_eq. now apply lookup_lt_Some in Hpend. }
  split; [reflexivity|]. split.
  { intros c. apply answerWaiters_In. }
  intros c. cbn [step rejectInit db dbPromise]. rewrite Hdb.
  cbn [dbPromise promises body rehydratePromise rejectInit].
  now rewrite length_insert.
Qed.

End SingleFlightFacts.

(** What the retried body meets.  The body calls [rehydrateFromIdb], whose
    own memo [rehydratePromise] no event clears: as long as the rehydration
    has not failed an initialisation can still succeed, and once it has
    failed every later initialisation fails with it. *)
Lemma rehydration_is_kept (events : list SqliteInit.Event) :
  let s := SqliteInit.run events in
  ((forall err, SqliteInit.rehydratePromise s
                <> Some (SqliteInit.RehydrateFailed err)) ->
   exists more, SqliteInit.db (SqliteInit.run (events ++ more)) <> None) /\
  (forall err,
     SqliteInit.rehydratePromise s = Some (SqliteInit.RehydrateFailed err) ->
     forall more,
       SqliteInit.db (SqliteInit.run (events ++ more)) = None /\
       SqliteInit.rehydratePromise (SqliteInit.run (events ++ more))
         = Some (SqliteInit.RehydrateFailed err)).
Proof.
  intros s. pose proof (run_invariant events) as Hinv. fold s in Hinv.
  split.
  - intros Hok. destruct (init_can_succeed s Hinv Hok) as [more Hmore].
    exists more. now rewrite run_app.
  - intros err Hre more. rewrite run_app. fold s.
    pose proof (runFrom_rehydrate_failed more s err Hre) as Hkeep.
    split; [|exact Hkeep].
    destruct (SqliteInit.db (SqliteInit.runFrom s more)) as [h|] eqn:Hdb;
      [|reflexivity].
    pose proof (SqliteInit.db_after_rehydration _
                  (runFrom_invariant more s Hinv) h Hdb) as Hdone.
    congruence.
Qed.

(** The initialisation of the structured database is single-flight.  In
    every state reached from the start of the worker at most one promise
    of it is pending, it is the one memoized in [dbPromise], [db] is not
    set, and a call of [getSQLite] creates no promise and waits on that
    one; at most one promise is ever fulfilled, [db] holds its handle, and
    later calls get that handle.  When the body in flight throws,
    [dbPromise] is cleared, the waiting callers get the exception, and the
    next call creates a new promise and starts the body again. *)
Lemma getSQLite_single_flight (events : list SqliteInit.Event) :
  let s := SqliteInit.run events in
  (forall p,
     SqliteInit.promises s !! p = Some SqliteInit.Pending ->
     SqliteInit.dbPromise s = Some p /\ SqliteInit.db s = None /\
     (forall q, SqliteInit.promises s !! q = Some SqliteInit.Pending -> q = p) /\
     forall c,
       let s1 := SqliteInit.step s (SqliteInit.Call c) in
       SqliteInit.promises s1 = SqliteInit.promises s /\
       SqliteInit.dbPromise s1 = Some p /\
       SqliteInit.body s1 = SqliteInit.body s /\
       SqliteInit.waiting s1 = SqliteInit.waiting s ++ [(c, p)] /\
       SqliteInit.answered s1 = SqliteInit.answered s) /\
  (forall p h,
     SqliteInit.promises s !! p = Some (SqliteInit.Fulfilled h) ->
     SqliteInit.db s = Some h /\
     (forall q h', SqliteInit.promises s !! q = Some (SqliteInit.Fulfilled h') ->
                   q = p) /\
     forall c,
       let s1 := SqliteInit.step s (SqliteInit.Call c) in
       SqliteInit.promises s1 = SqliteInit.promises s /\
       SqliteInit.answered s1 = SqliteInit.answered s ++ [(c, Returned h)]) /\
  (forall p b ev err,
     SqliteInit.body s = Some (p, b) ->
     (b = SqliteInit.Loading /\ ev = SqliteInit.LoadFails err) \/
     (SqliteInit.rehydratePromise s = Some (SqliteInit.RehydrateFailed err) /\
      ev = SqliteInit.BodyResumes /\ exists h, b = SqliteInit.AwaitsRehydrate h) ->
     let s1 := SqliteInit.step s ev in
     SqliteInit.dbPromise s1 = None /\ SqliteInit.db s1 = None /\
     SqliteInit.promises s1 !! p = Some (SqliteInit.Rejected err) /\
     (forall c, In (c, p) (SqliteInit.waiting s) ->
                In (c, Thrown err) (SqliteInit.answered s1)) /\
     forall c,
       let s2 := SqliteInit.step s1 (SqliteInit.Call c) in
       SqliteInit.dbPromise s2 = Some (length (SqliteInit.promises s)) /\
       SqliteInit.promises s2 = SqliteInit.promises s1 ++ [SqliteInit.Pending] /\
       SqliteInit.body s2 = Some (length (SqliteInit.promises s), SqliteInit.Loading)) /\
  (forall p h,
     SqliteInit.body s = Some (p, SqliteInit.AwaitsRehydrate h) ->
     SqliteInit.rehydratePromise s = Some SqliteInit.Rehydrated ->
     let s1 := SqliteInit.step s SqliteInit.BodyResumes in
     SqliteInit.db s1 = Some h /\
     SqliteInit.promises s1 !! p = Some (SqliteInit.Fulfilled h) /\
     forall c, In (c, p) (SqliteInit.waiting s) ->
               In (c, Returned h) (SqliteInit.answered s1)).
Proof.
  intros s. pose proof (run_invariant events) as Hinv. fold s in Hinv.
  split; [|split; [|split]].
  - intros p Hpend.
    destruct (SqliteInit.pending_is_memoized s Hinv p Hpend) as [Hp _].
    pose proof (pending_no_db s p Hinv Hpend) as Hdb.
    split; [exact Hp|]. split; [exact Hdb|]. split.
    + intros q Hq. apply (SqliteInit.pending_is_memoized s Hinv) in Hq as [Hq _].
      congruence.
    + intros c. cbn [SqliteInit.step]. rewrite Hdb, Hp. cbn.
      repeat split; assumption.
  - intros p h Hful.
    destruct (SqliteInit.db s) as [h0|] eqn:Hdb.
    + destruct (SqliteInit.db_is_fulfilled s Hinv h0 Hdb) as (q & Hq & Hqf & Huniq).
      pose proof (Huniq p h Hful) as ->.
      assert (h0 = h) as -> by congruence.
      split; [reflexivity|]. split.
      * intros q' h' Hq'. exact (Huniq q' h' Hq').
      * intros c. cbn [SqliteInit.step]. rewrite Hdb. now split.
    + now contradiction (SqliteInit.no_db_no_fulfilled s Hinv Hdb p h).
  - intros p b ev err Hbody Hev s1.
    assert (Hs1 : s1 = SqliteInit.rejectInit p err s).
    { subst s1. destruct Hev as [[-> ->]|(Hre & -> & h & ->)];
        cbn [SqliteInit.step]; rewrite Hbody; [reflexivity|].
      now rewrite Hre. }
    rewrite Hs1.
    destruct (rejectInit_retry s p b err Hinv Hbody)
      as (H1 & H2 & H3 & _ & H5 & H6).
    split; [exact H1|]. split; [exact H2|]. split; [exact H3|].
    split; [exact H5|].
    intros c. destruct (H6 c) as (H7 & H8 & H9 & _). now repeat split.
  - intros p h Hbody Hre s1. subst s1. cbn [SqliteInit.step].
    rewrite Hbody, Hre. cbn [SqliteInit.resolveInit SqliteInit.db
                             SqliteInit.promises SqliteInit.answered].
    pose proof (SqliteInit.in_flight_is_pending s Hinv p _ Hbody) as Hpend.
    split; [reflexivity|]. split.
    + apply list_lookup_insert_eq. now apply lookup_lt_Some in Hpend.
    + intros c. apply answerWaiters_In.
Qed.

(** C10.  The code at the failing input: an initialisation whose
    rehydration is rejected, and then a second call.  The first caller
    gets the exception and [dbPromise] is cleared, as the comment of the
    [catch] block intends ("Allow retry if init failed").  The second call
    creates a new promise and its body opens the database again, but
    [rehydrateFromIdb] hands it the memoized rejected promise: the retry
    fails with the same exception without a new rehydration, and so does
    every later one; [db] is never set.  The failure is cached, in
    [rehydratePromise]. *)
Theorem failed_rehydration_is_cached :
  let s := SqliteInit.run Scenarios.rehydrationFails in
  let retried :=
    SqliteInit.run (Scenarios.rehydrationFails ++
                    [SqliteInit.Call 2; SqliteInit.DbOpened 8;
                     SqliteInit.BodyResumes]) in
  SqliteInit.answered s = [(1%nat, Thrown "AbortError")] /\
  SqliteInit.dbPromise s = None /\ SqliteInit.db s = None /\
  SqliteInit.rehydratePromise s
    = Some (SqliteInit.RehydrateFailed "AbortError") /\
  SqliteInit.promises (SqliteInit.step s (SqliteInit.Call 2))
    = [SqliteInit.Rejected "AbortError"; SqliteInit.Pending] /\
  SqliteInit.body (SqliteInit.step s (SqliteInit.Call 2))
    = Some (1%nat, SqliteInit.Loading) /\
  SqliteInit.promises retried
    = [SqliteInit.Rejected "AbortError"; SqliteInit.Rejected "AbortError"] /\
  SqliteInit.answered retried
    = [(1%nat, Thrown "AbortError"); (2%nat, Thrown "AbortError")] /\
  forall more,
    SqliteInit.db (SqliteInit.run (Scenarios.rehydrationFails ++ more)) = None /\
    SqliteInit.rehydratePromise
      (SqliteInit.run (Scenarios.rehydrationFails ++ more))
    = Some (SqliteInit.RehydrateFailed "AbortError").
Proof.
  cbn zeta. do 8 (split; [reflexivity|]).
  intros more.
  exact (proj2 (rehydration_is_kept Scenarios.rehydrationFails)
           "AbortError" eq_refl more).
Qed.

(** * Further properties of the code *)

(** ** Strings *)
Section StringFacts.
Import JsString.

Lemma trimEnd_idem s : trimEnd (trimEnd s) = trimEnd s.
Proof.
  induction s as [|c r IH]; [reflexivity|]. cbn [trimEnd].
  destruct (trimEnd r) as [|d r'] eqn:Hr.
  - destruct (isWhiteSpace c) eqn:Hc; [reflexivity|].
    cbn [trimEnd]. now rewrite Hc.
  - cbn [trimEnd] in *. rewrite IH. reflexivity.
Qed.

Lemma trimStart_idem s : trimStart (trimStart s) = trimStart s.
Proof.
  induction s as [|c r IH]; [reflexivity|]. cbn [trimStart].
  destruct (isWhiteSpace c) eqn:Hc; [exact IH|].
  cbn [trimStart]. now rewrite Hc.
Qed.

Lemma trimStart_trimEnd s : trimStart (trimEnd s) = trimEnd (trimStart s).
Proof.
  induction s as [|c r IH]; [reflexivity|].
  cbn [trimStart]. destruct (isWhiteSpace c) eqn:Hc.
  - rewrite <- IH. cbn [trimEnd]. destruct (trimEnd r) as [|d r'].
    + rewrite Hc. reflexivity.
    + cbn [trimStart]. now rewrite Hc.
  - cbn [trimEnd]. destruct (trimEnd r) as [|d r'];
      rewrite ?Hc; cbn [trimStart]; now rewrite Hc.
Qed.

Lemma trim_idem s : trim (trim s) = trim s.
Proof.
  unfold trim. rewrite trimStart_trimEnd, trimStart_idem.
  now rewrite trimEnd_idem.
Qed.

Lemma length_trimEnd s : (String.length (trimEnd s) <= String.length s)%nat.
Proof.
  induction s as [|c r IH]; [reflexivity|]. cbn [trimEnd].
  destruct (trimEnd r) as [|d r'].
  - destruct (isWhiteSpace c); simpl; lia.
  - simpl in *. lia.
Qed.

Lemma length_trimStart s : (String.length (trimStart s) <= String.length s)%nat.
Proof.
  induction s as [|c r IH]; [reflexivity|]. cbn [trimStart].
  destruct (isWhiteSpace c); simpl; lia.
Qed.

Lemma strlen_trim s : strlen (trim s) <= strlen s.
Proof.
  unfold strlen, trim.
  pose proof (length_trimEnd (trimStart s)). pose proof (length_trimStart s). lia.
Qed.

Lemma length_substring_le s :
  forall n m, (String.length (String.substring n m s) <= m)%nat.
Proof.
  induction s as [|c s IH]; intros [|n] [|m]; simpl; try lia.
  - specialize (IH O m). lia.
  - apply (IH n O).
  - apply (IH n (S m)).
Qed.

(** A slice is never longer than the distance of its two positions. *)
Lemma strlen_slice text a b :
  strlen (slice text a b)
  <= Z.max 0 (sliceIndex (strlen text) b - sliceIndex (strlen text) a).
Proof.
  unfold slice, strlen at 1.
  pose proof (length_substring_le text
                (Z.to_nat (sliceIndex (strlen text) a))
                (Z.to_nat (sliceIndex (strlen text) b - sliceIndex (strlen text) a))).
  lia.
Qed.

Lemma strlen_nonneg s : 0 <= strlen s.
Proof. unfold strlen. lia. Qed.

Lemma strlen_zero s : strlen s = 0 -> s = "".
Proof. unfold strlen. destruct s; simpl; [reflexivity|lia]. Qed.

End StringFacts.

(** ** The ingestion segmenter: what every chunk looks like *)
Section TrainingShape.
Import JsString Training.

Lemma accept_shape maxLen text a b chunks seen :
  0 <= a <= b -> b <= strlen text -> b - a <= maxLen ->
  Forall (fun c => c <> "" /\ trim c = c /\ strlen c <= maxLen) chunks ->
  Forall (fun c => c <> "" /\ trim c = c /\ strlen c <= maxLen)
    (fst (accept (trim (slice text a b)) chunks seen)) /\
  (length (fst (accept (trim (slice text a b)) chunks seen))
   <= S (length chunks))%nat.
Proof.
  intros Ha Hb Hlen Hall. unfold accept.
  assert (Hnew : trim (slice text a b) <> "" ->
                 Forall (fun c => c <> "" /\ trim c = c /\ strlen c <= maxLen) (chunks ++ [trim (slice text a b)])).
  { intros Hne. apply Forall_app. split; [exact Hall|].
    constructor; [|constructor]. cbn beta.
    repeat split; [exact Hne|apply trim_idem|].
    pose proof (strlen_trim (slice text a b)).
    destruct (slice_in_range text a b Ha Hb) as [_ Hs]. lia. }
  destruct (String.eqb_spec (trim (slice text a b)) "") as [Heq|Hne].
  - cbn [fst]. split; [exact Hall|lia].
  - destruct (DEDUP_MIN_LENGTH <=? _).
    + destruct (bool_decide _); cbn [fst].
      * split; [exact Hall|lia].
      * split; [now apply Hnew|]. rewrite length_app. simpl. lia.
    + cbn [fst]. split; [now apply Hnew|]. rewrite length_app. simpl. lia.
Qed.

Lemma chunkLoop_shape clean maxLen overlap :
  0 <= maxLen ->
  forall fuel start chunks seen out,
    0 <= start ->
    Forall (fun c => c <> "" /\ trim c = c /\ strlen c <= maxLen) chunks ->
    Z.of_nat (length chunks) <= MAX_CHUNKS ->
    chunkLoop fuel clean maxLen overlap start chunks seen = Some out ->
    Forall (fun c => c <> "" /\ trim c = c /\ strlen c <= maxLen) out /\ Z.of_nat (length out) <= MAX_CHUNKS.
Proof.
  intros Hmax.
  induction fuel as [|fuel IH]; intros start chunks seen out Hstart Hall Hcount;
    [discriminate|].
  cbn [chunkLoop].
  destruct ((start <? strlen clean) && (Z.of_nat (length chunks) <? MAX_CHUNKS))
    eqn:Hcond; [|intros [= <-]; auto].
  apply andb_true_iff in Hcond as [Hlt Hroom].
  apply Z.ltb_lt in Hlt. apply Z.ltb_lt in Hroom.
  set (end0 := Z.min (start + maxLen) (strlen clean)).
  set (end_ := if end0 <? strlen clean
               then findSentenceBoundary clean start end0 else end0).
  assert (Hend : start <= end_ <= end0).
  { subst end_. destruct (end0 <? strlen clean); [|lia].
    pose proof (findSentenceBoundary_rule clean start end0 ltac:(lia) ltac:(lia)).
    lia. }
  destruct (accept_shape maxLen clean start end_ chunks seen
              ltac:(lia) ltac:(lia) ltac:(lia) Hall) as [Hall' Hcount'].
  destruct (accept _ chunks seen) as [chunks' seen']. cbn [fst] in *.
  destruct (end_ =? strlen clean).
  - intros [= <-]. split; [exact Hall'|lia].
  - apply IH; [lia|exact Hall'|lia].
Qed.

(** Whitespace stays whitespace under the steps of [normalizeText]. *)
Lemma trimStart_blank_cons c r :
  trimStart (String c r) = "" <-> isWhiteSpace c = true /\ trimStart r = "".
Proof.
  cbn [trimStart]. destruct (isWhiteSpace c); split; try tauto; try discriminate.
  intros [H _]. discriminate.
Qed.

Lemma replaceCRLF_cons2 c d r :
  replaceCRLF (String c (String d r))
  = if Ascii.eqb c CR && Ascii.eqb d LF then String LF (replaceCRLF r)
    else String c (replaceCRLF (String d r)).
Proof. reflexivity. Qed.

Lemma replaceCRLF_blank n :
  forall s, (String.length s <= n)%nat ->
            trimStart s = "" -> trimStart (replaceCRLF s) = "".
Proof.
  induction n as [|n IH]; intros [|c [|d r]] Hlen Hs; simpl in Hlen;
    try reflexivity; try lia; try exact Hs.
  apply trimStart_blank_cons in Hs as [Hc Hs].
  rewrite replaceCRLF_cons2. destruct (Ascii.eqb c CR && Ascii.eqb d LF).
  - apply trimStart_blank_cons in Hs as [_ Hs].
    apply trimStart_blank_cons. split; [reflexivity|]. apply IH; [simpl; lia|exact Hs].
  - apply trimStart_blank_cons. split; [exact Hc|]. apply IH; [simpl; lia|exact Hs].
Qed.

Lemma collapseRuns_blank s :
  forall inRun, trimStart s = "" ->
                trimStart (collapseRuns isBlank inRun s) = "".
Proof.
  induction s as [|c r IH]; intros inRun Hs; [reflexivity|].
  apply trimStart_blank_cons in Hs as [Hc Hs]. cbn [collapseRuns].
  destruct (isBlank c).
  - destruct inRun; [now apply IH|].
    apply trimStart_blank_cons. split; [reflexivity|now apply IH].
  - apply trimStart_blank_cons. split; [exact Hc|now apply IH].
Qed.

Lemma squeezeNewlines_blank s :
  forall run, trimStart s = "" -> trimStart (squeezeNewlines run s) = "".
Proof.
  induction s as [|c r IH]; intros run Hs; [reflexivity|].
  apply trimStart_blank_cons in Hs as [Hc Hs]. cbn [squeezeNewlines].
  destruct (Ascii.eqb c LF).
  - destruct (run <? 2)%nat; [|now apply IH].
    apply trimStart_blank_cons. split; [reflexivity|now apply IH].
  - apply trimStart_blank_cons. split; [exact Hc|now apply IH].
Qed.

Lemma trim_blank s : trim s = "" <-> trimStart s = "".
Proof.
  unfold trim. split; [|now intros ->].
  destruct (trimStart s) as [|c r] eqn:Hs; [reflexivity|].
  assert (Hc : isWhiteSpace c = false).
  { destruct (isWhiteSpace c) eqn:Hc; [|reflexivity].
    pose proof (trimStart_idem s) as Hid. rewrite Hs in Hid.
    cbn [trimStart] in Hid. rewrite Hc in Hid.
    pose proof (length_trimStart r) as Hlen. rewrite Hid in Hlen.
    simpl in Hlen. lia. }
  cbn [trimEnd]. destruct (trimEnd r); [now rewrite Hc|discriminate].
Qed.

Lemma normalizeText_blank text : trim text = "" -> normalizeText text = "".
Proof.
  intros H. apply trim_blank in H. unfold normalizeText. apply trim_blank.
  apply squeezeNewlines_blank, collapseRuns_blank.
  now apply (replaceCRLF_blank (String.length text)).
Qed.

End TrainingShape.

(** X1.  Every chunk that the segmenter of the training module returns is
    non-empty, has no whitespace at either end and is at most [maxLen]
    characters long; at most [MAX_CHUNKS] = 500 chunks are returned, and a
    text that is empty or only whitespace yields no chunk. *)
Theorem training_chunks_shape fuel text maxLen overlap chunks :
  0 <= maxLen ->
  Training.chunkText fuel text maxLen overlap = Some chunks ->
  Forall (fun c => c <> "" /\ JsString.trim c = c /\ JsString.strlen c <= maxLen)
         chunks /\
  Z.of_nat (length chunks) <= Training.MAX_CHUNKS /\
  (JsString.trim text = "" -> chunks = []).
Proof.
  intros Hmax. unfold Training.chunkText.
  destruct (String.eqb_spec (Training.normalizeText text) "") as [Hempty|Hne].
  - intros [= <-]. repeat split; [constructor|discriminate].
  - intros Hloop.
    destruct (chunkLoop_shape _ maxLen overlap Hmax fuel 0 [] ∅ chunks
                ltac:(lia) ltac:(constructor) ltac:(discriminate) Hloop)
      as [Hall Hcount].
    split; [exact Hall|]. split; [exact Hcount|].
    intros Hblank. exfalso. apply Hne.
    now apply normalizeText_blank.
Qed.

(** A run of the theorem on two sentences of 110 characters and a window
    of 150: two chunks, cut at the sentence boundary. *)
Lemma training_chunks_shape_witness :
  0 <= 150 /\
  Training.chunkText 5 Samples.twoSentences 150 20
    = Some [Scenarios.replicate 109 "a" +:+ ".";
            Scenarios.replicate 18 "a" +:+ ". " +:+ Scenarios.replicate 109 "b"
              +:+ "."] /\
  Z.of_nat (length [Scenarios.replicate 109 "a" +:+ ".";
                    Scenarios.replicate 18 "a" +:+ ". "
                      +:+ Scenarios.replicate 109 "b" +:+ "."])
  <= Training.MAX_CHUNKS.
Proof.
  assert (H : Training.chunkText 5 Samples.twoSentences 150 20
              = Some [Scenarios.replicate 109 "a" +:+ ".";
                      Scenarios.replicate 18 "a" +:+ ". "
                        +:+ Scenarios.replicate 109 "b" +:+ "."])
    by (vm_compute; reflexivity).
  split; [lia|]. split; [exact H|].
  exact (proj1 (proj2 (training_chunks_shape 5 Samples.twoSentences 150 20 _
                         ltac:(lia) H))).
Defined.

(** ** The splitter of archived turns *)
Section ArchiveChunksFacts.
Import JsString TokenUtils ArchiveChunks.

Lemma lastIndexOfCharUpTo_bounds c s :
  forall i limit best,
    lastIndexOfCharUpTo c s i limit best = best \/
    (i <= lastIndexOfCharUpTo c s i limit best <= limit /\
     lastIndexOfCharUpTo c s i limit best < i + strlen s).
Proof.
  unfold strlen.
  induction s as [|d r IH]; intros i limit best; cbn [lastIndexOfCharUpTo];
    [now left|].
  destruct (IH (i + 1) limit (if (i <=? limit) && Ascii.eqb d c then i else best))
    as [Heq|Hin].
  - rewrite Heq. destruct ((i <=? limit) && Ascii.eqb d c) eqn:Hhit; [|now left].
    right. apply andb_true_iff in Hhit as [Hle _]. apply Z.leb_le in Hle.
    simpl. lia.
  - right. simpl. lia.
Qed.

Lemma lastIndexOfChar_bounds s c fromIndex :
  lastIndexOfChar s c fromIndex = -1 \/
  (0 <= lastIndexOfChar s c fromIndex <= Z.max fromIndex 0 /\
   lastIndexOfChar s c fromIndex < strlen s).
Proof.
  unfold lastIndexOfChar.
  destruct (lastIndexOfCharUpTo_bounds c s 0 (Z.max fromIndex 0) (-1)) as [->|Hb];
    [now left|right; lia].
Qed.

(** The end of a window: the hard cut, or four times an index of the
    text plus one that lies beyond the middle of the window. *)
Lemma windowEnd4_cases text maxTokens start4 :
  windowEnd4 text maxTokens start4 = start4 + 14 * maxTokens \/
  (exists breakPoint,
     windowEnd4 text maxTokens start4 = 4 * (breakPoint + 1) /\
     start4 + 14 * maxTokens < 4 * strlen text /\
     start4 + 7 * maxTokens < 4 * breakPoint /\
     breakPoint <= Z.max (Z.quot (start4 + 14 * maxTokens) 4) 0 /\
     breakPoint < strlen text).
Proof.
  unfold windowEnd4, maxChars4.
  destruct (start4 + 14 * maxTokens <? 4 * strlen text) eqn:Hmid; [|now left].
  apply Z.ltb_lt in Hmid.
  set (from := Z.quot (start4 + 14 * maxTokens) 4).
  pose proof (lastIndexOfChar_bounds text "."%char from) as Hp.
  pose proof (lastIndexOfChar_bounds text LF from) as Hn.
  set (bp := Z.max (lastIndexOfChar text "."%char from) (lastIndexOfChar text LF from)).
  destruct (start4 + 7 * maxTokens <? 4 * bp) eqn:Hfar; [|now left].
  apply Z.ltb_lt in Hfar. right. exists bp.
  pose proof (strlen_nonneg text). subst bp. repeat split; lia.
Qed.

Lemma filter_nonempty_shape (P : string -> Prop) chunks :
  Forall (fun c => c <> "" -> P c) chunks ->
  Forall (fun c => c <> "" /\ P c)
         (List.filter (fun chunk => 0 <? strlen chunk) chunks).
Proof.
  induction 1 as [|c l Hc _ IH]; simpl; [constructor|].
  destruct (Z.ltb_spec 0 (strlen c)) as [Hpos|Hzero]; [|exact IH].
  assert (c <> "") by (intros ->; unfold strlen in Hpos; simpl in Hpos; lia).
  constructor; auto.
Qed.

Lemma archive_loop_shape text maxTokens :
  100 <= maxTokens ->
  forall fuel start4 chunks,
    0 <= start4 ->
    Z.max 0 (4 * strlen text - start4) < 4 * Z.of_nat fuel ->
    Forall (fun c => c <> "" ->
                     trim c = c /\ strlen c <= (14 * maxTokens + 3) / 4 + 1) chunks ->
    exists out,
      chunkLoop fuel text maxTokens start4 chunks = Some out /\
      Forall (fun c => c <> "" ->
                       trim c = c /\ strlen c <= (14 * maxTokens + 3) / 4 + 1) out.
Proof.
  intros Hmax.
  induction fuel as [|fuel IH]; intros start4 chunks Hstart Hfuel Hall; [lia|].
  cbn [chunkLoop].
  destruct (Z.ltb_spec start4 (4 * strlen text)) as [Hlt|Hge]; [|eauto].
  set (end4 := windowEnd4 text maxTokens start4).
  assert (Hend : start4 + 704 < end4 /\
                 Z.quot end4 4 - Z.quot start4 4 <= (14 * maxTokens + 3) / 4 + 1).
  { subst end4. destruct (windowEnd4_cases text maxTokens start4)
      as [->|(bp & -> & Hmid & Hfar & Hbp & _)].
    - rewrite !Z.quot_div_nonneg by lia. split; [lia|].
      pose proof (Z.div_mod (start4 + 14 * maxTokens) 4 ltac:(lia)).
      pose proof (Z.mod_pos_bound (start4 + 14 * maxTokens) 4 ltac:(lia)).
      pose proof (Z.div_mod start4 4 ltac:(lia)).
      pose proof (Z.mod_pos_bound start4 4 ltac:(lia)).
      pose proof (Z.div_mod (14 * maxTokens + 3) 4 ltac:(lia)).
      pose proof (Z.mod_pos_bound (14 * maxTokens + 3) 4 ltac:(lia)).
      lia.
    - rewrite Z.max_l in Hbp by (apply Z.quot_pos; lia).
      rewrite !Z.quot_div_nonneg in * by lia. split; [lia|].
      replace (4 * (bp + 1)) with ((bp + 1) * 4) by lia. rewrite Z.div_mul by lia.
      pose proof (Z.div_mod (start4 + 14 * maxTokens) 4 ltac:(lia)).
      pose proof (Z.mod_pos_bound (start4 + 14 * maxTokens) 4 ltac:(lia)).
      pose proof (Z.div_mod start4 4 ltac:(lia)).
      pose proof (Z.mod_pos_bound start4 4 ltac:(lia)).
      pose proof (Z.div_mod (14 * maxTokens + 3) 4 ltac:(lia)).
      pose proof (Z.mod_pos_bound (14 * maxTokens + 3) 4 ltac:(lia)).
      lia. }
  destruct Hend as [Hprog Hwidth].
  assert (Hall' : Forall (fun c => c <> "" ->
                     trim c = c /\ strlen c <= (14 * maxTokens + 3) / 4 + 1)
                    (chunks ++ [trim (slice text (Z.quot start4 4) (Z.quot end4 4))])).
  { apply Forall_app. split; [exact Hall|]. constructor; [|constructor].
    intros _. split; [apply trim_idem|].
    pose proof (strlen_trim (slice text (Z.quot start4 4) (Z.quot end4 4))).
    pose proof (strlen_slice text (Z.quot start4 4) (Z.quot end4 4)) as Hs.
    assert (0 <= Z.quot start4 4) by (apply Z.quot_pos; lia).
    assert (0 <= Z.quot end4 4) by (apply Z.quot_pos; lia).
    unfold sliceIndex in Hs.
    destruct (Z.ltb_spec (Z.quot start4 4) 0); [lia|].
    destruct (Z.ltb_spec (Z.quot end4 4) 0); [lia|].
    pose proof (Z.div_mod (14 * maxTokens + 3) 4 ltac:(lia)).
    pose proof (Z.mod_pos_bound (14 * maxTokens + 3) 4 ltac:(lia)).
    lia. }
  unfold overlapChars4, ARCHIVE_OVERLAP.
  destruct (Z.leb_spec (4 * strlen text) (end4 - 14 * 50)); [eauto|].
  apply IH; [lia|lia|exact Hall'].
Qed.

Lemma archive_loop_diverges text maxTokens :
  maxTokens <= 50 ->
  forall fuel start4 chunks,
    start4 < 4 * strlen text ->
    chunkLoop fuel text maxTokens start4 chunks = None.
Proof.
  intros Hmax.
  induction fuel as [|fuel IH]; intros start4 chunks Hlt; [reflexivity|].
  cbn [chunkLoop].
  destruct (Z.ltb_spec start4 (4 * strlen text)) as [_|Hge]; [|lia].
  unfold overlapChars4, ARCHIVE_OVERLAP.
  assert (Hend : windowEnd4 text maxTokens start4 - 14 * 50 < 4 * strlen text).
  { destruct (windowEnd4_cases text maxTokens start4)
      as [->|(bp & -> & _ & _ & _ & Hbp)]; lia. }
  destruct (Z.leb_spec (4 * strlen text)
              (windowEnd4 text maxTokens start4 - 14 * 50)); [lia|].
  now apply IH.
Qed.

End ArchiveChunksFacts.

(** X2.  [chunkText] of lib/token-utils.ts with a budget of at least 100
    tokens returns for every text.  A text of at most [3.5 * maxTokens]
    characters comes back whole as the only chunk (the empty text as one
    empty chunk); of a longer text every returned chunk is non-empty, has
    no whitespace at either end, and is at most one character longer than
    [3.5 * maxTokens] rounded up. *)
Theorem archive_chunks_shape text maxTokens :
  100 <= maxTokens ->
  exists chunks,
    ArchiveChunks.chunkText (S (String.length text)) text maxTokens = Some chunks /\
    (2 * JsString.strlen text <= 7 * maxTokens -> chunks = [text]) /\
    (7 * maxTokens < 2 * JsString.strlen text ->
     Forall (fun c => c <> "" /\ JsString.trim c = c /\
                      JsString.strlen c <= (14 * maxTokens + 3) / 4 + 1) chunks).
Proof.
  intros Hmax. unfold ArchiveChunks.chunkText, ArchiveChunks.maxChars4.
  destruct (Z.leb_spec (4 * JsString.strlen text) (14 * maxTokens)) as [Hshort|Hlong].
  - exists [text]. split; [reflexivity|]. split; [reflexivity|lia].
  - destruct (archive_loop_shape text maxTokens Hmax (S (String.length text)) 0 []
                ltac:(lia) ltac:(unfold JsString.strlen; lia) ltac:(constructor))
      as (out & -> & Hout).
    eexists. split; [reflexivity|]. split; [lia|]. intros _.
    now apply (filter_nonempty_shape
                 (fun c => JsString.trim c = c /\
                           JsString.strlen c <= (14 * maxTokens + 3) / 4 + 1)).
Qed.

Lemma archive_chunks_shape_witness :
  100 <= 100 /\
  exists chunks,
    ArchiveChunks.chunkText (S (String.length Samples.longLine))
      Samples.longLine 100 = Some chunks /\
    (7 * 100 < 2 * JsString.strlen Samples.longLine ->
     Forall (fun c => c <> "" /\ JsString.trim c = c /\
                      JsString.strlen c <= (14 * 100 + 3) / 4 + 1) chunks).
Proof.
  split; [lia|].
  destruct (archive_chunks_shape Samples.longLine 100 ltac:(lia))
    as (chunks & H1 & _ & H3).
  exists chunks. split; [exact H1|exact H3].
Defined.

(** X3.  With a budget of at most 50 tokens the window of [chunkText] is
    not wider than the fixed overlap of 175 characters, and the loop makes
    no progress: for a non-empty text longer than [3.5 * maxTokens]
    characters the call never returns. *)
Theorem archive_chunks_small_budget text maxTokens :
  maxTokens <= 50 ->
  0 < JsString.strlen text ->
  7 * maxTokens < 2 * JsString.strlen text ->
  forall fuel, ArchiveChunks.chunkText fuel text maxTokens = None.
Proof.
  intros Hmax Hpos Hlong fuel.
  unfold ArchiveChunks.chunkText, ArchiveChunks.maxChars4.
  destruct (Z.leb_spec (4 * JsString.strlen text) (14 * maxTokens)); [lia|].
  rewrite (archive_loop_diverges text maxTokens Hmax fuel 0 []) by lia.
  reflexivity.
Qed.

Lemma archive_chunks_small_budget_witness :
  50 <= 50 /\ 0 < JsString.strlen Samples.longLine /\
  7 * 50 < 2 * JsString.strlen Samples.longLine /\
  ArchiveChunks.chunkText 1000 Samples.longLine 50 = None.
Proof.
  assert (H1 : 0 < JsString.strlen Samples.longLine) by (vm_compute; reflexivity).
  assert (H2 : 7 * 50 < 2 * JsString.strlen Samples.longLine)
    by (vm_compute; reflexivity).
  split; [lia|]. split; [exact H1|]. split; [exact H2|].
  exact (archive_chunks_small_budget Samples.longLine 50 ltac:(lia) H1 H2 1000%nat).
Defined.

(** ** The Active Memory Window: reads and the eviction test *)
Section MemoryWindowFacts.
Import TokenUtils MemoryStore.

Lemma evictLoop_grows all :
  forall store ev total,
  exists more, snd (fst (evictLoop all store ev total)) = ev ++ more.
Proof.
  induction all as [|oldMsg rest IH]; intros store ev total; cbn [evictLoop].
  - exists []. now rewrite app_nil_r.
  - destruct (total <=? EVICTION_TARGET).
    + exists []. now rewrite app_nil_r.
    + destruct (IH (db_delete (id oldMsg) store) (ev ++ [oldMsg])
                  (total - tokenCount oldMsg)) as (more & ->).
      exists (oldMsg :: more). now rewrite <- app_assoc.
Qed.

Lemma evictLoop_first oldMsg rest store total :
  EVICTION_TARGET < total ->
  exists more,
    snd (fst (evictLoop (oldMsg :: rest) store [] total)) = oldMsg :: more.
Proof.
  intros Hover. cbn [evictLoop].
  destruct (Z.leb_spec total EVICTION_TARGET) as [Hle|_]; [lia|].
  destruct (evictLoop_grows rest (db_delete (id oldMsg) store) ([] ++ [oldMsg])
              (total - tokenCount oldMsg)) as (more & ->).
  now exists more.
Qed.

(** The walk of [getRecentMessages]: the result is a suffix of the
    listing, within the budget, and cannot be extended by the next older
    message. *)
Lemma recentLoop_window maxTokens newestFirst :
  forall result count,
    count = sumTokens result ->
    (result <> [] -> count <= maxTokens) ->
    exists older,
      rev newestFirst ++ result
      = older ++ recentLoop maxTokens newestFirst result count /\
      (recentLoop maxTokens newestFirst result count <> [] ->
       sumTokens (recentLoop maxTokens newestFirst result count) <= maxTokens) /\
      (forall older' m, older = older' ++ [m] ->
         maxTokens < sumTokens (recentLoop maxTokens newestFirst result count)
                     + tokenCount m).
Proof.
  induction newestFirst as [|msg nf IH]; intros result count Hcount Hfit;
    cbn [recentLoop].
  - exists []. split; [reflexivity|]. split; [now rewrite <- Hcount|].
    intros older' m Hnil. now destruct older'.
  - destruct (Z.ltb_spec maxTokens (count + tokenCount msg)) as [Hover|Hok].
    + exists (rev nf ++ [msg]). split; [reflexivity|].
      split; [now rewrite <- Hcount|].
      intros older' m Heq. apply app_inj_tail in Heq as [_ <-]. lia.
    + destruct (IH (msg :: result) (count + tokenCount msg))
        as (older & Heq & Hsum & Hmax).
      * simpl. lia.
      * intros _. exact Hok.
      * exists older. split; [|now split].
        rewrite <- Heq. cbn [rev]. now rewrite <- app_assoc.
Qed.

End MemoryWindowFacts.

(** X4.  [wouldExceedLimit] applied to the recorded total tells what
    [addMessage] does: when it is false nothing is evicted and the store
    only gains the new turn; when it is true and the store is not empty,
    the oldest turn is the first to be evicted. *)
Theorem wouldExceedLimit_predicts_eviction e r c sid db db' msg evicted :
  MemoryStore.addMessage e r c sid db = (db', Returned (msg, evicted)) ->
  (TokenUtils.wouldExceedLimit (MemoryStore.storedTotal db) c = false ->
   evicted = [] /\
   MemoryStore.messages db'
   = MemoryStore.insertByCreatedAt msg (MemoryStore.messages db)) /\
  (TokenUtils.wouldExceedLimit (MemoryStore.storedTotal db) c = true ->
   forall oldest rest,
     MemoryStore.messages db = oldest :: rest ->
     exists more, evicted = oldest :: more).
Proof.
  unfold MemoryStore.addMessage, TokenUtils.wouldExceedLimit,
    MemoryStore.storedTotal, MemoryStore.getMeta.
  cbn [MemoryStore.tokenCount].
  set (total0 := match MemoryStore.meta db with
                 | Some m => MemoryStore.tokenTotal m
                 | None => 0
                 end + TokenUtils.estimateMessageTokens c).
  replace (MemoryStore.tokenTotal
             match MemoryStore.meta db with
             | Some m => m
             | None => _
             end + TokenUtils.estimateMessageTokens c) with total0
    by (subst total0; now destruct (MemoryStore.meta db)).
  destruct (TokenUtils.ACTIVE_MEMORY <? total0) eqn:Hover.
  - intros Hadd. split; [discriminate|]. intros _ oldest rest Hmsgs.
    rewrite Hmsgs in Hadd.
    apply Z.ltb_lt in Hover.
    destruct (evictLoop_first oldest rest (oldest :: rest) total0) as (more & Hev).
    { change TokenUtils.EVICTION_TARGET with 720000.
      change TokenUtils.ACTIVE_MEMORY with 800000 in Hover. lia. }
    destruct (MemoryStore.evictLoop (oldest :: rest) (oldest :: rest) [] total0)
      as [[store ev] t]. cbn [fst snd] in Hev.
    destruct (MemoryStore.db_add _ store); [|discriminate].
    injection Hadd as _ _ <-. eauto.
  - intros Hadd. split; [|discriminate]. intros _.
    destruct (MemoryStore.db_add _ (MemoryStore.messages db)) as [all|] eqn:Hdb;
      [|discriminate].
    injection Hadd as <- <- <-. split; [reflexivity|]. cbn [MemoryStore.messages].
    unfold MemoryStore.db_add in Hdb.
    destruct (MemoryStore.hasId _ _); [discriminate|]. now injection Hdb as <-.
Qed.

Lemma wouldExceedLimit_predicts_eviction_witness :
  exists db' msg,
    MemoryStore.addMessage Scenarios.env1 MemoryStore.user "Witam" "s"
      MemoryStore.emptyDB = (db', Returned (msg, [])) /\
    MemoryStore.messages db'
    = MemoryStore.insertByCreatedAt msg (MemoryStore.messages MemoryStore.emptyDB).
Proof.
  destruct (addMessage_emptyDB Scenarios.env1 MemoryStore.user "Witam" "s")
    as (db' & msg & Hadd & _).
  exists db', msg. split; [exact Hadd|].
  exact (proj2 (proj1 (wouldExceedLimit_predicts_eviction _ _ _ _ _ _ _ _ Hadd)
                  eq_refl)).
Defined.

(** X5.  [getRecentMessages] returns a suffix of the listing of
    [getMessages]: the newest entries of that listing, without gaps.  When
    the result is not empty its token counts add up to at most the budget,
    and the next older entry, if there is one, would exceed the budget. *)
Theorem recent_messages_window maxTokens sid db :
  let limit := match maxTokens with Some n => n | None => 32000 end in
  let recent := MemoryStore.getRecentMessages maxTokens sid db in
  exists older,
    MemoryStore.getMessages sid db = older ++ recent /\
    (recent <> [] -> MemoryStore.sumTokens recent <= limit) /\
    (forall older' m, older = older' ++ [m] ->
       limit < MemoryStore.sumTokens recent + MemoryStore.tokenCount m).
Proof.
  intros limit recent. subst recent. unfold MemoryStore.getRecentMessages. fold limit.
  destruct (recentLoop_window limit (rev (MemoryStore.getMessages sid db)) [] 0
              eq_refl ltac:(congruence)) as (older & Heq & Hsum & Hmax).
  exists older. rewrite rev_involutive, app_nil_r in Heq. auto.
Qed.

(** ** The vector worker: chunks, ingestion, statistics *)
Section WorkerRequestFacts.
Import JsString VectorWorker WorkerRequests.

Lemma windows_shape section maxLen overlap :
  0 <= overlap <= maxLen ->
  forall fuel start out,
    0 <= start ->
    windows fuel section maxLen overlap start = Some out ->
    Forall (fun c => strlen c <= maxLen) out /\
    (start < strlen section -> out <> []).
Proof.
  intros Hmax. induction fuel as [|fuel IH]; intros start out Hstart;
    cbn [windows]; [discriminate|].
  assert (Hc : strlen (trim (slice section start (start + maxLen))) <= maxLen).
  { pose proof (strlen_trim (slice section start (start + maxLen))).
    pose proof (strlen_slice section start (start + maxLen)) as Hs.
    unfold sliceIndex in Hs.
    destruct (Z.ltb_spec start 0); [lia|].
    destruct (Z.ltb_spec (start + maxLen) 0); lia. }
  destruct (Z.ltb_spec start (strlen section)) as [Hlt|Hge].
  - destruct (strlen section - overlap <=? start + maxLen - overlap) eqn:Hlast.
    + intros [= <-]. split; [|discriminate]. constructor; [exact Hc|constructor].
    + destruct (windows fuel section maxLen overlap (start + maxLen - overlap))
        as [more|] eqn:Hmore; [|discriminate].
      intros [= <-]. split; [|discriminate]. constructor; [exact Hc|].
      apply Z.leb_gt in Hlast.
      exact (proj1 (IH (start + maxLen - overlap) more ltac:(lia) Hmore)).
  - intros [= <-]. split; [constructor|lia].
Qed.

Lemma chunkSections_shape sections maxLen overlap :
  0 <= overlap <= maxLen ->
  forall chunks,
    chunkSections sections maxLen overlap = Some chunks ->
    Forall (fun c => strlen c <= maxLen) chunks /\
    (sections <> [] -> chunks <> []).
Proof.
  intros Hmax. induction sections as [|section rest IH]; intros chunks;
    cbn [chunkSections].
  - intros [= <-]. split; [constructor|congruence].
  - destruct (Z.leb_spec (strlen section) maxLen) as [Hfit|Hlong].
    + destruct (chunkSections rest maxLen overlap) as [more|]; [|discriminate].
      intros [= <-]. split; [|discriminate].
      constructor; [exact Hfit|]. exact (proj1 (IH more eq_refl)).
    + destruct (windows _ section maxLen overlap 0) as [cs|] eqn:Hw; [|discriminate].
      destruct (chunkSections rest maxLen overlap) as [more|]; [|discriminate].
      intros [= <-].
      destruct (windows_shape section maxLen overlap Hmax _ 0 cs ltac:(lia) Hw)
        as [Hcs Hne].
      split.
      * apply Forall_app. split; [exact Hcs|]. exact (proj1 (IH more eq_refl)).
      * intros _ Happ. apply app_eq_nil in Happ as [Hnil _].
        apply Hne; [lia|exact Hnil].
Qed.

Lemma sectionsOf_nonempty text_ : sectionsOf text_ <> [].
Proof.
  unfold sectionsOf.
  destruct (splitAtHeadings false true "" text_) as [|head [|part parts]];
    try discriminate.
  intros H. apply app_eq_nil in H as [_ H]. discriminate H.
Qed.

(** *** The rows that an ingestion completes *)

Lemma completedBy_refl rows : completedBy [] rows rows.
Proof.
  induction rows as [|x rows IH]; constructor; [|exact IH].
  split; [reflexivity|]. split; [intros []|reflexivity].
Qed.

Lemma completedBy_trans ids1 ids2 rows rows' rows'' :
  completedBy ids1 rows rows' -> completedBy ids2 rows' rows'' ->
  completedBy (ids1 ++ ids2) rows rows''.
Proof.
  intros H1. revert rows''.
  induction H1 as [|x x' rows rows' (Hid & Hdone & Hsame) _ IH];
    intros rows'' H2; inversion H2 as [|? x'' ? rows2 (Hid2 & Hdone2 & Hsame2) Hrest];
    subst; constructor; [|now apply IH].
  split; [congruence|]. split.
  - intros Hin. destruct (in_dec Z.eq_dec (id x') ids2) as [Hin2|Hout2].
    + now apply Hdone2.
    + rewrite (Hsame2 Hout2). apply in_app_or in Hin as [Hin|Hin].
      * now apply Hdone.
      * rewrite Hid in Hout2. contradiction.
  - intros Hout.
    assert (~ In (id x) ids1) by (intros Hin; apply Hout, in_or_app; auto).
    assert (~ In (id x') ids2)
      by (rewrite Hid; intros Hin; apply Hout, in_or_app; auto).
    rewrite (Hsame2 ltac:(assumption)). now apply Hsame.
Qed.

Lemma completedBy_update k (f : ChunkRow -> ChunkRow) rows :
  (forall r, id (f r) = id r /\ status (f r) = "completed") ->
  completedBy [k] rows (map (fun r => if id r =? k then f r else r) rows).
Proof.
  intros Hf. induction rows as [|x rows IH]; simpl; constructor; [|exact IH].
  destruct (Z.eqb_spec (id x) k) as [Heq|Hne].
  - destruct (Hf x) as [Hid Hst]. split; [exact Hid|]. split; [auto|].
    intros Hout. contradiction Hout. now left.
  - split; [reflexivity|]. split; [|reflexivity].
    intros [Hin|[]]. congruence.
Qed.

Lemma processRow_completes u s total row f32 w c :
  let st := processRow u s total row f32 (w, c) in
  completedBy [id row] (training_chunks w) (training_chunks (fst st)) /\
  snd st = c + 1 /\
  lastPosted (fst st) = Some (progress (c + 1) total).
Proof.
  cbn zeta. unfold processRow.
  destruct (match f32 with
            | Some elems => toVecBlobFromEmbedding (Float32Array elems)
            | None => None
            end) as [b|]; cbn [fst snd].
  - split; [|split; [reflexivity|apply lastPosted_postMessage]].
    cbn [postMessage training_chunks].
    rewrite (proj1 (idbPutChunk_frame _ _)).
    rewrite (proj1 (vec0Upsert_cases (id row) b (storeEmbedding (id row) b w))).
    unfold storeEmbedding. cbn [withTable training_chunks].
    now apply (completedBy_update (id row)
                 (fun r => {| id := id r; userId := userId r;
                              sourceName := sourceName r;
                              chunkIndex := chunkIndex r; text := text r;
                              embedding := Some b; status := "completed" |})).
  - split; [|split; [reflexivity|apply lastPosted_postMessage]].
    cbn [postMessage training_chunks]. unfold markCompleted.
    cbn [withTable training_chunks]. rewrite postDebug_training_chunks.
    now apply (completedBy_update (id row)
                 (fun r => {| id := id r; userId := userId r;
                              sourceName := sourceName r;
                              chunkIndex := chunkIndex r; text := text r;
                              embedding := embedding r; status := "completed" |})).
Qed.

Lemma processBatch_completes u s total batch :
  forall vecs st,
    let st' := processBatch u s total batch vecs st in
    completedBy (map id batch) (training_chunks (fst st))
      (training_chunks (fst st')) /\
    snd st' = snd st + Z.of_nat (length batch) /\
    (batch = [] -> st' = st) /\
    (batch <> [] ->
     lastPosted (fst st')
     = Some (progress (snd st + Z.of_nat (length batch)) total)).
Proof.
  induction batch as [|row batch IH]; intros vecs [w c]; cbn zeta.
  - cbn [processBatch map length fst snd].
    split; [apply completedBy_refl|]. split; [lia|]. split; congruence.
  - cbn [processBatch].
    destruct (processRow_completes u s total row (mjoin (head vecs)) w c)
      as (Hrow & Hcount & Hlast).
    destruct (processRow u s total row (mjoin (head vecs)) (w, c)) as [w1 c1].
    cbn [fst snd] in *. subst c1.
    destruct (IH (tl vecs) (w1, c + 1)) as (Hrest & Hcount' & Hnil & Hlast').
    cbn [fst snd] in *. split.
    + exact (completedBy_trans [id row] (map id batch) _ _ _ Hrow Hrest).
    + split; [rewrite Hcount'; cbn [length]; lia|]. split; [discriminate|].
      intros _. destruct batch as [|row2 batch].
      * rewrite (Hnil eq_refl). cbn [fst]. rewrite Hlast.
        replace (c + Z.of_nat (length [row])) with (c + 1)
          by (cbn [length]; lia). reflexivity.
      * rewrite Hlast' by discriminate.
        replace (c + Z.of_nat (length (row :: row2 :: batch)))
          with (c + 1 + Z.of_nat (length (row2 :: batch)))
          by (cbn [length]; lia). reflexivity.
Qed.

Lemma last_Some_app {A} (l : list A) x :
  last l = Some x -> exists earlier, l = earlier ++ [x].
Proof.
  destruct l as [|a l] using rev_ind; [discriminate|].
  rewrite last_snoc. intros [= ->]. eauto.
Qed.

Lemma postDebug_posted event w :
  posted (postDebug event w)
  = posted w ++ (if debugEnabled w then [debug event] else []).
Proof.
  unfold postDebug. destruct (debugEnabled w); [reflexivity|].
  now rewrite app_nil_r.
Qed.

Lemma processRow_debugEnabled u s total row f32 st :
  debugEnabled (fst (processRow u s total row f32 st)) = debugEnabled (fst st).
Proof.
  destruct st as [w c]. unfold processRow.
  destruct (match f32 with
            | Some elems => toVecBlobFromEmbedding (Float32Array elems)
            | None => None
            end) as [b|]; cbn [fst postMessage debugEnabled].
  - destruct (idbPutChunk_spec
                {| idb_key := mirrorKey u s (chunkIndex row);
                   idb_id := id row; idb_userId := u; idb_sourceName := s;
                   idb_chunkIndex := chunkIndex row; idb_text := text row;
                   idb_embedding := Uint8Array b; idb_status := "completed" |}
                (fst (vec0Upsert (id row) b (storeEmbedding (id row) b w))))
      as (_ & _ & _ & _ & _ & _ & Hd & _).
    cbn zeta in Hd. rewrite Hd.
    now rewrite (proj1 (vec0Upsert_flags _ _ _)).
  - unfold markCompleted. cbn [withTable debugEnabled].
    apply postDebug_debugEnabled.
Qed.

Lemma processBatch_debugEnabled u s total batch :
  forall vecs st,
    debugEnabled (fst (processBatch u s total batch vecs st))
    = debugEnabled (fst st).
Proof.
  induction batch as [|row batch IH]; intros vecs st; cbn [processBatch];
    [reflexivity|].
  rewrite IH. apply processRow_debugEnabled.
Qed.

Lemma embedLoop_completes script u s total :
  forall pending batchSize havePrev st w',
    embedLoop script u s total pending batchSize havePrev st
    = Some (w', Returned tt) ->
    completedBy (map id pending) (training_chunks (fst st)) (training_chunks w') /\
    debugEnabled w' = debugEnabled (fst st) /\
    (pending = [] -> w' = fst st) /\
    (pending <> [] ->
     exists earlier,
       posted w'
       = earlier ++ progress (snd st + Z.of_nat (length pending)) total
           :: (if debugEnabled (fst st)
               then [debug "embedder_batch_tune"] else [])).
Proof.
  induction script as [|[[vecs|err] t] script IH];
    intros [|row pending] batchSize havePrev st w'; cbn [embedLoop];
    try discriminate;
    try (intros [= <-]; split; [apply completedBy_refl|];
         split; [reflexivity|split; congruence]).
  set (all := row :: pending).
  set (batch := firstn (Z.to_nat batchSize) all).
  set (rest := skipn (length batch) all).
  intros Hloop.
  assert (Hsplit : all = batch ++ rest).
  { subst rest batch. rewrite length_firstn.
    destruct (Nat.min_spec (Z.to_nat batchSize) (length all)) as [[_ ->]|[Hle ->]].
    - now rewrite firstn_skipn.
    - rewrite firstn_all2 by lia. rewrite skipn_all. now rewrite app_nil_r. }
  destruct (processBatch_completes u s total batch vecs st)
    as (Hbatch & Hcount & Hnil & Hlast).
  pose proof (processBatch_debugEnabled u s total batch vecs st) as Hdbg.
  destruct (IH _ _ _ _ _ Hloop) as (Hrest & Hdbg' & Hnil' & Hlast').
  cbn [fst snd] in Hrest, Hdbg', Hnil', Hlast'.
  rewrite postDebug_training_chunks in Hrest.
  rewrite postDebug_debugEnabled, Hdbg in Hdbg'.
  rewrite postDebug_debugEnabled, Hdbg in Hlast'.
  rewrite Hsplit, map_app, length_app. split.
  - exact (completedBy_trans _ _ _ _ _ Hbatch Hrest).
  - split; [exact Hdbg'|].
    split; [intros Happ; apply app_eq_nil in Happ as [Hb Hr];
            exfalso; unfold all in Hsplit; rewrite Hb, Hr in Hsplit;
            discriminate Hsplit|].
    intros _. destruct rest as [|r rest'] eqn:Hr.
    + rewrite (Hnil' eq_refl). cbn [length].
      destruct batch as [|b0 batch'] eqn:Hb.
      * exfalso. unfold all in Hsplit. discriminate Hsplit.
      * specialize (Hlast ltac:(discriminate)).
        apply last_Some_app in Hlast as [earlier Hearlier].
        exists earlier. rewrite postDebug_posted, Hdbg, Hearlier.
        rewrite <- app_assoc. cbn [app].
        replace (Z.of_nat (length (b0 :: batch') + 0)%nat)
          with (Z.of_nat (length (b0 :: batch'))) by lia. reflexivity.
    + destruct (Hlast' ltac:(discriminate)) as [earlier Hearlier].
      exists earlier. rewrite Hearlier, Hcount.
      replace (snd st + Z.of_nat (length batch) + Z.of_nat (length (r :: rest')))
        with (snd st + Z.of_nat (length batch + length (r :: rest'))) by lia.
      reflexivity.
Qed.

Lemma insertByChunkIndex_perm r l : Permutation (insertByChunkIndex r l) (r :: l).
Proof.
  induction l as [|x l IH]; simpl; [reflexivity|].
  destruct (chunkIndex x <=? chunkIndex r); [|reflexivity].
  rewrite IH. apply perm_swap.
Qed.

Lemma selectPending_In u s w x :
  In x (selectPending u s w) <->
  In x (training_chunks w) /\ userId x = u /\ sourceName x = s /\
  status x = "pending".
Proof.
  unfold selectPending.
  set (p := fun r => String.eqb (userId r) u && String.eqb (sourceName r) s
                     && String.eqb (status r) "pending").
  assert (P : Permutation (fold_right insertByChunkIndex []
                             (List.filter p (training_chunks w)))
                          (List.filter p (training_chunks w))).
  { induction (List.filter p (training_chunks w)) as [|y k IH]; simpl;
      [reflexivity|]. rewrite insertByChunkIndex_perm. now constructor. }
  assert (Hp : forall r, p r = true <->
                         userId r = u /\ sourceName r = s /\ status r = "pending").
  { intros r. unfold p. rewrite !andb_true_iff, !String.eqb_eq. tauto. }
  split.
  - intros H. apply (Permutation_in _ P) in H.
    apply List.filter_In in H as [H1 H2]. apply Hp in H2. tauto.
  - intros (H1 & H2). apply (Permutation_in _ (Permutation_sym P)).
    apply List.filter_In. split; [exact H1|]. now apply Hp.
Qed.

Lemma completedBy_no_pending u s w w' :
  completedBy (map id (selectPending u s w)) (training_chunks w)
    (training_chunks w') ->
  selectPending u s w' = [].
Proof.
  intros Hdone.
  destruct (selectPending u s w') as [|x rest] eqn:Hsel; [reflexivity|]. exfalso.
  assert (Hx : In x (selectPending u s w')) by (rewrite Hsel; now left).
  apply selectPending_In in Hx as (Hin & Hu & Hs & Hst).
  assert (Hpair : exists x0, In x0 (training_chunks w) /\
                    (In (id x0) (map id (selectPending u s w)) ->
                     status x = "completed") /\
                    (~ In (id x0) (map id (selectPending u s w)) -> x = x0)).
  { clear - Hdone Hin. unfold completedBy in Hdone.
    induction Hdone as [|a a' l l' (Hid & Hd & Hsame) _ IH]; [contradiction|].
    destruct Hin as [<-|Hin].
    - exists a. split; [now left|]. auto.
    - destruct (IH Hin) as (x0 & H0 & H1). exists x0. split; [now right|exact H1]. }
  destruct Hpair as (x0 & Hin0 & Hdone0 & Hsame0).
  destruct (in_dec Z.eq_dec (id x0) (map id (selectPending u s w))) as [Hi|Hn].
  - rewrite (Hdone0 Hi) in Hst. discriminate.
  - pose proof (Hsame0 Hn) as ->. apply Hn. apply in_map.
    apply selectPending_In. auto.
Qed.

Lemma insertPending_debugEnabled u s chunks :
  forall i w, debugEnabled (insertPending u s i chunks w) = debugEnabled w.
Proof.
  induction chunks as [|c chunks IH]; intros i w; cbn [insertPending];
    [reflexivity|].
  rewrite IH. unfold insertOrIgnore.
  now destruct (existsb _ (training_chunks w)).
Qed.

Lemma idbDeleteUser_debugEnabled u w :
  debugEnabled (idbDeleteUser u w) = debugEnabled w.
Proof.
  unfold idbDeleteUser. destruct (idb w); [|reflexivity].
  rewrite postDebug_debugEnabled. cbn [withIdb debugEnabled].
  apply postDebug_debugEnabled.
Qed.

Lemma prepareTable_debugEnabled u s chunks clearExisting w :
  debugEnabled (prepareTable u s chunks clearExisting w) = debugEnabled w.
Proof.
  unfold prepareTable. rewrite insertPending_debugEnabled.
  destruct clearExisting; [|reflexivity].
  now rewrite idbDeleteUser_debugEnabled.
Qed.

Lemma getEmbedder_debugEnabled load w :
  debugEnabled (fst (getEmbedder load w)) = debugEnabled w.
Proof.
  unfold getEmbedder. destruct (embedderPromise w); [reflexivity|].
  cbn [fst]. destruct load; [rewrite postDebug_debugEnabled|];
    cbn [debugEnabled]; apply postDebug_debugEnabled.
Qed.

Lemma getEmbedder_posted load w :
  exists dbg,
    posted (fst (getEmbedder load w)) = posted w ++ dbg /\
    Forall (fun m => exists event, m = debug event) dbg /\
    (debugEnabled w = false -> dbg = []).
Proof.
  unfold getEmbedder. destruct (embedderPromise w).
  - exists []. cbn [fst]. now rewrite app_nil_r.
  - cbn [fst]. destruct load as [dev|err].
    + rewrite postDebug_posted. cbn [posted debugEnabled].
      rewrite postDebug_posted, postDebug_debugEnabled.
      exists ((if debugEnabled w then [debug "embedder_backend_detailed"] else [])
              ++ (if debugEnabled w then [debug "embedder_selected_device"] else [])).
      split; [now rewrite app_assoc|].
      split; [|now intros ->].
      destruct (debugEnabled w); repeat constructor; eauto.
    + cbn [posted]. rewrite postDebug_posted.
      exists (if debugEnabled w then [debug "embedder_backend_detailed"] else []).
      split; [reflexivity|]. split; [|now intros ->].
      destruct (debugEnabled w); repeat constructor; eauto.
Qed.

End WorkerRequestFacts.

(** X7.  [chunkText] of the worker returns at least one chunk for every
    text, and none is longer than 1000 characters; the empty text yields one
    empty chunk. *)
Theorem worker_chunks_shape text_ :
  (exists chunks,
     VectorWorker.chunkText text_ = Some chunks /\
     chunks <> [] /\
     Forall (fun c => JsString.strlen c <= 1000) chunks) /\
  VectorWorker.chunkText "" = Some [""].
Proof.
  split; [|reflexivity].
  destruct (chunkText_total text_) as [chunks Hc]. exists chunks.
  split; [exact Hc|]. unfold VectorWorker.chunkText in Hc.
  destruct (chunkSections_shape _ 1000 200 ltac:(lia) chunks Hc) as [Hall Hne].
  split; [|exact Hall]. apply Hne, sectionsOf_nonempty.
Qed.

(** X8.  An ingestion that completes leaves no row of its source pending:
    every row that was pending when the batches began has been set to
    'completed', with or without an embedding.  Its messages end with the
    progress report [total]/[total], where [total] is the number of chunks
    of the text, then debug messages only, then [done_prepare].  With
    debugging off there is no debug message in between; with debugging on
    and a row pending when the batches began there is exactly one, the
    tuning report of the last batch. *)
Theorem prepare_completes load script u text_ s clearExisting w w' :
  VectorWorker.prepareWithProgress load script u text_ s clearExisting w
  = Some (w', Returned tt) ->
  exists chunks earlier dbg,
    VectorWorker.chunkText text_ = Some chunks /\
    VectorWorker.selectPending u s w' = [] /\
    VectorWorker.posted w'
    = earlier ++ VectorWorker.progress (Z.of_nat (length chunks))
                   (Z.of_nat (length chunks))
        :: dbg ++ [VectorWorker.done_prepare] /\
    Forall (fun m => exists event, m = VectorWorker.debug event) dbg /\
    (VectorWorker.debugEnabled w = false -> dbg = []) /\
    (VectorWorker.debugEnabled w = true ->
     VectorWorker.selectPending u s
       (VectorWorker.prepareTable u s chunks clearExisting w) <> [] ->
     dbg = [VectorWorker.debug "embedder_batch_tune"]).
Proof.
  unfold VectorWorker.prepareWithProgress.
  destruct (VectorWorker.chunkText text_) as [chunks|]; [|discriminate].
  pose proof (prepareTable_debugEnabled u s chunks clearExisting w) as Hd1.
  set (w1 := VectorWorker.prepareTable u s chunks clearExisting w) in *.
  set (pending := VectorWorker.selectPending u s w1).
  set (total := Z.of_nat (length chunks)).
  set (w2 := VectorWorker.postMessage _ w1).
  pose proof (getEmbedder_table load w2) as Htable.
  destruct (getEmbedder_posted load w2) as (dbg0 & Hposted & Hall0 & Hoff0).
  pose proof (getEmbedder_debugEnabled load w2) as Hd3.
  destruct (VectorWorker.getEmbedder load w2) as [w3 [dev|err]];
    [|discriminate]. cbn [fst] in Htable, Hposted, Hd3.
  destruct (VectorWorker.embedLoop _ _ _ _ _ _ _ _) as [[w4 [[]|err]]|] eqn:Hloop;
    try discriminate.
  intros [= <-].
  destruct (embedLoop_completes _ _ _ _ _ _ _ _ _ Hloop)
    as (Hdone & Hd4 & Hnil & Hlast).
  cbn [fst snd] in *.
  assert (Hd : VectorWorker.debugEnabled w3 = VectorWorker.debugEnabled w)
    by (rewrite Hd3; subst w2; cbn [VectorWorker.postMessage
                                      VectorWorker.debugEnabled]; exact Hd1).
  assert (Hpending : VectorWorker.selectPending u s
                       (VectorWorker.postMessage VectorWorker.done_prepare w4) = []).
  { apply (completedBy_no_pending u s w1).
    cbn [VectorWorker.postMessage VectorWorker.training_chunks].
    rewrite Htable in Hdone. exact Hdone. }
  cbn [VectorWorker.postMessage VectorWorker.posted].
  destruct pending as [|row rest] eqn:Hp.
  - pose proof (Hnil eq_refl) as Hw4. subst w4. rewrite Hposted. subst w2.
    cbn [VectorWorker.postMessage VectorWorker.posted].
    exists chunks, (VectorWorker.posted w1), dbg0.
    split; [reflexivity|]. split; [exact Hpending|]. split.
    + rewrite <- !app_assoc. cbn [app length]. do 3 f_equal. lia.
    + split; [exact Hall0|]. split.
      * intros Hoff. apply Hoff0.
        cbn [VectorWorker.postMessage VectorWorker.debugEnabled].
        now rewrite Hd1.
      * intros _ Hne. now contradiction Hne.
  - destruct (Hlast ltac:(discriminate)) as [earlier Hearlier].
    exists chunks, earlier,
      (if VectorWorker.debugEnabled w
       then [VectorWorker.debug "embedder_batch_tune"] else []).
    split; [reflexivity|]. split; [exact Hpending|]. split.
    + rewrite Hearlier, Hd, <- app_assoc. cbn [app]. do 3 f_equal. lia.
    + split; [destruct (VectorWorker.debugEnabled w); repeat constructor; eauto|].
      split; intros ->; reflexivity.
Qed.

Lemma prepare_completes_witness :
  VectorWorker.prepareWithProgress (Returned "wasm")
    [(Returned [Some Scenarios.zeroVector], VectorWorker.Similar)]
    "u" "hello" "doc" true Samples.debugging
  = Some (Samples.ingestedDebugging, Returned tt) /\
  VectorWorker.posted Samples.ingestedDebugging
  = [VectorWorker.debug "debug_enabled"; VectorWorker.debug_ack true false;
     VectorWorker.debug "idb_delete_user_start";
     VectorWorker.debug "idb_delete_user_done";
     VectorWorker.progress 0 1;
     VectorWorker.debug "embedder_backend_detailed";
     VectorWorker.debug "embedder_selected_device";
     VectorWorker.debug "idb_put";
     VectorWorker.progress 1 1;
     VectorWorker.debug "embedder_batch_tune";
     VectorWorker.done_prepare] /\
  exists chunks earlier dbg,
    VectorWorker.chunkText "hello" = Some chunks /\
    VectorWorker.selectPending "u" "doc" Samples.ingestedDebugging = [] /\
    VectorWorker.posted Samples.ingestedDebugging
    = earlier ++ VectorWorker.progress (Z.of_nat (length chunks))
                   (Z.of_nat (length chunks))
        :: dbg ++ [VectorWorker.done_prepare] /\
    Forall (fun m => exists event, m = VectorWorker.debug event) dbg /\
    (VectorWorker.debugEnabled Samples.debugging = false -> dbg = []) /\
    (VectorWorker.debugEnabled Samples.debugging = true ->
     VectorWorker.selectPending "u" "doc"
       (VectorWorker.prepareTable "u" "doc" chunks true Samples.debugging) <> [] ->
     dbg = [VectorWorker.debug "embedder_batch_tune"]).
Proof.
  assert (H1 : VectorWorker.prepareWithProgress (Returned "wasm")
                 [(Returned [Some Scenarios.zeroVector], VectorWorker.Similar)]
                 "u" "hello" "doc" true Samples.debugging
               = Some (Samples.ingestedDebugging, Returned tt))
    by (vm_compute; reflexivity).
  split; [exact H1|]. split; [vm_compute; reflexivity|].
  exact (prepare_completes (Returned "wasm")
           [(Returned [Some Scenarios.zeroVector], VectorWorker.Similar)]
           "u" "hello" "doc" true Samples.debugging Samples.ingestedDebugging H1).
Defined.

Section WorkerMirrorFacts.
Import JsString VectorWorker WorkerRequests.

Variables u s : string.
Variable n : Z.

Lemma processRow_mirror total row f32 st :
  0 <= chunkIndex row < n ->
  ownedBySource u s n (fst st) ->
  ownedBySource u s n (fst (processRow u s total row f32 st)).
Proof.
  destruct st as [w c0]. cbn [fst]. intros Hrow Hall l c. unfold processRow.
  destruct (match f32 with
            | Some elems => toVecBlobFromEmbedding (Float32Array elems)
            | None => None
            end) as [b|]; cbn [fst postMessage idb].
  - set (rec := {| idb_key := mirrorKey u s (chunkIndex row);
                   idb_id := id row; idb_userId := u; idb_sourceName := s;
                   idb_chunkIndex := chunkIndex row; idb_text := text row;
                   idb_embedding := Uint8Array b; idb_status := "completed" |}).
    destruct (idbPutChunk_spec rec
                (fst (vec0Upsert (id row) b (storeEmbedding (id row) b w))))
      as (Hput & _).
    cbn zeta in Hput. rewrite Hput.
    pose proof (vec0Upsert_cases (id row) b (storeEmbedding (id row) b w))
      as (_ & _ & Hidb & _).
    cbn zeta in Hidb. rewrite Hidb. cbn [storeEmbedding withTable idb].
    destruct (idb w) as [l0|] eqn:Hl0; [|discriminate].
    intros [= <-] Hin. apply idbPut_In in Hin as [->|Hin].
    + intros _. subst rec. cbn [idb_sourceName idb_chunkIndex]. auto.
    + now apply (Hall l0).
  - unfold markCompleted. cbn [withTable idb]. rewrite postDebug_idb. apply Hall.
Qed.

Lemma processBatch_mirror total batch :
  forall vecs st,
    Forall (fun row => 0 <= chunkIndex row < n) batch ->
    ownedBySource u s n (fst st) ->
    ownedBySource u s n (fst (processBatch u s total batch vecs st)).
Proof.
  induction batch as [|row batch IH]; intros vecs st Hrows Hall;
    cbn [processBatch]; [exact Hall|].
  inversion Hrows as [|? ? Hrow Hrest]; subst.
  apply IH; [exact Hrest|]. now apply processRow_mirror.
Qed.

Lemma embedLoop_mirror script total :
  forall pending batchSize havePrev st w' o,
    embedLoop script u s total pending batchSize havePrev st = Some (w', o) ->
    Forall (fun row => 0 <= chunkIndex row < n) pending ->
    ownedBySource u s n (fst st) ->
    ownedBySource u s n w'.
Proof.
  induction script as [|[[vecs|err] t] script IH];
    intros [|row pending] batchSize havePrev st w' o; cbn [embedLoop];
    try discriminate; try (intros [= <- _] _ Hall; exact Hall).
  intros Hloop Hrows Hall. apply (IH _ _ _ _ _ _ Hloop).
  - now apply Forall_drop.
  - cbn [fst]. intros l c. rewrite postDebug_idb. revert l c.
    apply processBatch_mirror; [|exact Hall]. now apply Forall_take.
Qed.

Lemma insertPending_idb chunks :
  forall i w, idb (insertPending u s i chunks w) = idb w.
Proof.
  induction chunks as [|c chunks IH]; intros i w; cbn [insertPending];
    [reflexivity|].
  rewrite IH. unfold insertOrIgnore.
  now destruct (existsb _ (training_chunks w)).
Qed.

Lemma getEmbedder_idb load w : idb (fst (getEmbedder load w)) = idb w.
Proof.
  unfold getEmbedder. destruct (embedderPromise w); [reflexivity|].
  cbn [fst]. destruct load; [rewrite postDebug_idb|]; cbn [idb];
    apply postDebug_idb.
Qed.

Lemma idbDeleteUser_owned w : ownedBySource u s n (idbDeleteUser u w).
Proof.
  intros l c. unfold idbDeleteUser.
  destruct (idb w) as [l0|] eqn:Hidb; [|rewrite Hidb; discriminate].
  rewrite postDebug_idb. cbn [withIdb idb]. intros [= <-] Hc Hu.
  apply List.filter_In in Hc as [_ Hne]. apply negb_true_iff in Hne.
  apply String.eqb_neq in Hne. contradiction.
Qed.

End WorkerMirrorFacts.

(** X9.  An ingestion with [clearExisting] replaces everything the owner
    had: afterwards every row of the owner in the structured table, and
    every record of the owner in the mirror, belongs to the ingested source,
    with a chunk index of the text; the keys of other owners are as before. *)
Theorem prepare_clear_replaces_owner load script u text_ s w w' o :
  VectorWorker.uniqueKeys w ->
  VectorWorker.prepareWithProgress load script u text_ s true w = Some (w', o) ->
  exists chunks,
    VectorWorker.chunkText text_ = Some chunks /\
    (forall r, In r (VectorWorker.training_chunks w') ->
               VectorWorker.userId r = u ->
               VectorWorker.sourceName r = s /\
               0 <= VectorWorker.chunkIndex r < Z.of_nat (length chunks)) /\
    (forall l c, VectorWorker.idb w' = Some l -> In c l ->
                 VectorWorker.idb_userId c = u ->
                 VectorWorker.idb_sourceName c = s /\
                 0 <= VectorWorker.idb_chunkIndex c < Z.of_nat (length chunks)) /\
    (forall k, fst (fst k) <> u ->
               (In k (VectorWorker.keysOf w') <-> In k (VectorWorker.keysOf w))).
Proof.
  intros Hnd Hrun.
  destruct (prepareWithProgress_keys _ _ _ _ _ _ _ _ _ Hrun) as (chunks & Hc & Hkeys).
  destruct (prepareTable_keys u s chunks true w Hnd) as [_ Hin1].
  pose proof Hin1 as Hin. rewrite <- Hkeys in Hin.
  exists chunks. split; [exact Hc|]. split; [|split].
  - intros r Hr Hu.
    assert (Hk : In (VectorWorker.key3 r) (VectorWorker.keysOf w'))
      by (unfold VectorWorker.keysOf; now apply in_map).
    apply Hin in Hk as [[_ Hclear]|(j & Hj & Heq)].
    + contradiction (Hclear eq_refl).
    + unfold VectorWorker.key3 in Heq. injection Heq as _ -> ->. auto.
  - change (WorkerRequests.ownedBySource u s (Z.of_nat (length chunks)) w').
    unfold VectorWorker.prepareWithProgress in Hrun. rewrite Hc in Hrun.
    set (w1 := VectorWorker.prepareTable u s chunks true w) in *.
    assert (H1 : WorkerRequests.ownedBySource u s (Z.of_nat (length chunks)) w1).
    { intros l c. subst w1. unfold VectorWorker.prepareTable.
      rewrite insertPending_idb. apply idbDeleteUser_owned. }
    assert (Hrows : Forall (fun row => 0 <= VectorWorker.chunkIndex row
                                       < Z.of_nat (length chunks))
                      (VectorWorker.selectPending u s w1)).
    { apply List.Forall_forall. intros r Hr.
      apply selectPending_In in Hr as (Hr & Hu & _).
      assert (Hk : In (VectorWorker.key3 r) (VectorWorker.keysOf w1))
        by (unfold VectorWorker.keysOf; now apply in_map).
      apply Hin1 in Hk as [[_ Hclear]|(j & Hj & Heq)].
      - contradiction (Hclear eq_refl).
      - unfold VectorWorker.key3 in Heq. injection Heq as _ _ ->. exact Hj. }
    set (w2 := VectorWorker.postMessage _ w1) in Hrun.
    pose proof (getEmbedder_idb load w2) as H3.
    destruct (VectorWorker.getEmbedder load w2) as [w3 [dev|err]]; cbn [fst] in H3.
    + destruct (VectorWorker.embedLoop _ _ _ _ _ _ _ _) as [[w4 o4]|] eqn:Hloop;
        [|discriminate].
      assert (H4 : WorkerRequests.ownedBySource u s (Z.of_nat (length chunks)) w4).
      { apply (embedLoop_mirror u s _ _ _ _ _ _ _ _ _ Hloop Hrows).
        cbn [fst]. intros l c. rewrite H3. apply H1. }
      destruct o4 as [[]|err]; injection Hrun as <- _; exact H4.
    + injection Hrun as <- _. intros l c. rewrite H3. apply H1.
  - intros [[ku ks] ki] Hku. cbn [fst] in Hku. rewrite Hin. split.
    + intros [[Hk _]|(j & _ & [= -> _ _])]; [exact Hk|contradiction].
    + intros Hk. left. split; [exact Hk|]. intros _. exact Hku.
Qed.

Lemma prepare_clear_replaces_owner_witness :
  VectorWorker.uniqueKeys Scenarios.ingestedOnce /\
  VectorWorker.prepareWithProgress (Returned "wasm")
    [(Returned [Some Scenarios.zeroVector], VectorWorker.Similar)]
    "u" "hello" "doc" true Scenarios.ingestedOnce
  = Some (Scenarios.ingestedTwice, Returned tt) /\
  exists chunks,
    VectorWorker.chunkText "hello" = Some chunks /\
    (forall r, In r (VectorWorker.training_chunks Scenarios.ingestedTwice) ->
               VectorWorker.userId r = "u" ->
               VectorWorker.sourceName r = "doc" /\
               0 <= VectorWorker.chunkIndex r < Z.of_nat (length chunks)) /\
    (forall l c, VectorWorker.idb Scenarios.ingestedTwice = Some l -> In c l ->
                 VectorWorker.idb_userId c = "u" ->
                 VectorWorker.idb_sourceName c = "doc" /\
                 0 <= VectorWorker.idb_chunkIndex c < Z.of_nat (length chunks)).
Proof.
  assert (H0 : VectorWorker.uniqueKeys Scenarios.ingestedOnce).
  { unfold VectorWorker.uniqueKeys.
    replace (VectorWorker.keysOf Scenarios.ingestedOnce) with [("u", "doc", 0)]
      by (vm_compute; reflexivity).
    constructor; [intros Hin; now apply elem_of_nil in Hin|constructor]. }
  assert (H2 : VectorWorker.prepareWithProgress (Returned "wasm")
                 [(Returned [Some Scenarios.zeroVector], VectorWorker.Similar)]
                 "u" "hello" "doc" true Scenarios.ingestedOnce
               = Some (Scenarios.ingestedTwice, Returned tt))
    by (vm_compute; reflexivity).
  split; [exact H0|]. split; [exact H2|].
  destruct (prepare_clear_replaces_owner (Returned "wasm")
              [(Returned [Some Scenarios.zeroVector], VectorWorker.Similar)]
              "u" "hello" "doc" Scenarios.ingestedOnce Scenarios.ingestedTwice
              (Returned tt) H0 H2) as (chunks & Hc & Hrows & Hmirror & _).
  exists chunks. split; [exact Hc|]. split; [exact Hrows|exact Hmirror].
Defined.

(** X10.  [getLocalStats] on a table whose embeddings are all of the
    exact length: the reported count is the number of completed rows of the
    owner, and the byte total is 3072 times the number of those rows that
    hold an embedding, so it is at most 3072 times the count.  After
    [clearUserData] both numbers are zero. *)
Theorem local_stats_bytes u w :
  VectorWorker.exactEmbeddings w ->
  fst (WorkerRequests.getLocalStats u w)
  = Z.of_nat (length (WorkerRequests.completedRows u w)) /\
  snd (WorkerRequests.getLocalStats u w)
  = 3072 * Z.of_nat (length (List.filter WorkerRequests.holdsEmbedding
                               (WorkerRequests.completedRows u w))) /\
  snd (WorkerRequests.getLocalStats u w)
  <= 3072 * fst (WorkerRequests.getLocalStats u w) /\
  WorkerRequests.getLocalStats u (WorkerRequests.clearUserData u w) = (0, 0).
Proof.
  intros [Hexact _ _].
  assert (Hbytes : snd (WorkerRequests.getLocalStats u w)
                   = 3072 * Z.of_nat (length (List.filter WorkerRequests.holdsEmbedding
                                                (WorkerRequests.completedRows u w)))).
  { unfold WorkerRequests.getLocalStats, WorkerRequests.completedRows.
    cbn [snd].
    induction (VectorWorker.training_chunks w) as [|r rows IH]; [reflexivity|].
    cbn [List.filter].
    assert (Hrows : forall x b, In x rows -> VectorWorker.embedding x = Some b ->
                                VectorWorker.blobLength b = VectorWorker.expectedBytes)
      by (intros x b Hx; apply Hexact; now right).
    destruct (_ && _); [|exact (IH Hrows)].
    cbn [fold_right List.filter]. rewrite (IH Hrows).
    unfold WorkerRequests.holdsEmbedding at 2.
    destruct (VectorWorker.embedding r) as [b|] eqn:Hb; [|lia].
    rewrite (Hexact r b (or_introl eq_refl) Hb).
    change VectorWorker.expectedBytes with 3072. cbn [length]. lia. }
  split; [reflexivity|]. split; [exact Hbytes|]. split.
  - rewrite Hbytes. unfold WorkerRequests.getLocalStats. cbn [fst].
    fold (WorkerRequests.completedRows u w).
    pose proof (List.filter_length_le WorkerRequests.holdsEmbedding
                  (WorkerRequests.completedRows u w)). lia.
  - unfold WorkerRequests.getLocalStats, WorkerRequests.clearUserData.
    rewrite idbDeleteUser_table.
    assert (Hnone : List.filter
              (fun r => String.eqb (VectorWorker.userId r) u
                        && String.eqb (VectorWorker.status r) "completed")
              (VectorWorker.training_chunks (VectorWorker.deleteUserRows u w)) = []).
    { cbn [VectorWorker.deleteUserRows VectorWorker.withTable
           VectorWorker.training_chunks]. clear Hexact Hbytes.
      induction (VectorWorker.training_chunks w) as [|r rows IH]; [reflexivity|].
      cbn [List.filter].
      destruct (String.eqb (VectorWorker.userId r) u) eqn:Hu; cbn [negb];
        [exact IH|]. cbn [List.filter]. rewrite Hu. exact IH. }
    rewrite Hnone. reflexivity.
Qed.

Lemma local_stats_bytes_witness :
  VectorWorker.exactEmbeddings Samples.halfEmbedded /\
  WorkerRequests.getLocalStats "u" Samples.halfEmbedded = (2, 3072) /\
  length (WorkerRequests.completedRows "u" Samples.halfEmbedded) = 2%nat /\
  length (List.filter WorkerRequests.holdsEmbedding
            (WorkerRequests.completedRows "u" Samples.halfEmbedded)) = 1%nat /\
  WorkerRequests.getLocalStats "u"
    (WorkerRequests.clearUserData "u" Samples.halfEmbedded) = (0, 0).
Proof.
  assert (H : VectorWorker.exactEmbeddings Samples.halfEmbedded).
  { unfold Samples.halfEmbedded. apply processRow_exact, processRow_exact.
    cbn [fst]. split.
    - intros r b Hin. vm_compute in Hin.
      destruct Hin as [<-|[<-|[]]]; discriminate.
    - intros m k b [= <-] Hk. now rewrite lookup_empty in Hk.
    - intros l c [= <-] []. }
  destruct (local_stats_bytes "u" Samples.halfEmbedded H)
    as (Hcount & Hbytes & _ & Hclear).
  assert (H2 : length (WorkerRequests.completedRows "u" Samples.halfEmbedded)
               = 2%nat) by (vm_compute; reflexivity).
  assert (H1 : length (List.filter WorkerRequests.holdsEmbedding
                         (WorkerRequests.completedRows "u" Samples.halfEmbedded))
               = 1%nat) by (vm_compute; reflexivity).
  split; [exact H|]. split; [|split; [exact H2|split; [exact H1|exact Hclear]]].
  rewrite (surjective_pairing (WorkerRequests.getLocalStats "u" Samples.halfEmbedded)).
  rewrite Hcount, Hbytes, H2, H1. reflexivity.
Defined.

(** X11.  After an ingestion has marked a row 'completed' without an
    embedding (the embedder's output for it was missing or of the wrong
    length), [getCompletedChunks] for the owner of that row throws when it
    reads the row's embedding, and posts nothing. *)
Theorem rejected_embedding_breaks_export u s total row f32 w c :
  In row (VectorWorker.training_chunks w) ->
  VectorWorker.userId row = u ->
  VectorWorker.embedding row = None ->
  match f32 with
  | Some elems =>
      VectorWorker.toVecBlobFromEmbedding (VectorWorker.Float32Array elems)
  | None => None
  end = None ->
  let w' := fst (VectorWorker.processRow u s total row f32 (w, c)) in
  VectorWorker.getCompletedChunks u w' = (w', Thrown "TypeError").
Proof.
  intros Hin Hu Hnull Hrej. cbn zeta.
  rewrite (processRow_rejected u s total row f32 w c Hrej). cbn [fst].
  unfold VectorWorker.getCompletedChunks.
  cbn [VectorWorker.postMessage VectorWorker.training_chunks
       VectorWorker.markCompleted VectorWorker.withTable].
  rewrite postDebug_training_chunks.
  set (f := fun r : VectorWorker.ChunkRow =>
              if (VectorWorker.id r =? VectorWorker.id row)
              then {| VectorWorker.id := VectorWorker.id r;
                      VectorWorker.userId := VectorWorker.userId r;
                      VectorWorker.sourceName := VectorWorker.sourceName r;
                      VectorWorker.chunkIndex := VectorWorker.chunkIndex r;
                      VectorWorker.text := VectorWorker.text r;
                      VectorWorker.embedding := VectorWorker.embedding r;
                      VectorWorker.status := "completed" |}
              else r).
  set (rows := List.filter _ (map f (VectorWorker.training_chunks w))).
  assert (Hex : existsb (fun x => match VectorWorker.embedding x with
                                  | None => true
                                  | Some _ => false
                                  end) rows = true).
  { apply existsb_exists. exists (f row).
    assert (Hf : f row = {| VectorWorker.id := VectorWorker.id row;
                            VectorWorker.userId := VectorWorker.userId row;
                            VectorWorker.sourceName := VectorWorker.sourceName row;
                            VectorWorker.chunkIndex := VectorWorker.chunkIndex row;
                            VectorWorker.text := VectorWorker.text row;
                            VectorWorker.embedding := VectorWorker.embedding row;
                            VectorWorker.status := "completed" |})
      by (unfold f; now rewrite Z.eqb_refl).
    split.
    - subst rows. apply List.filter_In. split; [now apply in_map|].
      rewrite Hf. cbn [VectorWorker.userId VectorWorker.status].
      rewrite Hu, String.eqb_refl. reflexivity.
    - rewrite Hf. cbn [VectorWorker.embedding]. now rewrite Hnull. }
  now rewrite Hex.
Qed.

Lemma rejected_embedding_breaks_export_witness :
  In Samples.pendingRow (VectorWorker.training_chunks Samples.pendingWorker) /\
  VectorWorker.toVecBlobFromEmbedding
    (VectorWorker.Float32Array Scenarios.shortVector) = None /\
  VectorWorker.getCompletedChunks "u"
    (fst (VectorWorker.processRow "u" "doc" 1 Samples.pendingRow
            (Some Scenarios.shortVector) (Samples.pendingWorker, 0)))
  = (fst (VectorWorker.processRow "u" "doc" 1 Samples.pendingRow
            (Some Scenarios.shortVector) (Samples.pendingWorker, 0)),
     Thrown "TypeError").
Proof.
  assert (H1 : In Samples.pendingRow
                 (VectorWorker.training_chunks Samples.pendingWorker))
    by (left; reflexivity).
  assert (H2 : VectorWorker.toVecBlobFromEmbedding
                 (VectorWorker.Float32Array Scenarios.shortVector) = None)
    by reflexivity.
  split; [exact H1|]. split; [exact H2|].
  exact (rejected_embedding_breaks_export "u" "doc" 1 Samples.pendingRow
           (Some Scenarios.shortVector) Samples.pendingWorker 0
           H1 eq_refl eq_refl H2).
Defined.

(** X12.  The mirror round trip of one row.  When an ingestion accepts
    the embedding of a row, the record it puts into the mirror is one that
    rehydration accepts: rehydrating it into any worker stores the row
    again with the same id, owner, source, chunk index, text and embedding
    and the status 'completed', and, when the index stays available, puts
    the embedding into the vec0 index under the row's id.  For a row of the
    ingested source that is the row the ingestion itself left in the
    table. *)
Theorem mirror_round_trip u s total row elems b w c l :
  VectorWorker.toVecBlobFromEmbedding (VectorWorker.Float32Array elems) = Some b ->
  VectorWorker.idb w = Some l ->
  let w' := fst (VectorWorker.processRow u s total row (Some elems) (w, c)) in
  let record :=
    {| VectorWorker.idb_key := VectorWorker.mirrorKey u s (VectorWorker.chunkIndex row);
       VectorWorker.idb_id := VectorWorker.id row;
       VectorWorker.idb_userId := u; VectorWorker.idb_sourceName := s;
       VectorWorker.idb_chunkIndex := VectorWorker.chunkIndex row;
       VectorWorker.idb_text := VectorWorker.text row;
       VectorWorker.idb_embedding := VectorWorker.Uint8Array b;
       VectorWorker.idb_status := "completed" |} in
  let restored :=
    {| VectorWorker.id := VectorWorker.id row; VectorWorker.userId := u;
       VectorWorker.sourceName := s;
       VectorWorker.chunkIndex := VectorWorker.chunkIndex row;
       VectorWorker.text := VectorWorker.text row;
       VectorWorker.embedding := Some b; VectorWorker.status := "completed" |} in
  (exists l', VectorWorker.idb w' = Some l' /\ In record l') /\
  (In row (VectorWorker.training_chunks w) ->
   VectorWorker.userId row = u -> VectorWorker.sourceName row = s ->
   In restored (VectorWorker.training_chunks w')) /\
  (forall w0 counters,
     let w1 := fst (VectorWorker.rehydrateRow record (w0, counters)) in
     In restored (VectorWorker.training_chunks w1) /\
     (VectorWorker.vec0Available w1 = true ->
      exists m, VectorWorker.vectors w1 = Some m /\
                m !! VectorWorker.id row = Some b)).
Proof.
  intros Hb Hidb. cbn zeta.
  rewrite (processRow_accepted u s total row elems b w c Hb). cbn [fst].
  destruct (toVecBlob_exact _ _ Hb) as [Hlen _].
  pose proof (vec0Upsert_cases (VectorWorker.id row) b
                (VectorWorker.storeEmbedding (VectorWorker.id row) b w))
    as (Htab & _ & Hidb' & _).
  cbn zeta in Htab, Hidb'.
  split; [|split].
  - unfold VectorWorker.idbPutChunk.
    cbn [VectorWorker.postMessage VectorWorker.idb]. rewrite Hidb'.
    cbn [VectorWorker.storeEmbedding VectorWorker.withTable VectorWorker.idb].
    rewrite Hidb. cbn [VectorWorker.withIdb VectorWorker.idb].
    eexists. split; [reflexivity|apply idbPut_has].
  - intros Hin Hu Hs.
    cbn [VectorWorker.postMessage VectorWorker.training_chunks].
    rewrite (proj1 (idbPutChunk_frame _ _)), Htab.
    cbn [VectorWorker.storeEmbedding VectorWorker.withTable
         VectorWorker.training_chunks].
    apply in_map_iff. exists row. split; [|exact Hin].
    rewrite Z.eqb_refl, Hu, Hs. reflexivity.
  - intros w0 [[restored0 scanned0] skipped0]. cbn zeta.
    assert (Hacc : VectorWorker.toVecBlobFromEmbedding (VectorWorker.Uint8Array b)
                   = Some b).
    { cbn [VectorWorker.toVecBlobFromEmbedding]. rewrite Hlen.
      now rewrite Z.eqb_refl. }
    match goal with
    | |- context [VectorWorker.rehydrateRow ?r _] =>
        rewrite (rehydrateRow_restored r b w0 restored0 scanned0 skipped0 Hacc)
    end.
    cbn [fst VectorWorker.idb_id VectorWorker.idb_userId
         VectorWorker.idb_sourceName VectorWorker.idb_chunkIndex
         VectorWorker.idb_text VectorWorker.idb_status].
    split.
    + rewrite (proj1 (vec0Upsert_cases _ _ _)).
      unfold VectorWorker.insertOrReplace.
      cbn [VectorWorker.withTable VectorWorker.training_chunks].
      apply in_or_app. right. now left.
    + apply vec0Upsert_stored.
Qed.

Lemma mirror_round_trip_witness :
  VectorWorker.toVecBlobFromEmbedding
    (VectorWorker.Float32Array Scenarios.zeroVector)
  = Some (VectorWorker.f32_bytes Scenarios.zeroVector) /\
  VectorWorker.idb Samples.pendingWorker = Some [] /\
  In {| VectorWorker.id := VectorWorker.id Samples.pendingRow;
        VectorWorker.userId := "u"; VectorWorker.sourceName := "doc";
        VectorWorker.chunkIndex := VectorWorker.chunkIndex Samples.pendingRow;
        VectorWorker.text := VectorWorker.text Samples.pendingRow;
        VectorWorker.embedding := Some (VectorWorker.f32_bytes Scenarios.zeroVector);
        VectorWorker.status := "completed" |}
     (VectorWorker.training_chunks
        (fst (VectorWorker.processRow "u" "doc" 1 Samples.pendingRow
                (Some Scenarios.zeroVector) (Samples.pendingWorker, 0)))).
Proof.
  assert (H1 : VectorWorker.toVecBlobFromEmbedding
                 (VectorWorker.Float32Array Scenarios.zeroVector)
               = Some (VectorWorker.f32_bytes Scenarios.zeroVector))
    by (vm_compute; reflexivity).
  assert (H2 : VectorWorker.idb Samples.pendingWorker = Some []) by reflexivity.
  split; [exact H1|]. split; [exact H2|].
  exact (proj1 (proj2 (mirror_round_trip "u" "doc" 1 Samples.pendingRow
                         Scenarios.zeroVector
                         (VectorWorker.f32_bytes Scenarios.zeroVector)
                         Samples.pendingWorker 0 [] H1 H2))
           (or_introl eq_refl) eq_refl eq_refl).
Defined.

(** ** The session orchestrator: a failed generation *)

(** X13.  When the generation call of [sendMessage] throws, in either
    mode, [sendMessage] throws the same exception and nothing is undone:
    the window is the one left by the user turn, which it still holds, no
    assistant turn is stored or announced, and the partial texts of a
    stream that broke have been handed to [onStream]. *)
Theorem generation_failure_keeps_user_turn
    (c : ChatSession.Collaborators) (s : ChatSession.Session)
    (e1 e2 : MemoryStore.Env) (userContent : string) (onStream : bool)
    (w w1 : ChatSession.World) (m : MemoryStore.ConversationMessage)
    (err : string) :
  ChatSession.persistTurn c e1 MemoryStore.user userContent
    (ChatSession.session s) w = (w1, Returned m) ->
  snd (ChatSession.generate c onStream
         (ChatSession.recentChatMessages (ChatSession.session s)
            (ChatSession.mem w1))
         (ChatSession.retrieveContext c s userContent) w1) = Thrown err ->
  let result := ChatSession.sendMessage c s e1 e2 userContent onStream w in
  snd result = Thrown err /\
  ChatSession.mem (fst result) = ChatSession.mem w1 /\
  In m (MemoryStore.messages (ChatSession.mem (fst result))) /\
  MemoryStore.role m = MemoryStore.user /\
  MemoryStore.content m = userContent /\
  MemoryStore.sessionId m = ChatSession.session s /\
  ChatSession.messageAdded (fst result) = ChatSession.messageAdded w1 /\
  ChatSession.archived (fst result) = ChatSession.archived w1 /\
  (onStream = true ->
   ChatSession.streamed (fst result)
   = ChatSession.streamed w1
     ++ ChatSession.partials ""
          (fst (ChatSession.streamResponse c
                  (ChatSession.recentChatMessages (ChatSession.session s)
                     (ChatSession.mem w1))
                  (ChatSession.retrieveContext c s userContent)))).
Proof.
  intros Huser Hgen result.
  pose proof (persistTurn_returned _ _ _ _ _ _ _ _ Huser) as [Hin Hm].
  assert (Hres : result
                 = ChatSession.generate c onStream
                     (ChatSession.recentChatMessages (ChatSession.session s)
                        (ChatSession.mem w1))
                     (ChatSession.retrieveContext c s userContent) w1).
  { subst result. unfold ChatSession.sendMessage, ChatSession.replyPhase.
    rewrite Huser.
    destruct (ChatSession.generate c onStream _ _ w1) as [w2 [reply|e]];
      [discriminate Hgen|reflexivity]. }
  rewrite Hres. clear Hres result.
  split; [exact Hgen|].
  unfold ChatSession.generate in *.
  destruct onStream.
  - destruct (ChatSession.streamResponse c _ _) as [chunks failure];
      cbn [fst snd ChatSession.mem ChatSession.messageAdded
           ChatSession.archived ChatSession.streamed].
    subst m. cbn. repeat split; try reflexivity. exact Hin.
  - cbn [fst snd ChatSession.mem ChatSession.messageAdded
         ChatSession.archived ChatSession.streamed].
    subst m. cbn. repeat split; try reflexivity; [exact Hin|discriminate].
Qed.

Lemma generation_failure_keeps_user_turn_witness :
  snd (ChatSession.sendMessage Samples.failingGeneration
         (ChatSession.newSession None None) Scenarios.env1 Scenarios.env2
         "Witam" false (ChatSession.newWorld MemoryStore.emptyDB))
  = Thrown Samples.generationError.
Proof.
  refine (proj1 (generation_failure_keeps_user_turn Samples.failingGeneration
                   (ChatSession.newSession None None) Scenarios.env1
                   Scenarios.env2 "Witam" false
                   (ChatSession.newWorld MemoryStore.emptyDB)
                   (fst (ChatSession.persistTurn Samples.failingGeneration
                           Scenarios.env1 MemoryStore.user "Witam" "default"
                           (ChatSession.newWorld MemoryStore.emptyDB)))
                   {| MemoryStore.id := "id-1";
                      MemoryStore.role := MemoryStore.user;
                      MemoryStore.content := "Witam";
                      MemoryStore.createdAt := "2026-01-31T10:00:00.000Z";
                      MemoryStore.tokenCount := 6;
                      MemoryStore.sessionId := "default" |}
                   Samples.generationError _ _));
    vm_compute; reflexivity.
Defined.

(** ** Strings: concatenation *)
Section AppendFacts.
Import JsString.

Lemma append_nil_l t : "" +:+ t = t.
Proof. reflexivity. Qed.

Lemma append_cons c s t : String c s +:+ t = String c (s +:+ t).
Proof. reflexivity. Qed.

Lemma append_nil_r s : s +:+ "" = s.
Proof.
  induction s as [|c r IH]; [reflexivity|]. now rewrite append_cons, IH.
Qed.

Lemma append_assoc a b c : (a +:+ b) +:+ c = a +:+ (b +:+ c).
Proof.
  induction a as [|x r IH]; [reflexivity|]. now rewrite !append_cons, IH.
Qed.

Lemma strlen_append a b : strlen (a +:+ b) = strlen a + strlen b.
Proof.
  unfold strlen. induction a as [|x r IH]; [reflexivity|].
  rewrite append_cons. cbn [String.length]. lia.
Qed.

Lemma trimEnd_append_ws s c :
  isWhiteSpace c = true -> trimEnd (s +:+ String c "") = trimEnd s.
Proof.
  intros Hc. induction s as [|x r IH].
  - rewrite append_nil_l. cbn [trimEnd]. now rewrite Hc.
  - rewrite append_cons. cbn [trimEnd]. now rewrite IH.
Qed.

Lemma trim_append_ws s c :
  isWhiteSpace c = true -> trim (s +:+ String c "") = trim s.
Proof.
  intros Hc. unfold trim.
  rewrite <- !trimStart_trimEnd. now rewrite trimEnd_append_ws.
Qed.

Lemma trimStart_append_nonempty a b :
  trimStart (a +:+ b) = "" -> trimStart b = "".
Proof.
  induction a as [|x r IH]; [now rewrite append_nil_l|].
  rewrite append_cons. cbn [trimStart].
  destruct (isWhiteSpace x); [exact IH|discriminate].
Qed.

End AppendFacts.

(** ** The bridge to the archive: the context handed to the model *)
Section ContextFacts.
Import JsString TokenUtils VectorStore.
Context {Score : Type} (aboveThreshold : Score -> bool).

Lemma separator_split :
  separator = String LF (String LF "---") +:+ String LF "" +:+ String LF "".
Proof. reflexivity. Qed.

Lemma trim_separator q :
  trim (q +:+ separator) <> "" /\ strlen (trim (q +:+ separator)) <= strlen q + 5.
Proof.
  rewrite separator_split, <- !append_assoc.
  rewrite !trim_append_ws by reflexivity.
  split.
  - intros H. apply trim_blank in H.
    apply trimStart_append_nonempty in H. discriminate H.
  - pose proof (strlen_trim (q +:+ String LF (String LF "---"))) as Hle.
    rewrite strlen_append in Hle. unfold strlen at 3 in Hle. simpl in Hle. lia.
Qed.

Lemma appendWhileFits_spec maxTokens (relevant : list (SearchResult Score)) :
  forall context,
    exists included skipped,
      relevant = included ++ skipped /\
      appendWhileFits maxTokens relevant context = context +:+ joined included /\
      match skipped with
      | [] => True
      | r :: _ =>
          7 * maxTokens
          < 2 * (strlen (context +:+ joined included) + strlen (text r))
      end /\
      (included <> [] ->
       exists q, context +:+ joined included = q +:+ separator /\
                 2 * strlen q <= 7 * maxTokens).
Proof.
  induction relevant as [|r rest IH]; intros context.
  - exists [], []. cbn [appendWhileFits joined]. rewrite append_nil_r.
    repeat split; try reflexivity. now intros [].
  - cbn [appendWhileFits].
    destruct (7 * maxTokens <? 2 * (strlen context + strlen (text r))) eqn:Hfit.
    + exists [], (r :: rest). cbn [joined]. rewrite append_nil_r.
      repeat split; try reflexivity; [lia|now intros []].
    + destruct (IH (context +:+ text r +:+ separator))
        as (included & skipped & -> & Hres & Hnext & Hq).
      exists (r :: included), skipped. cbn [joined].
      assert (Hassoc : (context +:+ text r +:+ separator) +:+ joined included
                       = context +:+ text r +:+ separator +:+ joined included).
      { now rewrite !append_assoc. }
      rewrite Hassoc in *.
      split; [reflexivity|]. split; [exact Hres|]. split; [exact Hnext|].
      intros _. destruct included as [|r' included'].
      * exists (context +:+ text r). cbn [joined]. rewrite append_nil_r.
        rewrite append_assoc. split; [reflexivity|].
        rewrite strlen_append. lia.
      * now apply Hq.
Qed.

End ContextFacts.

(** X14.  [getRelevantContext] joins a prefix of the results that pass
    the score test: it takes them in order until one does not fit into
    [maxTokens * 3.5] characters and stops there, also when later ones
    would fit.  Without such a prefix it returns [undefined]; otherwise
    the context is not empty, has no whitespace at its ends and is at most
    five characters longer than [maxTokens * 3.5]. *)
Theorem relevant_context_prefix {Score : Type} (aboveThreshold : Score -> bool)
    (results : list (VectorStore.SearchResult Score)) (maxTokens : Z) :
  exists included skipped,
    List.filter (fun r => aboveThreshold (VectorStore.score r)) results
    = included ++ skipped /\
    match skipped with
    | [] => True
    | r :: _ =>
        7 * maxTokens
        < 2 * (JsString.strlen (VectorStore.joined included)
               + JsString.strlen (VectorStore.text r))
    end /\
    (included = [] ->
     VectorStore.getRelevantContext aboveThreshold (Returned results)
       (Some maxTokens) = Returned None) /\
    (included <> [] ->
     exists context,
       VectorStore.getRelevantContext aboveThreshold (Returned results)
         (Some maxTokens) = Returned (Some context) /\
       context = JsString.trim (VectorStore.joined included) /\
       context <> "" /\
       JsString.trim context = context /\
       2 * JsString.strlen context <= 7 * maxTokens + 10).
Proof.
  destruct (appendWhileFits_spec maxTokens
              (List.filter (fun r => aboveThreshold (VectorStore.score r)) results)
              "")
    as (included & skipped & Hsplit & Hres & Hnext & Hq).
  rewrite append_nil_l in *.
  exists included, skipped. split; [exact Hsplit|]. split; [exact Hnext|].
  unfold VectorStore.getRelevantContext.
  destruct results as [|r0 results0].
  { cbn [List.filter] in Hsplit. symmetry in Hsplit.
    apply app_eq_nil in Hsplit as [-> ->]. split; [reflexivity|]. now intros []. }
  remember (r0 :: results0) as results eqn:Hresults.
  destruct (List.filter _ results) as [|r relevant] eqn:Hfilter.
  { symmetry in Hsplit. apply app_eq_nil in Hsplit as [-> ->].
    split; [reflexivity|]. now intros []. }
  rewrite Hres. split.
  - intros ->. reflexivity.
  - intros Hne. destruct (Hq Hne) as (q & Heq & Hlen).
    pose proof (trim_separator q) as [Hnonempty Hbound].
    rewrite <- Heq in Hnonempty, Hbound.
    exists (JsString.trim (VectorStore.joined included)).
    destruct (String.eqb_spec (JsString.trim (VectorStore.joined included)) "")
      as [Hempty|_]; [contradiction|].
    repeat split; try assumption; [apply trim_idem|lia].
Qed.

(** ** The bridge to the archive: calls in flight *)
Section BridgeFacts.
Import VectorStore.
Context {Payload Data : Type}.

Lemma route_miss (m : WorkerMessage Data) pending :
  Forall (fun callback => answers m callback = false) pending ->
  route m pending = (None, pending).
Proof.
  induction 1 as [|callback rest Hcb _ IH]; [reflexivity|].
  cbn [route]. now rewrite Hcb, IH.
Qed.

Lemma route_hit (m : WorkerMessage Data) before callback after :
  Forall (fun cb => answers m cb = false) before ->
  answers m callback = true ->
  route m (before ++ callback :: after) = (Some callback, before ++ after).
Proof.
  induction 1 as [|cb rest Hcb _ IH]; intros Hhit; cbn [route app].
  - now rewrite Hhit.
  - now rewrite Hcb, IH.
Qed.

Lemma route_perm (m : WorkerMessage Data) pending :
  match route m pending with
  | (None, rest) => rest = pending
  | (Some callback, rest) => Permutation pending (callback :: rest)
  end.
Proof.
  induction pending as [|cb rest IH]; [reflexivity|]. cbn [route].
  destruct (answers m cb); [reflexivity|].
  destruct (route m rest) as [[hit|] rest'].
  - rewrite IH. apply perm_swap.
  - now rewrite IH.
Qed.

Lemma filter_other_ids id (pending : list (Z * string)) :
  NoDup (map fst pending) ->
  existsb (fun callback => fst callback =? id) pending = true ->
  Permutation (map fst pending)
    (id :: map fst (List.filter (fun callback => negb (fst callback =? id))
                      pending)).
Proof.
  induction pending as [|[k ty] rest IH]; intros Hnd Hex; [discriminate|].
  cbn [map fst] in Hnd. apply NoDup_cons in Hnd as [Hnotin Hnd].
  cbn [existsb List.filter map fst] in *.
  destruct (Z.eqb_spec k id) as [->|Hne]; cbn [negb orb] in *.
  - assert (Hsame : List.filter (fun callback => negb (fst callback =? id)) rest
                    = rest).
    { clear -Hnotin. induction rest as [|[k ty] rest IH]; [reflexivity|].
      cbn [List.filter fst map] in *.
      destruct (Z.eqb_spec k id) as [->|_]; cbn [negb].
      - exfalso. apply Hnotin. now left.
      - f_equal. apply IH. intros Hin. apply Hnotin. now right. }
    now rewrite Hsame.
  - cbn [map fst]. rewrite (IH Hnd Hex) at 1. apply perm_swap.
Qed.

Lemma NoDup_map_of_nat (l : list nat) : NoDup l -> NoDup (map Z.of_nat l).
Proof.
  induction 1 as [|x l Hx _ IH]; cbn [map]; constructor; [|exact IH].
  rewrite list_elem_of_In, in_map_iff. intros (k & Hk & Hin).
  apply Nat2Z.inj in Hk. subst k. apply Hx. now apply list_elem_of_In.
Qed.

Lemma step_callIds (s : Bridge Payload Data) ev :
  0 <= callId s ->
  Permutation (callIds s) (map Z.of_nat (seq 1 (Z.to_nat (callId s)))) ->
  Z.of_nat (length (posted s)) = callId s ->
  0 <= callId (step s ev) /\
  Permutation (callIds (step s ev))
    (map Z.of_nat (seq 1 (Z.to_nat (callId (step s ev))))) /\
  Z.of_nat (length (posted (step s ev))) = callId (step s ev).
Proof.
  intros Hpos Hperm Hposted. destruct ev as [type payload|m|id]; cbn [step].
  - unfold workerCall, callIds in *.
    cbn [callId pendingCallbacks settled posted].
    split; [lia|]. split.
    + replace (Z.to_nat (callId s + 1)) with (S (Z.to_nat (callId s))) by lia.
      rewrite seq_S, !map_app. cbn [map fst].
      replace (Z.of_nat (1 + Z.to_nat (callId s))) with (callId s + 1) by lia.
      rewrite <- Hperm, <- !app_assoc.
      apply Permutation_app_head. apply Permutation_app_comm.
    + rewrite length_app. cbn [length]. lia.
  - unfold onmessage, callIds in *.
    pose proof (route_perm m (pendingCallbacks s)) as Hroute.
    destruct (route m (pendingCallbacks s)) as [[[id ty]|] rest];
      cbn [callId pendingCallbacks settled posted].
    + split; [exact Hpos|]. split; [|exact Hposted].
      rewrite <- Hperm, Hroute, map_app. cbn [map fst app].
      rewrite app_assoc. symmetry. apply Permutation_cons_append.
    + now repeat split.
  - unfold timeout, callIds in *.
    destruct (existsb _ (pendingCallbacks s)) eqn:Hex; [|now repeat split].
    cbn [callId pendingCallbacks settled posted].
    split; [exact Hpos|]. split; [|exact Hposted].
    assert (Hnd : NoDup (map fst (pendingCallbacks s))).
    { assert (Hall : NoDup (map fst (pendingCallbacks s) ++ map fst (settled s))).
      { rewrite Hperm. apply NoDup_map_of_nat, NoDup_seq. }
      now apply NoDup_app in Hall as [Hall _]. }
    rewrite <- Hperm, (filter_other_ids id _ Hnd Hex), map_app. cbn [map fst app].
    rewrite app_assoc. symmetry. apply Permutation_cons_append.
Qed.

Lemma run_callIds (events : list (Event Payload Data)) :
  0 <= callId (run events) /\
  Permutation (callIds (run events))
    (map Z.of_nat (seq 1 (Z.to_nat (callId (run events))))) /\
  Z.of_nat (length (posted (run events))) = callId (run events).
Proof.
  unfold run. induction events as [|ev events IH] using rev_ind.
  - cbn. repeat split; [lia|reflexivity].
  - rewrite fold_left_app. cbn [fold_left].
    destruct IH as (H1 & H2 & H3). now apply step_callIds.
Qed.

End BridgeFacts.

(** X15.  What one message of the worker does to the calls in flight.
    It settles at most one of them: the oldest one that it answers, that
    is, whose expected response type is the type of the message, or any
    call at all when the type of the message is "error" or ends in
    "Error".  So an error message rejects the oldest call in flight,
    whatever request it was for. *)
Theorem message_settles_oldest_answered_call {Payload Data : Type}
    (m : VectorStore.WorkerMessage Data) (s : VectorStore.Bridge Payload Data) :
  (Forall (fun callback => VectorStore.answers m callback = false)
     (VectorStore.pendingCallbacks s) ->
   VectorStore.pendingCallbacks (VectorStore.onmessage m s)
   = VectorStore.pendingCallbacks s /\
   VectorStore.settled (VectorStore.onmessage m s) = VectorStore.settled s) /\
  (forall before id type after,
     VectorStore.pendingCallbacks s = before ++ (id, type) :: after ->
     Forall (fun callback => VectorStore.answers m callback = false) before ->
     VectorStore.answers m (id, type) = true ->
     VectorStore.pendingCallbacks (VectorStore.onmessage m s) = before ++ after /\
     VectorStore.settled (VectorStore.onmessage m s)
     = VectorStore.settled s ++
       [(id, if VectorStore.isErrorType (VectorStore.msg_type m)
             then VectorStore.Rejected (VectorStore.errorText m)
             else VectorStore.Resolved (VectorStore.msg_data m))]) /\
  (VectorStore.isErrorType (VectorStore.msg_type m) = true ->
   forall id type rest,
     VectorStore.pendingCallbacks s = (id, type) :: rest ->
     VectorStore.pendingCallbacks (VectorStore.onmessage m s) = rest /\
     VectorStore.settled (VectorStore.onmessage m s)
     = VectorStore.settled s ++
       [(id, VectorStore.Rejected (VectorStore.errorText m))]).
Proof.
  split; [|split].
  - intros Hmiss. unfold VectorStore.onmessage.
    rewrite (route_miss m _ Hmiss). now split.
  - intros before id type after Hpending Hmiss Hhit.
    unfold VectorStore.onmessage.
    rewrite Hpending, (route_hit m before (id, type) after Hmiss Hhit).
    now split.
  - intros Herr id type rest Hpending. unfold VectorStore.onmessage.
    assert (Hhit : VectorStore.answers m (id, type) = true).
    { unfold VectorStore.answers. now rewrite Herr, orb_true_r. }
    pose proof (route_hit m [] (id, type) rest (List.Forall_nil _) Hhit) as Hroute.
    cbn [app] in Hroute. rewrite Hpending, Hroute, Herr.
    now split.
Qed.

(** X16.  Calls are neither lost nor settled twice.  After any sequence
    of calls, worker messages and timer callbacks, the keys 1 to [callId]
    are each either in flight or settled, exactly once in all, and one
    request has been posted per call. *)
Theorem calls_settled_at_most_once {Payload Data : Type}
    (events : list (VectorStore.Event Payload Data)) :
  NoDup (map fst (VectorStore.pendingCallbacks (VectorStore.run events))
         ++ map fst (VectorStore.settled (VectorStore.run events))) /\
  (forall id,
     In id (map fst (VectorStore.pendingCallbacks (VectorStore.run events))
            ++ map fst (VectorStore.settled (VectorStore.run events)))
     <-> 1 <= id <= VectorStore.callId (VectorStore.run events)) /\
  Z.of_nat (length (VectorStore.posted (VectorStore.run events)))
  = VectorStore.callId (VectorStore.run events).
Proof.
  destruct (run_callIds events) as (Hpos & Hperm & Hposted).
  unfold VectorStore.callIds in Hperm. split; [|split; [|exact Hposted]].
  - rewrite Hperm. apply NoDup_map_of_nat, NoDup_seq.
  - intros id. rewrite Hperm, in_map_iff. split.
    + intros (k & <- & Hk). apply in_seq in Hk. lia.
    + intros Hid. exists (Z.to_nat id). split; [lia|]. apply in_seq. lia.
Qed.

(** ** The bridge to the archive: the request of [archiveMessages] *)
Section ArchiveRequestFacts.
Import JsString TokenUtils ArchiveChunks VectorStore.

Lemma archive_loop_grows text maxTokens :
  forall fuel start4 chunks out,
    chunkLoop fuel text maxTokens start4 chunks = Some out ->
    exists more, out = chunks ++ more.
Proof.
  induction fuel as [|fuel IH]; intros start4 chunks out; [discriminate|].
  cbn [chunkLoop].
  destruct (start4 <? 4 * strlen text).
  - destruct (4 * strlen text <=? _).
    + intros [= <-]. eauto.
    + intros Hout. apply IH in Hout as (more & ->).
      rewrite <- app_assoc. eauto.
  - intros [= <-]. exists []. now rewrite app_nil_r.
Qed.

Lemma trimEnd_head c r :
  isWhiteSpace c = false -> exists r', trimEnd (String c r) = String c r'.
Proof.
  intros Hc. cbn [trimEnd]. destruct (trimEnd r); rewrite ?Hc; eauto.
Qed.

Lemma trim_slice_head c r e :
  isWhiteSpace c = false -> 1 <= e ->
  trim (slice (String c r) 0 e) <> "".
Proof.
  intros Hc He. unfold slice, sliceIndex.
  destruct (Z.ltb_spec 0 0); [lia|]. destruct (Z.ltb_spec e 0); [lia|].
  assert (Hlen : 1 <= strlen (String c r)).
  { unfold strlen. cbn [String.length]. lia. }
  rewrite (Z.min_l 0) by lia. change (Z.to_nat 0) with 0%nat.
  destruct (Z.to_nat (Z.min e (strlen (String c r)) - 0)) as [|n] eqn:Hn; [lia|].
  cbn [String.substring]. unfold trim. cbn [trimStart]. rewrite Hc.
  destruct (trimEnd_head c (String.substring 0 n r) Hc) as (r' & ->).
  discriminate.
Qed.

Lemma combinedText_head m messages :
  exists r, combinedText (m :: messages) = String "["%char r.
Proof.
  unfold combinedText. cbn [map String.concat].
  destruct (map _ messages); rewrite !append_cons; eauto.
Qed.

Lemma formatChunks_texts clock textChunks :
  forall index,
    map chunk_text (formatChunks clock index textChunks) = textChunks /\
    map chunk_chunkIndex (formatChunks clock index textChunks)
    = map (fun k => index + Z.of_nat k) (seq 0 (length textChunks)) /\
    Forall (fun c => chunk_source c = "conversation")
      (formatChunks clock index textChunks).
Proof.
  induction textChunks as [|t rest IH]; intros index; cbn [formatChunks map].
  - repeat split. constructor.
  - destruct (IH (index + 1)) as (Ht & Hi & Hs).
    cbn [chunk_text chunk_chunkIndex length seq map].
    rewrite Ht, Hi. repeat split.
    + f_equal; [f_equal; lia|]. rewrite <- seq_shift, map_map.
      apply map_ext. intros k. lia.
    + constructor; [reflexivity|exact Hs].
Qed.

End ArchiveRequestFacts.

(** X17.  [archiveMessages] sends nothing for an empty batch.  For any
    other batch the splitter returns, and one request "storeChunks" is
    made: its chunks are numbered from 0 in order, none of them is empty
    or longer than 1751 characters, and a combined text of at most 1750
    characters is sent whole as the only chunk. *)
Theorem archive_request_shape (clock : Z -> Z * string)
    (messages : list MemoryStore.ConversationMessage) :
  VectorStore.archiveMessages 0 clock [] = Some None /\
  (messages <> [] ->
   exists chunks,
     VectorStore.archiveMessages
       (S (String.length (VectorStore.combinedText messages))) clock messages
     = Some (Some chunks) /\
     chunks <> [] /\
     map VectorStore.chunk_chunkIndex chunks
     = map Z.of_nat (seq 0 (length chunks)) /\
     Forall (fun c => VectorStore.chunk_source c = "conversation" /\
                      VectorStore.chunk_text c <> "" /\
                      JsString.strlen (VectorStore.chunk_text c) <= 1751) chunks /\
     (JsString.strlen (VectorStore.combinedText messages) <= 1750 ->
      map VectorStore.chunk_text chunks = [VectorStore.combinedText messages])).
Proof.
  split; [reflexivity|]. intros Hne.
  destruct messages as [|m messages]; [contradiction|]. clear Hne.
  destruct (combinedText_head m messages) as (r & Hhead).
  unfold VectorStore.archiveMessages.
  set (text := VectorStore.combinedText (m :: messages)) in *.
  assert (Hshape : exists textChunks,
            ArchiveChunks.chunkText (S (String.length text)) text
              TokenUtils.ARCHIVE_CHUNK_SIZE = Some textChunks /\
            textChunks <> [] /\
            Forall (fun c => c <> "" /\ JsString.strlen c <= 1751) textChunks /\
            (JsString.strlen text <= 1750 -> textChunks = [text])).
  { unfold ArchiveChunks.chunkText, ArchiveChunks.maxChars4,
      TokenUtils.ARCHIVE_CHUNK_SIZE.
    destruct (Z.leb_spec (4 * JsString.strlen text) (14 * 500)) as [Hshort|Hlong].
    - exists [text]. split; [reflexivity|]. split; [discriminate|].
      split; [|reflexivity]. constructor; [|constructor].
      split; [rewrite Hhead; discriminate|lia].
    - destruct (archive_loop_shape text 500 ltac:(lia) (S (String.length text)) 0 []
                  ltac:(lia) ltac:(unfold JsString.strlen; lia) ltac:(constructor))
        as (out & Hout & Hall).
      rewrite Hout. eexists. split; [reflexivity|].
      pose proof (filter_nonempty_shape
                    (fun c => JsString.trim c = c /\
                              JsString.strlen c <= (14 * 500 + 3) / 4 + 1)
                    out Hall) as Hfiltered.
      split; [|split; [|lia]].
      + cbn [ArchiveChunks.chunkLoop] in Hout.
        destruct (Z.ltb_spec 0 (4 * JsString.strlen text)) as [_|Hz]; [|lia].
        set (first := JsString.trim
                        (JsString.slice text (Z.quot 0 4)
                           (Z.quot (ArchiveChunks.windowEnd4 text 500 0) 4))) in *.
        assert (Hfirst : first <> "").
        { subst first. rewrite Hhead. apply trim_slice_head; [reflexivity|].
          rewrite <- Hhead.
          destruct (windowEnd4_cases text 500 0)
            as [->|(bp & -> & _ & Hfar & _)].
          - vm_compute. discriminate.
          - replace (4 * (bp + 1)) with ((bp + 1) * 4) by lia.
            rewrite Z.quot_mul by lia. lia. }
        assert (Hin : exists more, out = first :: more).
        { destruct (4 * JsString.strlen text <=? _).
          - injection Hout as <-. now exists [].
          - apply archive_loop_grows in Hout as (more & ->). now exists more. }
        destruct Hin as (more & ->). cbn [List.filter].
        destruct (Z.ltb_spec 0 (JsString.strlen first)) as [_|Hzero];
          [discriminate|].
        exfalso. apply Hfirst, strlen_zero.
        pose proof (strlen_nonneg first). lia.
      + eapply Forall_impl; [exact Hfiltered|].
        intros c (Hc & _ & Hlen). split; [exact Hc|].
        change ((14 * 500 + 3) / 4 + 1) with 1751 in Hlen. exact Hlen. }
  destruct Hshape as (textChunks & -> & Hne & Hall & Hshort).
  destruct textChunks as [|t0 rest]; [contradiction|].
  destruct (formatChunks_texts clock (t0 :: rest) 0) as (Ht & Hi & Hs).
  exists (VectorStore.formatChunks clock 0 (t0 :: rest)).
  split; [reflexivity|]. split; [discriminate|]. split.
  - rewrite Hi. rewrite <- (length_map VectorStore.chunk_text), Ht.
    apply map_ext. intros k. lia.
  - split.
    + rewrite <- Ht in Hall. rewrite Forall_map in Hall.
      rewrite Forall_forall in *. intros c Hc. split; [now apply Hs|].
      now apply Hall.
    + intros Hlen. rewrite Ht. now apply Hshort.
Qed.

Lemma archive_request_shape_witness :
  exists chunks,
    VectorStore.archiveMessages
      (S (String.length (VectorStore.combinedText [Samples.evictedTurn])))
      (fun _ => (1769853600000, "2026-01-31T10:00:00.000Z"))
      [Samples.evictedTurn]
    = Some (Some chunks) /\
    map VectorStore.chunk_text chunks = ["[user] Witam"].
Proof.
  destruct (proj2 (archive_request_shape
                     (fun _ => (1769853600000, "2026-01-31T10:00:00.000Z"))
                     [Samples.evictedTurn]) ltac:(discriminate))
    as (chunks & H1 & _ & _ & _ & H5).
  exists chunks. split; [exact H1|]. apply H5. vm_compute. discriminate.
Defined.

(** ** The reader of the streamed reply *)
Section StreamReaderFacts.
Import JsString StreamReader.
Variable deltaOf : string -> option string.

Lemma split_LF_nonempty s : split_LF s <> [].
Proof.
  destruct s as [|c r]; cbn [split_LF]; [discriminate|].
  destruct (Ascii.eqb c LF); [discriminate|]. destruct (split_LF r); discriminate.
Qed.

(** Splitting a concatenation: the complete lines of the first part, then
    the split of its last piece followed by the second part. *)
Lemma split_LF_append a b :
  split_LF (a +:+ b)
  = removelast (split_LF a) ++ split_LF (List.last (split_LF a) "" +:+ b).
Proof.
  induction a as [|c r IH].
  - rewrite append_nil_l. reflexivity.
  - rewrite append_cons. cbn [split_LF].
    destruct (Ascii.eqb c LF) eqn:Hc.
    + rewrite IH.
      pose proof (split_LF_nonempty r) as Hne.
      destruct (split_LF r) as [|x l] eqn:Hr; [contradiction|].
      reflexivity.
    + rewrite IH.
      pose proof (split_LF_nonempty r) as Hne.
      destruct (split_LF r) as [|x l] eqn:Hr; [contradiction|].
      destruct l as [|y l'].
      * cbn [removelast List.last app]. rewrite append_cons. cbn [split_LF].
        rewrite Hc. reflexivity.
      * cbn [removelast List.last app].
        change (List.last (String c x :: y :: l') "") with (List.last (y :: l') "").
        change (removelast (String c x :: y :: l'))
          with (String c x :: removelast (y :: l')).
        reflexivity.
Qed.

Lemma processLines_app l1 l2 p :
  processLines deltaOf (l1 ++ l2) p
  = match processLines deltaOf l1 p with
    | (p', true) => (p', true)
    | (p', false) => processLines deltaOf l2 p'
    end.
Proof.
  revert p. induction l1 as [|line l1 IH]; intros p; [reflexivity|].
  cbn [app processLines].
  destruct (processLine deltaOf line p) as [p' [|]]; [reflexivity|apply IH].
Qed.

Lemma last_app_nonempty {A} (l1 l2 : list A) d :
  l2 <> [] -> List.last (l1 ++ l2) d = List.last l2 d.
Proof.
  intros Hne. induction l1 as [|x l1 IH]; [reflexivity|].
  cbn [app List.last]. destruct (l1 ++ l2) eqn:Heq; [|exact IH].
  apply app_eq_nil in Heq as [_ ->]. contradiction.
Qed.

Lemma readLoop_cons value rest ending buffer p :
  readLoop deltaOf (value :: rest) ending buffer p
  = match processLines deltaOf (removelast (split_LF (buffer +:+ value))) p with
    | (p', true) => (p', Returned (fullText p'))
    | (p', false) =>
        readLoop deltaOf rest ending (List.last (split_LF (buffer +:+ value)) "") p'
    end.
Proof. reflexivity. Qed.

(** Reading in pieces is reading the whole. *)
Lemma readLoop_concat reads ending :
  forall buffer p,
    readLoop deltaOf reads ending buffer p
    = match reads with
      | [] => readLoop deltaOf [] ending buffer p
      | _ :: _ => readLoop deltaOf [String.concat "" reads] ending buffer p
      end.
Proof.
  induction reads as [|value rest IH]; intros buffer p; [reflexivity|].
  destruct rest as [|value2 rest'].
  - reflexivity.
  - rewrite (readLoop_cons value (value2 :: rest')).
    rewrite (readLoop_cons (String.concat "" (value :: value2 :: rest')) []).
    change (String.concat "" (value :: value2 :: rest'))
      with (value +:+ "" +:+ String.concat "" (value2 :: rest')).
    set (whole := String.concat "" (value2 :: rest')).
    rewrite append_nil_l, <- append_assoc.
    rewrite (split_LF_append (buffer +:+ value) whole).
    pose proof (split_LF_nonempty (List.last (split_LF (buffer +:+ value)) "" +:+ whole))
      as Hne.
    rewrite (removelast_app _ Hne), processLines_app.
    destruct (processLines deltaOf (removelast (split_LF (buffer +:+ value))) p)
      as [p' [|]]; [reflexivity|].
    rewrite IH, last_app_nonempty by exact Hne.
    rewrite (readLoop_cons whole []). reflexivity.
Qed.

Lemma split_LF_no_newline tail : hasLF tail = false -> split_LF tail = [tail].
Proof.
  induction tail as [|c r IH]; [reflexivity|].
  cbn [split_LF hasLF]. destruct (Ascii.eqb c LF); [discriminate|].
  cbn [orb]. intros Hr. now rewrite (IH Hr).
Qed.

Lemma hasLF_last_split s : hasLF (List.last (split_LF s) "") = false.
Proof.
  induction s as [|c r IH]; [reflexivity|]. cbn [split_LF].
  pose proof (split_LF_nonempty r) as Hne.
  destruct (Ascii.eqb c LF) eqn:Hc.
  - destruct (split_LF r) as [|x l]; [contradiction|]. exact IH.
  - destruct (split_LF r) as [|x [|y l]]; [contradiction| |exact IH].
    cbn [List.last hasLF] in *. now rewrite Hc, IH.
Qed.

Lemma hasLF_append a b : hasLF (a +:+ b) = hasLF a || hasLF b.
Proof.
  induction a as [|c r IH]; [reflexivity|].
  rewrite append_cons. cbn [hasLF]. now rewrite IH, orb_assoc.
Qed.

Lemma concat_snoc reads tail :
  String.concat "" (reads ++ [tail]) = String.concat "" reads +:+ tail.
Proof.
  induction reads as [|x rest IH]; [reflexivity|].
  cbn [app]. destruct rest as [|y rest'].
  - cbn [app String.concat]. now rewrite append_nil_l.
  - change (String.concat "" (x :: (y :: rest') ++ [tail]))
      with (x +:+ "" +:+ String.concat "" ((y :: rest') ++ [tail])).
    change (String.concat "" (x :: y :: rest'))
      with (x +:+ "" +:+ String.concat "" (y :: rest')).
    now rewrite IH, !append_nil_l, append_assoc.
Qed.

End StreamReaderFacts.

(** X18.  The reader of the streamed reply does not depend on how the
    network cuts the stream: two sequences of reads with the same
    concatenated text give the same calls of [onStream] and the same
    result, whether the stream ends or a read fails. *)
Theorem stream_chunking_invariant (deltaOf : string -> option string)
    (reads1 reads2 : list string) (ending : option string) :
  String.concat "" reads1 = String.concat "" reads2 ->
  StreamReader.readStream deltaOf reads1 ending
  = StreamReader.readStream deltaOf reads2 ending.
Proof.
  intros Hsame. unfold StreamReader.readStream.
  assert (Hwhole : forall reads,
            StreamReader.readLoop deltaOf reads ending "" StreamReader.start
            = StreamReader.readLoop deltaOf [String.concat "" reads] ending ""
                StreamReader.start).
  { intros reads. rewrite readLoop_concat. destruct reads; reflexivity. }
  rewrite (Hwhole reads1), (Hwhole reads2), Hsame. reflexivity.
Qed.

(** X19.  What follows the last newline of the stream is never parsed: a
    final read without a newline, even a complete event, changes neither
    the calls of [onStream] nor the result. *)
Theorem unterminated_line_is_dropped (deltaOf : string -> option string)
    (reads : list string) (tail : string) (ending : option string) :
  StreamReader.hasLF tail = false ->
  StreamReader.readStream deltaOf (reads ++ [tail]) ending
  = StreamReader.readStream deltaOf reads ending.
Proof.
  intros Htail. unfold StreamReader.readStream.
  rewrite (readLoop_concat deltaOf (reads ++ [tail])).
  rewrite (readLoop_concat deltaOf reads).
  destruct reads as [|x rest].
  - cbn [app String.concat]. rewrite readLoop_cons, append_nil_l.
    rewrite (split_LF_no_newline tail Htail). reflexivity.
  - cbn [app].
    change (x :: rest ++ [tail]) with ((x :: rest) ++ [tail]).
    rewrite concat_snoc, !readLoop_cons, !append_nil_l.
    set (whole := String.concat "" (x :: rest)).
    rewrite (split_LF_append whole tail).
    rewrite (split_LF_no_newline (List.last (StreamReader.split_LF whole) "" +:+ tail))
      by (now rewrite hasLF_append, hasLF_last_split, Htail).
    rewrite removelast_last.
    destruct (StreamReader.processLines deltaOf
                (removelast (StreamReader.split_LF whole)) StreamReader.start)
      as [p' [|]]; reflexivity.
Qed.

Lemma unterminated_line_is_dropped_witness :
  StreamReader.readStream (fun data => Some data)
    ([Samples.firstEvent] ++ ["data: dobry."]) None
  = StreamReader.readStream (fun data => Some data) [Samples.firstEvent] None.
Proof.
  exact (unterminated_line_is_dropped (fun data => Some data)
           [Samples.firstEvent] "data: dobry." None eq_refl).
Defined.

Lemma stream_chunking_invariant_witness :
  StreamReader.readStream (fun data => Some data)
    ["data: Dzi"; "en" +:+ String JsString.LF "data: dobry." +:+ String JsString.LF ""]
    None
  = StreamReader.readStream (fun data => Some data)
      [Samples.firstEvent; "data: dobry." +:+ String JsString.LF ""] None.
Proof.
  exact (stream_chunking_invariant (fun data => Some data)
           ["data: Dzi";
            "en" +:+ String JsString.LF "data: dobry." +:+ String JsString.LF ""]
           [Samples.firstEvent; "data: dobry." +:+ String JsString.LF ""]
           None eq_refl).
Defined.

(** ** The writers to Firestore *)
Section FirestoreFacts.
Import Firestore.
Context {Vec : Type} (commitError : nat -> option string).

Lemma filter_other_refs ref (c : list (Z * Doc Vec)) :
  Forall (fun e => fst e <> ref) c ->
  List.filter (fun e => negb (fst e =? ref)) c = c.
Proof.
  induction 1 as [|e c He _ IH]; [reflexivity|]. cbn [List.filter].
  destruct (Z.eqb_spec (fst e) ref); [contradiction|]. cbn [negb]. now rewrite IH.
Qed.

Lemma apply_sets ds : forall ref (c : list (Z * Doc Vec)),
  Forall (fun e => fst e < ref) c ->
  fold_left applyWrite (setsFrom ref ds) c = c ++ entriesFrom ref ds.
Proof.
  induction ds as [|d rest IH]; intros ref c Hc; cbn [setsFrom entriesFrom fold_left].
  - now rewrite app_nil_r.
  - cbn [applyWrite]. rewrite filter_other_refs.
    + rewrite IH.
      * now rewrite <- app_assoc.
      * apply Forall_app. split.
        -- eapply Forall_impl; [exact Hc|]. cbn. intros e He. lia.
        -- constructor; [cbn; lia|constructor].
    + eapply Forall_impl; [exact Hc|]. cbn. intros e He. lia.
Qed.

Lemma entriesFrom_bound ds : forall ref,
  Forall (fun e : Z * Doc Vec => fst e < ref + Z.of_nat (length ds))
    (entriesFrom ref ds).
Proof.
  induction ds as [|d rest IH]; intros ref; cbn [entriesFrom length]; constructor.
  - cbn. lia.
  - eapply Forall_impl; [apply IH|]. cbn. intros e He. lia.
Qed.

Lemma entriesFrom_app ds1 ds2 ref :
  entriesFrom ref (ds1 ++ ds2)
  = entriesFrom ref ds1 ++ entriesFrom (ref + Z.of_nat (length ds1)) (ds2 : list (Doc Vec)).
Proof.
  revert ref. induction ds1 as [|d rest IH]; intros ref; cbn [app entriesFrom length].
  - replace (ref + Z.of_nat 0) with ref by lia. reflexivity.
  - rewrite IH.
    replace (ref + 1 + Z.of_nat (length rest))
      with (ref + Z.of_nat (S (length rest))) by lia.
    reflexivity.
Qed.

Lemma entriesFrom_docs ds ref :
  map snd (entriesFrom ref ds) = (ds : list (Doc Vec)).
Proof.
  revert ref. induction ds as [|d rest IH]; intros ref; cbn [entriesFrom map snd];
    [reflexivity|]. now rewrite IH.
Qed.

Lemma length_setsFrom ds ref :
  length (setsFrom ref ds) = length (ds : list (Doc Vec)).
Proof.
  revert ref. induction ds as [|d rest IH]; intros ref; cbn [setsFrom length];
    [reflexivity|]. now rewrite IH.
Qed.

Lemma apply_deletes (l : list (Z * Doc Vec)) : forall k,
  NoDup (map fst l) ->
  fold_left applyWrite (map DeleteDoc (map fst (firstn k l))) l = skipn k l.
Proof.
  induction l as [|e l IH]; intros k Hnd.
  - destruct k; reflexivity.
  - destruct k as [|k]; [reflexivity|].
    cbn [firstn map fold_left applyWrite List.filter skipn].
    rewrite Z.eqb_refl. cbn [negb].
    cbn [map] in Hnd. apply NoDup_cons in Hnd as [Hnotin Hnd].
    rewrite filter_other_refs.
    + now apply IH.
    + apply Forall_forall. intros x Hx Heq. apply Hnotin.
      apply list_elem_of_In, in_map_iff. exists x.
      split; [exact Heq|now apply list_elem_of_In].
Qed.

Lemma length_sliceList {A} (items : list A) i limit :
  0 <= i -> 0 < limit ->
  Z.of_nat (length (sliceList items i (i + limit)))
  = Z.min limit (Z.max 0 (Z.of_nat (length items) - i)).
Proof.
  intros Hi Hl. unfold sliceList. rewrite length_firstn, length_skipn. lia.
Qed.

Lemma sliceList_skipn {A} (items : list A) i limit :
  0 <= i -> 0 < limit ->
  sliceList items i (i + limit) ++ skipn (Z.to_nat (i + limit)) items
  = skipn (Z.to_nat i) items.
Proof.
  intros Hi Hl. unfold sliceList.
  replace (Z.to_nat (i + limit)) with (Z.to_nat (i + limit - i) + Z.to_nat i)%nat
    by lia.
  rewrite <- skipn_skipn. apply firstn_skipn.
Qed.

(** A loop whose batches create documents: [mk i slice] are the documents
    of the slice at [i]. *)
Lemma batchLoop_sets {A} (items : list A) limit
    (fill : Z -> list A -> Store Vec -> Store Vec * outcome (list (Write Vec)))
    (mk : Z -> list A -> list (Doc Vec)) onProgress :
  0 < limit ->
  (forall i st, 0 <= i -> i < Z.of_nat (length items) ->
     fill i (sliceList items i (i + limit)) st
     = (advance (Z.of_nat (length (sliceList items i (i + limit)))) st,
        Returned (setsFrom (nextRef st) (mk i (sliceList items i (i + limit)))))) ->
  (forall i, 0 <= i -> i < Z.of_nat (length items) ->
     length (mk i (sliceList items i (i + limit)))
     = length (sliceList items i (i + limit))) ->
  (forall i, 0 <= i -> i < Z.of_nat (length items) ->
     mk i (sliceList items i (i + limit))
     ++ mk (i + limit) (skipn (Z.to_nat (i + limit)) items)
     = mk i (skipn (Z.to_nat i) items)) ->
  (forall i, Z.of_nat (length items) <= i -> mk i (skipn (Z.to_nat i) items) = []) ->
  forall fuel i st,
    0 <= i ->
    (forall n, (attempts st <= n)%nat -> commitError n = None) ->
    Forall (fun e => fst e < nextRef st) (docs st) ->
    Z.max 0 (Z.of_nat (length items) - i) < Z.of_nat fuel ->
    exists st' batches,
      batchLoop commitError fuel limit items fill onProgress i st
      = Some (st', Returned tt) /\
      docs st' = docs st ++ entriesFrom (nextRef st) (mk i (skipn (Z.to_nat i) items)) /\
      Forall (fun e => fst e < nextRef st') (docs st') /\
      committed st' = committed st ++ batches /\
      Forall (fun b => Z.of_nat (length b) <= limit) batches /\
      attempts st' = (attempts st + length batches)%nat /\
      progress st'
      = progress st ++
        (if onProgress
         then progressFrom fuel limit (Z.of_nat (length items)) i else []).
Proof.
  intros Hlimit Hfill Hlen Hsplit Hend.
  induction fuel as [|fuel IH]; intros i st Hi Hok Hfresh Hfuel; [lia|].
  cbn [batchLoop progressFrom].
  destruct (Z.ltb_spec i (Z.of_nat (length items))) as [Hlt|Hge].
  - rewrite (Hfill i st Hi Hlt).
    set (slice_ := sliceList items i (i + limit)) in *.
    unfold commit. cbn [advance attempts docs nextRef committed progress].
    rewrite (Hok (attempts st)) by lia.
    rewrite apply_sets by exact Hfresh.
    pose proof (Hlen i Hi Hlt) as Hlen_i. fold slice_ in Hlen_i.
    pose proof (length_sliceList items i limit Hi Hlimit) as Hslice.
    fold slice_ in Hslice.
    set (st2 := {| docs := docs st ++ entriesFrom (nextRef st) (mk i slice_);
                   nextRef := nextRef st + Z.of_nat (length slice_);
                   attempts := S (attempts st);
                   committed := committed st ++ [setsFrom (nextRef st) (mk i slice_)];
                   progress := progress st |}).
    set (st3 := if onProgress
                then report (i + Z.of_nat (length slice_))
                       (Z.of_nat (length items)) st2
                else st2).
    assert (Hst3 : docs st3 = docs st2 /\ nextRef st3 = nextRef st2 /\
                   attempts st3 = attempts st2 /\ committed st3 = committed st2 /\
                   progress st3
                   = progress st2 ++
                     (if onProgress
                      then [(Z.min (i + limit) (Z.of_nat (length items)),
                             Z.of_nat (length items))] else [])).
    { subst st3. destruct onProgress; cbn [report docs nextRef attempts committed progress].
      - repeat split. do 3 f_equal. lia.
      - repeat split. now rewrite app_nil_r. }
    destruct Hst3 as (Hd & Hn & Ha & Hc & Hp).
    destruct (IH (i + limit) st3) as (st' & batches & Hrun & Hdocs & Hfresh' & Hcomm & Hsizes & Hatt & Hprog).
    + lia.
    + intros n Hn'. apply Hok. rewrite Ha in Hn'. cbn in Hn'. lia.
    + rewrite Hd, Hn. cbn [st2 docs nextRef]. apply Forall_app. split.
      * eapply Forall_impl; [exact Hfresh|]. cbn. intros e He. lia.
      * rewrite <- Hlen_i. apply entriesFrom_bound.
    + lia.
    + exists st', (setsFrom (nextRef st) (mk i slice_) :: batches).
      split; [exact Hrun|]. split; [|split; [exact Hfresh'|split; [|split; [|split]]]].
      * rewrite Hdocs, Hd, Hn. cbn [st2 docs nextRef].
        rewrite <- app_assoc. f_equal.
        rewrite <- (Hsplit i Hi Hlt). fold slice_.
        rewrite entriesFrom_app, Hlen_i. reflexivity.
      * rewrite Hcomm, Hc. cbn [st2 committed]. now rewrite <- app_assoc.
      * constructor; [|exact Hsizes]. rewrite length_setsFrom, Hlen_i. lia.
      * rewrite Hatt, Ha. cbn [st2 attempts length]. lia.
      * rewrite Hprog, Hp. cbn [st2 progress]. rewrite <- app_assoc.
        f_equal. destruct onProgress; reflexivity.
  - exists st, []. rewrite (Hend i Hge). cbn [entriesFrom].
    rewrite !app_nil_r. repeat split; try assumption; try constructor.
    + cbn [length]. lia.
    + destruct onProgress; now rewrite app_nil_r.
Qed.

(** The same loop when commits may be rejected: whatever happens, the
    collection has gained the documents of a prefix of the items. *)
Lemma batchLoop_sets_any {A} (items : list A) limit
    (fill : Z -> list A -> Store Vec -> Store Vec * outcome (list (Write Vec)))
    (mk : Z -> list A -> list (Doc Vec)) onProgress :
  0 < limit ->
  (forall i st, 0 <= i -> i < Z.of_nat (length items) ->
     fill i (sliceList items i (i + limit)) st
     = (advance (Z.of_nat (length (sliceList items i (i + limit)))) st,
        Returned (setsFrom (nextRef st) (mk i (sliceList items i (i + limit)))))) ->
  (forall i, 0 <= i -> i < Z.of_nat (length items) ->
     length (mk i (sliceList items i (i + limit)))
     = length (sliceList items i (i + limit))) ->
  (forall i, 0 <= i -> i < Z.of_nat (length items) ->
     mk i (sliceList items i (i + limit))
     ++ mk (i + limit) (skipn (Z.to_nat (i + limit)) items)
     = mk i (skipn (Z.to_nat i) items)) ->
  (forall i, Z.of_nat (length items) <= i -> mk i (skipn (Z.to_nat i) items) = []) ->
  forall fuel i st,
    0 <= i ->
    Forall (fun e => fst e < nextRef st) (docs st) ->
    Z.max 0 (Z.of_nat (length items) - i) < Z.of_nat fuel ->
    exists st' o j,
      batchLoop commitError fuel limit items fill onProgress i st = Some (st', o) /\
      docs st'
      = docs st ++ entriesFrom (nextRef st)
                     (firstn j (mk i (skipn (Z.to_nat i) items))) /\
      (o = Returned tt ->
       firstn j (mk i (skipn (Z.to_nat i) items))
       = mk i (skipn (Z.to_nat i) items)).
Proof.
  intros Hlimit Hfill Hlen Hsplit Hend.
  induction fuel as [|fuel IH]; intros i st Hi Hfresh Hfuel; [lia|].
  cbn [batchLoop].
  destruct (Z.ltb_spec i (Z.of_nat (length items))) as [Hlt|Hge].
  - rewrite (Hfill i st Hi Hlt).
    set (slice_ := sliceList items i (i + limit)) in *.
    unfold commit. cbn [advance attempts docs nextRef committed progress].
    destruct (commitError (attempts st)) as [err|].
    + eexists _, _, 0%nat. split; [reflexivity|].
      cbn [docs firstn entriesFrom]. rewrite app_nil_r.
      split; [reflexivity|discriminate].
    + rewrite apply_sets by exact Hfresh.
      pose proof (Hlen i Hi Hlt) as Hlen_i. fold slice_ in Hlen_i.
      set (st2 := {| docs := docs st ++ entriesFrom (nextRef st) (mk i slice_);
                     nextRef := nextRef st + Z.of_nat (length slice_);
                     attempts := S (attempts st);
                     committed := committed st ++ [setsFrom (nextRef st) (mk i slice_)];
                     progress := progress st |}).
      set (st3 := if onProgress
                  then report (i + Z.of_nat (length slice_))
                         (Z.of_nat (length items)) st2
                  else st2).
      assert (Hst3 : docs st3 = docs st2 /\ nextRef st3 = nextRef st2).
      { subst st3. now destruct onProgress. }
      destruct Hst3 as (Hd & Hn).
      destruct (IH (i + limit) st3) as (st' & o & j & Hrun & Hdocs & Hfull).
      * lia.
      * rewrite Hd, Hn. cbn [st2 docs nextRef]. apply Forall_app. split.
        -- eapply Forall_impl; [exact Hfresh|]. cbn. intros e He. lia.
        -- rewrite <- Hlen_i. apply entriesFrom_bound.
      * lia.
      * exists st', o, (length (mk i slice_) + j)%nat. split; [exact Hrun|].
        rewrite <- (Hsplit i Hi Hlt). fold slice_. rewrite firstn_app_2.
        split.
        -- rewrite Hdocs, Hd, Hn. cbn [st2 docs nextRef].
           rewrite <- app_assoc. f_equal.
           rewrite entriesFrom_app, Hlen_i. reflexivity.
        -- intros Ho. now rewrite (Hfull Ho).
  - eexists _, _, 0%nat. split; [reflexivity|].
    rewrite (Hend i Hge). cbn [firstn entriesFrom]. now rewrite app_nil_r.
Qed.

(** The loop that deletes the documents read at the start. *)
Lemma batchLoop_deletes (docs0 : list (Z * Doc Vec)) limit :
  0 < limit ->
  NoDup (map fst docs0) ->
  forall fuel i st,
    0 <= i ->
    docs st = skipn (Z.to_nat i) docs0 ->
    Z.max 0 (Z.of_nat (length docs0) - i) < Z.of_nat fuel ->
    exists st' o k,
      batchLoop commitError fuel limit (map fst docs0) fillDeletes false i st
      = Some (st', o) /\
      docs st' = skipn k docs0 /\
      nextRef st' = nextRef st /\
      (o = Returned tt -> docs st' = []) /\
      ((forall n, (attempts st <= n)%nat -> commitError n = None) ->
       exists batches,
         o = Returned tt /\
         committed st' = committed st ++ batches /\
         Forall (fun b => Z.of_nat (length b) <= limit) batches /\
         (attempts st <= attempts st')%nat /\
         progress st' = progress st).
Proof.
  intros Hlimit Hnd.
  induction fuel as [|fuel IH]; intros i st Hi Hdocs Hfuel; [lia|].
  cbn [batchLoop]. rewrite length_map.
  destruct (Z.ltb_spec i (Z.of_nat (length docs0))) as [Hlt|Hge].
  - unfold fillDeletes, commit.
    assert (Hslice : sliceList (map fst docs0) i (i + limit)
                     = map fst (firstn (Z.to_nat limit) (skipn (Z.to_nat i) docs0))).
    { unfold sliceList. rewrite skipn_map, firstn_map. do 2 f_equal. lia. }
    assert (Hnd_i : NoDup (map fst (skipn (Z.to_nat i) docs0))).
    { rewrite <- skipn_map. eapply sublist_NoDup; [exact Hnd|apply sublist_drop]. }
    destruct (commitError (attempts st)) as [err|] eqn:Hcommit.
    + eexists _, _, (Z.to_nat i). split; [reflexivity|].
      cbn [docs nextRef attempts]. split; [exact Hdocs|]. split; [reflexivity|].
      split; [discriminate|]. intros Hok.
      rewrite (Hok (attempts st)) in Hcommit by lia. discriminate.
    + rewrite Hslice, Hdocs, (apply_deletes _ _ Hnd_i), skipn_skipn.
      set (st2 := {| docs := skipn (Z.to_nat limit + Z.to_nat i) docs0;
                     nextRef := nextRef st; attempts := S (attempts st);
                     committed := committed st ++ [_]; progress := progress st |}).
      destruct (IH (i + limit) st2) as (st' & o & k & Hrun & Hd & Hn & Hdone & Hall).
      * lia.
      * cbn [st2 docs]. f_equal. lia.
      * lia.
      * exists st', o, k. split; [exact Hrun|]. split; [exact Hd|].
        split; [exact Hn|]. split; [exact Hdone|]. intros Hok.
        destruct Hall as (batches & Ho & Hc & Hsizes & Ha & Hp).
        { intros n Hn'. apply Hok. cbn [st2 attempts] in Hn'. lia. }
        eexists (_ :: batches). split; [exact Ho|].
        cbn [st2 committed attempts progress] in *.
        split; [rewrite Hc, <- app_assoc; reflexivity|].
        split; [|split; [lia|exact Hp]].
        constructor; [|exact Hsizes].
        rewrite !length_map, length_firstn. lia.
  - exists st, (Returned tt), (Z.to_nat i). split; [reflexivity|].
    split; [exact Hdocs|]. split; [reflexivity|].
    assert (Hnil : docs st = []).
    { rewrite Hdocs. apply skipn_all2. lia. }
    split; [intros _; exact Hnil|]. intros _. exists [].
    rewrite app_nil_r. repeat split; [constructor|lia].
Qed.

Lemma skipn_nth_error {A} (l : list A) : forall n v,
  nth_error l n = Some v -> skipn n l = v :: skipn (S n) l.
Proof.
  induction l as [|x l IH]; intros [|n] v Hv; try discriminate.
  - injection Hv as ->. reflexivity.
  - cbn [nth_error] in Hv. cbn [skipn]. now apply IH.
Qed.

Lemma fillChunks_spec fileName modelId total (vectors : list Vec) texts :
  forall index st,
    0 <= index ->
    Z.of_nat (length texts) + index <= Z.of_nat (length vectors) ->
    fillChunks fileName modelId total vectors index texts st
    = (advance (Z.of_nat (length texts)) st,
       Returned (setsFrom (nextRef st)
                   (chunkDocs fileName modelId total index texts
                      (skipn (Z.to_nat index) vectors)))).
Proof.
  induction texts as [|t rest IH]; intros index st Hi Hlen.
  - cbn [fillChunks chunkDocs length setsFrom]. destruct st. unfold advance.
    cbn [docs nextRef attempts committed progress]. do 2 f_equal. lia.
  - cbn [fillChunks length] in *.
    destruct (nth_error vectors (Z.to_nat index)) as [v|] eqn:Hv.
    2:{ apply nth_error_None in Hv. lia. }
    rewrite (IH (index + 1) (newRef st)) by lia.
    rewrite (skipn_nth_error _ _ _ Hv).
    replace (Z.to_nat (index + 1)) with (S (Z.to_nat index)) by lia.
    cbn [chunkDocs setsFrom newRef nextRef].
    destruct st. unfold advance, newRef.
    cbn [docs nextRef attempts committed progress]. do 2 f_equal. lia.
Qed.

Lemma chunkDocs_app fileName modelId total (a b : list string) :
  forall index (vectors : list Vec),
    (length a <= length vectors)%nat ->
    chunkDocs fileName modelId total index (a ++ b) vectors
    = chunkDocs fileName modelId total index a vectors
      ++ chunkDocs fileName modelId total (index + Z.of_nat (length a)) b
           (skipn (length a) vectors).
Proof.
  induction a as [|t rest IH]; intros index vectors Hlen.
  - cbn [app chunkDocs length skipn]. f_equal. lia.
  - destruct vectors as [|v vrest]; [cbn [length] in Hlen; lia|].
    cbn [app chunkDocs length skipn] in *. rewrite IH by lia.
    do 3 f_equal. lia.
Qed.

Lemma length_chunkDocs fileName modelId total (texts : list string) :
  forall index (vectors : list Vec),
    (length texts <= length vectors)%nat ->
    length (chunkDocs fileName modelId total index texts vectors) = length texts.
Proof.
  induction texts as [|t rest IH]; intros index vectors Hlen; [reflexivity|].
  destruct vectors as [|v vrest]; [cbn [length] in Hlen; lia|].
  cbn [chunkDocs length] in *. rewrite IH by lia. reflexivity.
Qed.

Lemma fillRows_spec (toFloat32 : Vec -> Vec) i rows :
  forall st,
    fillRows toFloat32 i rows st
    = (advance (Z.of_nat (length rows)) st,
       Returned (setsFrom (nextRef st) (map (rowDoc toFloat32) rows))).
Proof.
  induction rows as [|r rest IH]; intros st.
  - cbn [fillRows map length setsFrom]. destruct st. unfold advance.
    cbn [docs nextRef attempts committed progress]. do 2 f_equal. lia.
  - cbn [fillRows map length setsFrom]. rewrite IH.
    cbn [newRef nextRef]. unfold rowDoc. destruct st. unfold advance, newRef.
    cbn [docs nextRef attempts committed progress]. do 2 f_equal. lia.
Qed.

Lemma progressFrom_shape limit n :
  0 < limit ->
  forall fuel i,
    0 <= i ->
    Z.max 0 (n - i) < Z.of_nat fuel ->
    Forall (fun r => 0 < fst r <= n /\ snd r = n) (progressFrom fuel limit n i) /\
    (i < n -> List.last (progressFrom fuel limit n i) (0, 0) = (n, n)) /\
    (n <= i -> progressFrom fuel limit n i = []).
Proof.
  intros Hlimit. induction fuel as [|fuel IH]; intros i Hi Hfuel; [lia|].
  cbn [progressFrom]. destruct (Z.ltb_spec i n) as [Hlt|Hge].
  - destruct (IH (i + limit) ltac:(lia) ltac:(lia)) as (Hall & Hlast & Hnil).
    split; [|split; [|lia]].
    + constructor; [cbn; lia|exact Hall].
    + intros _. destruct (Z.ltb_spec (i + limit) n) as [Hmore|Hdone].
      * specialize (Hlast Hmore).
        destruct (progressFrom fuel limit n (i + limit)); [|exact Hlast].
        cbn [List.last] in Hlast. injection Hlast as Hzero. lia.
      * rewrite (Hnil Hdone). cbn [List.last]. f_equal; lia.
  - repeat split; [constructor|lia].
Qed.

End FirestoreFacts.

(** X20.  When the read and every commit succeed, [writeChunksToFirestore]
    replaces the collection of the user: afterwards it holds one document
    per chunk, in order, with the file name, the index, the number of
    chunks, the text and the vector of the chunk, and none of the
    documents it held before, whatever their source.  No batch has more
    than 450 writes. *)
Theorem training_write_replaces_collection {Vec : Type}
    (commitError : nat -> option string) (fileName modelId : string)
    (chunks : list string) (vectors : list Vec) (st : Firestore.Store Vec) :
  Firestore.wellFormed st ->
  (forall n, (Firestore.attempts st <= n)%nat -> commitError n = None) ->
  (length chunks <= length vectors)%nat ->
  exists st' batches,
    Firestore.writeChunksToFirestore commitError
      (S (length (Firestore.docs st) + length chunks)) None
      fileName modelId chunks vectors st
    = Some (st', Returned tt) /\
    map snd (Firestore.docs st')
    = Firestore.chunkDocs fileName modelId (Z.of_nat (length chunks)) 0
        chunks vectors /\
    Firestore.committed st' = Firestore.committed st ++ batches /\
    Forall (fun b => Z.of_nat (length b) <= 450) batches.
Proof.
  intros [Hnd Hfresh] Hok Hlen. unfold Firestore.writeChunksToFirestore.
  destruct (batchLoop_deletes commitError (Firestore.docs st)
              Firestore.BATCH_WRITE_LIMIT ltac:(reflexivity) Hnd
              (S (length (Firestore.docs st) + length chunks)) 0 st
              ltac:(lia) ltac:(reflexivity) ltac:(lia))
    as (st1 & o & k & Hrun1 & _ & Hn1 & Hdone & Hall).
  destruct (Hall Hok) as (batches1 & Ho & Hc1 & Hsizes1 & Ha1 & _). subst o.
  rewrite Hrun1. pose proof (Hdone eq_refl) as Hempty.
  destruct (batchLoop_sets commitError chunks Firestore.BATCH_WRITE_LIMIT
              (Firestore.fillChunks fileName modelId (Z.of_nat (length chunks)) vectors)
              (fun i texts =>
                 Firestore.chunkDocs fileName modelId (Z.of_nat (length chunks)) i
                   texts (skipn (Z.to_nat i) vectors))
              false ltac:(reflexivity))
    with (fuel := S (length (Firestore.docs st) + length chunks)) (i := 0) (st := st1)
    as (st' & batches2 & Hrun & Hdocs & _ & Hc2 & Hsizes2 & _).
  - intros i st0 Hi Hlt. apply fillChunks_spec; [exact Hi|].
    pose proof (length_sliceList chunks i Firestore.BATCH_WRITE_LIMIT Hi
                  ltac:(reflexivity)). lia.
  - intros i Hi Hlt. apply length_chunkDocs. rewrite length_skipn.
    pose proof (length_sliceList chunks i Firestore.BATCH_WRITE_LIMIT Hi
                  ltac:(reflexivity)). lia.
  - intros i Hi Hlt.
    pose proof (sliceList_skipn chunks i Firestore.BATCH_WRITE_LIMIT Hi
                  ltac:(reflexivity)) as Hparts.
    pose proof (length_sliceList chunks i Firestore.BATCH_WRITE_LIMIT Hi
                  ltac:(reflexivity)) as Hslice.
    rewrite <- Hparts.
    rewrite chunkDocs_app by (rewrite length_skipn; lia).
    f_equal. rewrite skipn_skipn.
    destruct (Z.le_gt_cases Firestore.BATCH_WRITE_LIMIT
                (Z.of_nat (length chunks) - i)) as [Hfull|Hlast].
    + f_equal; [lia|]. f_equal. lia.
    + rewrite (skipn_all2 chunks) by lia. reflexivity.
  - intros i Hge. rewrite skipn_all2 by lia. reflexivity.
  - lia.
  - intros n Hn. apply Hok. lia.
  - rewrite Hempty. constructor.
  - lia.
  - exists st', (batches1 ++ batches2). split; [exact Hrun|].
    rewrite Hdocs, Hempty, Hc2, Hc1. cbn [app skipn Z.to_nat].
    rewrite entriesFrom_docs, <- app_assoc.
    repeat split. apply Forall_app. now split.
Qed.

Lemma training_write_replaces_collection_witness :
  exists st' batches,
    Firestore.writeChunksToFirestore (fun _ => None)
      (S (length (Firestore.docs Samples.oldCollection) + length ["hello"]))
      None "notes.txt" "model" ["hello"] [Scenarios.zeroVector]
      Samples.oldCollection
    = Some (st', Returned tt) /\
    map snd (Firestore.docs st')
    = Firestore.chunkDocs "notes.txt" "model" (Z.of_nat (length ["hello"])) 0
        ["hello"] [Scenarios.zeroVector] /\
    Firestore.committed st' = Firestore.committed Samples.oldCollection ++ batches /\
    Forall (fun b => Z.of_nat (length b) <= 450) batches.
Proof.
  apply (training_write_replaces_collection (fun _ => None) "notes.txt" "model"
           ["hello"] [Scenarios.zeroVector] Samples.oldCollection).
  - split.
    + apply NoDup_singleton.
    + constructor; [reflexivity|constructor].
  - reflexivity.
  - reflexivity.
Defined.

(** X21.  [writeChunksToFirestore] is not atomic, but it never mixes old
    and new documents.  Whatever commits are rejected, the call ends, and
    the collection is then either what is left of the old documents after
    a number of them was deleted, or a number of leading new documents
    and no old one; when the call returns it is all the new documents.
    The old documents are not restored when a later commit fails. *)
Theorem training_write_never_mixes {Vec : Type}
    (commitError : nat -> option string) (fileName modelId : string)
    (chunks : list string) (vectors : list Vec) (st : Firestore.Store Vec) :
  Firestore.wellFormed st ->
  (length chunks <= length vectors)%nat ->
  exists st' o,
    Firestore.writeChunksToFirestore commitError
      (S (length (Firestore.docs st) + length chunks)) None
      fileName modelId chunks vectors st
    = Some (st', o) /\
    ((exists k, Firestore.docs st' = skipn k (Firestore.docs st) /\
                o <> Returned tt) \/
     (exists j, map snd (Firestore.docs st')
                = firstn j (Firestore.chunkDocs fileName modelId
                              (Z.of_nat (length chunks)) 0 chunks vectors))) /\
    (o = Returned tt ->
     map snd (Firestore.docs st')
     = Firestore.chunkDocs fileName modelId (Z.of_nat (length chunks)) 0
         chunks vectors).
Proof.
  intros [Hnd Hfresh] Hlen. unfold Firestore.writeChunksToFirestore.
  destruct (batchLoop_deletes commitError (Firestore.docs st)
              Firestore.BATCH_WRITE_LIMIT ltac:(reflexivity) Hnd
              (S (length (Firestore.docs st) + length chunks)) 0 st
              ltac:(lia) ltac:(reflexivity) ltac:(lia))
    as (st1 & o1 & k & Hrun1 & Hd1 & Hn1 & Hdone & _).
  rewrite Hrun1. destruct o1 as [[]|err].
  2:{ exists st1, (Thrown err). split; [reflexivity|]. split; [|discriminate].
      left. exists k. split; [exact Hd1|discriminate]. }
  pose proof (Hdone eq_refl) as Hempty.
  destruct (batchLoop_sets_any commitError chunks Firestore.BATCH_WRITE_LIMIT
              (Firestore.fillChunks fileName modelId (Z.of_nat (length chunks)) vectors)
              (fun i texts =>
                 Firestore.chunkDocs fileName modelId (Z.of_nat (length chunks)) i
                   texts (skipn (Z.to_nat i) vectors))
              false ltac:(reflexivity))
    with (fuel := S (length (Firestore.docs st) + length chunks)) (i := 0) (st := st1)
    as (st' & o & j & Hrun & Hdocs & Hfull).
  - intros i st0 Hi Hlt. apply fillChunks_spec; [exact Hi|].
    pose proof (length_sliceList chunks i Firestore.BATCH_WRITE_LIMIT Hi
                  ltac:(reflexivity)). lia.
  - intros i Hi Hlt. apply length_chunkDocs. rewrite length_skipn.
    pose proof (length_sliceList chunks i Firestore.BATCH_WRITE_LIMIT Hi
                  ltac:(reflexivity)). lia.
  - intros i Hi Hlt.
    pose proof (sliceList_skipn chunks i Firestore.BATCH_WRITE_LIMIT Hi
                  ltac:(reflexivity)) as Hparts.
    pose proof (length_sliceList chunks i Firestore.BATCH_WRITE_LIMIT Hi
                  ltac:(reflexivity)) as Hslice.
    rewrite <- Hparts.
    rewrite chunkDocs_app by (rewrite length_skipn; lia).
    f_equal. rewrite skipn_skipn.
    destruct (Z.le_gt_cases Firestore.BATCH_WRITE_LIMIT
                (Z.of_nat (length chunks) - i)) as [Hfull|Hlast].
    + f_equal; [lia|]. f_equal. lia.
    + rewrite (skipn_all2 chunks) by lia. reflexivity.
  - intros i Hge. rewrite skipn_all2 by lia. reflexivity.
  - lia.
  - rewrite Hempty. constructor.
  - lia.
  - exists st', o. split; [exact Hrun|].
    rewrite Hdocs, Hempty. cbn [app skipn Z.to_nat] in *.
    rewrite entriesFrom_docs. split.
    + right. now exists j.
    + intros Ho. now apply Hfull.
Qed.

Lemma training_write_never_mixes_witness :
  exists st' o,
    Firestore.writeChunksToFirestore Samples.secondCommitFails
      (S (length (Firestore.docs Samples.oldCollection) + length ["hello"]))
      None "notes.txt" "model" ["hello"] [Scenarios.zeroVector]
      Samples.oldCollection
    = Some (st', o) /\
    ((exists k, Firestore.docs st' = skipn k (Firestore.docs Samples.oldCollection) /\
                o <> Returned tt) \/
     (exists j, map snd (Firestore.docs st')
                = firstn j (Firestore.chunkDocs "notes.txt" "model"
                              (Z.of_nat (length ["hello"])) 0 ["hello"]
                              [Scenarios.zeroVector]))) /\
    (o = Returned tt ->
     map snd (Firestore.docs st')
     = Firestore.chunkDocs "notes.txt" "model" (Z.of_nat (length ["hello"])) 0
         ["hello"] [Scenarios.zeroVector]).
Proof.
  apply (training_write_never_mixes Samples.secondCommitFails "notes.txt" "model"
           ["hello"] [Scenarios.zeroVector] Samples.oldCollection).
  - split.
    + apply NoDup_singleton.
    + constructor; [reflexivity|constructor].
  - reflexivity.
Defined.

(** X22.  [uploadToFirestore] only adds.  When every commit succeeds the
    collection keeps what it held and gains one document per completed
    row, in order, so a second upload stores every row again.  No batch
    has more than 400 writes; every report of [onProgress] has the number
    of rows as its total, and the last one reports all of them. *)
Theorem upload_appends_rows {Vec : Type}
    (commitError : nat -> option string) (toFloat32 : Vec -> Vec)
    (rows : list (Firestore.Row Vec)) (onProgress : bool)
    (st : Firestore.Store Vec) :
  Firestore.wellFormed st ->
  (forall n, (Firestore.attempts st <= n)%nat -> commitError n = None) ->
  exists st' batches reports,
    Firestore.uploadToFirestore commitError toFloat32 (S (length rows))
      (Returned rows) onProgress st
    = Some (st', Returned tt) /\
    map snd (Firestore.docs st')
    = map snd (Firestore.docs st) ++ map (Firestore.rowDoc toFloat32) rows /\
    Firestore.committed st' = Firestore.committed st ++ batches /\
    Forall (fun b => Z.of_nat (length b) <= 400) batches /\
    Firestore.progress st' = Firestore.progress st ++ reports /\
    Forall (fun r => 0 < fst r <= Z.of_nat (length rows) /\
                     snd r = Z.of_nat (length rows)) reports /\
    (onProgress = true -> rows <> [] ->
     List.last reports (0, 0)
     = (Z.of_nat (length rows), Z.of_nat (length rows))) /\
    (onProgress = false -> reports = []).
Proof.
  intros [Hnd Hfresh] Hok. unfold Firestore.uploadToFirestore.
  destruct (batchLoop_sets commitError rows 400 (Firestore.fillRows toFloat32)
              (fun _ slice_ => map (Firestore.rowDoc toFloat32) slice_)
              onProgress ltac:(reflexivity))
    with (fuel := S (length rows)) (i := 0) (st := st)
    as (st' & batches & Hrun & Hdocs & _ & Hc & Hsizes & _ & Hprog).
  - intros i st0 Hi Hlt. apply fillRows_spec.
  - intros i Hi Hlt. apply length_map.
  - intros i Hi Hlt. rewrite <- map_app.
    now rewrite (sliceList_skipn rows i 400 Hi ltac:(reflexivity)).
  - intros i Hge. rewrite skipn_all2 by lia. reflexivity.
  - lia.
  - exact Hok.
  - exact Hfresh.
  - lia.
  - destruct (progressFrom_shape 400 (Z.of_nat (length rows)) ltac:(reflexivity)
                (S (length rows)) 0 ltac:(lia) ltac:(lia))
      as (Hall & Hlast & _).
    exists st', batches,
      (if onProgress
       then Firestore.progressFrom (S (length rows)) 400 (Z.of_nat (length rows)) 0
       else []).
    split; [exact Hrun|]. split.
    { rewrite Hdocs, map_app. cbn [skipn Z.to_nat]. now rewrite entriesFrom_docs. }
    split; [exact Hc|]. split; [exact Hsizes|]. split; [exact Hprog|].
    split; [destruct onProgress; [exact Hall|constructor]|].
    split.
    + intros -> Hne. apply Hlast. destruct rows; [contradiction|cbn [length]; lia].
    + now intros ->.
Qed.

Lemma upload_appends_rows_witness :
  exists st' batches reports,
    Firestore.uploadToFirestore (fun _ => None) (fun v => v)
      (S (length [Samples.completedRow])) (Returned [Samples.completedRow])
      true Samples.oldCollection
    = Some (st', Returned tt) /\
    map snd (Firestore.docs st')
    = map snd (Firestore.docs Samples.oldCollection)
      ++ map (Firestore.rowDoc (fun v => v)) [Samples.completedRow] /\
    Firestore.committed st' = Firestore.committed Samples.oldCollection ++ batches /\
    Forall (fun b => Z.of_nat (length b) <= 400) batches /\
    Firestore.progress st' = Firestore.progress Samples.oldCollection ++ reports /\
    Forall (fun r => 0 < fst r <= Z.of_nat (length [Samples.completedRow]) /\
                     snd r = Z.of_nat (length [Samples.completedRow])) reports /\
    (true = true -> [Samples.completedRow] <> [] ->
     List.last reports (0, 0)
     = (Z.of_nat (length [Samples.completedRow]),
        Z.of_nat (length [Samples.completedRow]))) /\
    (true = false -> reports = []).
Proof.
  apply (upload_appends_rows (fun _ => None) (fun v => v) [Samples.completedRow]
           true Samples.oldCollection).
  - split.
    + apply NoDup_singleton.
    + constructor; [reflexivity|constructor].
  - reflexivity.
Defined.

(** ** The promise around an ingestion request *)
Section PrepareRequestFacts.
Import VectorWorker PrepareRequest.

Lemma reporting_refl w : reporting [] w w.
Proof. exists []. now rewrite app_nil_r. Qed.

Lemma reporting_trans r1 r2 w w1 w2 :
  reporting r1 w w1 -> reporting r2 w1 w2 -> reporting (r1 ++ r2) w w2.
Proof.
  intros (l1 & H1 & Hr1 & Hq1) (l2 & H2 & Hr2 & Hq2). exists (l1 ++ l2).
  split; [rewrite H2, H1; now rewrite app_assoc|]. split.
  - unfold reportsOf in *. now rewrite flat_map_app, Hr1, Hr2.
  - rewrite forallb_app, Hq1, Hq2. reflexivity.
Qed.

Lemma reporting_postDebug event w : reporting [] w (postDebug event w).
Proof.
  unfold postDebug. destruct (debugEnabled w); [|apply reporting_refl].
  exists [debug event]. repeat split.
Qed.

Lemma reporting_progress c t w : reporting [(c, t)] w (postMessage (progress c t) w).
Proof. exists [progress c t]. repeat split. Qed.

Lemma reporting_posted w w' : posted w' = posted w -> reporting [] w w'.
Proof. intros H. exists []. now rewrite app_nil_r. Qed.

Lemma reporting_debug_or event w w' :
  posted w' = posted w \/ posted w' = posted w ++ [debug event] ->
  reporting [] w w'.
Proof.
  intros [H|H]; [now apply reporting_posted|].
  exists [debug event]. repeat split. exact H.
Qed.

Lemma processRow_posted u s total row f32 w c :
  reporting [(c + 1, total)] w (fst (processRow u s total row f32 (w, c))) /\
  snd (processRow u s total row f32 (w, c)) = c + 1.
Proof.
  unfold processRow.
  destruct (match f32 with
            | Some elems => toVecBlobFromEmbedding (Float32Array elems)
            | None => None
            end) as [b|]; cbn [fst snd]; (split; [|reflexivity]).
  - set (w1 := storeEmbedding (id row) b w).
    set (w2 := fst (vec0Upsert (id row) b w1)).
    set (w3 := idbPutChunk _ w2).
    apply (reporting_trans [] _ w w3); [|apply reporting_progress].
    apply (reporting_trans [] [] w w2).
    + apply (reporting_trans [] [] w w1); [now apply reporting_posted|].
      apply (reporting_debug_or "vec0_insert_error").
      exact (proj1 (proj2 (proj2 (proj2 (vec0Upsert_cases (id row) b w1))))).
    + apply (reporting_debug_or "idb_put").
      subst w3. match goal with |- context [idbPutChunk ?r w2] =>
        destruct (idbPutChunk_spec r w2) as (_ & _ & _ & _ & _ & _ & _ & _ & H)
      end. exact H.
  - apply (reporting_trans [] _ w
             (markCompleted (id row) (postDebug "embedding_shape_mismatch" w)));
      [|apply reporting_progress].
    apply (reporting_trans [] [] w (postDebug "embedding_shape_mismatch" w));
      [apply reporting_postDebug|now apply reporting_posted].
Qed.

Lemma reportsFrom_app first total k1 k2 :
  reportsFrom first total (k1 + k2)
  = reportsFrom first total k1 ++ reportsFrom (first + Z.of_nat k1) total k2.
Proof.
  revert first. induction k1 as [|k1 IH]; intros first; cbn [Nat.add reportsFrom app].
  - f_equal. lia.
  - rewrite IH. do 3 f_equal. lia.
Qed.

Lemma processBatch_posted u s total batch :
  forall vecs w c,
    reporting (reportsFrom c total (length batch)) w
      (fst (processBatch u s total batch vecs (w, c))) /\
    snd (processBatch u s total batch vecs (w, c)) = c + Z.of_nat (length batch).
Proof.
  induction batch as [|row batch IH]; intros vecs w c; cbn [processBatch length].
  - cbn [reportsFrom fst snd]. split; [apply reporting_refl|lia].
  - destruct (processRow_posted u s total row (mjoin (head vecs)) w c) as [Hp Hc].
    destruct (processRow u s total row (mjoin (head vecs)) (w, c)) as [w1 c1].
    cbn [fst snd] in Hp, Hc. subst c1.
    destruct (IH (tl vecs) w1 (c + 1)) as [Hp' Hc'].
    split; [|rewrite Hc'; lia].
    exact (reporting_trans [(c + 1, total)] _ _ _ _ Hp Hp').
Qed.

Lemma embedLoop_posted script u s total :
  forall pending batchSize havePrev w c w' o,
    embedLoop script u s total pending batchSize havePrev (w, c) = Some (w', o) ->
    exists k,
      reporting (reportsFrom c total k) w w' /\
      (o = Returned tt -> k = length pending).
Proof.
  induction script as [|[[vecs|err] t] script IH];
    intros [|row pending] batchSize havePrev w c w' o; cbn [embedLoop];
    try discriminate;
    try (intros [= <- <-]; exists 0%nat; cbn [reportsFrom fst];
         split; [apply reporting_refl|]; try reflexivity; discriminate).
  set (all := row :: pending).
  set (batch := firstn (Z.to_nat batchSize) all).
  set (rest := skipn (length batch) all).
  intros Hloop.
  assert (Hsplit : length all = (length batch + length rest)%nat).
  { subst rest batch. rewrite length_skipn, length_firstn. lia. }
  destruct (processBatch_posted u s total batch vecs w c) as [Hp Hc].
  destruct (processBatch u s total batch vecs (w, c)) as [w1 c1].
  cbn [fst snd] in *. subst c1.
  destruct (IH _ _ _ _ _ _ _ Hloop) as (k & Hk & Hfull).
  exists (length batch + k)%nat. split.
  - rewrite reportsFrom_app.
    apply (reporting_trans _ _ w w1 w' Hp).
    rewrite <- (app_nil_l (reportsFrom _ total k)).
    exact (reporting_trans [] _ _ _ _ (reporting_postDebug _ w1) Hk).
  - intros Ho. rewrite (Hfull Ho). exact (eq_sym Hsplit).
Qed.

Lemma insertPending_posted u s chunks :
  forall i w, posted (insertPending u s i chunks w) = posted w.
Proof.
  induction chunks as [|c0 cs IH]; intros i w; cbn [insertPending];
    [reflexivity|]. rewrite IH. unfold insertOrIgnore.
  now destruct (existsb _ _).
Qed.

Lemma prepareTable_posted u s chunks clearExisting w :
  reporting [] w (prepareTable u s chunks clearExisting w).
Proof.
  unfold prepareTable.
  apply (reporting_trans [] [] w
           (if clearExisting then idbDeleteUser u (deleteUserRows u w) else w));
    [|apply reporting_posted, insertPending_posted].
  destruct clearExisting; [|apply reporting_refl].
  apply (reporting_trans [] [] w (deleteUserRows u w));
    [now apply reporting_posted|].
  unfold idbDeleteUser. destruct (idb (deleteUserRows u w));
    [|apply reporting_refl].
  apply (reporting_trans [] [] _
           (postDebug "idb_delete_user_start" (deleteUserRows u w)));
    [apply reporting_postDebug|].
  match goal with |- reporting [] ?a (postDebug ?e ?b) =>
    apply (reporting_trans [] [] a b); [now apply reporting_posted|
                                       apply reporting_postDebug] end.
Qed.

Lemma getEmbedder_reporting load w : reporting [] w (fst (getEmbedder load w)).
Proof.
  unfold getEmbedder. destruct (embedderPromise w); [apply reporting_refl|].
  cbn [fst].
  set (w1 := postDebug "embedder_backend_detailed" w).
  match goal with |- reporting [] w (match load with
                                     | Returned _ => postDebug ?e ?x
                                     | Thrown _ => _ end) =>
    set (w2 := x) end.
  assert (H2 : reporting [] w w2).
  { apply (reporting_trans [] [] w w1); [apply reporting_postDebug|].
    now apply reporting_posted. }
  destruct load; [|exact H2].
  exact (reporting_trans [] [] _ _ _ H2 (reporting_postDebug _ w2)).
Qed.

Lemma fold_handler_reports l : forall r,
  settlement r = None ->
  forallb (fun m => negb (settles m)) l = true ->
  fold_left handler l r
  = {| onProgress := onProgress r ++ reportsOf l; settlement := None |}.
Proof.
  induction l as [|m l IH]; intros r Hr Hq; cbn [fold_left reportsOf flat_map].
  - rewrite app_nil_r. destruct r. cbn in Hr. now subst.
  - cbn [forallb] in Hq. apply andb_true_iff in Hq as [Hm Hq].
    assert (Hstep : handler r m
                    = {| onProgress := onProgress r
                                       ++ match m with
                                          | progress completed total =>
                                              [(completed, total)]
                                          | _ => []
                                          end;
                         settlement := None |}).
    { unfold handler. rewrite Hr.
      destruct m; try discriminate Hm; rewrite ?app_nil_r;
        try reflexivity; destruct r; cbn in *; now subst. }
    rewrite Hstep, IH by (try reflexivity; exact Hq).
    cbn [onProgress]. now rewrite <- app_assoc.
Qed.

Lemma settled_after_reports reports w w' final :
  reporting reports w w' ->
  fold_left handler (skipn (length (posted w)) (posted w' ++ [final])) listening
  = handler {| onProgress := reports; settlement := None |} final.
Proof.
  intros (l & Hl & Hr & Hq).
  rewrite Hl, <- app_assoc, skipn_app, skipn_all, Nat.sub_diag.
  rewrite skipn_O, app_nil_l, fold_left_app.
  rewrite (fold_handler_reports l listening eq_refl Hq).
  now rewrite Hr.
Qed.

End PrepareRequestFacts.

(** X23.  The promise of [prepareLocalDatabase] is settled by the ingestion
    it asked for: it resolves when [prepareWithProgress] returns, and is
    rejected with the message of the exception when it throws.  The calls
    of [onProgress] are the reports of the worker: a first one, then one
    per processed row, each counting one more, all with the number of
    chunks of the text as total; when the promise resolves the last one
    reports that number as completed. *)
Theorem prepare_request_is_answered (load : outcome string)
    (script : list (outcome (list (option (list VectorWorker.F32)))
                    * VectorWorker.Timing))
    (u text_ s : string) (clearExisting : bool)
    (w w' : VectorWorker.Worker) (r : PrepareRequest.Request) :
  PrepareRequest.prepareLocalDatabase load script u text_ s clearExisting w
  = Some (w', r) ->
  exists chunks w1 o first k,
    VectorWorker.chunkText text_ = Some chunks /\
    VectorWorker.prepareWithProgress load script u text_ s clearExisting w
    = Some (w1, o) /\
    PrepareRequest.settlement r
    = Some (match o with
            | Returned _ => PrepareRequest.Resolved
            | Thrown err => PrepareRequest.Rejected err
            end) /\
    PrepareRequest.onProgress r
    = (first, Z.of_nat (length chunks))
      :: PrepareRequest.reportsFrom first (Z.of_nat (length chunks)) k /\
    (o = Returned tt -> first + Z.of_nat k = Z.of_nat (length chunks)).
Proof.
  unfold PrepareRequest.prepareLocalDatabase, VectorWorker.onmessage_prepare.
  destruct (VectorWorker.prepareWithProgress load script u text_ s clearExisting w)
    as [[w1 o]|] eqn:Hprep; [|discriminate].
  unfold VectorWorker.prepareWithProgress in Hprep.
  destruct (VectorWorker.chunkText text_) as [chunks|]; [|discriminate].
  pose proof (prepareTable_posted u s chunks clearExisting w) as H0.
  set (w0 := VectorWorker.prepareTable u s chunks clearExisting w) in *.
  set (pending := VectorWorker.selectPending u s w0) in *.
  set (total := Z.of_nat (length chunks)) in *.
  set (first := total - Z.of_nat (length pending)) in *.
  pose proof (reporting_progress first total w0) as H2.
  set (w2 := VectorWorker.postMessage (VectorWorker.progress first total) w0) in *.
  pose proof (getEmbedder_reporting load w2) as H3.
  destruct (VectorWorker.getEmbedder load w2) as [w3 [dev|err]]; cbn [fst] in H3.
  2:{ injection Hprep as <- <-. intros [= <- <-].
      exists chunks, w3, (Thrown err), first, 0%nat.
      split; [reflexivity|]. split; [reflexivity|].
      rewrite (settled_after_reports [(first, total)] w w3 (VectorWorker.error err)
                 (reporting_trans [] _ _ _ _ H0
                    (reporting_trans [(first, total)] [] _ _ _ H2 H3))).
      cbn [PrepareRequest.handler PrepareRequest.settlement
           PrepareRequest.onProgress PrepareRequest.reportsFrom].
      repeat split. discriminate. }
  destruct (VectorWorker.embedLoop script u s total pending _ false (w3, first))
    as [[w4 o4]|] eqn:Hloop; [|discriminate].
  destruct (embedLoop_posted _ _ _ _ _ _ _ _ _ _ _ Hloop) as (k & Hk & Hfull).
  assert (H4 : PrepareRequest.reporting
                 ((first, total) :: PrepareRequest.reportsFrom first total k) w w4).
  { apply (reporting_trans [] _ _ _ _ H0).
    apply (reporting_trans [(first, total)] _ _ _ _ H2).
    exact (reporting_trans [] _ _ _ _ H3 Hk). }
  destruct o4 as [[]|err].
  - injection Hprep as <- <-. intros [= <- <-].
    exists chunks, (VectorWorker.postMessage VectorWorker.done_prepare w4),
      (Returned tt), first, k.
    split; [reflexivity|]. split; [reflexivity|].
    rewrite (settled_after_reports _ w w4 VectorWorker.done_prepare H4).
    cbn [PrepareRequest.handler PrepareRequest.settlement
         PrepareRequest.onProgress].
    repeat split. intros _. rewrite (Hfull eq_refl). subst first. lia.
  - injection Hprep as <- <-. intros [= <- <-].
    exists chunks, w4, (Thrown err), first, k.
    split; [reflexivity|]. split; [reflexivity|].
    rewrite (settled_after_reports _ w w4 (VectorWorker.error err) H4).
    cbn [PrepareRequest.handler PrepareRequest.settlement
         PrepareRequest.onProgress].
    repeat split. discriminate.
Qed.

Lemma prepare_request_is_answered_witness :
  exists chunks w1 o first k,
    VectorWorker.chunkText "hello" = Some chunks /\
    VectorWorker.prepareWithProgress (Returned "wasm")
      [(Returned [Some Scenarios.zeroVector], VectorWorker.Similar)]
      "u" "hello" "doc" true Scenarios.freshWorker
    = Some (w1, o) /\
    PrepareRequest.settlement Samples.ingestionRequest
    = Some (match o with
            | Returned _ => PrepareRequest.Resolved
            | Thrown err => PrepareRequest.Rejected err
            end) /\
    PrepareRequest.onProgress Samples.ingestionRequest
    = (first, Z.of_nat (length chunks))
      :: PrepareRequest.reportsFrom first (Z.of_nat (length chunks)) k /\
    (o = Returned tt -> first + Z.of_nat k = Z.of_nat (length chunks)).
Proof.
  assert (H1 : PrepareRequest.prepareLocalDatabase (Returned "wasm")
                 [(Returned [Some Scenarios.zeroVector], VectorWorker.Similar)]
                 "u" "hello" "doc" true Scenarios.freshWorker
               = Some (Scenarios.ingestedOnce, Samples.ingestionRequest))
    by (vm_compute; reflexivity).
  exact (prepare_request_is_answered (Returned "wasm")
           [(Returned [Some Scenarios.zeroVector], VectorWorker.Similar)]
           "u" "hello" "doc" true Scenarios.freshWorker Scenarios.ingestedOnce
           Samples.ingestionRequest H1).
Defined.

(** ** The Firestore tier of the search *)
Section FirestoreTierFacts.
Import FirestoreTier.
Context {Cand : Type} (sourceName : Cand -> option string)
        (chunkIndex : Cand -> Z) (mentions : Cand -> bool).

Lemma mapSet_shape k v (m : list (string * Cand)) :
  (exists m1 v0 m2,
     m = m1 ++ (k, v0) :: m2 /\ mapSet k v m = m1 ++ (k, v) :: m2) \/
  (~ In k (map fst m) /\ mapSet k v m = m ++ [(k, v)]).
Proof.
  induction m as [|[k0 v0] rest IH]; cbn [mapSet].
  - right. split; [intros []|reflexivity].
  - destruct (String.eqb_spec k0 k) as [->|Hne].
    + left. now exists [], v0, rest.
    + destruct IH as [(m1 & v1 & m2 & -> & ->)|[Hnotin ->]].
      * left. now exists ((k0, v0) :: m1), v1, m2.
      * right. split; [|reflexivity]. cbn [map fst]. intros [H|H]; auto.
Qed.

Lemma lastOf_snoc_same (seen : list Cand) r :
  lastOf sourceName chunkIndex (seen ++ [r]) r.
Proof. exists seen, []. split; [reflexivity|constructor]. Qed.

Lemma lastOf_snoc_other (seen : list Cand) r x :
  key sourceName chunkIndex r <> key sourceName chunkIndex x ->
  lastOf sourceName chunkIndex seen x ->
  lastOf sourceName chunkIndex (seen ++ [r]) x.
Proof.
  intros Hne (before & after & -> & Hafter). exists before, (after ++ [r]).
  split; [now rewrite <- app_assoc|].
  apply Forall_app. split; [exact Hafter|]. constructor; [exact Hne|constructor].
Qed.

(** What the unique map holds after the candidates [seen]: its keys are
    pairwise distinct, and under each key the last candidate with it. *)
Lemma uniqueResults_inv (pending : list Cand) : forall seen m,
  NoDup (map fst m) ->
  Forall (fun e => fst e = key sourceName chunkIndex (snd e) /\
                   lastOf sourceName chunkIndex seen (snd e)) m ->
  let m' := fold_left (fun m r => mapSet (key sourceName chunkIndex r) r m)
              pending m in
  NoDup (map fst m') /\
  Forall (fun e => fst e = key sourceName chunkIndex (snd e) /\
                   lastOf sourceName chunkIndex (seen ++ pending) (snd e)) m'.
Proof.
  induction pending as [|r pending IH]; intros seen m Hnd Hall; cbn zeta.
  - cbn [fold_left]. rewrite app_nil_r. now split.
  - cbn [fold_left].
    replace (seen ++ r :: pending) with ((seen ++ [r]) ++ pending)
      by (now rewrite <- app_assoc).
    apply IH.
    + destruct (mapSet_shape (key sourceName chunkIndex r) r m)
        as [(m1 & v0 & m2 & -> & ->)|[Hnotin ->]].
      * rewrite map_app in *. exact Hnd.
      * rewrite map_app. cbn [map fst]. apply NoDup_app. split; [exact Hnd|].
        split; [|apply NoDup_singleton].
        intros x Hx Hx'. apply list_elem_of_In in Hx.
        apply list_elem_of_In in Hx' as [<-|[]]. contradiction.
    + destruct (mapSet_shape (key sourceName chunkIndex r) r m)
        as [(m1 & v0 & m2 & -> & ->)|[Hnotin ->]].
      * rewrite map_app in Hnd. cbn [map fst] in Hnd.
        apply NoDup_app in Hnd as (_ & Hdisj & Hnd2).
        apply NoDup_cons in Hnd2 as [Hnot2 _].
        apply Forall_app in Hall as [H1 H2]. apply Forall_cons in H2 as [_ H2].
        apply Forall_app. split; [|constructor].
        -- rewrite Forall_forall in *. intros e He. destruct (H1 e He) as [Hk Hl].
           split; [exact Hk|]. apply lastOf_snoc_other; [|exact Hl].
           intros Heq. apply (Hdisj (fst e)).
           ++ apply list_elem_of_In, in_map, list_elem_of_In, He.
           ++ rewrite Hk, <- Heq. left.
        -- cbn [fst snd]. split; [reflexivity|apply lastOf_snoc_same].
        -- rewrite Forall_forall in *. intros e He. destruct (H2 e He) as [Hk Hl].
           split; [exact Hk|]. apply lastOf_snoc_other; [|exact Hl].
           intros Heq. apply Hnot2. rewrite Heq, <- Hk.
           apply list_elem_of_In, in_map, list_elem_of_In, He.
      * apply Forall_app. split.
        -- rewrite Forall_forall in *. intros e He. destruct (Hall e He) as [Hk Hl].
           split; [exact Hk|]. apply lastOf_snoc_other; [|exact Hl].
           intros Heq. apply Hnotin. rewrite Heq, <- Hk.
           apply in_map, list_elem_of_In, He.
        -- constructor; [|constructor]. cbn [fst snd].
           split; [reflexivity|apply lastOf_snoc_same].
Qed.

Lemma firstn_In {A} n (l : list A) x : In x (firstn n l) -> In x l.
Proof.
  intros H. rewrite <- (firstn_skipn n l). apply in_or_app. now left.
Qed.

Lemma sliceFirst_firstn {A} (items : list A) n :
  exists j, sliceFirst items n = firstn j items /\
            (0 <= n -> j = Z.to_nat n).
Proof.
  unfold sliceFirst. destruct (Z.ltb_spec n 0); eexists; split; eauto; lia.
Qed.

Lemma NoDup_map_coarser {A B C} (g : A -> B) (h : A -> C) (l : list A) :
  (forall x y, In x l -> In y l -> h x = h y -> g x = g y) ->
  NoDup (map g l) -> NoDup (map h l).
Proof.
  induction l as [|x l IH]; intros Hgh Hnd; cbn [map] in *; [constructor|].
  apply NoDup_cons in Hnd as [Hx Hnd]. constructor.
  - intros Hin. apply Hx. apply list_elem_of_In in Hin.
    apply in_map_iff in Hin as (y & Hy & Hin).
    apply list_elem_of_In, in_map_iff. exists y. split; [|exact Hin].
    symmetry. apply Hgh; [now left|now right|now symmetry].
  - apply IH; [|exact Hnd]. intros a b Ha Hb. apply Hgh; now right.
Qed.

End FirestoreTierFacts.

(** X24.  The results of the Firestore tier have pairwise distinct keys
    [sourceName-chunkIndex], at most [topK] of them, and under each key
    the candidate offered last, so a must-include candidate is displaced
    by a later candidate with its key.  The documents of the two writers
    have no field [sourceName]: for them the key is the chunk index alone,
    and the results hold at most one document per chunk index, whatever
    file it came from. *)
Theorem firestore_results_one_per_key {Cand : Type}
    (sourceName : Cand -> option string) (chunkIndex : Cand -> Z)
    (mentions : Cand -> bool) (scored : list Cand) (topK : Z) :
  NoDup (map (FirestoreTier.key sourceName chunkIndex)
           (FirestoreTier.selectResults sourceName chunkIndex mentions scored topK)) /\
  (0 <= topK ->
   Z.of_nat (length (FirestoreTier.selectResults sourceName chunkIndex mentions
                       scored topK)) <= topK) /\
  Forall (fun r => In r scored /\
                   FirestoreTier.lastOf sourceName chunkIndex
                     (FirestoreTier.offered mentions scored topK) r)
    (FirestoreTier.selectResults sourceName chunkIndex mentions scored topK) /\
  ((forall r, In r scored -> sourceName r = None) ->
   NoDup (map chunkIndex
            (FirestoreTier.selectResults sourceName chunkIndex mentions scored topK))).
Proof.
  unfold FirestoreTier.selectResults.
  destruct (uniqueResults_inv sourceName chunkIndex
              (FirestoreTier.offered mentions scored topK) [] []
              ltac:(constructor) ltac:(constructor)) as [Hnd Hall].
  cbn zeta in Hnd, Hall. cbn [app] in Hall.
  set (m := fold_left _ (FirestoreTier.offered mentions scored topK) []) in *.
  destruct (sliceFirst_firstn (map snd m) topK) as (j & -> & Hj).
  assert (Hkeys : map (FirestoreTier.key sourceName chunkIndex) (map snd m)
                  = map fst m).
  { rewrite map_map. apply map_ext_in. intros e He.
    rewrite Forall_forall in Hall. symmetry.
    now apply Hall, list_elem_of_In. }
  assert (Hoffered : forall r, In r (FirestoreTier.offered mentions scored topK) ->
                               In r scored).
  { intros r Hr. unfold FirestoreTier.offered in Hr.
    apply in_app_or in Hr as [Hr|Hr].
    - destruct (sliceFirst_firstn (List.filter mentions scored) 2) as (j2 & Heq & _).
      rewrite Heq in Hr. apply firstn_In, List.filter_In in Hr. tauto.
    - destruct (sliceFirst_firstn scored topK) as (j2 & Heq & _).
      rewrite Heq in Hr. now apply firstn_In in Hr. }
  assert (Hres : Forall (fun r => In r scored /\
                          FirestoreTier.lastOf sourceName chunkIndex
                            (FirestoreTier.offered mentions scored topK) r)
                   (firstn j (map snd m))).
  { apply Forall_forall. intros r Hr. apply list_elem_of_In, firstn_In in Hr.
    apply in_map_iff in Hr as (e & <- & He).
    rewrite Forall_forall in Hall.
    destruct (Hall e (proj2 (list_elem_of_In _ _) He)) as [_ Hlast].
    split; [|exact Hlast].
    destruct Hlast as (before & after & Heq & _). apply Hoffered.
    rewrite Heq. apply in_or_app. right. now left. }
  assert (Hdistinct : NoDup (map (FirestoreTier.key sourceName chunkIndex)
                               (firstn j (map snd m)))).
  { rewrite <- firstn_map, Hkeys.
    eapply sublist_NoDup; [exact Hnd|apply sublist_take]. }
  split; [exact Hdistinct|]. split; [|split; [exact Hres|]].
  - intros Hk. rewrite length_firstn, (Hj Hk). lia.
  - intros Hnone. revert Hdistinct. apply NoDup_map_coarser.
    intros x y Hx Hy Heq. unfold FirestoreTier.key.
    rewrite Forall_forall in Hres.
    rewrite (Hnone x) by (apply Hres, list_elem_of_In, Hx).
    rewrite (Hnone y) by (apply Hres, list_elem_of_In, Hy).
    now rewrite Heq.
Qed.

Example must_include_is_displaced :
  FirestoreTier.selectResults (fun _ => None) Firestore.chunkIndex
    (fun d => String.eqb (Firestore.text d) "kot")
    [Samples.firstFile; Samples.secondFile] 5
  = [Samples.secondFile].
Proof. vm_compute. reflexivity. Qed.

(** ** The two callers of [worker] in [embedChunksWithConcurrency] *)
Section EmbedPoolFacts.
Import EmbedPool.
Context {Vec : Type} (vec : nat -> Vec) (n : nat).

Lemma seq_progress c :
  map (fun k => (k, n)) (seq 1 (S c))
  = map (fun k => (k, n)) (seq 1 c) ++ [(S c, n)].
Proof. now rewrite seq_S, map_app. Qed.

(** A turn of a caller in state [me], the other one being in [other]. *)
Lemma resume_invariant me other (p : Pool Vec) :
  (nextIndex p <= n)%nat ->
  length (results p) = n ->
  (forall i, me = Embedding i -> (i < nextIndex p)%nat) ->
  (forall i, other = Embedding i -> (i < nextIndex p)%nat) ->
  (forall i, me = Embedding i -> other <> Embedding i) ->
  (forall i, (i < n)%nat ->
     results p !! i
     = Some (if (i <? nextIndex p)%nat && negb (embeds me i || embeds other i)
             then Some (vec i) else None)) ->
  (completed p + busy me + busy other)%nat = nextIndex p ->
  onProgress p = map (fun k => (k, n)) (seq 1 (completed p)) ->
  (me = Finished -> nextIndex p = n) ->
  (other = Finished -> nextIndex p = n) ->
  (forall err, me <> Failed err) ->
  let me' := fst (resume (fun i => Returned (vec i)) n me p) in
  let p' := snd (resume (fun i => Returned (vec i)) n me p) in
  (nextIndex p' <= n)%nat /\
  length (results p') = n /\
  (forall i, me' = Embedding i -> (i < nextIndex p')%nat) /\
  (forall i, other = Embedding i -> (i < nextIndex p')%nat) /\
  (forall i, me' = Embedding i -> other <> Embedding i) /\
  (forall i, (i < n)%nat ->
     results p' !! i
     = Some (if (i <? nextIndex p')%nat && negb (embeds me' i || embeds other i)
             then Some (vec i) else None)) /\
  (completed p' + busy me' + busy other)%nat = nextIndex p' /\
  onProgress p' = map (fun k => (k, n)) (seq 1 (completed p')) /\
  (me' = Finished -> nextIndex p' = n) /\
  (other = Finished -> nextIndex p' = n) /\
  (forall err, me' <> Failed err) /\
  first p' = first p /\ second p' = second p.
Proof.
  intros Hnext Hlen Hme Hother Honce Hres Hcount Hprog Hdone Hodone Hsound.
  destruct me as [|index| |err]; cbn [resume].
  - destruct (Nat.ltb_spec (nextIndex p) n) as [Hlt|Hge];
      cbn [fst snd results completed nextIndex first second onProgress];
      refine (conj _ (conj _ (conj _ (conj _ (conj _ (conj _ (conj _
                (conj _ (conj _ (conj _ (conj _ (conj _ _))))))))))));
      try assumption; try reflexivity; try discriminate; try lia.
    + intros i [= <-]. lia.
    + intros i Hi. specialize (Hother i Hi). lia.
    + intros i [= <-] Ho. specialize (Hother _ Ho). lia.
    + intros i Hi. rewrite (Hres i Hi). cbn [embeds orb].
      destruct (Nat.ltb_spec i (nextIndex p)) as [Hlo|Hhi].
      * destruct (Nat.ltb_spec i (S (nextIndex p))); [|lia].
        destruct (Nat.eqb_spec (nextIndex p) i); [lia|]. reflexivity.
      * cbn [andb].
        destruct (Nat.eqb_spec (nextIndex p) i) as [Heq|Hne].
        -- cbn [orb negb]. now rewrite andb_false_r.
        -- destruct (Nat.ltb_spec i (S (nextIndex p))); [lia|]. reflexivity.
    + cbn [busy] in *. lia.
    + intros Ho. specialize (Hodone Ho). lia.
  - cbn [fst snd results completed nextIndex first second onProgress].
    pose proof (Hme index eq_refl) as Hidx.
    refine (conj _ (conj _ (conj _ (conj _ (conj _ (conj _ (conj _
              (conj _ (conj _ (conj _ (conj _ (conj _ _))))))))))));
      try assumption; try reflexivity; try discriminate; try lia.
    + now rewrite length_insert.
    + intros i Hi. rewrite list_lookup_insert.
      destruct (decide (index = i /\ (index < length (results p))%nat))
        as [[<- _]|Hno].
      * destruct (Nat.ltb_spec index (nextIndex p)); [|lia]. cbn [embeds orb andb].
        assert (Hfree : embeds other index = false).
        { destruct other as [|j| |e]; try reflexivity. cbn [embeds].
          destruct (Nat.eqb_spec j index) as [->|]; [|reflexivity].
          exfalso. now apply (Honce index eq_refl). }
        now rewrite Hfree.
      * assert (Hne : index <> i) by (intros ->; apply Hno; split; [reflexivity|lia]).
        rewrite (Hres i Hi). cbn [embeds orb].
        destruct (Nat.eqb_spec index i); [contradiction|]. reflexivity.
    + cbn [busy] in *. lia.
    + rewrite Hprog. symmetry. apply seq_progress.
  - cbn [fst snd].
    refine (conj _ (conj _ (conj _ (conj _ (conj _ (conj _ (conj _
              (conj _ (conj _ (conj _ (conj _ (conj _ _))))))))))));
      try assumption; reflexivity.
  - exfalso. now apply (Hsound err).
Qed.

Lemma pool_step_invariant (p : Pool Vec) w :
  invariant n vec p ->
  invariant n vec
    (step (fun i => Returned (vec i)) n p w).
Proof.
  intros [H1 H2 H3 H4 H5 H6 H7 H8 H9 H10 H11 H12]. destruct w; unfold step.
  - destruct (resume_invariant (first p) (second p) p H1 H2 H3 H4 H5 H6 H7 H8 H9
                H10 H11)
      as (G1 & G2 & G3 & G4 & G5 & G6 & G7 & G8 & G9 & G10 & G11 & _ & G13).
    destruct (resume (fun i => Returned (vec i)) n (first p) p) as [me p'].
    cbn [fst snd] in *. rewrite <- G13 in *.
    constructor; cbn [results completed nextIndex first second onProgress];
      assumption.
  - assert (H5' : forall i, second p = Embedding i -> first p <> Embedding i).
    { intros i Hs Hf. exact (H5 i Hf Hs). }
    assert (H6' : forall i, (i < n)%nat ->
              results p !! i
              = Some (if (i <? nextIndex p)%nat
                         && negb (embeds (second p) i || embeds (first p) i)
                      then Some (vec i) else None)).
    { intros i Hi. rewrite (H6 i Hi). now rewrite orb_comm. }
    assert (H7' : (completed p + busy (second p) + busy (first p))%nat
                  = nextIndex p) by lia.
    destruct (resume_invariant (second p) (first p) p H1 H2 H4 H3 H5' H6' H7' H8
                H10 H9 H12)
      as (G1 & G2 & G3 & G4 & G5 & G6 & G7 & G8 & G9 & G10 & G11 & G12 & _).
    destruct (resume (fun i => Returned (vec i)) n (second p) p) as [me p'].
    cbn [fst snd] in *. rewrite <- G12 in *.
    constructor; cbn [results completed nextIndex first second onProgress];
      try assumption.
    + intros i Hf Hs. exact (G5 i Hs Hf).
    + intros i Hi. rewrite (G6 i Hi). now rewrite orb_comm.
    + lia.
Qed.

Lemma pool_start_invariant :
  invariant n vec
    (start (fun i => Returned (vec i)) n).
Proof.
  unfold start. do 2 apply pool_step_invariant.
  constructor; cbn [results completed nextIndex first second onProgress busy];
    try discriminate; try reflexivity; try lia.
  - apply list.length_replicate.
  - intros i Hi. rewrite lookup_replicate_2 by exact Hi. reflexivity.
Qed.

Lemma pool_run_invariant schedule :
  invariant n vec
    (run (fun i => Returned (vec i)) n schedule).
Proof.
  unfold run. induction schedule as [|w schedule IH] using rev_ind.
  - apply pool_start_invariant.
  - rewrite fold_left_app. cbn [fold_left]. now apply pool_step_invariant.
Qed.

(** Turns use up [turnsLeft]: one's own turn takes one off while any is
    left, and a turn of the other caller adds none. *)
Lemma step_turnsLeft (embedText : nat -> outcome Vec) (p : Pool Vec) w :
  let p' := step embedText n p w in
  (turnsLeft n (first p') p'
   <= turnsLeft n (first p) p - (if w then 1 else 0))%nat /\
  (turnsLeft n (second p') p'
   <= turnsLeft n (second p) p - (if w then 0 else 1))%nat.
Proof.
  cbn zeta. destruct w; unfold step, resume.
  - destruct (first p) as [|index| |err] eqn:Hf;
      [destruct (Nat.ltb_spec (nextIndex p) n)|destruct (embedText index)| |];
      destruct (second p) eqn:Hs;
      cbn [first second nextIndex turnsLeft]; rewrite ?Hs;
      cbn [first second nextIndex turnsLeft]; lia.
  - destruct (second p) as [|index| |err] eqn:Hs;
      [destruct (Nat.ltb_spec (nextIndex p) n)|destruct (embedText index)| |];
      destruct (first p) eqn:Hf;
      cbn [first second nextIndex turnsLeft]; rewrite ?Hf;
      cbn [first second nextIndex turnsLeft]; lia.
Qed.

Lemma fold_turnsLeft (embedText : nat -> outcome Vec) schedule :
  forall p : Pool Vec,
    let p' := fold_left (step embedText n) schedule p in
    (turnsLeft n (first p') p'
     <= turnsLeft n (first p) p - count_occ Bool.bool_dec schedule true)%nat /\
    (turnsLeft n (second p') p'
     <= turnsLeft n (second p) p - count_occ Bool.bool_dec schedule false)%nat.
Proof.
  induction schedule as [|w schedule IH]; intros p; cbn zeta.
  - cbn [fold_left count_occ]. lia.
  - cbn [fold_left]. destruct (IH (step embedText n p w)) as [Hf Hs].
    destruct (step_turnsLeft embedText p w) as [Hf1 Hs1]. cbn zeta in *.
    destruct w; cbn [count_occ];
      destruct (Bool.bool_dec _ _) as [Heq|Hne]; try discriminate;
      try (exfalso; now apply Hne);
      destruct (Bool.bool_dec _ _) as [Heq'|Hne']; try discriminate;
      try (exfalso; now apply Hne'); lia.
Qed.

Lemma start_turnsLeft (embedText : nat -> outcome Vec) :
  (turnsLeft n (first (start embedText n)) (start embedText n) <= 2 + 2 * n)%nat /\
  (turnsLeft n (second (start embedText n)) (start embedText n) <= 2 + 2 * n)%nat.
Proof.
  unfold start.
  set (p0 := {| results := replicate n None; completed := 0; nextIndex := 0;
                first := AtLoop; second := AtLoop; onProgress := [] |}).
  destruct (step_turnsLeft embedText p0 true) as [Hf1 Hs1].
  destruct (step_turnsLeft embedText (step embedText n p0 true) false) as [Hf2 Hs2].
  cbn zeta in *. cbn [p0 first second turnsLeft nextIndex] in Hf1, Hs1. lia.
Qed.

End EmbedPoolFacts.

(** X25.  However the turns of the two callers of [worker] interleave,
    when no embedding fails and both have returned, [results] holds the
    vector of every chunk at the index of the chunk, and [onProgress] was
    called with 1, 2, ..., [chunks.length], in this order.  Both have
    returned once each of them has had [2 * chunks.length + 2] turns. *)
Theorem pool_fills_every_index {Vec : Type} (vec : nat -> Vec) (n : nat)
    (schedule : list bool) :
  (forall vectors,
     EmbedPool.returned (EmbedPool.run (fun i => Returned (vec i)) n schedule)
     = Some vectors ->
     vectors = map (fun i => Some (vec i)) (seq 0 n) /\
     EmbedPool.onProgress (EmbedPool.run (fun i => Returned (vec i)) n schedule)
     = map (fun k => (k, n)) (seq 1 n)) /\
  ((2 * n + 2 <= count_occ Bool.bool_dec schedule true)%nat ->
   (2 * n + 2 <= count_occ Bool.bool_dec schedule false)%nat ->
   exists vectors,
     EmbedPool.returned (EmbedPool.run (fun i => Returned (vec i)) n schedule)
     = Some vectors).
Proof.
  pose proof (pool_run_invariant vec n schedule) as Hinv.
  set (p := EmbedPool.run (fun i => Returned (vec i)) n schedule) in *.
  split.
  - intros vectors Hret. unfold EmbedPool.returned in Hret.
    destruct (EmbedPool.first p) eqn:Hf; try discriminate.
    destruct (EmbedPool.second p) eqn:Hs; try discriminate.
    injection Hret as <-.
    destruct Hinv as [H1 H2 H3 H4 H5 H6 H7 H8 H9 H10 H11 H12].
    rewrite Hf, Hs in *. cbn [EmbedPool.busy EmbedPool.embeds orb negb] in *.
    pose proof (H9 eq_refl) as Hall.
    split.
    + apply list_eq. intros i.
      destruct (Nat.lt_ge_cases i n) as [Hi|Hi].
      * rewrite (H6 i Hi).
        destruct (Nat.ltb_spec i (EmbedPool.nextIndex p)); [|lia]. cbn [andb].
        change (map (fun i0 => Some (vec i0)) (seq 0 n))
          with ((fun i0 => Some (vec i0)) <$> seq 0 n).
        rewrite list_lookup_fmap, lookup_seq_lt by exact Hi. reflexivity.
      * rewrite !lookup_ge_None_2; [reflexivity| |].
        -- rewrite length_map, length_seq. exact Hi.
        -- rewrite H2. exact Hi.
    + rewrite H8. do 2 f_equal. lia.
  - intros Hfirst Hsecond. unfold EmbedPool.returned.
    destruct (fold_turnsLeft n (fun i => Returned (vec i)) schedule
                (EmbedPool.start (fun i => Returned (vec i)) n)) as [Hf Hs].
    destruct (start_turnsLeft n (fun i => Returned (vec i))) as [Hf0 Hs0].
    cbn zeta in Hf, Hs. fold (EmbedPool.run (fun i => Returned (vec i)) n schedule) in Hf, Hs.
    fold p in Hf, Hs.
    destruct Hinv as [H1 H2 H3 H4 H5 H6 H7 H8 H9 H10 H11 H12].
    destruct (EmbedPool.first p) as [|i| |e] eqn:Hfp;
      cbn [EmbedPool.turnsLeft] in Hf; try lia; [|exfalso; now apply (H11 e)].
    destruct (EmbedPool.second p) as [|i| |e] eqn:Hsp;
      cbn [EmbedPool.turnsLeft] in Hs; try lia; [|exfalso; now apply (H12 e)].
    eauto.
Qed.

(** ** The archive worker and the bridge of services/vector-store.ts *)

Section ArchiveWorkerFacts.
Context {Vec Result : Type}.
Variable env : ArchiveWorker.Env Vec Result.

Lemma openIdb_keeps (w : ArchiveWorker.Worker Vec Result) :
  ArchiveWorker.posted (fst (ArchiveWorker.openIdb env w)) = ArchiveWorker.posted w
  /\ ArchiveWorker.chunks (fst (ArchiveWorker.openIdb env w)) = ArchiveWorker.chunks w
  /\ ArchiveWorker.embedderPromise (fst (ArchiveWorker.openIdb env w))
     = ArchiveWorker.embedderPromise w.
Proof.
  unfold ArchiveWorker.openIdb.
  destruct (negb (ArchiveWorker.hasIndexedDB env)); [now cbn|].
  destruct (ArchiveWorker.idbPromise w) as [[u|err]|]; now cbn.
Qed.

Lemma embed_keeps (text_ : string) (w : ArchiveWorker.Worker Vec Result) :
  ArchiveWorker.posted (fst (ArchiveWorker.embed env text_ w)) = ArchiveWorker.posted w
  /\ ArchiveWorker.chunks (fst (ArchiveWorker.embed env text_ w)) = ArchiveWorker.chunks w
  /\ ArchiveWorker.idbPromise (fst (ArchiveWorker.embed env text_ w))
     = ArchiveWorker.idbPromise w.
Proof.
  unfold ArchiveWorker.embed.
  destruct (ArchiveWorker.embedderPromise w) as [[u|err]|]; cbn.
  - now destruct (ArchiveWorker.runEmbedder env text_).
  - easy.
  - destruct (ArchiveWorker.loadPipeline env); [|easy].
    now destruct (ArchiveWorker.runEmbedder env text_).
Qed.

Lemma storeChunk_posted (c : ArchiveWorker.Stored Vec)
    (w : ArchiveWorker.Worker Vec Result) :
  ArchiveWorker.posted (fst (ArchiveWorker.storeChunk env c w)) = ArchiveWorker.posted w.
Proof.
  unfold ArchiveWorker.storeChunk.
  pose proof (openIdb_keeps w) as [Hposted _].
  destruct (ArchiveWorker.openIdb env w) as [w1 [[|]|err]]; cbn in *; try exact Hposted.
  destruct (ArchiveWorker.putRequest env c); cbn; exact Hposted.
Qed.

Lemma getAllChunks_posted (w : ArchiveWorker.Worker Vec Result) :
  ArchiveWorker.posted (fst (ArchiveWorker.getAllChunks env w)) = ArchiveWorker.posted w.
Proof.
  unfold ArchiveWorker.getAllChunks.
  pose proof (openIdb_keeps w) as [Hposted _].
  destruct (ArchiveWorker.openIdb env w) as [w1 [[|]|err]]; cbn in *; try exact Hposted.
  destruct (ArchiveWorker.getAllRequest env); cbn; exact Hposted.
Qed.

Lemma clearAllChunks_posted (w : ArchiveWorker.Worker Vec Result) :
  ArchiveWorker.posted (fst (ArchiveWorker.clearAllChunks env w)) = ArchiveWorker.posted w.
Proof.
  unfold ArchiveWorker.clearAllChunks.
  pose proof (openIdb_keeps w) as [Hposted _].
  destruct (ArchiveWorker.openIdb env w) as [w1 [[|]|err]]; cbn in *; try exact Hposted.
  destruct (ArchiveWorker.clearRequest env); cbn; exact Hposted.
Qed.

(** One turn of the loop of [handleStoreChunks] posts nothing and adds one
    result, which carries the id of the record when the chunk was stored
    and [chunk.id] when it was not. *)
Lemma storeOne_result (chunk : VectorStore.ArchiveChunk)
    (w : ArchiveWorker.Worker Vec Result) (results : list ArchiveWorker.StoreResult) :
  exists r,
    snd (ArchiveWorker.storeOne env chunk (w, results)) = results ++ [r]
    /\ ArchiveWorker.posted (fst (ArchiveWorker.storeOne env chunk (w, results)))
       = ArchiveWorker.posted w
    /\ ArchiveWorker.result_id r
       = (if ArchiveWorker.result_success r then ArchiveWorker.recordId chunk
          else VectorStore.chunk_id chunk).
Proof.
  unfold ArchiveWorker.storeOne.
  pose proof (embed_keeps (VectorStore.chunk_text chunk) w) as [Hembed _].
  destruct (ArchiveWorker.embed env (VectorStore.chunk_text chunk) w) as [w1 [v|err]];
    cbn [fst] in Hembed.
  - match goal with
    | |- context [ArchiveWorker.storeChunk env ?c w1] =>
        pose proof (storeChunk_posted c w1) as Hstore;
        destruct (ArchiveWorker.storeChunk env c w1) as [w2 [u|err]]
    end; cbn [fst] in Hstore; eexists; cbn [fst snd];
      (split; [reflexivity|split; [congruence|reflexivity]]).
  - eexists; cbn [fst snd]. split; [reflexivity|split; [exact Hembed|reflexivity]].
Qed.

Lemma storeLoop_results (chunks_ : list VectorStore.ArchiveChunk) :
  forall (w : ArchiveWorker.Worker Vec Result) (results : list ArchiveWorker.StoreResult),
  exists added,
    snd (fold_left (fun st chunk => ArchiveWorker.storeOne env chunk st) chunks_ (w, results))
    = results ++ added
    /\ ArchiveWorker.posted
         (fst (fold_left (fun st chunk => ArchiveWorker.storeOne env chunk st)
                 chunks_ (w, results)))
       = ArchiveWorker.posted w
    /\ Forall2
         (fun chunk r =>
            ArchiveWorker.result_id r
            = (if ArchiveWorker.result_success r then ArchiveWorker.recordId chunk
               else VectorStore.chunk_id chunk))
         chunks_ added.
Proof.
  induction chunks_ as [|chunk rest IH]; intros w results.
  - exists []. cbn. rewrite app_nil_r. repeat split. constructor.
  - cbn [fold_left].
    destruct (storeOne_result chunk w results) as [r [Hsnd [Hposted Hid]]].
    destruct (ArchiveWorker.storeOne env chunk (w, results)) as [w1 results1] eqn:Hone.
    cbn [fst snd] in Hsnd, Hposted. subst results1.
    destruct (IH w1 (results ++ [r])) as [added [Hsnd' [Hposted' Hall]]].
    exists (r :: added). split; [|split].
    + rewrite Hsnd', <- app_assoc. reflexivity.
    + rewrite Hposted'. exact Hposted.
    + constructor; assumption.
Qed.

(** Every request of the five types is answered by one message, whose
    type is the one that the bridge expects for the request or the type of
    an error with its text. *)
Lemma onmessage_reply (r : ArchiveWorker.Request) (w : ArchiveWorker.Worker Vec Result)
    (Hknown : forall type, r <> ArchiveWorker.Unknown type) :
  exists m,
    ArchiveWorker.posted (ArchiveWorker.onmessage env r w) = ArchiveWorker.posted w ++ [m]
    /\ ((VectorStore.msg_type m = VectorStore.getResponseType (ArchiveWorker.requestType r)
         /\ VectorStore.isErrorType (VectorStore.msg_type m) = false)
        \/ (VectorStore.isErrorType (VectorStore.msg_type m) = true
            /\ (exists err, VectorStore.msg_error m = Some err)
            /\ forall chunks_, r <> ArchiveWorker.StoreChunks chunks_)).
Proof.
  destruct r as [|chunks_|query topK| | |type]; cbn [ArchiveWorker.onmessage].
  - unfold ArchiveWorker.init.
    pose proof (openIdb_keeps w) as [Hposted _].
    destruct (ArchiveWorker.openIdb env w) as [w1 [b|err]]; cbn [fst] in Hposted;
      eexists; (split; [cbn; rewrite Hposted; reflexivity|]).
    + left. now vm_compute.
    + right. split; [now vm_compute|]. split; [now eexists|discriminate].
  - unfold ArchiveWorker.handleStoreChunks.
    destruct (storeLoop_results chunks_ w []) as [added [_ [Hposted _]]].
    destruct (fold_left _ chunks_ (w, [])) as [w1 results]. cbn [fst] in Hposted.
    eexists. split; [cbn; rewrite Hposted; reflexivity|].
    left. now vm_compute.
  - unfold ArchiveWorker.handleSearch.
    pose proof (embed_keeps query w) as [Hembed _].
    destruct (ArchiveWorker.embed env query w) as [w1 [v|err]]; cbn [fst] in Hembed.
    + pose proof (getAllChunks_posted w1) as Hall.
      destruct (ArchiveWorker.getAllChunks env w1) as [w2 [[|c all]|err]];
        cbn [fst] in Hall; eexists;
        (split; [cbn; rewrite Hall, Hembed; reflexivity|]).
      * left. now vm_compute.
      * left. now vm_compute.
      * right. split; [now vm_compute|]. split; [now eexists|discriminate].
    + eexists. split; [cbn; rewrite Hembed; reflexivity|].
      right. split; [now vm_compute|]. split; [now eexists|discriminate].
  - unfold ArchiveWorker.handleGetStats.
    pose proof (getAllChunks_posted w) as Hall.
    destruct (ArchiveWorker.getAllChunks env w) as [w1 [all|err]]; cbn [fst] in Hall;
      eexists; (split; [cbn; rewrite Hall; reflexivity|]).
    + left. now vm_compute.
    + right. split; [now vm_compute|]. split; [now eexists|discriminate].
  - unfold ArchiveWorker.handleClear.
    pose proof (clearAllChunks_posted w) as Hall.
    destruct (ArchiveWorker.clearAllChunks env w) as [w1 [u|err]]; cbn [fst] in Hall;
      eexists; (split; [cbn; rewrite Hall; reflexivity|]).
    + left. now vm_compute.
    + right. split; [now vm_compute|]. split; [now eexists|discriminate].
  - now destruct (Hknown type).
Qed.

End ArchiveWorkerFacts.

(** X26.  A request of services/vector-store.ts and the worker's answer.
    The worker answers a request of each of the five types with exactly
    one message.  When the message is not an error, it resolves the call
    of that request, provided no older call in flight expects the same
    response type.  When it is an error (never for "storeChunks"), it
    rejects the oldest call in flight with the error's text, which is the
    call of the request only if no other call is older. *)
Theorem archive_reply_settles_a_call {Vec Result Payload : Type}
    (env : ArchiveWorker.Env Vec Result) (r : ArchiveWorker.Request)
    (w : ArchiveWorker.Worker Vec Result)
    (s : VectorStore.Bridge Payload (ArchiveWorker.Reply Result))
    (before after : list (Z * string)) (id : Z)
    (Hknown : forall type, r <> ArchiveWorker.Unknown type)
    (Hpending : VectorStore.pendingCallbacks s
                = before ++ (id, ArchiveWorker.requestType r) :: after)
    (Hfirst : Forall (fun callback =>
                        VectorStore.getResponseType (snd callback)
                        <> VectorStore.getResponseType (ArchiveWorker.requestType r))
                before) :
  exists m,
    ArchiveWorker.posted (ArchiveWorker.onmessage env r w) = ArchiveWorker.posted w ++ [m]
    /\ ((VectorStore.msg_type m
         = VectorStore.getResponseType (ArchiveWorker.requestType r)
         /\ VectorStore.pendingCallbacks (VectorStore.onmessage m s) = before ++ after
         /\ VectorStore.settled (VectorStore.onmessage m s)
            = VectorStore.settled s ++ [(id, VectorStore.Resolved (VectorStore.msg_data m))])
        \/ (exists err oldest rest,
              VectorStore.msg_error m = Some err
              /\ (forall chunks_, r <> ArchiveWorker.StoreChunks chunks_)
              /\ VectorStore.pendingCallbacks s = oldest :: rest
              /\ VectorStore.pendingCallbacks (VectorStore.onmessage m s) = rest
              /\ VectorStore.settled (VectorStore.onmessage m s)
                 = VectorStore.settled s ++
                   [(fst oldest,
                     VectorStore.Rejected
                       (if String.eqb err "" then "Unknown error" else err))])).
Proof.
  destruct (onmessage_reply env r w Hknown) as [m [Hposted Hreply]].
  exists m. split; [exact Hposted|].
  destruct Hreply as [[Htype Hok]|[Herr [[err Htext] Hnostore]]].
  - left. split; [exact Htype|].
    assert (Hmiss : Forall (fun cb => VectorStore.answers m cb = false) before).
    { eapply List.Forall_impl; [|exact Hfirst]. intros cb Hne. cbn beta in Hne.
      unfold VectorStore.answers. rewrite Hok, orb_false_r, Htype.
      apply String.eqb_neq. congruence. }
    assert (Hhit : VectorStore.answers m (id, ArchiveWorker.requestType r) = true).
    { unfold VectorStore.answers. cbn [snd]. rewrite Htype, String.eqb_refl.
      reflexivity. }
    unfold VectorStore.onmessage.
    rewrite Hpending, (route_hit m before _ after Hmiss Hhit), Hok. now split.
  - right.
    destruct (before ++ (id, ArchiveWorker.requestType r) :: after)
      as [|[id0 type0] rest] eqn:Hlist; [now destruct before|].
    exists err, (id0, type0), rest.
    assert (Hhit : VectorStore.answers m (id0, type0) = true).
    { unfold VectorStore.answers. now rewrite Herr, orb_true_r. }
    pose proof (route_hit m [] (id0, type0) rest (List.Forall_nil _) Hhit) as Hroute.
    cbn [app] in Hroute.
    unfold VectorStore.onmessage. rewrite Hpending, Hroute, Herr.
    unfold VectorStore.errorText. rewrite Htext. now repeat split.
Qed.

Lemma archive_reply_settles_a_call_witness :
  exists m,
    ArchiveWorker.posted
      (ArchiveWorker.onmessage Samples.archiveEnv ArchiveWorker.GetStats
         Samples.freshArchive)
    = ArchiveWorker.posted Samples.freshArchive ++ [m]
    /\ ((VectorStore.msg_type m = VectorStore.getResponseType "getStats"
         /\ VectorStore.pendingCallbacks (VectorStore.onmessage m Samples.searchThenStats)
            = [(1, "search")] ++ []
         /\ VectorStore.settled (VectorStore.onmessage m Samples.searchThenStats)
            = VectorStore.settled Samples.searchThenStats
              ++ [(2, VectorStore.Resolved (VectorStore.msg_data m))])
        \/ (exists err oldest rest,
              VectorStore.msg_error m = Some err
              /\ (forall chunks_,
                    ArchiveWorker.GetStats <> ArchiveWorker.StoreChunks chunks_)
              /\ VectorStore.pendingCallbacks Samples.searchThenStats = oldest :: rest
              /\ VectorStore.pendingCallbacks
                   (VectorStore.onmessage m Samples.searchThenStats) = rest
              /\ VectorStore.settled (VectorStore.onmessage m Samples.searchThenStats)
                 = VectorStore.settled Samples.searchThenStats ++
                   [(fst oldest,
                     VectorStore.Rejected
                       (if String.eqb err "" then "Unknown error" else err))])).
Proof.
  apply (archive_reply_settles_a_call Samples.archiveEnv ArchiveWorker.GetStats
           Samples.freshArchive Samples.searchThenStats [(1, "search")] [] 2).
  - discriminate.
  - reflexivity.
  - constructor; [|constructor]. vm_compute. discriminate.
Defined.

Section ArchiveStoreFacts.
Context {Vec Result : Type}.
Variable env : ArchiveWorker.Env Vec Result.

Lemma storeOne_stores (Hdb : ArchiveWorker.hasIndexedDB env = true)
    (chunk : VectorStore.ArchiveChunk) (v : Vec)
    (w : ArchiveWorker.Worker Vec Result) (results : list ArchiveWorker.StoreResult) :
  ArchiveWorker.healthy env w ->
  ArchiveWorker.runEmbedder env (VectorStore.chunk_text chunk) = Returned v ->
  ArchiveWorker.putRequest env (ArchiveWorker.record env chunk v) = Returned tt ->
  exists w',
    ArchiveWorker.storeOne env chunk (w, results)
    = (w', results ++ [{| ArchiveWorker.result_id := ArchiveWorker.recordId chunk;
                          ArchiveWorker.result_success := true;
                          ArchiveWorker.result_error := None |}])
    /\ ArchiveWorker.healthy env w'
    /\ ArchiveWorker.posted w' = ArchiveWorker.posted w
    /\ ArchiveWorker.chunks w'
       = ArchiveWorker.put (ArchiveWorker.record env chunk v) (ArchiveWorker.chunks w).
Proof.
  intros [Hopen Hload] Hembed Hput.
  unfold ArchiveWorker.storeOne, ArchiveWorker.embed, ArchiveWorker.storeChunk,
    ArchiveWorker.openIdb, ArchiveWorker.healthy, ArchiveWorker.database,
    ArchiveWorker.embedder in *.
  rewrite Hdb. cbn [negb].
  destruct w as [stored idb emb sent]; cbn [ArchiveWorker.idbPromise
    ArchiveWorker.embedderPromise ArchiveWorker.chunks ArchiveWorker.posted] in *.
  destruct emb as [p|]; [subst p|rewrite Hload];
    rewrite Hembed; cbn [ArchiveWorker.idbPromise ArchiveWorker.embedderPromise
                         ArchiveWorker.chunks ArchiveWorker.posted];
    (destruct idb as [q|]; [subst q|rewrite Hopen]); rewrite Hput;
    eexists; (split; [reflexivity|]); cbn; now rewrite ?Hopen, ?Hload.
Qed.

Lemma storeLoop_stores (Hdb : ArchiveWorker.hasIndexedDB env = true)
    (vec : string -> Vec) (chunks_ : list VectorStore.ArchiveChunk) :
  forall (w : ArchiveWorker.Worker Vec Result) (results : list ArchiveWorker.StoreResult),
  ArchiveWorker.healthy env w ->
  (forall c, In c chunks_ ->
     ArchiveWorker.runEmbedder env (VectorStore.chunk_text c)
     = Returned (vec (VectorStore.chunk_text c))) ->
  (forall c, In c chunks_ ->
     ArchiveWorker.putRequest env
       (ArchiveWorker.record env c (vec (VectorStore.chunk_text c))) = Returned tt) ->
  exists w',
    fold_left (fun st chunk => ArchiveWorker.storeOne env chunk st) chunks_ (w, results)
    = (w', results ++
           map (fun c => {| ArchiveWorker.result_id := ArchiveWorker.recordId c;
                            ArchiveWorker.result_success := true;
                            ArchiveWorker.result_error := None |}) chunks_)
    /\ ArchiveWorker.posted w' = ArchiveWorker.posted w
    /\ ArchiveWorker.chunks w'
       = fold_left
           (fun l c =>
              ArchiveWorker.put
                (ArchiveWorker.record env c (vec (VectorStore.chunk_text c))) l)
           chunks_ (ArchiveWorker.chunks w).
Proof.
  induction chunks_ as [|chunk rest IH]; intros w results Hw Hembed Hput.
  - exists w. cbn. now rewrite app_nil_r.
  - cbn [fold_left map].
    destruct (storeOne_stores Hdb chunk (vec (VectorStore.chunk_text chunk)) w results
                Hw (Hembed chunk (or_introl eq_refl)) (Hput chunk (or_introl eq_refl)))
      as [w1 [Hone [Hw1 [Hposted Hchunks]]]].
    rewrite Hone.
    destruct (IH w1 (results ++ [{| ArchiveWorker.result_id := ArchiveWorker.recordId chunk;
                                    ArchiveWorker.result_success := true;
                                    ArchiveWorker.result_error := None |}]) Hw1
                (fun c Hc => Hembed c (or_intror Hc))
                (fun c Hc => Hput c (or_intror Hc)))
      as [w2 [Hloop [Hposted2 Hchunks2]]].
    exists w2. rewrite Hloop, <- app_assoc. cbn [app].
    split; [reflexivity|]. split; [congruence|]. now rewrite Hchunks2, Hchunks.
Qed.

Lemma put_ordered (c : ArchiveWorker.Stored Vec) l :
  ArchiveWorker.keyOrdered l ->
  ArchiveWorker.keyOrdered (ArchiveWorker.put c l) /\
  forall x, In x (ArchiveWorker.put c l) <->
            x = c \/ (In x l /\ ArchiveWorker.stored_id x <> ArchiveWorker.stored_id c).
Proof.
  unfold ArchiveWorker.keyOrdered.
  induction 1 as [|y rest Hrest IH Hy]; cbn [ArchiveWorker.put].
  - split; [repeat constructor|]. intros x. cbn [In]. intuition.
  - destruct IH as [IHs IHin]. rewrite List.Forall_forall in Hy.
    destruct (String.compare (ArchiveWorker.stored_id y) (ArchiveWorker.stored_id c))
      eqn:Hcmp.
    + apply String.compare_eq_iff in Hcmp. split.
      * constructor; [exact Hrest|]. apply List.Forall_forall. intros x Hx.
        rewrite <- Hcmp. now apply Hy.
      * intros x. cbn [In]. split.
        -- intros [<-|Hx]; [now left|right]. split; [now right|].
           intros Heq. specialize (Hy x Hx).
           rewrite Heq, <- Hcmp, string_compare_refl in Hy. discriminate.
        -- intros [->|[[<-|Hx] Hne]]; [now left| |now right].
           now contradiction Hne.
    + assert (Hyc : ArchiveWorker.stored_id y <> ArchiveWorker.stored_id c)
        by (intros Heq; rewrite Heq, string_compare_refl in Hcmp; discriminate).
      split.
      * constructor; [exact IHs|]. apply List.Forall_forall. intros x Hx.
        apply IHin in Hx as [->|[Hx _]]; [exact Hcmp|now apply Hy].
      * intros x. cbn [In]. rewrite IHin. split.
        -- intros [<-|[->|[Hx Hne]]]; [right; split; [now left|auto]
                                       |now left|right; split; [now right|auto]].
        -- intros [->|[[<-|Hx] Hne]]; [right; now left|now left|right; right; auto].
    + assert (Hcy : String.compare (ArchiveWorker.stored_id c)
                      (ArchiveWorker.stored_id y) = Lt)
        by (rewrite String.compare_antisym, Hcmp; reflexivity).
      assert (Hall : forall x, In x (y :: rest) ->
                String.compare (ArchiveWorker.stored_id c)
                  (ArchiveWorker.stored_id x) = Lt).
      { intros x [<-|Hx]; [exact Hcy|].
        exact (string_compare_lt_trans _ _ _ Hcy (Hy x Hx)). }
      split.
      * constructor; [constructor; [exact Hrest|now apply List.Forall_forall]|].
        now apply List.Forall_forall.
      * intros x. split.
        -- intros [<-|Hx]; [now left|right]. split; [exact Hx|].
           intros Heq. specialize (Hall x Hx).
           rewrite Heq, string_compare_refl in Hall. discriminate.
        -- intros [->|[Hx _]]; [now left|now right].
Qed.

Lemma puts_ordered (mk : VectorStore.ArchiveChunk -> ArchiveWorker.Stored Vec)
    (key : VectorStore.ArchiveChunk -> string)
    (Hkey : forall c, ArchiveWorker.stored_id (mk c) = key c)
    (chunks_ : list VectorStore.ArchiveChunk) :
  forall l,
    NoDup (map key chunks_) ->
    ArchiveWorker.keyOrdered l ->
    let l' := fold_left (fun l c => ArchiveWorker.put (mk c) l) chunks_ l in
    ArchiveWorker.keyOrdered l' /\
    forall x, In x l' <->
              (exists c, In c chunks_ /\ x = mk c)
              \/ (In x l /\ ~ In (ArchiveWorker.stored_id x) (map key chunks_)).
Proof.
  induction chunks_ as [|chunk rest IH]; intros l Hids Hl; cbn zeta.
  - cbn [fold_left map In]. split; [exact Hl|]. intros x. split.
    + intros Hx. right. split; [exact Hx|tauto].
    + intros [[c [[] _]]|[Hx _]]. exact Hx.
  - cbn [map] in Hids. apply NoDup_cons in Hids as [Hfresh Hrest].
    rewrite list_elem_of_In in Hfresh.
    destruct (put_ordered (mk chunk) l Hl) as [Hl1 Hin1].
    destruct (IH _ Hrest Hl1) as [Hl2 Hin2]. cbn zeta in Hl2, Hin2.
    cbn [fold_left]. split; [exact Hl2|]. intros x.
    rewrite Hin2, Hin1. cbn [map In]. split.
    + intros [[c [Hc ->]]|[[->|[Hx Hne]] Hout]].
      * left. exists c. split; [now right|reflexivity].
      * left. exists chunk. split; [now left|reflexivity].
      * right. split; [exact Hx|]. rewrite Hkey in Hne.
        intros [Heq|Hin]; [now apply Hne|now apply Hout].
    + intros [[c [[<-|Hc] ->]]|[Hx Hout]].
      * right. split; [now left|]. now rewrite Hkey.
      * left. exists c. split; [exact Hc|reflexivity].
      * right. split; [|tauto]. right. split; [exact Hx|].
        rewrite Hkey. intros Heq. apply Hout. now left.
Qed.

Lemma length_filter_successes (chunks_ : list VectorStore.ArchiveChunk) :
  length (List.filter ArchiveWorker.result_success
            (map (fun c => {| ArchiveWorker.result_id := ArchiveWorker.recordId c;
                              ArchiveWorker.result_success := true;
                              ArchiveWorker.result_error := None |}) chunks_))
  = length chunks_.
Proof. induction chunks_ as [|c rest IH]; cbn; [reflexivity|now rewrite IH]. Qed.

End ArchiveStoreFacts.

(** X27.  What "storeChunks" leaves in the archive when the database
    opens, the embedder loads and embeds every text, and every put
    succeeds.  The reply reports every chunk as stored, under the id of
    its record, and counts them all.  When the ids of the records differ
    and the store is in key order with one record per key, as IndexedDB
    keeps it, the store is so again afterwards, and it holds exactly the
    record of every chunk, with the embedding of its text, and every
    older record whose id is not that of a new record: an older record
    with the id of a new one has been replaced. *)
Theorem stored_chunks_are_kept {Vec Result : Type}
    (env : ArchiveWorker.Env Vec Result) (vec : string -> Vec)
    (chunks_ : list VectorStore.ArchiveChunk) (w : ArchiveWorker.Worker Vec Result)
    (Hdb : ArchiveWorker.hasIndexedDB env = true)
    (Hopen : ArchiveWorker.database env w = Returned tt)
    (Hload : ArchiveWorker.embedder env w = Returned tt)
    (Hembed : forall c, In c chunks_ ->
                ArchiveWorker.runEmbedder env (VectorStore.chunk_text c)
                = Returned (vec (VectorStore.chunk_text c)))
    (Hput : forall c, In c chunks_ ->
              ArchiveWorker.putRequest env
                (ArchiveWorker.record env c (vec (VectorStore.chunk_text c)))
              = Returned tt) :
  let w' := ArchiveWorker.handleStoreChunks env chunks_ w in
  ArchiveWorker.posted w'
  = ArchiveWorker.posted w ++
    [{| VectorStore.msg_type := "storeComplete"; VectorStore.msg_error := None;
        VectorStore.msg_data :=
          ArchiveWorker.StoreResults
            (map (fun c => {| ArchiveWorker.result_id := ArchiveWorker.recordId c;
                              ArchiveWorker.result_success := true;
                              ArchiveWorker.result_error := None |}) chunks_)
            (Z.of_nat (length chunks_)) |}]
  /\ (NoDup (map ArchiveWorker.recordId chunks_) ->
      ArchiveWorker.keyOrdered (ArchiveWorker.chunks w) ->
      ArchiveWorker.keyOrdered (ArchiveWorker.chunks w')
      /\ forall x,
           In x (ArchiveWorker.chunks w') <->
           (exists c, In c chunks_
                      /\ x = ArchiveWorker.record env c
                               (vec (VectorStore.chunk_text c)))
           \/ (In x (ArchiveWorker.chunks w)
               /\ ~ In (ArchiveWorker.stored_id x)
                      (map ArchiveWorker.recordId chunks_))).
Proof.
  intros w'. subst w'. unfold ArchiveWorker.handleStoreChunks.
  destruct (storeLoop_stores env Hdb vec chunks_ w [] (conj Hopen Hload) Hembed Hput)
    as [w1 [Hloop [Hposted Hchunks]]].
  rewrite Hloop. cbn [app].
  unfold ArchiveWorker.postResult. cbn [ArchiveWorker.posted ArchiveWorker.chunks].
  rewrite Hposted, length_filter_successes, Hchunks.
  split; [reflexivity|]. intros Hids Hordered.
  exact (puts_ordered
           (fun c => ArchiveWorker.record env c (vec (VectorStore.chunk_text c)))
           ArchiveWorker.recordId (fun c => eq_refl) chunks_
           (ArchiveWorker.chunks w) Hids Hordered).
Qed.

Lemma stored_chunks_are_kept_witness :
  NoDup (map ArchiveWorker.recordId Samples.editedChunks) /\
  ArchiveWorker.keyOrdered (ArchiveWorker.chunks Samples.archivedOnce) /\
  map ArchiveWorker.stored_text (ArchiveWorker.chunks Samples.archivedOnce)
  = ["[user] Witam"; "[assistant] Witam serdecznie"] /\
  map ArchiveWorker.stored_text
    (ArchiveWorker.chunks
       (ArchiveWorker.handleStoreChunks Samples.archiveEnv Samples.editedChunks
          Samples.archivedOnce))
  = ["[user] Dzien dobry"; "[assistant] Dzien dobry"] /\
  let w' := ArchiveWorker.handleStoreChunks Samples.archiveEnv Samples.editedChunks
              Samples.archivedOnce in
  ArchiveWorker.posted w'
  = ArchiveWorker.posted Samples.archivedOnce ++
    [{| VectorStore.msg_type := "storeComplete"; VectorStore.msg_error := None;
        VectorStore.msg_data :=
          ArchiveWorker.StoreResults
            (map (fun c => {| ArchiveWorker.result_id := ArchiveWorker.recordId c;
                              ArchiveWorker.result_success := true;
                              ArchiveWorker.result_error := None |})
               Samples.editedChunks)
            (Z.of_nat (length Samples.editedChunks)) |}]
  /\ (NoDup (map ArchiveWorker.recordId Samples.editedChunks) ->
      ArchiveWorker.keyOrdered (ArchiveWorker.chunks Samples.archivedOnce) ->
      ArchiveWorker.keyOrdered (ArchiveWorker.chunks w')
      /\ forall x,
           In x (ArchiveWorker.chunks w') <->
           (exists c, In c Samples.editedChunks
                      /\ x = ArchiveWorker.record Samples.archiveEnv c [])
           \/ (In x (ArchiveWorker.chunks Samples.archivedOnce)
               /\ ~ In (ArchiveWorker.stored_id x)
                      (map ArchiveWorker.recordId Samples.editedChunks))).
Proof.
  split; [apply (bool_decide_unpack _); vm_compute; exact I|].
  split.
  { unfold ArchiveWorker.keyOrdered.
    replace (ArchiveWorker.chunks Samples.archivedOnce)
      with (map (fun c => ArchiveWorker.record Samples.archiveEnv c [])
              Samples.archivedChunks) by (vm_compute; reflexivity).
    cbn [Samples.archivedChunks VectorStore.formatChunks map].
    repeat constructor. }
  split; [vm_compute; reflexivity|].
  split; [vm_compute; reflexivity|].
  apply (stored_chunks_are_kept Samples.archiveEnv (fun _ => [])
           Samples.editedChunks Samples.archivedOnce); reflexivity.
Defined.

Section ArchiveFailureFacts.
Context {Vec Result : Type}.
Variable env : ArchiveWorker.Env Vec Result.
Hypothesis Hdb : ArchiveWorker.hasIndexedDB env = true.

Lemma openIdb_failed (w : ArchiveWorker.Worker Vec Result) (err : string) :
  ArchiveWorker.idbPromise w = Some (Thrown err) ->
  ArchiveWorker.openIdb env w = (w, Thrown err).
Proof.
  intros Hfailed. unfold ArchiveWorker.openIdb. now rewrite Hdb, Hfailed.
Qed.

Lemma storeOne_failed (chunk : VectorStore.ArchiveChunk)
    (w : ArchiveWorker.Worker Vec Result) (results : list ArchiveWorker.StoreResult)
    (err : string) :
  ArchiveWorker.idbPromise w = Some (Thrown err) ->
  exists w' r,
    ArchiveWorker.storeOne env chunk (w, results) = (w', results ++ [r])
    /\ ArchiveWorker.result_success r = false
    /\ ArchiveWorker.idbPromise w' = Some (Thrown err)
    /\ ArchiveWorker.chunks w' = ArchiveWorker.chunks w
    /\ ArchiveWorker.posted w' = ArchiveWorker.posted w.
Proof.
  intros Hfailed. unfold ArchiveWorker.storeOne.
  pose proof (embed_keeps env (VectorStore.chunk_text chunk) w)
    as [Hposted [Hchunks Hidb]].
  destruct (ArchiveWorker.embed env (VectorStore.chunk_text chunk) w) as [w1 [v|e]];
    cbn [fst] in Hposted, Hchunks, Hidb.
  - unfold ArchiveWorker.storeChunk.
    rewrite (openIdb_failed w1 err) by congruence.
    eexists; eexists. split; [reflexivity|]. cbn. repeat split; congruence.
  - eexists; eexists. split; [reflexivity|]. cbn. repeat split; congruence.
Qed.

Lemma storeLoop_failed (chunks_ : list VectorStore.ArchiveChunk) (err : string) :
  forall (w : ArchiveWorker.Worker Vec Result) (results : list ArchiveWorker.StoreResult),
  ArchiveWorker.idbPromise w = Some (Thrown err) ->
  exists w' added,
    fold_left (fun st chunk => ArchiveWorker.storeOne env chunk st) chunks_ (w, results)
    = (w', results ++ added)
    /\ length added = length chunks_
    /\ Forall (fun r => ArchiveWorker.result_success r = false) added
    /\ ArchiveWorker.idbPromise w' = Some (Thrown err)
    /\ ArchiveWorker.chunks w' = ArchiveWorker.chunks w
    /\ ArchiveWorker.posted w' = ArchiveWorker.posted w.
Proof.
  induction chunks_ as [|chunk rest IH]; intros w results Hfailed.
  - exists w, []. cbn. rewrite app_nil_r. repeat split; [constructor|exact Hfailed].
  - cbn [fold_left].
    destruct (storeOne_failed chunk w results err Hfailed)
      as [w1 [r [Hone [Hr [Hidb [Hchunks Hposted]]]]]].
    rewrite Hone.
    destruct (IH w1 (results ++ [r]) Hidb)
      as [w2 [added [Hloop [Hlen [Hall [Hidb2 [Hchunks2 Hposted2]]]]]]].
    exists w2, (r :: added). rewrite Hloop, <- app_assoc. cbn [app length].
    split; [reflexivity|]. split; [now rewrite Hlen|].
    split; [now constructor|]. repeat split; congruence.
Qed.

Lemma no_successes (results : list ArchiveWorker.StoreResult) :
  Forall (fun r => ArchiveWorker.result_success r = false) results ->
  List.filter ArchiveWorker.result_success results = [].
Proof.
  induction 1 as [|r rest Hr _ IH]; [reflexivity|]. cbn. now rewrite Hr.
Qed.

Lemma onmessage_failed (r : ArchiveWorker.Request)
    (w : ArchiveWorker.Worker Vec Result) (err : string) :
  ArchiveWorker.idbPromise w = Some (Thrown err) ->
  ArchiveWorker.idbPromise (ArchiveWorker.onmessage env r w) = Some (Thrown err)
  /\ ArchiveWorker.chunks (ArchiveWorker.onmessage env r w) = ArchiveWorker.chunks w
  /\ match r with
     | ArchiveWorker.Unknown _ =>
         ArchiveWorker.posted (ArchiveWorker.onmessage env r w) = ArchiveWorker.posted w
     | _ =>
         exists m,
           ArchiveWorker.posted (ArchiveWorker.onmessage env r w)
           = ArchiveWorker.posted w ++ [m]
           /\ ArchiveWorker.refusal err r m
     end.
Proof.
  intros Hfailed.
  destruct r as [|chunks_|query topK| | |type]; cbn [ArchiveWorker.onmessage].
  - unfold ArchiveWorker.init. rewrite (openIdb_failed w err Hfailed).
    cbn. repeat split; [exact Hfailed|]. now eexists.
  - unfold ArchiveWorker.handleStoreChunks.
    destruct (storeLoop_failed chunks_ err w [] Hfailed)
      as [w1 [added [Hloop [Hlen [Hall [Hidb [Hchunks Hposted]]]]]]].
    rewrite Hloop. cbn [app]. rewrite (no_successes added Hall).
    cbn. repeat split; [exact Hidb|exact Hchunks|].
    eexists. split; [now rewrite Hposted|]. exists added. now repeat split.
  - unfold ArchiveWorker.handleSearch.
    pose proof (embed_keeps env query w) as [Hposted [Hchunks Hidb]].
    destruct (ArchiveWorker.embed env query w) as [w1 [v|e]];
      cbn [fst] in Hposted, Hchunks, Hidb.
    + unfold ArchiveWorker.getAllChunks.
      rewrite (openIdb_failed w1 err) by congruence.
      cbn. repeat split; [congruence|congruence|].
      eexists. split; [now rewrite Hposted|]. now exists err.
    + cbn. repeat split; [congruence|congruence|].
      eexists. split; [now rewrite Hposted|]. now exists e.
  - unfold ArchiveWorker.handleGetStats, ArchiveWorker.getAllChunks.
    rewrite (openIdb_failed w err Hfailed).
    cbn. repeat split; [exact Hfailed|]. now eexists.
  - unfold ArchiveWorker.handleClear, ArchiveWorker.clearAllChunks.
    rewrite (openIdb_failed w err Hfailed).
    cbn. repeat split; [exact Hfailed|]. now eexists.
  - now repeat split.
Qed.

End ArchiveFailureFacts.

(** X28.  A failed [indexedDB.open] is never tried again.  Once the
    promise of [openIdb] is rejected, whatever requests follow, the store
    stays as it is and the promise stays rejected.  Every "init",
    "getStats" and "clear" is answered with the error of the open, every
    "search" with an error, and every "storeChunks" with "storeComplete":
    one failed result per chunk and the count 0, so that the call of
    [archiveMessages] is resolved although nothing was archived. *)
Theorem failed_open_is_permanent {Vec Result : Type}
    (env : ArchiveWorker.Env Vec Result) (w : ArchiveWorker.Worker Vec Result)
    (err : string) (requests : list ArchiveWorker.Request)
    (Hdb : ArchiveWorker.hasIndexedDB env = true)
    (Hfailed : ArchiveWorker.idbPromise w = Some (Thrown err)) :
  let w' := fold_left (fun w r => ArchiveWorker.onmessage env r w) requests w in
  ArchiveWorker.chunks w' = ArchiveWorker.chunks w
  /\ ArchiveWorker.idbPromise w' = Some (Thrown err)
  /\ exists replies,
       ArchiveWorker.posted w' = ArchiveWorker.posted w ++ replies
       /\ Forall2 (ArchiveWorker.refusal err)
            (List.filter ArchiveWorker.handled requests) replies.
Proof.
  intros w'. subst w'. revert w Hfailed.
  induction requests as [|r rest IH]; intros w Hfailed.
  - cbn. repeat split; [exact Hfailed|]. exists []. rewrite app_nil_r.
    split; [reflexivity|constructor].
  - cbn [fold_left].
    destruct (onmessage_failed env Hdb r w err Hfailed) as [Hidb [Hchunks Hreply]].
    destruct (IH (ArchiveWorker.onmessage env r w) Hidb)
      as [Hchunks' [Hidb' [replies [Hposted' Hall]]]].
    split; [congruence|]. split; [exact Hidb'|].
    destruct r as [|chunks_|query topK| | |type];
      cbn [List.filter ArchiveWorker.handled].
    1-5: destruct Hreply as [m [Hposted Hm]]; exists (m :: replies);
      (split; [rewrite Hposted', Hposted, <- app_assoc; reflexivity
              |constructor; [exact Hm|exact Hall]]).
    exists replies. split; [now rewrite Hposted', Hreply|exact Hall].
Qed.

Lemma failed_open_is_permanent_witness :
  let w' := fold_left (fun w r => ArchiveWorker.onmessage Samples.archiveEnv r w)
              [ArchiveWorker.StoreChunks Samples.archivedChunks;
               ArchiveWorker.Search "Witam" (Some 10)]
              Samples.brokenArchive in
  ArchiveWorker.chunks w' = ArchiveWorker.chunks Samples.brokenArchive
  /\ ArchiveWorker.idbPromise w' = Some (Thrown "QuotaExceededError")
  /\ exists replies,
       ArchiveWorker.posted w' = ArchiveWorker.posted Samples.brokenArchive ++ replies
       /\ Forall2 (ArchiveWorker.refusal "QuotaExceededError")
            (List.filter ArchiveWorker.handled
               [ArchiveWorker.StoreChunks Samples.archivedChunks;
                ArchiveWorker.Search "Witam" (Some 10)])
            replies.
Proof.
  apply (failed_open_is_permanent Samples.archiveEnv Samples.brokenArchive
           "QuotaExceededError"
           [ArchiveWorker.StoreChunks Samples.archivedChunks;
            ArchiveWorker.Search "Witam" (Some 10)]).
  - reflexivity.
  - reflexivity.
Defined.
